(* ===== verification/_CoqProject ===== *)
-Q . S2P
Prelude.v
Text.v
Wire.v
Samples.v
Json.v
Token.v
Kv.v
Interleave.v
Ledger.v
LedgerFacts.v
SampleCodecs.v
LedgerHistory.v
RevocationStore.v
RevocationSafety.v
RevocationSystem.v
RevocationRun.v
RevocationCache.v
Cache.v
Gate.v
GateSafety.v
GateRun.v
Model.v
Store.v
Keys.v
KeyFacts.v
KeySafety.v
KeySystem.v
KeyRun.v
Helpers.v
Net.v
CeremonyModel.v
ProtectedState.v
ProtectedRun.v
SupabasePolicy.v
Supabase.v
SupabaseFacts.v
SessionSafety.v
SessionTraffic.v
Telemetry.v
SupabaseRun.v
GovernanceConfig.v
Ceremony.v
CeremonySafety.v
CeremonySystem.v
CeremonyProgress.v
CeremonyRun.v
CeremonyRoutes.v
CeremonyRoutesRun.v
Sync.v
AuthServer.v
AuthServerFacts.v
AuthSystem.v
AuthServerRun.v
Signer.v
SignerRun.v
Startup.v
StartupRun.v
ErrorText.v
RevocationAdmin.v
AdminSystem.v
AdminRun.v
ProofModel.v
Verifier.v
VerifierRun.v
Gateway.v
Accounts.v
GatewayRun.v
CeremonyService.v
CeremonyServiceRun.v
Exchange.v
ExchangeRun.v
Revocability.v
RevocabilityRun.v
