(* ===== verification/Prelude.v ===== *)
(** * fiducia-auth: a verification development

    The program is the authentication service of the Fiducia platform
    ([src/src]): it issues short-lived access tokens and API keys, keeps a
    durable, tamper-evident history of revocations in a key-value service, and
    answers whether a token, a key or a dashboard session is good.  Several
    replicas of it run against one key-value service, and its requests are
    asynchronous: they interleave at every service call and can be dropped at
    any of them.

    ** The parts and the files that model them

    - Rust values.  [Prelude.v]: [Result] with [?], saturating and checked
      64-bit arithmetic.  [Text.v]: [str] operations on UTF-8 bytes (trim,
      splitting, character classes, hexadecimal and decimal text).  [Json.v]:
      [serde_json::Value] and the serde interface as a class with its law.
      [Wire.v]: the hash primitives as a class and the length-delimited
      framing every identifier is hashed through.
    - [token.rs] is [Token.v]: claims, revocation records, minting and the
      start-up self-check of the revocation contract.
    - [revocation.rs] is [Ledger.v] (requests and the hash-chained ledger of
      one target) and [RevocationStore.v] (the programs [revoke], [lift] and
      [check] against the key-value service, and the in-memory path).
      [LedgerFacts.v] and [LedgerHistory.v] hold the ledger's theorems,
      [RevocationSafety.v] proves the programs against an abstract rule of the
      writes others may make, [RevocationSystem.v] closes the system under
      every interleaving, [RevocationRun.v] runs it on a concrete service.
    - [revocation_cache.rs] is [RevocationCache.v], [cache.rs] is [Cache.v].
    - [gate.rs] is [Gate.v]: concurrent requests as a step relation over the
      cache and the map of per-key locks; [GateSafety.v] and [GateRun.v].
      [Verifier.v] composes the gate with the revocation store as its
      authority (the trait [RevocationAuthority]) into one system;
      [VerifierRun.v] runs it.
    - [model.rs] is [Model.v]: roles, surfaces, capabilities, API-key records.
    - [store.rs] is [Store.v] (configuration, headers, request bodies and the
      decoding of replies) and [Kv.v] (the service behind it: programs that
      call it, its compare-and-set contract, the rely/guarantee logic, and a
      reference service that satisfies the contract).  [Interleave.v] adds
      what every system on it shares: requests admitted before and after an
      instant of a run, and an executable scheduler for concrete races.
    - [keys.rs] is [Keys.v], with [KeyFacts.v] (parsing, hashing, derived
      secrets), [KeySafety.v], [KeySystem.v] and [KeyRun.v] laid out as above.
    - [governance_ceremony.rs] and its parts: [CeremonyModel.v] (records,
      requests, validators and hashes), [ProtectedState.v] (the encrypted
      envelope of [webauthn.rs]), [GovernanceConfig.v], [Ceremony.v]
      (integrity, transitions, and [begin], [claim], [complete_verified] as
      programs) and [CeremonyRoutes.v] (the handlers).  [CeremonySafety.v] and
      [CeremonySystem.v] prove the store under every interleaving,
      [CeremonyProgress.v] proves that an approval goes through, and
      [ProtectedRun.v], [CeremonyRun.v], [CeremonyRoutesRun.v] run them.  The
      main of [bin/fiducia-governance-ceremony.rs] is in [CeremonyRoutes.v].
    - [supabase_policy.rs] is [SupabasePolicy.v]; [supabase.rs] is
      [Supabase.v], with [SupabaseFacts.v] (registry, routing, identity),
      [SessionSafety.v] (concurrent sessions over the shared key cache),
      [SessionTraffic.v] (what a verification may send), [Telemetry.v] (what
      it counts) and [SupabaseRun.v].
    - [Helpers.v]: the functions several modules keep a copy of (hexadecimal,
      comparison of secrets, clocks), each as its module has it, proved to be
      the one the other files use.
    - [ErrorText.v]: the [Display] implementations of the error types.
    - [Net.v]: headers, responses, URLs, and routers as data.
    - [main.rs] is [AuthServer.v] (configuration, guards, handlers) and
      [Startup.v] ([main] until it serves, and the production entry point);
      [AuthServerFacts.v] proves that every handler over the key store is one
      request of the key service or a refusal, [AuthSystem.v] closes the HTTP
      interface under every interleaving, [AuthServerRun.v] and [StartupRun.v]
      run it.  [sync.rs] is [Sync.v].  The signer of [token.rs] is [Signer.v],
      run in [SignerRun.v].
    - [bin/fiducia-revocation-admin.rs] is [RevocationAdmin.v], with
      [AdminSystem.v] (refinement of the revocation store, every interleaving)
      and [AdminRun.v].
    - The composition.  [Gateway.v] puts any service whose handlers ask for a
      verified session behind the processes of [SessionSafety.v] that verify
      them, one interleaved system; [Accounts.v] is the HTTP service there and
      [CeremonyService.v] the ceremony service, run in [GatewayRun.v] and
      [CeremonyServiceRun.v].  [Exchange.v] joins the key store, the exchange
      and the signer, run in [ExchangeRun.v], and [Revocability.v] that token
      and the revocation store, run in [RevocabilityRun.v].
    - [conformance/independent_proof_model.rs] is [ProofModel.v].

    ** How code corresponds to definitions

    A definition carries the name of the Rust item it translates, with a
    prefix where two items of one module share a name ([record_validate],
    [ledger_validate]).  A function that awaits the key-value service is a
    [prog]: a tree of service calls and of steps on the process's own locked
    state; everything between two awaits is one step, since the code holds its
    mutexes only there.  A method taking [&mut self] returns the state it
    leaves, errors included.  [Result] is [result], [?] is [let?] (pure) or
    [let!?] (programs), and [reject b with e ;;] is an early return.  [u64] is
    [N] with the saturating or checked operation the code uses.

    ** What the theorems show

    What is said of the lives of ledgers, keys and ceremonies, of revoked
    tokens and of stale workers holds from any state of a run on, whatever
    requests are in flight there.

    - Revocation: the history of a target is append-only under every
      interleaving, validated ledgers are tamper evident, acknowledged
      revocations and lifts are durable, retries are idempotent for ever, and
      a check that starts after a revocation took effect, with older requests
      still in flight, refuses the token.
    - Caches and gate: a decision is served only while fresh and only for the
      exact identity it was made for; a superseded or older response never
      installs; the clock never goes back; refreshes are single-flight; and
      nothing but an authoritative answer allows.  In the composed system a
      committed revocation is enforced by every verifier within the freshness
      budget, whatever was cached or in flight.
    - API keys: identity fields never change, versions grow, a revoked key is
      final and refused everywhere, a valid introspection proves a live,
      indexed record with the presented secret's hash, and rotation replaces
      the secret at once.
    - Tokens, authorization, client: exact coverage of revocation records,
      bounds of minted tokens, the authorization matrix, and exact decoding of
      the service's replies.
    - Ceremonies: what a ceremony binds never changes, hand-overs raise its
      fencing token, stale workers are refused, an outcome is recorded once
      and is final; in the composed system a ceremony begins only for a
      participant whose two-factor session an identity project vouched for,
      and moves only under the verifier's secret; an approval binds the very
      request it was asked with; a begin retried at another millisecond
      conflicts with itself.
    - Protected state: a sealed state opens only for the ceremony it was
      sealed for, however its envelope is relabelled, and survives key
      rotation.
    - Sessions: a user is accepted only on the word of the project its token
      is routed to; organizations and roles come from administrator-controlled
      metadata only; a verification asks for keys at most twice, and never
      while the cached set it reads is recent (which a failing endpoint
      escapes); the counters account for every request that is sent.
    - The services end to end: every handler does for a caller exactly the one
      store request it is entitled to, or refuses before the store is touched;
      an organization's keys change only on requests of members whose session
      an identity project vouched for; a key whose revocation was acknowledged
      never buys another token, even with older requests in flight; an
      exchanged token speaks for a live key, its organization and scopes, and
      verifies offline against the published key set; at every moment of its
      life a revocation of it commits and checks say so while that history
      stands, exactly when its organization's id is one the revocation
      contract can name; only the admin secret changes revocations, and every
      mutation is recorded under its actor.
    - Start-up and sync: no service starts in an unsafe configuration, the
      entry point and the server agree on the policy and no session reaches
      the remote endpoint in production, and the organization cache serves the
      last good pull.

    ** Bounds and fuel

    [MAX_CAS_RETRIES] (8) rounds bound each compare-and-set loop as in the
    code, so programs are structurally total; every theorem about answers
    includes the answer "retries exhausted".  Text functions recurse on their
    input.  [drive] of [GateRun.v] takes the number of steps; ten are proved
    enough for an uncontended request. [MAX_CAS_ATTEMPTS] (8) bounds the loops
    of ceremonies in the same way. [search_fuel] of [ProofModel.v] is 16, the
    number of states there are; the search pops eight.

    ** Parameters and assumptions

    SHA-256, HMAC, base64, the ES256 encoder, serde's derived codecs and the
    key-value service are not part of this source.  They are class parameters
    with documented laws (digest lengths, alphabets, round trips, the
    compare-and-set contract); no theorem assumes that a hash is injective,
    and the statements name the collision instead ([sha256_collision]).  Of
    the cipher of the protected state they assume its round trip and that what
    decrypts re-encrypts to the same ciphertext ([AeadTidy], RFC 8439); that a
    ciphertext is authentic under one key, nonce and associated data only is
    not assumed but named ([aead_collision]).  The laws are shown satisfiable
    by concrete instances ([Samples.v], [SampleCodecs.v], [Kv.mapkv]), at
    which every theorem with hypotheses is evaluated by its witness.

    ** Not modelled

    Sockets and HTTP framing (reqwest, axum), the matching of paths against
    the route tables, the enforcement of body and time limits, the browser's
    side of CORS, key parsing and signatures (jsonwebtoken, p256), the
    operating system's clock and randomness (values the definitions take as
    arguments), [exec], tracing, the error texts thiserror derives, and
    derived serializers.  In the gate, a request that is dropped gives up its
    guard and its clone of the lock in one step.
*)
From Stdlib Require Import Ascii String.
From stdpp Require Export base list gmap strings numbers option.

#[global] Set Default Goal Selector "!".
#[global] Open Scope N_scope.

(** ** Results: Rust's [Result<T, E>], early return by [?] *)

Inductive result (E A : Type) : Type :=
  | Ok (a : A)
  | Err (e : E).
Arguments Ok {E A} a.
Arguments Err {E A} e.

Definition rbind {E A B} (r : result E A) (k : A -> result E B) : result E B :=
  match r with
  | Ok a => k a
  | Err e => Err e
  end.

(** [Result::map_err], used for every [?] that converts the error. *)
Definition map_err {E F A} (f : E -> F) (r : result E A) : result F A :=
  match r with
  | Ok a => Ok a
  | Err e => Err (f e)
  end.

Definition is_ok {E A} (r : result E A) : bool :=
  match r with
  | Ok _ => true
  | Err _ => false
  end.

(** [Option::ok_or]. *)
Definition ok_or {E A} (o : option A) (e : E) : result E A :=
  match o with
  | Some a => Ok a
  | None => Err e
  end.

Declare Scope fiducia_scope.
Delimit Scope fiducia_scope with fiducia.
#[global] Open Scope fiducia_scope.

(** [let? x := e in k] is [let x = e?; k]; [reject b with e ;; k] is
    [if b { return Err(e); } k]. *)
Notation "'let?' x ':=' e 'in' k" := (rbind e (fun x => k))
  (at level 10, x pattern, e at level 100, k at level 200,
   format "'[v' 'let?'  x  ':='  e  'in' '/' k ']'") : fiducia_scope.
Notation "'reject' b 'with' e ';;' k" := (if b : bool then Err e else k)
  (at level 10, b at level 99, e at level 99, k at level 200,
   format "'[v' 'reject'  b  'with'  e  ';;' '/' k ']'") : fiducia_scope.

(** ** Machine integers

    A [u64], [u16] or [usize] is an [N]; the operations that could leave the
    range are written out the way the code calls them. *)

Definition u64_max : N := 18446744073709551615.
Definition saturating_add (a b : N) : N := N.min (a + b) u64_max.
Definition checked_add (a b : N) : option N :=
  if u64_max <? a + b then None else Some (a + b).
Definition checked_sub (a b : N) : option N := if a <? b then None else Some (a - b).
Definition saturating_sub (a b : N) : N := a - b.

(** ** Decidable equality on the types of the standard library used here *)

#[export] Instance ascii_eq_dec_instance : EqDecision ascii := Ascii.ascii_dec.

(** ** Automation *)

(** Turn boolean tests in the context into propositions. *)
Ltac reflect_bools :=
  repeat match goal with
  | H : (_ && _)%bool = true |- _ => apply andb_true_iff in H; destruct H
  | H : (_ || _)%bool = false |- _ => apply orb_false_iff in H; destruct H
  | H : negb _ = true |- _ => apply negb_true_iff in H
  | H : negb _ = false |- _ => apply negb_false_iff in H
  | H : (_ <? _) = true |- _ => apply N.ltb_lt in H
  | H : (_ <? _) = false |- _ => apply N.ltb_ge in H
  | H : (_ <=? _) = true |- _ => apply N.leb_le in H
  | H : (_ <=? _) = false |- _ => apply N.leb_gt in H
  | H : (_ =? _) = true |- _ => apply N.eqb_eq in H
  | H : (_ =? _) = false |- _ => apply N.eqb_neq in H
  | H : (_ =? _)%nat = true |- _ => apply Nat.eqb_eq in H
  | H : (_ =? _)%nat = false |- _ => apply Nat.eqb_neq in H
  | H : (_ <? _)%nat = true |- _ => apply Nat.ltb_lt in H
  | H : (_ <? _)%nat = false |- _ => apply Nat.ltb_ge in H
  | H : (_ <=? _)%nat = true |- _ => apply Nat.leb_le in H
  | H : (_ <=? _)%nat = false |- _ => apply Nat.leb_gt in H
  | H : (_ =? _)%string = true |- _ => apply String.eqb_eq in H
  | H : (_ =? _)%string = false |- _ => apply String.eqb_neq in H
  | H : bool_decide _ = true |- _ => apply bool_decide_eq_true in H
  | H : bool_decide _ = false |- _ => apply bool_decide_eq_false in H
  end.

(** Case on the conditions and results a hypothesis or the goal is stuck on. *)
Ltac step_in H :=
  match type of H with
  | context [if ?b then _ else _] => destruct b eqn:?
  | context [match ?x with _ => _ end] => destruct x eqn:?
  end; simplify_eq H.
Ltac run_hyp H :=
  repeat (progress (cbn [rbind map_err ok_or is_ok] in H) || step_in H);
  simplify_eq; try done.

(** Discharge closed side conditions by evaluating them. *)
Ltac by_compute :=
  repeat match goal with |- _ /\ _ => split end;
  first [ apply (bool_decide_unpack _); vm_compute; exact I
        | vm_compute; reflexivity
        | vm_compute; discriminate
        | eexists; vm_compute; reflexivity ].

(** ** Facts on results *)

Section results.
Context {E F A B : Type}.

Lemma rbind_ok (r : result E A) (k : A -> result E B) b :
  rbind r k = Ok b <-> exists a, r = Ok a /\ k a = Ok b.
Proof. destruct r; naive_solver. Qed.

Lemma rbind_err (r : result E A) (k : A -> result E B) e :
  rbind r k = Err e <-> r = Err e \/ exists a, r = Ok a /\ k a = Err e.
Proof. destruct r; naive_solver. Qed.

Lemma map_err_ok (f : E -> F) (r : result E A) a : map_err f r = Ok a <-> r = Ok a.
Proof. destruct r; naive_solver. Qed.

Lemma ok_or_ok (o : option A) (e : E) a : ok_or o e = Ok a <-> o = Some a.
Proof. destruct o; naive_solver. Qed.

Lemma reject_ok (b : bool) (e : E) (k : result E A) a :
  (reject b with e ;; k) = Ok a <-> b = false /\ k = Ok a.
Proof. destruct b; naive_solver. Qed.

Lemma reject_err (b : bool) (e e' : E) (k : result E A) :
  (reject b with e ;; k) = Err e' <-> (b = true /\ e = e') \/ (b = false /\ k = Err e').
Proof. destruct b; naive_solver. Qed.

Lemma is_ok_true (r : result E A) : is_ok r = true <-> exists a, r = Ok a.
Proof. destruct r; naive_solver. Qed.
End results.

Create Rewrite HintDb results.
#[export] Hint Rewrite @rbind_ok @map_err_ok @ok_or_ok @reject_ok : results.

(** Take a successful early-return chain apart. *)
Ltac inv_ok :=
  repeat match goal with
  | H : _ /\ _ |- _ => destruct H
  | H : exists _, _ |- _ => destruct H
  | H : (if _ then Err _ else _) = Ok _ |- _ => apply reject_ok in H
  | H : rbind _ _ = Ok _ |- _ => apply rbind_ok in H
  | H : map_err _ _ = Ok _ |- _ => apply map_err_ok in H
  | H : ok_or _ _ = Ok _ |- _ => apply ok_or_ok in H
  | H : is_ok _ = true |- _ => apply is_ok_true in H
  | H : Ok _ = Ok _ |- _ => injection H as H
  | H : Err _ = Ok _ |- _ => discriminate H
  | H : @eq unit _ _ |- _ => clear H
  end; reflect_bools; subst.

(** ** Facts on machine integers *)

Lemma checked_add_some a b c :
  checked_add a b = Some c <-> c = a + b /\ a + b <= u64_max.
Proof. unfold checked_add. case_match; reflect_bools; naive_solver lia. Qed.

Lemma saturating_add_bounds a b :
  saturating_add a b <= u64_max /\ saturating_add a b <= a + b.
Proof. unfold saturating_add. lia. Qed.
