(* ===== verification/Text.v ===== *)
(** * Rust strings

    [String], [&str] and byte slices, with the standard-library operations the
    program calls on them, and the facts about those operations the components
    share. *)
From Stdlib Require Import Ascii String.
From S2P Require Import Prelude.

#[global] Arguments String.append : simpl nomatch.

(** ** Rust strings

    A [String] or [&str] is the [string] of its UTF-8 bytes, so that [len()]
    is the byte length and [as_bytes()] the identity.  The character
    predicates read the encoding: on valid UTF-8, which [str] guarantees, the
    encoding of a character occurs only at a character boundary, so scanning
    every byte position finds exactly the characters of the string. *)

Definition str_len (s : string) : N := N.of_nat (String.length s).
Definition str_is_empty (s : string) : bool :=
  match s with
  | EmptyString => true
  | String _ _ => false
  end.

(** [char::is_whitespace] (the Unicode property White_Space), by length of
    the UTF-8 encoding. *)
Definition ws1 (x : N) : bool := ((9 <=? x) && (x <=? 13)) || (x =? 32).
Definition ws2 (x y : N) : bool := (x =? 0xC2) && ((y =? 0x85) || (y =? 0xA0)).
Definition ws3 (x y z : N) : bool :=
  ((x =? 0xE1) && (y =? 0x9A) && (z =? 0x80))
  || ((x =? 0xE2) && (y =? 0x80)
      && (((0x80 <=? z) && (z <=? 0x8A)) || (z =? 0xA8) || (z =? 0xA9) || (z =? 0xAF)))
  || ((x =? 0xE2) && (y =? 0x81) && (z =? 0x9F))
  || ((x =? 0xE3) && (y =? 0x80) && (z =? 0x80)).

(** The number of bytes of the whitespace character a byte sequence begins
    with; 0 when it begins with none. *)
Definition ws_front (l : list ascii) : nat :=
  match l with
  | x :: r =>
      if ws1 (N_of_ascii x) then 1
      else match r with
           | y :: r2 =>
               if ws2 (N_of_ascii x) (N_of_ascii y) then 2
               else match r2 with
                    | z :: _ =>
                        if ws3 (N_of_ascii x) (N_of_ascii y) (N_of_ascii z) then 3 else 0
                    | [] => 0
                    end
           | [] => 0
           end
  | [] => 0
  end%nat.

(** The same for the character a sequence ends with; the sequence is given
    reversed. *)
Definition ws_back (l : list ascii) : nat :=
  match l with
  | x :: r =>
      if ws1 (N_of_ascii x) then 1
      else match r with
           | y :: r2 =>
               if ws2 (N_of_ascii y) (N_of_ascii x) then 2
               else match r2 with
                    | z :: _ =>
                        if ws3 (N_of_ascii z) (N_of_ascii y) (N_of_ascii x) then 3 else 0
                    | [] => 0
                    end
           | [] => 0
           end
  | [] => 0
  end%nat.

(** Drop characters found by [w] for as long as there are any; the fuel is
    the length, since every round drops at least one byte. *)
Fixpoint strip (w : list ascii -> nat) (fuel : nat) (l : list ascii) : list ascii :=
  match fuel with
  | O => l
  | S fuel' =>
      match w l with
      | O => l
      | n => strip w fuel' (drop n l)
      end
  end.

Definition trim_start (l : list ascii) : list ascii := strip ws_front (length l) l.
Definition trim_end (l : list ascii) : list ascii := rev (strip ws_back (length l) (rev l)).

(** [str::trim]. *)
Definition trim (s : string) : string :=
  String.string_of_list_ascii (trim_end (trim_start (String.list_ascii_of_string s))).

Fixpoint any_suffix (p : list ascii -> bool) (l : list ascii) : bool :=
  match l with
  | [] => false
  | _ :: r => p l || any_suffix p r
  end.

(** [char::is_control] (the Unicode category Cc). *)
Definition control_front (l : list ascii) : bool :=
  match l with
  | x :: r =>
      (N_of_ascii x <? 0x20) || (N_of_ascii x =? 0x7F)
      || match r with
         | y :: _ => (N_of_ascii x =? 0xC2) && (0x80 <=? N_of_ascii y) && (N_of_ascii y <=? 0x9F)
         | [] => false
         end
  | [] => false
  end.

(** [s.chars().any(char::is_whitespace)] and [s.chars().any(char::is_control)]. *)
Definition any_whitespace (s : string) : bool :=
  any_suffix (fun l => negb (Nat.eqb (ws_front l) 0)) (String.list_ascii_of_string s).
Definition any_control (s : string) : bool :=
  any_suffix control_front (String.list_ascii_of_string s).

(** [s.strip_prefix(p)]. *)
Fixpoint strip_prefix (p s : string) : option string :=
  match p, s with
  | EmptyString, _ => Some s
  | String a p', String b s' => if Ascii.eqb a b then strip_prefix p' s' else None
  | String _ _, EmptyString => None
  end.
Definition starts_with (s p : string) : bool :=
  match strip_prefix p s with
  | Some _ => true
  | None => false
  end.

(** [s.split_once(c)] for a one-byte separator. *)
Fixpoint split_once (c : ascii) (s : string) : option (string * string) :=
  match s with
  | EmptyString => None
  | String a r =>
      if Ascii.eqb a c then Some (EmptyString, r)
      else match split_once c r with
           | Some (x, y) => Some (String a x, y)
           | None => None
           end
  end.

(** [s.split(c)] for a one-byte separator. *)
Fixpoint split_on (c : ascii) (s : string) : list string :=
  match s with
  | EmptyString => [EmptyString]
  | String a r =>
      if Ascii.eqb a c then EmptyString :: split_on c r
      else match split_on c r with
           | part :: rest => String a part :: rest
           | [] => [String a EmptyString]
           end
  end.

(** [s.ends_with(p)]. *)
Fixpoint ends_with (s p : string) : bool :=
  (s =? p)%string
  || match s with
     | EmptyString => false
     | String _ r => ends_with r p
     end.

(** [s.bytes().all(p)]. *)
Fixpoint all_bytes (p : N -> bool) (s : string) : bool :=
  match s with
  | EmptyString => true
  | String a r => p (N_of_ascii a) && all_bytes p r
  end.

(** [b.is_ascii_digit() || (b'a'..=b'f').contains(&b)], the same set as
    [b.is_ascii_hexdigit() && !b.is_ascii_uppercase()]. *)
Definition lower_hex_byte (b : N) : bool :=
  ((48 <=? b) && (b <=? 57)) || ((97 <=? b) && (b <=? 102)).
Definition ascii_hexdigit (b : N) : bool :=
  lower_hex_byte b || ((65 <=? b) && (b <=? 70)).

(** [str::to_ascii_lowercase]. *)
Definition ascii_lower (a : ascii) : ascii :=
  let n := N_of_ascii a in
  if (65 <=? n) && (n <=? 90) then ascii_of_N (n + 32) else a.
Fixpoint to_ascii_lowercase (s : string) : string :=
  match s with
  | EmptyString => EmptyString
  | String a r => String (ascii_lower a) (to_ascii_lowercase r)
  end.

(** [n.to_be_bytes()] of a [u64]: [be_bytes 8 n]. *)
Fixpoint be_bytes (w : nat) (n : N) : string :=
  match w with
  | O => EmptyString
  | S w' => String (ascii_of_N ((n / 256 ^ N.of_nat w') mod 256)) (be_bytes w' n)
  end.

(** A lower-case hexadecimal rendering, two digits a byte. *)
Definition hex_digit (n : N) : ascii :=
  if n <? 10 then ascii_of_N (48 + n) else ascii_of_N (87 + n).
Fixpoint hex_lower (s : string) : string :=
  match s with
  | EmptyString => EmptyString
  | String a r =>
      let b := N_of_ascii a in
      String (hex_digit (b / 16)) (String (hex_digit (b mod 16)) (hex_lower r))
  end.

(** The decimal rendering of an integer ([u64::to_string], [format!("{}")]). *)
Fixpoint decimal_go (fuel : nat) (n : N) (acc : string) : string :=
  match fuel with
  | O => acc
  | S fuel' =>
      let acc' := String (ascii_of_N (48 + n mod 10)) acc in
      if n / 10 =? 0 then acc' else decimal_go fuel' (n / 10) acc'
  end.
Definition decimal (n : N) : string := decimal_go (S (N.to_nat (N.log2 n))) n EmptyString.

(** ** Facts on [trim] *)

Lemma strip_stop w n l : w l = 0%nat -> strip w n l = l.
Proof. destruct n; cbn; [done|]. by intros ->. Qed.

(** A scanner that never claims more bytes than there are empties its input
    of matches within [length l] rounds. *)
Lemma strip_done w n l :
  (forall l, (w l <= length l)%nat) -> (length l <= n)%nat -> w (strip w n l) = 0%nat.
Proof.
  intros Hw. revert l. induction n as [|n IH]; intros l Hn; cbn.
  - destruct l; [|cbn in Hn; lia]. specialize (Hw []). cbn in Hw. lia.
  - destruct (w l) as [|k] eqn:E; [done|]. apply IH.
    rewrite length_drop. lia.
Qed.

(** What [strip] returns is a suffix of what it is given. *)
Lemma strip_suffix w n l : strip w n l `suffix_of` l.
Proof.
  revert l. induction n as [|n IH]; intros l; cbn; [done|].
  destruct (w l) as [|k]; [done|].
  etrans; [apply IH|]. apply suffix_drop.
Qed.

Lemma ws_front_le l : (ws_front l <= length l)%nat.
Proof. unfold ws_front. repeat case_match; cbn; lia. Qed.
Lemma ws_back_le l : (ws_back l <= length l)%nat.
Proof. unfold ws_back. repeat case_match; cbn; lia. Qed.

(** The leading character does not depend on what follows it. *)
Lemma ws_front_app l k : ws_front l <> 0%nat -> ws_front (l ++ k) = ws_front l.
Proof.
  destruct l as [|a [|b [|c l]]]; cbn; try done; repeat case_match; congruence.
Qed.

Lemma trim_end_prefix l : trim_end l `prefix_of` l.
Proof.
  unfold trim_end. destruct (strip_suffix ws_back (length l) (rev l)) as [k Hk].
  exists (rev k). by rewrite <- rev_app_distr, <- Hk, rev_involutive.
Qed.

Lemma trim_start_front l : ws_front (trim_start l) = 0%nat.
Proof. apply strip_done; [apply ws_front_le | lia]. Qed.

Lemma trim_end_back l : ws_back (rev (trim_end l)) = 0%nat.
Proof.
  unfold trim_end. rewrite rev_involutive.
  apply strip_done; [apply ws_back_le|]. rewrite length_rev. lia.
Qed.

Lemma trim_end_keeps_front l : ws_front l = 0%nat -> ws_front (trim_end l) = 0%nat.
Proof.
  intros H. destruct (trim_end_prefix l) as [k Hk].
  destruct (ws_front (trim_end l)) eqn:E; [done|].
  rewrite Hk, ws_front_app in H; congruence.
Qed.

Lemma trim_start_id l : ws_front l = 0%nat -> trim_start l = l.
Proof. apply strip_stop. Qed.

Lemma trim_end_id l : ws_back (rev l) = 0%nat -> trim_end l = l.
Proof. intros H. unfold trim_end. rewrite strip_stop by done. apply rev_involutive. Qed.

(** Trimming twice is trimming once. *)
Lemma trim_idem s : trim (trim s) = trim s.
Proof.
  unfold trim. rewrite String.list_ascii_of_string_of_list_ascii. f_equal.
  rewrite trim_start_id by apply trim_end_keeps_front, trim_start_front.
  apply trim_end_id, trim_end_back.
Qed.

Lemma any_suffix_false_app p k l : any_suffix p (k ++ l) = false -> any_suffix p l = false.
Proof. induction k; cbn; [done|]. intros H. reflect_bools. auto. Qed.

Lemma any_suffix_false p k l : any_suffix p (k ++ l) = false -> l <> [] -> p l = false.
Proof.
  intros H. apply any_suffix_false_app in H. destruct l; [done|]. cbn in H.
  by reflect_bools.
Qed.

Lemma ws_back_front l : ws_back (rev l) <> 0%nat -> exists k r, l = k ++ r /\ ws_front r <> 0%nat.
Proof.
  intros H. rewrite <- (rev_involutive l). revert H. generalize (rev l). clear l.
  intros l H.
  assert (exists n, ws_front (rev (take n l)) <> 0%nat) as [n Hn].
  { destruct l as [|a [|b [|c l]]]; cbn in H; try done.
    - exists 1%nat. cbn. repeat case_match; congruence.
    - destruct (ws1 (N_of_ascii a)) eqn:?; [exists 1%nat | exists 2%nat];
        cbn; rewrite ?take_0; cbn; repeat case_match; congruence.
    - destruct (ws1 (N_of_ascii a)) eqn:?; [exists 1%nat; cbn; repeat case_match; congruence|].
      destruct (ws2 (N_of_ascii b) (N_of_ascii a)) eqn:?; [exists 2%nat | exists 3%nat];
        cbn; rewrite ?take_0; cbn; repeat case_match; congruence. }
  exists (rev (drop n l)), (rev (take n l)).
  by rewrite <- rev_app_distr, take_drop.
Qed.

(** A string without white space is its own trimming. *)
Lemma trim_id s : any_whitespace s = false -> trim s = s.
Proof.
  unfold any_whitespace, trim. intros H.
  set (l := String.list_ascii_of_string s) in *.
  assert (Hf : ws_front l = 0%nat).
  { destruct l eqn:E; [done|].
    apply (any_suffix_false _ []) in H; [|done]. by reflect_bools. }
  rewrite trim_start_id by done. rewrite trim_end_id.
  - apply String.string_of_list_ascii_of_string.
  - destruct (decide (ws_back (rev l) = 0%nat)) as [|Hb]; [done|].
    destruct (ws_back_front _ Hb) as (k & r & Hl & Hr). rewrite Hl in H.
    apply any_suffix_false in H; [by reflect_bools|]. by intros ->.
Qed.

(** ** Facts on prefixes and separators *)

Lemma strip_prefix_app p s r : strip_prefix p s = Some r <-> s = p +:+ r.
Proof.
  revert s. induction p as [|a p IH]; intros s; cbn; [split; congruence|].
  destruct s as [|b s]; [done|].
  destruct (Ascii.eqb_spec a b) as [->|]; [|split; congruence].
  rewrite IH. split; congruence.
Qed.

Fixpoint str_mem (c : ascii) (s : string) : bool :=
  match s with
  | EmptyString => false
  | String a r => Ascii.eqb a c || str_mem c r
  end.

Lemma split_once_app c x y :
  str_mem c x = false -> split_once c (x +:+ String c y) = Some (x, y).
Proof.
  induction x as [|a x IH]; cbn.
  - by rewrite Ascii.eqb_refl.
  - intros H. reflect_bools. by rewrite H, IH.
Qed.

Lemma split_once_some c s x y :
  split_once c s = Some (x, y) <-> s = x +:+ String c y /\ str_mem c x = false.
Proof.
  split; [|intros [-> ?]; by apply split_once_app].
  revert x. induction s as [|a s IH]; cbn; intros x H; [done|].
  destruct (Ascii.eqb_spec a c) as [->|Hne]; [by simplify_eq|].
  destruct (split_once c s) as [[x' y']|] eqn:E; [|done]. injection H as <- ->.
  destruct (IH x' eq_refl) as [-> Hm]. cbn. split; [done|].
  rewrite Hm. by destruct (Ascii.eqb_spec a c).
Qed.

Lemma all_bytes_app p s t : all_bytes p (s +:+ t) = all_bytes p s && all_bytes p t.
Proof. induction s; cbn; [done|]. by rewrite IHs, andb_assoc. Qed.

(** A byte the predicate excludes does not occur. *)
Lemma all_bytes_mem p c s : p (N_of_ascii c) = false -> all_bytes p s = true -> str_mem c s = false.
Proof.
  intros Hc. induction s as [|a s IH]; cbn; [done|]. intros H. reflect_bools.
  rewrite IH by done. destruct (Ascii.eqb_spec a c) as [->|]; [congruence|done].
Qed.

Lemma str_app_length s t : String.length (s +:+ t) = (String.length s + String.length t)%nat.
Proof. induction s; cbn; [done|]. by f_equal. Qed.

Lemma str_app_inj_l s t1 t2 : s +:+ t1 = s +:+ t2 -> t1 = t2.
Proof. induction s; cbn; [done|]. intros [=]. auto. Qed.

(** Strings of equal length split a concatenation in the same place. *)
Lemma str_app_inj s1 s2 t1 t2 :
  String.length s1 = String.length s2 -> s1 +:+ t1 = s2 +:+ t2 -> s1 = s2 /\ t1 = t2.
Proof.
  revert s2. induction s1 as [|a s1 IH]; intros [|b s2]; cbn; try done.
  intros [= Hl] [= -> Ht]. by destruct (IH s2 Hl Ht) as [-> ->].
Qed.

Lemma str_app_assoc s t u : (s +:+ t) +:+ u = s +:+ t +:+ u.
Proof. induction s; cbn; [done|]. by f_equal. Qed.

(** ** Facts on bytes and renderings *)

Lemma N_of_ascii_lt a : N_of_ascii a < 256.
Proof. apply N_ascii_bounded. Qed.

Lemma N_of_ascii_inj a b : N_of_ascii a = N_of_ascii b -> a = b.
Proof. intros H. by rewrite <- (ascii_N_embedding a), <- (ascii_N_embedding b), H. Qed.

Lemma be_bytes_length w n : String.length (be_bytes w n) = w.
Proof. induction w; cbn; [done|]. by f_equal. Qed.

Lemma be_bytes_inj w n m :
  n < 256 ^ N.of_nat w -> m < 256 ^ N.of_nat w -> be_bytes w n = be_bytes w m -> n = m.
Proof.
  assert (G : forall w n m, be_bytes w n = be_bytes w m ->
                            n mod 256 ^ N.of_nat w = m mod 256 ^ N.of_nat w).
  { clear. induction w as [|w IH]; intros n m.
    - intros _. by rewrite !N.mod_1_r.
    - cbn [be_bytes]. intros [= Hh Ht]. apply IH in Ht.
      apply (f_equal N_of_ascii) in Hh.
      rewrite !N_ascii_embedding in Hh by (apply N.mod_lt; lia).
      rewrite Nat2N.inj_succ, N.pow_succ_r', N.mul_comm.
      assert (256 ^ N.of_nat w <> 0) by (apply N.pow_nonzero; lia).
      rewrite !(N.Div0.mod_mul_r _ (256 ^ N.of_nat w) 256). congruence. }
  intros Hn Hm H. apply G in H. by rewrite !N.mod_small in H.
Qed.

Lemma hex_digit_lower n : n < 16 -> lower_hex_byte (N_of_ascii (hex_digit n)) = true.
Proof.
  intros H. unfold hex_digit, lower_hex_byte. case_match; reflect_bools;
    rewrite N_ascii_embedding by lia; apply orb_true_iff; [left|right];
    apply andb_true_iff; rewrite !N.leb_le; lia.
Qed.

Lemma hex_digit_inj n m : n < 16 -> m < 16 -> hex_digit n = hex_digit m -> n = m.
Proof.
  intros Hn Hm H. apply (f_equal N_of_ascii) in H. revert H. unfold hex_digit.
  repeat case_match; reflect_bools; rewrite !N_ascii_embedding by lia; lia.
Qed.

Lemma hex_lower_length s : String.length (hex_lower s) = (2 * String.length s)%nat.
Proof. induction s as [|a s IH]; cbn; [done|]. rewrite IH. lia. Qed.

Lemma nibbles a : N_of_ascii a / 16 < 16 /\ N_of_ascii a mod 16 < 16.
Proof.
  pose proof (N_of_ascii_lt a).
  split; [apply N.Div0.div_lt_upper_bound | apply N.mod_lt]; lia.
Qed.

Lemma hex_lower_all s : all_bytes lower_hex_byte (hex_lower s) = true.
Proof.
  induction s as [|a s IH]; cbn; [done|]. destruct (nibbles a).
  by rewrite !hex_digit_lower, IH.
Qed.

Lemma hex_lower_inj s t : hex_lower s = hex_lower t -> s = t.
Proof.
  revert t. induction s as [|a s IH]; intros [|b t]; cbn; try done.
  intros [= H1 H2 H3]. destruct (nibbles a), (nibbles b).
  apply hex_digit_inj in H1, H2; try done. f_equal; [|by apply IH].
  apply N_of_ascii_inj.
  rewrite (N.Div0.div_mod (N_of_ascii a) 16), (N.Div0.div_mod (N_of_ascii b) 16). congruence.
Qed.

#[export] Hint Resolve trim_idem hex_lower_all trim_id : core.

(** ** Printable ASCII text *)

Definition printable (b : N) : bool := (0x20 <? b) && (b <? 0x7F).

Lemma all_bytes_impl (p q : N -> bool) s :
  (forall b, p b = true -> q b = true) -> all_bytes p s = true -> all_bytes q s = true.
Proof.
  intros Hpq. induction s as [|a s IH]; cbn; [done|]. intros H. reflect_bools.
  by rewrite Hpq, IH.
Qed.

Lemma printable_front a l :
  printable (N_of_ascii a) = true -> ws_front (a :: l) = 0%nat /\ control_front (a :: l) = false.
Proof.
  unfold printable. intros H. reflect_bools. cbn.
  assert (H1 : ws1 (N_of_ascii a) = false).
  { unfold ws1. apply orb_false_iff.
    rewrite andb_false_iff, !N.leb_gt, N.eqb_neq. lia. }
  assert (H2 : forall n, 0x7F < n -> (N_of_ascii a =? n) = false).
  { intros n Hn. apply N.eqb_neq. lia. }
  rewrite H1. unfold ws2, ws3. rewrite !H2 by lia. cbn. split.
  - by destruct l as [|? [|]].
  - apply orb_false_iff. split; [|by destruct l].
    rewrite orb_false_iff, N.ltb_ge, N.eqb_neq. lia.
Qed.

(** Printable ASCII text passes the character tests and is not trimmed. *)
Lemma printable_clean s :
  all_bytes printable s = true ->
  any_whitespace s = false /\ any_control s = false /\ trim s = s.
Proof.
  intros H. assert (any_whitespace s = false /\ any_control s = false) as [Hw Hc].
  { revert H. unfold any_whitespace, any_control.
    induction s as [|a s IH]; cbn [String.list_ascii_of_string any_suffix all_bytes]; [done|].
    intros H. reflect_bools. destruct IH as [-> ->]; [done|].
    destruct (printable_front a (String.list_ascii_of_string s)) as [-> ->]; done. }
  auto using trim_id.
Qed.

Lemma lower_hex_printable b : lower_hex_byte b = true -> printable b = true.
Proof.
  unfold lower_hex_byte, printable. intros H.
  rewrite orb_true_iff, !andb_true_iff, !N.leb_le in H.
  rewrite andb_true_iff, !N.ltb_lt. lia.
Qed.

Lemma str_is_empty_length s : str_is_empty s = (String.length s =? 0)%nat.
Proof. by destruct s. Qed.

(** ** Integers in decimal *)

Fixpoint parse_digits (acc : N) (s : string) : option N :=
  match s with
  | EmptyString => Some acc
  | String a r =>
      let b := N_of_ascii a in
      if (48 <=? b) && (b <=? 57) then parse_digits (acc * 10 + (b - 48)) r else None
  end.

(** [s.parse::<u64>()] and the other unsigned widths, by their maximum. *)
Definition parse_unsigned (maximum : N) (s : string) : option N :=
  let digits := match s with
                | String a r => if Ascii.eqb a "+" then r else s
                | EmptyString => s
                end in
  if str_is_empty digits then None
  else match parse_digits 0 digits with
       | Some n => if maximum <? n then None else Some n
       | None => None
       end.

Lemma parse_unsigned_bound maximum s n : parse_unsigned maximum s = Some n -> n <= maximum.
Proof.
  unfold parse_unsigned. destruct (str_is_empty _); [done|].
  destruct (parse_digits 0 _) as [k|]; [|done].
  destruct (N.ltb_spec maximum k); [done|]. by intros [= <-].
Qed.
Lemma parse_digits_go fuel n acc :
  n < 10 ^ N.of_nat fuel -> parse_digits 0 (decimal_go fuel n acc) = parse_digits n acc.
Proof.
  revert n acc. induction fuel as [|fuel IH]; intros n acc Hn.
  - cbn in Hn. by replace n with 0 by lia.
  - cbn [decimal_go]. rewrite Nat2N.inj_succ, N.pow_succ_r' in Hn.
    pose proof (N.mod_lt n 10 ltac:(lia)). pose proof (N.div_mod n 10 ltac:(lia)) as Hdm.
    assert (Hd : forall m, m = n / 10 ->
              parse_digits m (String (ascii_of_N (48 + n mod 10)) acc) = parse_digits n acc).
    { intros m ->. cbn [parse_digits]. rewrite N_ascii_embedding by lia.
      rewrite (proj2 (N.leb_le 48 _)) by apply N.le_add_r.
      rewrite (proj2 (N.leb_le _ 57)) by lia. cbn [andb].
      by rewrite (N.add_comm 48), N.add_sub, N.mul_comm, <- Hdm. }
    destruct (N.eqb_spec (n / 10) 0) as [E|E]; [by apply Hd|].
    rewrite IH; [by apply Hd|]. apply N.Div0.div_lt_upper_bound. lia.
Qed.

Lemma parse_decimal n : parse_digits 0 (decimal n) = Some n.
Proof.
  unfold decimal. rewrite parse_digits_go; [done|].
  rewrite Nat2N.inj_succ, N2Nat.id. destruct (N.eq_dec n 0) as [->|Hn]; [cbn; lia|].
  pose proof (N.log2_spec n ltac:(lia)) as [_ Hlt].
  eapply N.lt_le_trans; [exact Hlt|]. apply N.pow_le_mono_l. lia.
Qed.

Lemma decimal_inj n m : decimal n = decimal m -> n = m.
Proof. intros H. apply (f_equal (parse_digits 0)) in H. rewrite !parse_decimal in H. congruence. Qed.

#[global] Arguments be_bytes : simpl never.
#[global] Arguments decimal : simpl never.
