(* ===== verification/Wire.v ===== *)
(** * Hash inputs

    The primitives the program takes from the [sha2], [hmac] and [base64]
    crates, as parameters, and the length-delimited framing that
    [src/src/revocation.rs], [src/src/token.rs], [src/src/gate.rs] and
    [src/src/governance_ceremony/routes.inc.rs] feed to SHA-256.  Facts about
    identifiers derived by hashing are stated without assuming that SHA-256
    is injective: equal digests give equal inputs or exhibit a collision. *)
From Stdlib Require Import Ascii String.
From S2P Require Import Prelude Text.

(** The primitives, on byte strings. *)
Class Crypto := {
  sha256 : string -> string;
  hmac_sha256 : string -> string -> string;
  b64url_encode : string -> string;
  b64url_decode : string -> option string
}.

(** Their documented output sizes, and the documented alphabet and inverse
    of the unpadded URL-safe base64 engine. *)
Definition b64url_byte (b : N) : bool :=
  ((48 <=? b) && (b <=? 57)) || ((65 <=? b) && (b <=? 90)) || ((97 <=? b) && (b <=? 122))
  || (b =? 45) || (b =? 95).
Class CryptoLaws `{Crypto} : Prop := {
  sha256_length s : String.length (sha256 s) = 32%nat;
  hmac_sha256_length k s : String.length (hmac_sha256 k s) = 32%nat;
  b64url_alphabet s : all_bytes b64url_byte (b64url_encode s) = true;
  b64url_length s :
    (String.length s <= String.length (b64url_encode s) <= 2 * String.length s)%nat;
  b64url_roundtrip s : b64url_decode (b64url_encode s) = Some s
}.

Lemma b64url_printable b : b64url_byte b = true -> printable b = true.
Proof.
  unfold b64url_byte, printable. intros Hb.
  rewrite !orb_true_iff, !andb_true_iff, !N.leb_le, !N.eqb_eq in Hb.
  rewrite andb_true_iff, !N.ltb_lt. lia.
Qed.

(** [part.len() as u64] in big-endian order followed by the part, for every
    part. *)
Fixpoint framed (parts : list string) : string :=
  match parts with
  | [] => EmptyString
  | p :: r => be_bytes 8 (str_len p) +:+ p +:+ framed r
  end.

(** Two different inputs with one SHA-256 digest. *)
Definition sha256_collision `{Crypto} : Prop :=
  exists x y, x <> y /\ sha256 x = sha256 y.

(** A Rust allocation is shorter than [isize::MAX] bytes. *)
Definition fits (s : string) : Prop := str_len s < 2 ^ 63.

Ltac fits_list :=
  repeat match goal with
         | H : Forall _ (_ :: _) |- _ => apply List.Forall_cons_iff in H as [? ?]
         end;
  repeat (apply List.Forall_cons; [first [assumption | exact eq_refl]|]); apply List.Forall_nil.

Lemma framed_inj a b :
  Forall fits a -> Forall fits b -> framed a = framed b -> a = b.
Proof.
  intros Ha. revert b. induction Ha as [|p a Hp Ha IH]; intros b Hb H.
  - destruct b; [done|]. apply (f_equal String.length) in H. cbn [framed] in H.
    rewrite str_app_length, be_bytes_length in H. cbn in H. lia.
  - destruct Hb as [|q b Hq Hb]; cbn [framed] in H.
    + apply (f_equal String.length) in H.
      rewrite str_app_length, be_bytes_length in H. cbn in H. lia.
    + apply str_app_inj in H as [Hl H]; [|by rewrite !be_bytes_length].
      apply be_bytes_inj in Hl; [|unfold fits in *; lia..].
      unfold str_len in Hl. apply str_app_inj in H as [-> H]; [|lia].
      f_equal. by apply IH.
Qed.

Lemma hex_sha256_inj `{Crypto} x y :
  hex_lower (sha256 x) = hex_lower (sha256 y) -> x = y \/ sha256_collision.
Proof.
  intros Heq%hex_lower_inj. destruct (decide (x = y)); [by left|]. right. by exists x, y.
Qed.

(** The framed digest identifies the list of parts, up to a collision. *)
Lemma framed_digest_inj `{Crypto} a b :
  Forall fits a -> Forall fits b ->
  hex_lower (sha256 (framed a)) = hex_lower (sha256 (framed b)) ->
  a = b \/ sha256_collision.
Proof.
  intros Ha Hb [Heq|]%hex_sha256_inj; [left; by apply framed_inj | by right].
Qed.

(** The shape of a rendered digest. *)
Lemma hex_sha256_shape `{CryptoLaws} s :
  String.length (hex_lower (sha256 s)) = 64%nat
  /\ all_bytes lower_hex_byte (hex_lower (sha256 s)) = true.
Proof. rewrite hex_lower_length, sha256_length. auto. Qed.
