(* ===== verification/Samples.v ===== *)
(** * Concrete parameters

    Executable functions with the documented interface of the cryptographic
    crates, used to run the definitions on concrete inputs.  They stand in for
    the parameters in examples only; no theorem depends on them. *)
From Stdlib Require Import Ascii String.
From S2P Require Import Prelude Text Wire.

(** A 32-byte multiplicative checksum. *)
Definition toy_digest (s : string) : string :=
  be_bytes 32 (List.fold_left (fun acc a => N.land (33 * acc + N_of_ascii a + 1) (N.ones 64))
                 (String.list_ascii_of_string s) 5381).

Definition unhex_digit (a : ascii) : option N :=
  let b := N_of_ascii a in
  if (48 <=? b) && (b <=? 57) then Some (b - 48)
  else if (97 <=? b) && (b <=? 102) then Some (b - 87)
  else None.
Fixpoint unhex (s : string) : option string :=
  match s with
  | EmptyString => Some EmptyString
  | String a (String b r) =>
      match unhex_digit a, unhex_digit b, unhex r with
      | Some x, Some y, Some t => Some (String (ascii_of_N (16 * x + y)) t)
      | _, _, _ => None
      end
  | String _ EmptyString => None
  end.

#[export] Instance toy_crypto : Crypto := {
  sha256 := toy_digest;
  hmac_sha256 k m := toy_digest (framed [k; m]);
  b64url_encode := hex_lower;
  b64url_decode := unhex
}.

Lemma unhex_digit_hex n : n < 16 -> unhex_digit (hex_digit n) = Some n.
Proof.
  intros Hn. unfold unhex_digit, hex_digit.
  destruct (N.ltb_spec n 10); rewrite N_ascii_embedding by lia.
  - rewrite (proj2 (N.leb_le _ _)), (proj2 (N.leb_le _ _)) by lia. cbn. f_equal. lia.
  - rewrite (proj2 (N.leb_gt (87 + n) 57)) by lia. rewrite andb_false_r.
    rewrite (proj2 (N.leb_le _ _)), (proj2 (N.leb_le _ _)) by lia. cbn. f_equal. lia.
Qed.

Lemma unhex_hex s : unhex (hex_lower s) = Some s.
Proof.
  induction s as [|a s IH]; cbn [hex_lower unhex]; [done|].
  destruct (nibbles a). rewrite !unhex_digit_hex, IH by done.
  rewrite <- N.Div0.div_mod. by rewrite ascii_N_embedding.
Qed.

#[export] Instance toy_crypto_laws : CryptoLaws.
Proof.
  split.
  - intros. apply (be_bytes_length 32).
  - intros. apply (be_bytes_length 32).
  - intros s. cbn. eapply all_bytes_impl; [|apply hex_lower_all].
    unfold lower_hex_byte, b64url_byte. intros b Hb.
    rewrite !orb_true_iff, !andb_true_iff, !N.leb_le in Hb.
    rewrite !orb_true_iff, !andb_true_iff, !N.leb_le, !N.eqb_eq. lia.
  - intros. cbn. rewrite hex_lower_length. lia.
  - apply unhex_hex.
Qed.
