(* ===== verification/Json.v ===== *)
(** * JSON values and serialization

    [serde_json::Value] with the accessors the program calls, and the
    interface the serialization derives give a type.  The derived code is
    generated, so it is a parameter: a component that stores a value of type
    [A] takes an instance of [Serde A], and what it relies on is the round
    trip [SerdeLaws A]. *)
From Stdlib Require Import Ascii String.
From S2P Require Import Prelude Text Wire.

Inductive Number :=
  | PosInt (n : N)
  | NegInt (n : positive)
  | Float (repr : string).

Inductive Value :=
  | Null
  | Bool (b : bool)
  | Num (n : Number)
  | Str (s : string)
  | Array (values : list Value)
  | Object (members : list (string * Value)).

(** [Value::get] with a string index. *)
Fixpoint member (key : string) (members : list (string * Value)) : option Value :=
  match members with
  | [] => None
  | (k, v) :: r => if (k =? key)%string then Some v else member key r
  end.
Definition value_get (v : Value) (key : string) : option Value :=
  match v with
  | Object members => member key members
  | _ => None
  end.
Definition as_bool (v : Value) : option bool :=
  match v with
  | Bool b => Some b
  | _ => None
  end.
Definition as_str (v : Value) : option string :=
  match v with
  | Str s => Some s
  | _ => None
  end.
Definition as_u64 (v : Value) : option N :=
  match v with
  | Num (PosInt n) => Some n
  | _ => None
  end.

(** [serde_json::to_value] and [serde_json::from_value] at one type. *)
Class Serde (A : Type) := {
  to_value : A -> option Value;
  from_value : Value -> option A
}.
Class SerdeLaws (A : Type) `{!Serde A} : Prop := {
  serde_roundtrip (a : A) v : to_value a = Some v -> from_value v = Some a
}.

(** [serde_json::to_vec] at one type. *)
Class ToVec (A : Type) := to_vec : A -> option string.
Class ToVecLaws (A : Type) `{!ToVec A} : Prop := {
  to_vec_inj (a b : A) v : to_vec a = Some v -> to_vec b = Some v -> a = b;
  to_vec_fits (a : A) v : to_vec a = Some v -> fits v
}.

(** Induction over the nested lists. *)
Section value_ind.
Context (P : Value -> Prop).
Context (HNull : P Null) (HBool : forall b, P (Bool b)) (HNum : forall n, P (Num n))
        (HStr : forall s, P (Str s)).
Context (HArray : forall l, Forall P l -> P (Array l)).
Context (HObject : forall l, Forall (fun kv => P (snd kv)) l -> P (Object l)).

Fixpoint value_nested_ind (v : Value) : P v :=
  match v with
  | Null => HNull
  | Bool b => HBool b
  | Num n => HNum n
  | Str s => HStr s
  | Array l =>
      HArray l ((fix go l : Forall P l :=
        match l with
        | [] => List.Forall_nil _
        | v :: r => @List.Forall_cons _ _ v r (value_nested_ind v) (go r)
        end) l)
  | Object l =>
      HObject l ((fix go l : Forall (fun kv => P (snd kv)) l :=
        match l with
        | [] => List.Forall_nil _
        | kv :: r => @List.Forall_cons _ _ kv r (value_nested_ind (snd kv)) (go r)
        end) l)
  end.
End value_ind.
