(* ===== verification/Token.v ===== *)
(** * Access tokens and revocation records ([src/src/token.rs])

    The claims of a fiducia-issued access token, the minting policy, and the
    versioned revocation record: its constructors, validation, storage key
    and matching rule.  The JWT encoder and the operating system's entropy
    and clock are arguments. *)
From Stdlib Require Import Ascii String.
From S2P Require Import Prelude Text Wire Samples.

Definition ISSUER : string := "fiducia-auth".
Definition AUDIENCE : string := "fiducia-api".
Definition MAX_ACCESS_TOKEN_TTL_SECS : N := 15 * 60.
Definition REVOCATION_RECORD_VERSION : N := 1.
Definition MAX_INTERNAL_REVOCATION_TTL_SECS : N := 24 * 60 * 60.

Record Claims := {
  c_sub : string;
  c_org_id : string;
  c_scopes : list string;
  c_iss : string;
  c_aud : string;
  c_iat : N;
  c_exp : N;
  c_jti : string
}.

Inductive MintError :=
  | InvalidTtl (requested maximum : N)
  | EntropyUnavailable.

Inductive RevocationTarget :=
  | RevocationTarget_TokenId (jti : string)
  | RevocationTarget_Subject (subject : string).

Record RevocationRecord := {
  r_version : N;
  r_issuer : string;
  r_audience : string;
  r_tenant_id : string;
  r_target : RevocationTarget;
  r_reason : string;
  r_actor : string;
  r_created_at : N;
  r_expires_at : N
}.

Inductive RevocationRecordError :=
  | UnsupportedVersion
  | WrongIssuer
  | WrongAudience
  | InvalidField (field : string)
  | InvalidWindow
  | WindowTooLong.

#[export] Instance RevocationTarget_eq_dec : EqDecision RevocationTarget.
Proof. solve_decision. Defined.
#[export] Instance RevocationRecord_eq_dec : EqDecision RevocationRecord.
Proof. solve_decision. Defined.

(** The test shared by every [validate_identifier] of the program. *)
Definition identifier_shape (maximum : N) (value : string) : bool :=
  str_is_empty value || (maximum <? str_len value)
  || (any_control value || any_whitespace value).

Definition token_validate_identifier (field value : string)
  : result RevocationRecordError unit :=
  let value := trim value in
  reject str_is_empty value || (256 <? str_len value)
         || (any_control value || any_whitespace value)
    with InvalidField field ;;
  Ok tt.

Definition token_validate_audit_text (field value : string) (max_len : N)
  : result RevocationRecordError unit :=
  let value := trim value in
  reject str_is_empty value || (max_len <? str_len value) || any_control value
    with InvalidField field ;;
  Ok tt.

(** [RevocationRecord::validate]. *)
Definition record_validate (self : RevocationRecord) : result RevocationRecordError unit :=
  reject negb (self.(r_version) =? REVOCATION_RECORD_VERSION) with UnsupportedVersion ;;
  reject negb (self.(r_issuer) =? ISSUER)%string with WrongIssuer ;;
  reject negb (self.(r_audience) =? AUDIENCE)%string with WrongAudience ;;
  let? _ := token_validate_identifier "tenant_id" self.(r_tenant_id) in
  let? _ := token_validate_audit_text "reason" self.(r_reason) 256 in
  let? _ := token_validate_audit_text "actor" self.(r_actor) 128 in
  let? _ := match self.(r_target) with
            | RevocationTarget_TokenId jti => token_validate_identifier "jti" jti
            | RevocationTarget_Subject subject => token_validate_identifier "subject" subject
            end in
  reject self.(r_expires_at) <=? self.(r_created_at) with InvalidWindow ;;
  reject MAX_INTERNAL_REVOCATION_TTL_SECS <? self.(r_expires_at) - self.(r_created_at)
    with WindowTooLong ;;
  Ok tt.

Definition for_token (claims : Claims) (reason actor : string) (created_at : N)
  : result RevocationRecordError RevocationRecord :=
  reject (created_at <? claims.(c_iat)) || (claims.(c_exp) <=? created_at)
    with InvalidWindow ;;
  let record := {|
    r_version := REVOCATION_RECORD_VERSION;
    r_issuer := claims.(c_iss);
    r_audience := claims.(c_aud);
    r_tenant_id := claims.(c_org_id);
    r_target := RevocationTarget_TokenId claims.(c_jti);
    r_reason := trim reason;
    r_actor := trim actor;
    r_created_at := created_at;
    r_expires_at := claims.(c_exp)
  |} in
  let? _ := record_validate record in
  Ok record.

Definition for_subject (tenant_id subject reason actor : string) (created_at expires_at : N)
  : result RevocationRecordError RevocationRecord :=
  let record := {|
    r_version := REVOCATION_RECORD_VERSION;
    r_issuer := ISSUER;
    r_audience := AUDIENCE;
    r_tenant_id := trim tenant_id;
    r_target := RevocationTarget_Subject (trim subject);
    r_reason := trim reason;
    r_actor := trim actor;
    r_created_at := created_at;
    r_expires_at := expires_at
  |} in
  let? _ := record_validate record in
  Ok record.

Definition is_active_at (self : RevocationRecord) (now : N) : bool :=
  is_ok (record_validate self)
  && (self.(r_created_at) <=? now) && (now <? self.(r_expires_at)).

Definition should_prune_at (self : RevocationRecord) (now : N) : bool :=
  self.(r_expires_at) <=? now.

(** [RevocationRecord::matches]. *)
Definition record_matches (self : RevocationRecord) (claims : Claims) (now : N) : bool :=
  if negb (is_active_at self now)
     || negb (self.(r_issuer) =? claims.(c_iss))%string
     || negb (self.(r_audience) =? claims.(c_aud))%string
     || negb (self.(r_tenant_id) =? claims.(c_org_id))%string
  then false
  else match self.(r_target) with
       | RevocationTarget_TokenId jti => (jti =? claims.(c_jti))%string
       | RevocationTarget_Subject subject => (subject =? claims.(c_sub))%string
       end.

Definition validate_ttl (ttl_secs : N) : result MintError unit :=
  reject negb ((1 <=? ttl_secs) && (ttl_secs <=? MAX_ACCESS_TOKEN_TTL_SECS))
    with InvalidTtl ttl_secs MAX_ACCESS_TOKEN_TTL_SECS ;;
  Ok tt.

Section crypto.
Context `{Crypto}.

Definition scoped_revocation_digest (parts : list string) : string :=
  sha256 (framed parts).

(** [RevocationRecord::storage_key]. *)
Definition record_storage_key (self : RevocationRecord)
  : result RevocationRecordError string :=
  let? _ := record_validate self in
  let '(target_kind, target_value) :=
    match self.(r_target) with
    | RevocationTarget_TokenId jti => ("token_id", jti)
    | RevocationTarget_Subject subject => ("subject", subject)
    end in
  let digest := scoped_revocation_digest
    [self.(r_issuer); self.(r_audience); self.(r_tenant_id); target_kind; target_value] in
  Ok ("auth/revocations/v" +:+ decimal self.(r_version) +:+ "/" +:+ hex_lower digest).

(** [entropy] is what [getrandom] returned for a 16-byte buffer. *)
Definition random_jti (entropy : option string) : result MintError string :=
  let? bytes := ok_or entropy EntropyUnavailable in
  Ok (b64url_encode bytes).

(** [jwt] is the ES256 encoder applied to the header (its [kid]) and the
    claims; [now] what [now_secs] returned. *)
Definition mint_with (jwt : string -> Claims -> option string) (kid : string)
    (now : N) (entropy : option string)
    (org_id : string) (scopes : list string) (ttl_secs : N) : result MintError string :=
  let? _ := validate_ttl ttl_secs in
  let? jti := random_jti entropy in
  let claims := {|
    c_sub := org_id;
    c_org_id := org_id;
    c_scopes := scopes;
    c_iss := ISSUER;
    c_aud := AUDIENCE;
    c_iat := now;
    c_exp := saturating_add now ttl_secs;
    c_jti := jti
  |} in
  ok_or (jwt kid claims) EntropyUnavailable.

(** The failures of the startup self-check, without their formatted text. *)
Inductive ContractError :=
  | TokenContract (e : RevocationRecordError)
  | SubjectContract (e : RevocationRecordError)
  | TokenStorageKey (e : RevocationRecordError)
  | SubjectStorageKey (e : RevocationRecordError)
  | SelfCheckFailed.

Definition startup_claims : Claims := {|
  c_sub := "__startup_subject";
  c_org_id := "__startup_tenant";
  c_scopes := [];
  c_iss := ISSUER;
  c_aud := AUDIENCE;
  c_iat := 0;
  c_exp := 2;
  c_jti := "startup-token"
|}.

Definition validate_revocation_contract : result ContractError unit :=
  let claims := startup_claims in
  let? exact := map_err TokenContract
    (for_token claims "startup contract validation" "fiducia-auth" 1) in
  let? subject := map_err SubjectContract
    (for_subject claims.(c_org_id) claims.(c_sub)
                 "startup contract validation" "fiducia-auth" 1 2) in
  let? exact_key := map_err TokenStorageKey (record_storage_key exact) in
  let? subject_key := map_err SubjectStorageKey (record_storage_key subject) in
  reject (exact_key =? subject_key)%string
         || negb (record_matches exact claims 1)
         || record_matches exact claims 2
         || should_prune_at exact 1
         || negb (should_prune_at exact 2)
         || negb (record_matches subject claims 1)
    with SelfCheckFailed ;;
  Ok tt.
End crypto.

(** ** Records *)

Section facts.
Implicit Types (r : RevocationRecord) (c : Claims).

Lemma token_validate_identifier_ok field v u :
  token_validate_identifier field v = Ok u <-> identifier_shape 256 (trim v) = false.
Proof. destruct u. unfold token_validate_identifier, identifier_shape. case_match; naive_solver. Qed.

Lemma token_validate_audit_text_trim field v n :
  token_validate_audit_text field (trim v) n = token_validate_audit_text field v n.
Proof. unfold token_validate_audit_text. by rewrite trim_idem. Qed.

Lemma token_validate_identifier_trim field v :
  token_validate_identifier field (trim v) = token_validate_identifier field v.
Proof. unfold token_validate_identifier. by rewrite trim_idem. Qed.

(** What a successful [validate] establishes about the scope and window. *)
Lemma record_validate_ok r u :
  record_validate r = Ok u ->
  r.(r_version) = REVOCATION_RECORD_VERSION /\ r.(r_issuer) = ISSUER
  /\ r.(r_audience) = AUDIENCE /\ r.(r_created_at) < r.(r_expires_at)
  /\ r.(r_expires_at) - r.(r_created_at) <= MAX_INTERNAL_REVOCATION_TTL_SECS.
Proof. unfold record_validate. intros H. inv_ok. auto. Qed.

(** The tokens a target names. *)
Definition target_covers (t : RevocationTarget) (c : Claims) : Prop :=
  match t with
  | RevocationTarget_TokenId jti => jti = c.(c_jti)
  | RevocationTarget_Subject subject => subject = c.(c_sub)
  end.

Lemma record_matches_iff r c now :
  record_matches r c now = true <->
  is_ok (record_validate r) = true
  /\ r.(r_created_at) <= now < r.(r_expires_at)
  /\ r.(r_issuer) = c.(c_iss) /\ r.(r_audience) = c.(c_aud)
  /\ r.(r_tenant_id) = c.(c_org_id) /\ target_covers r.(r_target) c.
Proof.
  unfold record_matches, is_active_at, target_covers.
  destruct (is_ok (record_validate r)); cbn; [|naive_solver].
  destruct (N.leb_spec (r_created_at r) now); cbn; [|split; [done|lia]].
  destruct (N.ltb_spec now (r_expires_at r)); cbn; [|split; [done|lia]].
  destruct (String.eqb_spec (r_issuer r) (c_iss c)); cbn; [|naive_solver].
  destruct (String.eqb_spec (r_audience r) (c_aud c)); cbn; [|naive_solver].
  destruct (String.eqb_spec (r_tenant_id r) (c_org_id c)); cbn; [|naive_solver].
  destruct (r_target r); rewrite String.eqb_eq; naive_solver.
Qed.

Lemma for_token_ok c reason actor t r :
  for_token c reason actor t = Ok r ->
  c.(c_iat) <= t < c.(c_exp) /\ is_ok (record_validate r) = true
  /\ r = {| r_version := REVOCATION_RECORD_VERSION; r_issuer := c.(c_iss);
            r_audience := c.(c_aud); r_tenant_id := c.(c_org_id);
            r_target := RevocationTarget_TokenId c.(c_jti);
            r_reason := trim reason; r_actor := trim actor;
            r_created_at := t; r_expires_at := c.(c_exp) |}.
Proof.
  unfold for_token. intros H. inv_ok.
  split_and!; [lia.. | | done]. apply is_ok_true. eauto.
Qed.

Lemma for_subject_ok tenant subject reason actor t e r :
  for_subject tenant subject reason actor t e = Ok r ->
  is_ok (record_validate r) = true
  /\ r = {| r_version := REVOCATION_RECORD_VERSION; r_issuer := ISSUER;
            r_audience := AUDIENCE; r_tenant_id := trim tenant;
            r_target := RevocationTarget_Subject (trim subject);
            r_reason := trim reason; r_actor := trim actor;
            r_created_at := t; r_expires_at := e |}.
Proof. unfold for_subject. intros H. inv_ok. split; [|done]. apply is_ok_true. eauto. Qed.

(** A record made by [for_token] matches, at every instant of its window
    [created_at <= now < exp] and at no other, exactly the tokens that carry
    the same issuer, audience, tenant and token id; it never reaches another
    token of the tenant or the same token id in another tenant. *)
Theorem for_token_matches c reason actor t r :
  for_token c reason actor t = Ok r ->
  forall c' now,
    record_matches r c' now = true <->
    t <= now < c.(c_exp) /\ c'.(c_iss) = ISSUER /\ c'.(c_aud) = AUDIENCE
    /\ c'.(c_org_id) = c.(c_org_id) /\ c'.(c_jti) = c.(c_jti).
Proof.
  intros (Ht & Hv & ->)%for_token_ok c' now. rewrite record_matches_iff.
  pose proof Hv as [u (_ & Hi & Ha & _)%record_validate_ok]%is_ok_true.
  cbn in *. split; intros; destruct_and!; split_and!; congruence || lia || done.
Qed.

Definition sample_claims : Claims := {|
  c_sub := "org-a"; c_org_id := "org-a"; c_scopes := ["kv:read"];
  c_iss := ISSUER; c_aud := AUDIENCE; c_iat := 100; c_exp := 1000; c_jti := "jti-1" |}.

Lemma for_token_matches_witness :
  exists r, for_token sample_claims "leaked" "ops" 200 = Ok r
  /\ record_matches r sample_claims 999 = true.
Proof.
  eexists. split; [vm_compute; reflexivity|].
  refine (proj2 (for_token_matches sample_claims "leaked" "ops" 200 _ _ sample_claims 999) _);
    [vm_compute; reflexivity | vm_compute; repeat split; congruence].
Defined.

(** A record made by [for_subject] covers one subject of one tenant, both
    taken after trimming, inside the fixed issuer and audience and for at most
    24 hours, and nothing else. *)
Theorem for_subject_matches tenant subject reason actor t e r :
  for_subject tenant subject reason actor t e = Ok r ->
  t < e /\ e - t <= MAX_INTERNAL_REVOCATION_TTL_SECS
  /\ forall c' now,
    record_matches r c' now = true <->
    t <= now < e /\ c'.(c_iss) = ISSUER /\ c'.(c_aud) = AUDIENCE
    /\ c'.(c_org_id) = trim tenant /\ c'.(c_sub) = trim subject.
Proof.
  intros (Hv & ->)%for_subject_ok.
  pose proof Hv as [u (_ & _ & _ & Hw & Hl)%record_validate_ok]%is_ok_true.
  cbn in Hw, Hl. split_and!; [done..|]. intros c' now.
  rewrite record_matches_iff. cbn.
  split; intros; destruct_and!; split_and!; congruence || lia || done.
Qed.

Lemma for_subject_matches_witness :
  exists r, for_subject " org-a " "user-1" "compromised" "ops" 200 5000 = Ok r
  /\ 200 < 5000.
Proof.
  eexists. split; [vm_compute; reflexivity|].
  refine (proj1 (for_subject_matches " org-a " "user-1" "compromised" "ops" 200 5000 _ _)).
  vm_compute. reflexivity.
Defined.
End facts.

(** ** Storage keys and minting *)

Section crypto_facts.
Context `{Crypto}.

Definition target_kind (t : RevocationTarget) : string :=
  match t with
  | RevocationTarget_TokenId _ => "token_id"
  | RevocationTarget_Subject _ => "subject"
  end.
Definition target_value (t : RevocationTarget) : string :=
  match t with
  | RevocationTarget_TokenId jti => jti
  | RevocationTarget_Subject subject => subject
  end.

(** The storage key of a scope: what every valid record and every selector
    computes. *)
Definition scope_key (tenant kind value : string) : string :=
  "auth/revocations/v" +:+ decimal REVOCATION_RECORD_VERSION +:+ "/"
    +:+ hex_lower (sha256 (framed [ISSUER; AUDIENCE; tenant; kind; value])).

Lemma record_storage_key_iff r k :
  record_storage_key r = Ok k <->
  is_ok (record_validate r) = true
  /\ k = scope_key r.(r_tenant_id) (target_kind r.(r_target)) (target_value r.(r_target)).
Proof.
  rewrite is_ok_true. unfold record_storage_key, scoped_revocation_digest, scope_key.
  rewrite rbind_ok. split.
  - intros (u & Hv & Hk). split; [eauto|].
    apply record_validate_ok in Hv as (Hr & Hi & Ha & _). rewrite Hr, Hi, Ha in Hk.
    destruct (r_target r); by injection Hk as <-.
  - intros [[u Hv] ->]. exists u. split; [done|].
    apply record_validate_ok in Hv as (-> & -> & -> & _). by destruct (r_target r).
Qed.

(** A storage key determines its scope, up to a collision. *)
Lemma scope_key_inj t k v t' k' v' :
  Forall fits [t; k; v] -> Forall fits [t'; k'; v'] ->
  scope_key t k v = scope_key t' k' v' -> (t = t' /\ k = k' /\ v = v') \/ sha256_collision.
Proof.
  unfold scope_key. intros Hf Hf' Heq.
  do 3 apply str_app_inj_l in Heq.
  apply framed_digest_inj in Heq as [Heq|]; [|by right|fits_list..].
  left. naive_solver.
Qed.

Lemma record_storage_key_inj r1 r2 k :
  Forall fits [r1.(r_tenant_id); target_value r1.(r_target)] ->
  Forall fits [r2.(r_tenant_id); target_value r2.(r_target)] ->
  record_storage_key r1 = Ok k -> record_storage_key r2 = Ok k ->
  (r1.(r_tenant_id) = r2.(r_tenant_id) /\ r1.(r_target) = r2.(r_target))
  \/ sha256_collision.
Proof.
  intros Hf1 Hf2 [_ ->]%record_storage_key_iff [_ Heq]%record_storage_key_iff.
  apply scope_key_inj in Heq as [(-> & Hk & Hv)|]; [|by right|..].
  - left. split; [done|]. destruct (r_target r1), (r_target r2); naive_solver.
  - destruct (r_target r1); fits_list.
  - destruct (r_target r2); fits_list.
Qed.

(** The opaque storage key of a revocation record identifies its tenant
    and its target: two valid records stored under one key are for the same
    tenant, the same kind of target and the same value, unless SHA-256 itself
    collides. *)
Theorem record_storage_key_isolates r1 r2 k :
  Forall fits [r1.(r_tenant_id); target_value r1.(r_target)] ->
  Forall fits [r2.(r_tenant_id); target_value r2.(r_target)] ->
  record_storage_key r1 = Ok k -> record_storage_key r2 = Ok k ->
  (r1.(r_tenant_id) = r2.(r_tenant_id) /\ r1.(r_target) = r2.(r_target))
  \/ sha256_collision.
Proof. apply record_storage_key_inj. Qed.

(** The startup self-check of the revocation contract passes: with the
    shipped constants the only thing that can stop a replica at that point is
    a SHA-256 collision between the two synthetic storage keys. *)
Theorem startup_contract_passes :
  validate_revocation_contract = Ok tt \/ sha256_collision.
Proof.
  unfold validate_revocation_contract.
  set (exact := for_token _ _ _ _). vm_compute in exact. subst exact.
  set (subject := for_subject _ _ _ _ _ _). vm_compute in subject. subst subject.
  cbn [map_err rbind].
  match goal with |- context [record_storage_key ?r] =>
    destruct (record_storage_key r) as [k1|e1] eqn:E1 end.
  2:{ exfalso. revert E1. unfold record_storage_key.
      set (v := record_validate _). vm_compute in v. subst v. cbn. done. }
  cbn [map_err rbind].
  match goal with |- context [map_err SubjectStorageKey (record_storage_key ?r)] =>
    destruct (record_storage_key r) as [k2|e2] eqn:E2 end.
  2:{ exfalso. revert E2. unfold record_storage_key.
      set (v := record_validate _). vm_compute in v. subst v. cbn. done. }
  cbn [map_err rbind].
  destruct (String.eqb_spec k1 k2) as [<-|Hne].
  - right. pose proof (fun h1 h2 => record_storage_key_inj _ _ _ h1 h2 E1 E2) as Hinj.
    destruct Hinj as [[_ Ht]|]; [fits_list..| |done].
    by apply (f_equal target_kind) in Ht.
  - left. vm_compute. done.
Qed.

(** A minted token has the fixed issuer and audience, names its
    organization as tenant and subject, carries a fresh token id and lives at
    most 15 minutes; a lifetime outside 1..=900 seconds and missing entropy
    are refused, in that order. *)
Theorem mint_with_claims jwt kid now entropy org scopes ttl :
  match mint_with jwt kid now entropy org scopes ttl with
  | Ok token =>
      exists bytes c,
        entropy = Some bytes /\ jwt kid c = Some token /\ 1 <= ttl <= 900
        /\ c.(c_sub) = org /\ c.(c_org_id) = org /\ c.(c_scopes) = scopes
        /\ c.(c_iss) = ISSUER /\ c.(c_aud) = AUDIENCE /\ c.(c_iat) = now
        /\ c.(c_jti) = b64url_encode bytes
        /\ c.(c_exp) - c.(c_iat) <= MAX_ACCESS_TOKEN_TTL_SECS
        /\ (now + ttl <= u64_max -> c.(c_exp) = now + ttl)
  | Err (InvalidTtl requested maximum) =>
      requested = ttl /\ maximum = MAX_ACCESS_TOKEN_TTL_SECS /\ ~ 1 <= ttl <= 900
  | Err EntropyUnavailable =>
      1 <= ttl <= 900
      /\ (entropy = None \/ exists c, c.(c_org_id) = org /\ jwt kid c = None)
  end.
Proof.
  unfold mint_with, validate_ttl, random_jti, MAX_ACCESS_TOKEN_TTL_SECS.
  destruct (N.leb_spec 1 ttl), (N.leb_spec ttl (15 * 60)); cbn; try (split_and!; lia).
  destruct entropy as [bytes|]; cbn; [|split; [lia|by left]].
  destruct (jwt _ _) as [token|] eqn:Hj; cbn.
  - pose proof (saturating_add_bounds now ttl). eexists bytes, _.
    split_and!; [done | exact Hj | lia.. | done | done | done | done | done | done | done | |];
      cbn; unfold saturating_add; lia.
  - split; [lia|]. right. eexists. by split; [|exact Hj].
Qed.
End crypto_facts.

Lemma record_storage_key_isolates_witness :
  let r := {| r_version := 1; r_issuer := ISSUER; r_audience := AUDIENCE; r_tenant_id := "t";
              r_target := RevocationTarget_Subject "u"; r_reason := "x"; r_actor := "ops";
              r_created_at := 1; r_expires_at := 2 |} in
  exists k, record_storage_key r = Ok k
  /\ ((r.(r_tenant_id) = r.(r_tenant_id) /\ r.(r_target) = r.(r_target)) \/ sha256_collision).
Proof.
  eexists. split; [vm_compute; reflexivity|].
  eapply record_storage_key_isolates; [fits_list | fits_list | vm_compute; reflexivity..].
Defined.
