(* ===== verification/Kv.v ===== *)
(** * The durable key-value service

    The data [src/src/store.rs] exchanges with Fiducia KV, the async code that
    uses it as programs of effects, the contract the code relies on, and a
    rely-guarantee logic for requests that run concurrently on any number of
    replicas.

    - [prog S A] is an [async fn] returning [A]: each [Get] and [Put] is one
      awaited request to the service, each [Local] one critical section on
      the replica's in-process state [S] (a [Mutex]).
    - [get_contract] and [put_contract] are the documented behaviour of the
      service: reads return the committed entry, a compare-and-set commits
      exactly when the revision matches, revisions of a key grow, and a
      request may fail before or after it took effect.
    - [wp] is the weakest precondition of a program under interference by
      other clients; [system_safe] turns it into a statement about every
      interleaving. *)
From Stdlib Require Import Ascii String.
From S2P Require Import Prelude Text Json.

Record VersionedValue := {
  vv_value : Value;
  vv_mod_revision : N
}.

Inductive CasOutcome := Applied | Mismatch.
#[export] Instance CasOutcome_eq_dec : EqDecision CasOutcome.
Proof. solve_decision. Defined.

Inductive StoreError :=
  | MissingUrl
  | MissingInternalSecret
  | MissingIdempotencySecret
  | WeakIdempotencySecret
  | MissingApiKeyPepper
  | WeakApiKeyPepper
  | UnsupportedApiKeyHashAlgorithm
  | InvalidStorageOrg
  | Transport (error : string)
  | Http (status : N)
  | InvalidValue
  | StoreCasRetriesExhausted
  | VersionOverflow
  | KeyIdCollision
  | StoreIdempotencyConflict.

(** ** Programs *)

Notation get_reply := (result StoreError (option VersionedValue)).
Notation put_reply := (result StoreError CasOutcome).

Inductive prog (S A : Type) : Type :=
  | Ret (a : A)
  | Local (f : S -> S) (k : S -> prog S A)
  | Get (key : string) (k : get_reply -> prog S A)
  | Put (key : string) (value : Value) (prev_revision : N) (k : put_reply -> prog S A).
Arguments Ret {S A} a.
Arguments Local {S A} f k.
Arguments Get {S A} key k.
Arguments Put {S A} key value prev_revision k.

Fixpoint pbind {S A B} (p : prog S A) (k : A -> prog S B) : prog S B :=
  match p with
  | Ret a => k a
  | Local f c => Local f (fun s => pbind (c s) k)
  | Get key c => Get key (fun r => pbind (c r) k)
  | Put key v prev c => Put key v prev (fun r => pbind (c r) k)
  end.

(** [x.await], and [x.await?]. *)
Notation "'let!' x ':=' p 'in' k" := (pbind p (fun x => k))
  (at level 10, x pattern, p at level 100, k at level 200,
   format "'[v' 'let!'  x  ':='  p  'in' '/' k ']'") : fiducia_scope.
Definition qbind {S E A B} (p : prog S (result E A)) (k : A -> prog S (result E B))
  : prog S (result E B) :=
  pbind p (fun r => match r with
                    | Ok a => k a
                    | Err e => Ret (Err e)
                    end).
Notation "'let!?' x ':=' p 'in' k" := (qbind p (fun x => k))
  (at level 10, x pattern, p at level 100, k at level 200,
   format "'[v' 'let!?'  x  ':='  p  'in' '/' k ']'") : fiducia_scope.

(** Code without an await point. *)
Definition pure {S E A} (r : result E A) : prog S (result E A) := Ret r.
Definition prog_map_err {S E F A} (f : E -> F) (p : prog S (result E A)) : prog S (result F A) :=
  pbind p (fun r => Ret (map_err f r)).

(** [KvClient::get_versioned], [get] and [put_if_revision] as effects. *)
Definition get_versioned {S} (key : string) : prog S get_reply := Get key Ret.
Definition kv_get {S} (key : string) : prog S (result StoreError (option Value)) :=
  let!? entry := get_versioned key in
  pure (Ok (vv_value <$> entry)).
Definition put_if_revision {S} (key : string) (value : Value) (prev_revision : N)
  : prog S put_reply := Put key value prev_revision Ret.
(** [mutex.lock()] around an update that returns what it read. *)
Definition with_lock {S} (f : S -> S) : prog S S := Local f Ret.

(** ** The contract of the service *)

Notation kv := (gmap string VersionedValue).

Definition value_of (o : option VersionedValue) : option Value := vv_value <$> o.
Definition rev_of (o : option VersionedValue) : N :=
  match o with
  | Some e => e.(vv_mod_revision)
  | None => 0
  end.

(** A compare-and-set matches: [prev_revision] 0 means the key must not
    exist. *)
Definition cas_matches (o : option VersionedValue) (prev : N) : bool :=
  match o with
  | Some e => negb (prev =? 0) && (e.(vv_mod_revision) =? prev)
  | None => prev =? 0
  end.
Lemma cas_rev o prev : cas_matches o prev = true -> rev_of o = prev.
Proof. destruct o; cbn; intros; by reflect_bools. Qed.
Lemma cas_absent o : cas_matches o 0 = true -> o = None.
Proof. by destruct o. Qed.

Inductive get_contract (m : kv) (key : string) : get_reply -> kv -> Prop :=
  | get_answered : get_contract m key (Ok (m !! key)) m
  | get_failed e : get_contract m key (Err e) m.

Inductive put_contract (m : kv) (key : string) (v : Value) (prev : N)
  : put_reply -> kv -> Prop :=
  | put_applied rev :
      cas_matches (m !! key) prev = true -> prev < rev ->
      put_contract m key v prev (Ok Applied)
        (<[key := {| vv_value := v; vv_mod_revision := rev |}]> m)
  | put_mismatch :
      cas_matches (m !! key) prev = false -> put_contract m key v prev (Ok Mismatch) m
  | put_failed e : put_contract m key v prev (Err e) m
  | put_reply_lost e rev :
      cas_matches (m !! key) prev = true -> prev < rev ->
      put_contract m key v prev (Err e)
        (<[key := {| vv_value := v; vv_mod_revision := rev |}]> m).

(** A service: its states, the entries a state commits to, and its replies. *)
Class Service (W : Type) := {
  entries : W -> kv;
  serve_get : W -> string -> get_reply -> W -> Prop;
  serve_put : W -> string -> Value -> N -> put_reply -> W -> Prop
}.
Class ServiceLaws (W : Type) `{!Service W} : Prop := {
  serve_get_contract w key r w' :
    serve_get w key r w' -> get_contract (entries w) key r (entries w');
  serve_put_contract w key v prev r w' :
    serve_put w key v prev r w' -> put_contract (entries w) key v prev r (entries w')
}.

(** The service that honours the contract by keeping a map and a revision
    counter and never failing, as a function; [run] executes a program alone
    against it. *)
Record mapkv := { mk_entries : kv; mk_next : N }.
Definition mapkv_get (w : mapkv) (key : string) : get_reply := Ok (w.(mk_entries) !! key).
Definition mapkv_put (w : mapkv) (key : string) (v : Value) (prev : N) : put_reply * mapkv :=
  if cas_matches (w.(mk_entries) !! key) prev
  then (Ok Applied,
        {| mk_entries := <[key := {| vv_value := v; vv_mod_revision := w.(mk_next) |}]> w.(mk_entries);
           mk_next := w.(mk_next) + 1 |})
  else (Ok Mismatch, w).
Definition mapkv_wf (w : mapkv) : Prop :=
  forall key, rev_of (w.(mk_entries) !! key) < w.(mk_next).

Fixpoint run {S A} (p : prog S A) (w : mapkv) (s : S) : A * mapkv * S :=
  match p with
  | Ret a => (a, w, s)
  | Local f k => run (k s) w (f s)
  | Get key k => run (k (mapkv_get w key)) w s
  | Put key v prev k => let (r, w') := mapkv_put w key v prev in run (k r) w' s
  end.
Definition mapkv_empty : mapkv := {| mk_entries := ∅; mk_next := 1 |}.

(** ** Rely-guarantee reasoning

    [G key old new] is the change a client may make to the value of a key and
    [J s m] what a replica's local state may assert about the committed
    entries; both are chosen per component. *)
Section logic.
Context {S : Type}.
Context (G : string -> option Value -> Value -> Prop) (J : S -> kv -> Prop).

Definition key_step (key : string) (o o' : option VersionedValue) : Prop :=
  exists e, o' = Some e /\ rev_of o < e.(vv_mod_revision) /\ G key (value_of o) e.(vv_value).

(** Every key went through allowed changes only. *)
Definition evolves (m m' : kv) : Prop :=
  forall key, rtc (key_step key) (m !! key) (m' !! key).

#[export] Instance evolves_preorder : PreOrder evolves.
Proof. split; [by intros m key|]. intros m1 m2 m3 H1 H2 key. etrans; [apply H1|apply H2]. Qed.

Fixpoint wp {A} (p : prog S A) (Q : A -> kv -> Prop) (m : kv) : Prop :=
  match p with
  | Ret a => forall m', evolves m m' -> Q a m'
  | Local f k =>
      forall s m', evolves m m' -> J s m' -> J (f s) m' /\ wp (k s) Q m'
  | Get key k =>
      forall m' r, evolves m m' -> get_contract m' key r m' -> wp (k r) Q m'
  | Put key v prev k =>
      forall m', evolves m m' ->
        (cas_matches (m' !! key) prev = true -> G key (value_of (m' !! key)) v)
        /\ forall r m'', put_contract m' key v prev r m'' -> wp (k r) Q m''
  end.

(** Between two states with equal revisions of a key, its entry is the same. *)
Lemma key_rtc_rev key o o' :
  rtc (key_step key) o o' -> o = o' \/ rev_of o < rev_of o'.
Proof.
  induction 1 as [|o o1 o' (e & -> & Hr & _) _ IH]; [by left|]. right.
  destruct IH as [<- | IH]; cbn in *; lia.
Qed.

Lemma evolves_same_rev m m' key :
  evolves m m' -> rev_of (m' !! key) = rev_of (m !! key) -> m' !! key = m !! key.
Proof. intros He Hr. destruct (key_rtc_rev _ _ _ (He key)); [done|lia]. Qed.

Lemma evolves_insert m key e :
  rev_of (m !! key) < e.(vv_mod_revision) -> G key (value_of (m !! key)) e.(vv_value) ->
  evolves m (<[key := e]> m).
Proof.
  intros Hr Hg key'. destruct (decide (key = key')) as [<-|Hne].
  - rewrite lookup_insert_eq. apply rtc_once. by exists e.
  - by rewrite lookup_insert_ne.
Qed.

Lemma evolves_put m key v prev r m' :
  (cas_matches (m !! key) prev = true -> G key (value_of (m !! key)) v) ->
  put_contract m key v prev r m' -> evolves m m'.
Proof.
  intros Hg H. destruct H as [rev Hc Hlt|Hc|e|e rev Hc Hlt]; [|done|done|];
    (apply evolves_insert; [cbn; rewrite (cas_rev _ _ Hc); lia|by apply Hg]).
Qed.

Lemma get_contract_state m key r m' : get_contract m key r m' -> m' = m.
Proof. by destruct 1. Qed.

Lemma wp_evolves {A} (p : prog S A) Q m m' : evolves m m' -> wp p Q m -> wp p Q m'.
Proof.
  destruct p; cbn; intros He H; intros.
  all: first [apply H; [by etrans|done] | apply H; by etrans].
Qed.

Lemma wp_mono {A} (p : prog S A) (Q Q' : A -> kv -> Prop) m :
  (forall a m', Q a m' -> Q' a m') -> wp p Q m -> wp p Q' m.
Proof.
  intros HQ. revert m.
  induction p as [a|f k IH|key k IH|key v prev k IH]; cbn; intros m H; intros; eauto.
  - destruct (H s m') as [? ?]; eauto.
  - destruct (H m') as [? ?]; eauto.
Qed.

(** The postcondition may use that the state evolved from the initial one. *)
Lemma wp_frame {A} (p : prog S A) (Q Q' : A -> kv -> Prop) m :
  (forall a m', evolves m m' -> Q a m' -> Q' a m') -> wp p Q m -> wp p Q' m.
Proof.
  revert m. induction p as [a|f k IH|key k IH|key v prev k IH]; cbn; intros m HQ H; intros.
  - eauto.
  - destruct (H s m') as [? ?]; [done..|]. split; [done|].
    eapply IH; [|done]. intros ? ? ?. apply HQ. by etrans.
  - eapply IH; [|by eapply H]. intros ? ? ?. apply HQ. by etrans.
  - destruct (H m') as [Hg Hk]; [done|]. split; [done|]. intros r m'' Hp.
    eapply IH; [|by eapply Hk]. intros ? ? ?. apply HQ.
    etrans; [done|]. etrans; [by eapply evolves_put|done].
Qed.

Lemma wp_bind {A B} (p : prog S A) (k : A -> prog S B) Q m :
  wp p (fun a => wp (k a) Q) m -> wp (pbind p k) Q m.
Proof.
  revert m. induction p as [a|f c IH|key c IH|key v prev c IH]; cbn; intros m H; intros.
  - by apply H.
  - destruct (H s m') as [? ?]; eauto.
  - eauto.
  - destruct (H m') as [? ?]; eauto.
Qed.

(** What follows a program holds of its result. *)
Lemma wp_unbind {A B} (p : prog S A) (k : A -> prog S B) Q m :
  wp (pbind p k) Q m -> wp p (fun a => wp (k a) Q) m.
Proof.
  revert m. induction p as [a|f c IH|key c IH|key v prev c IH]; cbn; intros m H; intros.
  - by eapply wp_evolves.
  - destruct (H s m') as [? ?]; eauto.
  - eauto.
  - destruct (H m') as [? ?]; eauto.
Qed.

(** A program that never writes to the service keeps to every rule. *)
Fixpoint reads_only {A} (p : prog S A) : Prop :=
  match p with
  | Ret _ => True
  | Local f k => forall s, reads_only (k s)
  | Get _ k => forall r, reads_only (k r)
  | Put _ _ _ _ => False
  end.
Lemma reads_only_bind {A B} (p : prog S A) (k : A -> prog S B) :
  reads_only p -> (forall a, reads_only (k a)) -> reads_only (pbind p k).
Proof. induction p; cbn; intros Hp Hk; eauto. Qed.
Lemma reads_only_qbind {E A B} (p : prog S (result E A)) (k : A -> prog S (result E B)) :
  reads_only p -> (forall a, reads_only (k a)) -> reads_only (qbind p k).
Proof. intros Hp Hk. apply reads_only_bind; [done|]. by intros [a|e]. Qed.
Lemma wp_reads_only {A} (p : prog S A) m :
  (forall s m', J s m') -> reads_only p -> wp p (fun _ _ => True) m.
Proof.
  intros HJ. revert m.
  induction p as [a|f k IH|key k IH|key v prev k IH]; cbn; intros m Hp; intros; eauto. done.
Qed.

Lemma wp_ret {A} (a : A) (Q : A -> kv -> Prop) m :
  (forall m', evolves m m' -> Q a m') -> wp (Ret a) Q m.
Proof. done. Qed.

(** Binding with [?]: failures are returned as they are. *)
Lemma wp_qbind {E A B} (p : prog S (result E A)) (k : A -> prog S (result E B)) Q m :
  wp p (fun r m' => match r with
                    | Ok a => wp (k a) Q m'
                    | Err e => forall m'', evolves m' m'' -> Q (Err e) m''
                    end) m ->
  wp (qbind p k) Q m.
Proof. intros H. apply wp_bind. eapply wp_mono; [|exact H]. by intros [a|e] m'. Qed.

Lemma wp_pure {E A} (r : result E A) (Q : result E A -> kv -> Prop) m :
  (forall m', evolves m m' -> Q r m') -> wp (pure r) Q m.
Proof. done. Qed.

Lemma wp_pure_q {E A B} (r : result E A) (k : A -> prog S (result E B)) Q m :
  (forall a, r = Ok a -> wp (k a) Q m) ->
  (forall e m', evolves m m' -> Q (Err e) m') ->
  wp (qbind (pure r) k) Q m.
Proof. intros Hok Herr. destruct r as [a|e]; [by apply Hok|]. intros m' He. by apply Herr. Qed.

Lemma wp_map_err {E F A} (f : E -> F) (p : prog S (result E A)) Q m :
  wp p (fun r m' => forall m'', evolves m' m'' -> Q (map_err f r) m'') m ->
  wp (prog_map_err f p) Q m.
Proof. intros H. apply wp_bind. eapply wp_mono; [|exact H]. by intros r m'. Qed.

Lemma wp_get_versioned (Q : get_reply -> kv -> Prop) key m :
  (forall m' m'', evolves m m' -> evolves m' m'' -> Q (Ok (m' !! key)) m'') ->
  (forall e m'', evolves m m'' -> Q (Err e) m'') ->
  wp (get_versioned key) Q m.
Proof.
  intros Hok Herr m' r He Hr m'' He'. destruct r as [o|e].
  - inversion Hr; subst. by eapply Hok.
  - apply Herr. by etrans.
Qed.

Lemma wp_kv_get Q key m :
  (forall m' m'', evolves m m' -> evolves m' m'' -> Q (Ok (value_of (m' !! key))) m'') ->
  (forall e m'', evolves m m'' -> Q (Err e) m'') ->
  wp (kv_get key) Q m.
Proof.
  intros Hok Herr. apply wp_qbind, wp_get_versioned.
  - intros m' m'' ? ? m3 ?. eapply Hok; [done|by etrans].
  - intros e m' He m'' He'. apply Herr. by etrans.
Qed.

(** A compare-and-set: what has to be shown is that the change is allowed in
    the state in which it commits. *)
Lemma wp_put_if_revision (Q : put_reply -> kv -> Prop) key v prev m :
  (forall m', evolves m m' -> cas_matches (m' !! key) prev = true ->
     G key (value_of (m' !! key)) v) ->
  (forall m' rev m'', evolves m m' -> cas_matches (m' !! key) prev = true -> prev < rev ->
     evolves (<[key := {| vv_value := v; vv_mod_revision := rev |}]> m') m'' ->
     Q (Ok Applied) m'') ->
  (forall m' m'', evolves m m' -> cas_matches (m' !! key) prev = false -> evolves m' m'' ->
     Q (Ok Mismatch) m'') ->
  (forall e m', evolves m m' -> Q (Err e) m') ->
  wp (put_if_revision key v prev) Q m.
Proof.
  intros Hg Happ Hmis Herr m' He. split; [auto|].
  intros r m'' Hp m3 He3.
  pose proof (evolves_put _ _ _ _ _ _ (Hg m' He) Hp) as He'.
  destruct Hp; eauto; apply Herr; etrans; eauto; by etrans.
Qed.

(** A compare-and-set over what was read at [m0]. *)
Lemma wp_put_over path value m0 m (Q : put_reply -> kv -> Prop) :
  evolves m0 m -> G path (value_of (m0 !! path)) value ->
  (forall e m1 m', e.(vv_value) = value -> evolves m m' ->
     evolves (<[path := e]> m1) m' -> Q (Ok Applied) m') ->
  (forall m', evolves m m' -> Q (Ok Mismatch) m') ->
  (forall e m', evolves m m' -> Q (Err e) m') ->
  wp (put_if_revision path value (rev_of (m0 !! path))) Q m.
Proof.
  intros He Hg Happ Hmis Herr.
  assert (Hsame : forall m1, evolves m m1 -> cas_matches (m1 !! path) (rev_of (m0 !! path)) = true ->
                  G path (value_of (m1 !! path)) value).
  { intros m1 Hm1 Hr%cas_rev. assert (m1 !! path = m0 !! path) as ->; [|done].
    eapply evolves_same_rev; [|exact Hr]. by etrans. }
  apply wp_put_if_revision; [exact Hsame| | |].
  - intros m1 rev m' Hm1 Hr Hlt Hm'. set (e := {| vv_value := value; vv_mod_revision := rev |}) in *.
    apply (Happ e m1 m'); [done| |done]. etrans; [exact Hm1|]. etrans; [|exact Hm'].
    apply evolves_insert; cbn; [apply cas_rev in Hr; lia|by apply Hsame].
  - intros m1 m' Hm1 _ Hm'. apply Hmis. by etrans.
  - intros e m' Hm'. by apply Herr.
Qed.

Lemma wp_with_lock (Q : S -> kv -> Prop) f m :
  (forall s m', evolves m m' -> J s m' -> J (f s) m') ->
  (forall s m', evolves m m' -> Q s m') ->
  wp (with_lock f) Q m.
Proof.
  intros Hj Hq s m' He Hs. split; [auto|]. intros m'' He'. apply Hq. by etrans.
Qed.

(** ** Every interleaving

    A configuration is a service state, the local state of every replica and
    the requests in flight, each on its replica.  A step runs one request up
    to its next await point, admits a new request, or drops one (a client
    disconnect or the timeout layer). *)
Context {A W : Type} `{ServiceLaws W}.
Context (admissible : prog S A -> Prop) (Q : A -> kv -> Prop).

Record config := {
  cf_service : W;
  cf_locals : list S;
  cf_requests : list (nat * prog S A)
}.

Inductive request_step : W -> S -> prog S A -> W -> S -> prog S A -> Prop :=
  | step_local w s f k : request_step w s (Local f k) w (f s) (k s)
  | step_get w s key k r w' :
      serve_get w key r w' -> request_step w s (Get key k) w' s (k r)
  | step_put w s key v prev k r w' :
      serve_put w key v prev r w' -> request_step w s (Put key v prev k) w' s (k r).

Inductive config_step : config -> config -> Prop :=
  | config_request w ls rs i n p s w' s' p' :
      rs !! i = Some (n, p) -> ls !! n = Some s ->
      request_step w s p w' s' p' ->
      config_step {| cf_service := w; cf_locals := ls; cf_requests := rs |}
                  {| cf_service := w'; cf_locals := <[n := s']> ls;
                     cf_requests := <[i := (n, p')]> rs |}
  | config_arrive w ls rs n p :
      admissible p ->
      config_step {| cf_service := w; cf_locals := ls; cf_requests := rs |}
                  {| cf_service := w; cf_locals := ls; cf_requests := rs ++ [(n, p)] |}
  | config_drop w ls rs1 r rs2 :
      config_step {| cf_service := w; cf_locals := ls; cf_requests := rs1 ++ r :: rs2 |}
                  {| cf_service := w; cf_locals := ls; cf_requests := rs1 ++ rs2 |}.

Context (m0 : kv).

Definition config_ok (c : config) : Prop :=
  evolves m0 (entries c.(cf_service))
  /\ Forall (fun s => J s (entries c.(cf_service))) c.(cf_locals)
  /\ Forall (fun r => wp (snd r) Q (entries c.(cf_service))) c.(cf_requests).

Context (J_stable : forall s m m', evolves m m' -> J s m -> J s m').
Context (admissible_wp : forall m p, evolves m0 m -> admissible p -> wp p Q m).

Lemma request_step_ok w s p w' s' p' :
  request_step w s p w' s' p' -> J s (entries w) -> wp p Q (entries w) ->
  evolves (entries w) (entries w') /\ J s' (entries w') /\ wp p' Q (entries w').
Proof.
  intros Hs Hj Hwp. destruct Hs as [w s f k|w s key k r w' Hg|w s key v prev k r w' Hp].
  - destruct (Hwp s (entries w)) as [? ?]; [done..|]. done.
  - apply serve_get_contract in Hg. pose proof (get_contract_state _ _ _ _ Hg) as Heq.
    rewrite Heq in *. split_and!; [done..|]. by apply Hwp.
  - apply serve_put_contract in Hp. destruct (Hwp (entries w)) as [Hg Hk]; [done|].
    pose proof (evolves_put _ _ _ _ _ _ Hg Hp).
    split_and!; [done | by eapply J_stable | by eapply Hk].
Qed.

Lemma config_step_ok c c' :
  config_step c c' -> config_ok c ->
  config_ok c' /\ evolves (entries c.(cf_service)) (entries c'.(cf_service)).
Proof.
  intros Hs (He & Hl & Hr).
  destruct Hs as [w ls rs i n p s w' s' p' Hi Hn Hs|w ls rs n p Ha|w ls rs1 r rs2]; cbn in *.
  - destruct (request_step_ok _ _ _ _ _ _ Hs) as (He' & Hj' & Hp').
    + exact (Forall_lookup_1 _ _ _ _ Hl Hn).
    + exact (Forall_lookup_1 _ _ _ _ Hr Hi).
    + split; [split_and!|done]; [by etrans| |].
      * apply Forall_insert; [|done]. eapply Forall_impl; [|exact Hl]. eauto.
      * apply Forall_insert; [|done]. eapply Forall_impl; [|exact Hr].
        intros ?. by apply wp_evolves.
  - split; [split_and!|done]; [done..|]. apply Forall_app. split; [done|].
    apply Forall_singleton. by apply admissible_wp.
  - split; [split_and!|done]; [done..|].
    rewrite Forall_app, List.Forall_cons_iff in Hr. apply Forall_app. tauto.
Qed.

Lemma config_steps_ok c c' :
  rtc config_step c c' -> config_ok c ->
  config_ok c' /\ evolves (entries c.(cf_service)) (entries c'.(cf_service)).
Proof.
  induction 1 as [|c1 c2 c3 Hs _ IH]; intros Hok; [done|].
  destruct (config_step_ok _ _ Hs Hok) as [Hok2 He]. destruct (IH Hok2) as [Hok3 He'].
  split; [done|]. by etrans.
Qed.

Lemma config_start_ok c :
  entries c.(cf_service) = m0 -> Forall (fun s => J s m0) c.(cf_locals) ->
  c.(cf_requests) = [] -> config_ok c.
Proof. intros Hm Hl Hr. split_and!; rewrite ?Hm, ?Hr; done. Qed.

(** Whatever the interleaving, the failures and the number of requests, the
    entries evolve by allowed changes and every finished request returned a
    result its postcondition admits. *)
Theorem system_safe c c' :
  entries c.(cf_service) = m0 ->
  Forall (fun s => J s m0) c.(cf_locals) -> c.(cf_requests) = [] ->
  rtc config_step c c' ->
  evolves m0 (entries c'.(cf_service))
  /\ forall n a, (n, Ret a) ∈ c'.(cf_requests) -> Q a (entries c'.(cf_service)).
Proof.
  intros Hm Hl Hr Hs.
  destruct (config_steps_ok _ _ Hs (config_start_ok _ Hm Hl Hr)) as [(He & _ & Hq) _].
  split; [done|]. intros n a Ha.
  rewrite list.Forall_forall in Hq. specialize (Hq _ Ha). by apply Hq.
Qed.

Lemma system_evolves c c1 c2 :
  entries c.(cf_service) = m0 ->
  Forall (fun s => J s m0) c.(cf_locals) -> c.(cf_requests) = [] ->
  rtc config_step c c1 -> rtc config_step c1 c2 ->
  evolves (entries c1.(cf_service)) (entries c2.(cf_service)).
Proof.
  intros Hm Hl Hr H1 H2.
  destruct (config_steps_ok _ _ H1 (config_start_ok _ Hm Hl Hr)) as [Hok _].
  by apply config_steps_ok.
Qed.
End logic.

(** ** Running a program alone *)

#[export] Instance mapkv_service : Service mapkv := {
  entries := mk_entries;
  serve_get w key r w' := r = mapkv_get w key /\ w' = w;
  serve_put w key v prev r w' := mapkv_wf w /\ mapkv_put w key v prev = (r, w')
}.

Lemma mapkv_put_wf w key v prev r w' :
  mapkv_wf w -> mapkv_put w key v prev = (r, w') -> mapkv_wf w'.
Proof.
  unfold mapkv_put. intros Hwf. case_match; intros [= <- <-]; [|done].
  intros key'. cbn. destruct (decide (key = key')) as [<-|Hne].
  - rewrite lookup_insert_eq. cbn. lia.
  - rewrite lookup_insert_ne by done. specialize (Hwf key'). lia.
Qed.

Lemma mapkv_put_contract w key v prev r w' :
  mapkv_wf w -> mapkv_put w key v prev = (r, w') ->
  put_contract (mk_entries w) key v prev r (mk_entries w').
Proof.
  unfold mapkv_put. intros Hwf. specialize (Hwf key).
  case_match eqn:Hc; intros [= <- <-]; constructor; try done. apply cas_rev in Hc. lia.
Qed.

#[export] Instance mapkv_laws : ServiceLaws mapkv.
Proof.
  split.
  - intros w key r w' [-> ->]. apply get_answered.
  - intros w key v prev r w' [Hwf Hp]. by apply mapkv_put_contract.
Qed.

Lemma mapkv_empty_wf : mapkv_wf mapkv_empty.
Proof. intros key. cbn. rewrite lookup_empty. cbn. lia. Qed.

Lemma run_pbind {S A B} (p : prog S A) (k : A -> prog S B) w s :
  run (pbind p k) w s = let '(a, w', s') := run p w s in run (k a) w' s'.
Proof.
  revert w s. induction p as [a|f c IH|key c IH|key v prev c IH]; intros w s; cbn; auto.
  destruct (mapkv_put w key v prev). auto.
Qed.

Lemma run_qbind {S E A B} (p : prog S (result E A)) (k : A -> prog S (result E B)) w s :
  run (qbind p k) w s
  = let '(r, w', s') := run p w s in
    match r with
    | Ok a => run (k a) w' s'
    | Err e => (Err e, w', s')
    end.
Proof. unfold qbind. rewrite run_pbind. destruct (run p w s) as [[[a|e] w'] s']; done. Qed.

Lemma run_pure_q {S E A B} (r : result E A) (k : A -> prog S (result E B)) w s :
  run (qbind (pure r) k) w s
  = match r with
    | Ok a => run (k a) w s
    | Err e => (Err e, w, s)
    end.
Proof. by destruct r. Qed.

(** A write at the revision that was read. *)
Definition written (w : mapkv) (path : string) (value : Value) : mapkv :=
  {| mk_entries := <[path := {| vv_value := value; vv_mod_revision := mk_next w |}]> (mk_entries w);
     mk_next := mk_next w + 1 |}.

Definition revisions_positive (w : mapkv) : Prop :=
  forall path e, mk_entries w !! path = Some e -> e.(vv_mod_revision) <> 0.

Lemma run_put {S} path value w (s : S) :
  revisions_positive w ->
  run (put_if_revision path value (rev_of (mk_entries w !! path))) w s
  = (Ok Applied, written w path value, s).
Proof.
  intros Hp. unfold put_if_revision. cbn. unfold mapkv_put.
  assert (cas_matches (mk_entries w !! path) (rev_of (mk_entries w !! path)) = true) as ->; [|done].
  destruct (mk_entries w !! path) as [e|] eqn:He; cbn; [|done].
  rewrite N.eqb_refl. specialize (Hp _ _ He). by destruct (N.eqb_spec (vv_mod_revision e) 0).
Qed.


Lemma written_positive w path value :
  w.(mk_next) <> 0 -> revisions_positive w -> revisions_positive (written w path value).
Proof.
  intros Hn Hp key e. cbn. destruct (decide (path = key)) as [<-|Hne].
  - rewrite lookup_insert_eq. by intros [= <-].
  - rewrite lookup_insert_ne by done. apply Hp.
Qed.

(** All revisions are positive, as a test. *)
Lemma bounded_revisions w :
  forallb (fun kv => negb (vv_mod_revision (snd kv) =? 0)) (map_to_list (mk_entries w)) = true ->
  revisions_positive w.
Proof.
  rewrite forallb_forall. intros Hall path e He%elem_of_map_to_list%list_elem_of_In Hz.
  specialize (Hall _ He). cbn in Hall. by rewrite Hz in Hall.
Qed.

(** What [wp] promises holds of the program run alone. *)
Lemma run_wp {S A} G J (p : prog S A) Q w s :
  (forall s m m', evolves G m m' -> J s m -> J s m') ->
  mapkv_wf w -> J s (mk_entries w) -> wp G J p Q (mk_entries w) ->
  forall a w' s', run p w s = (a, w', s') ->
  mapkv_wf w' /\ evolves G (mk_entries w) (mk_entries w') /\ J s' (mk_entries w')
  /\ Q a (mk_entries w').
Proof.
  intros HJ. revert w s.
  induction p as [a|f c IH|key c IH|key v prev c IH]; cbn; intros w s Hwf Hj Hp a' w' s' Hr.
  - injection Hr as <- <- <-. by split_and!; try apply Hp.
  - destruct (Hp s (mk_entries w)) as [? ?]; [done..|]. by eapply IH in Hr.
  - eapply IH in Hr; [done..|]. apply Hp; [done|]. apply get_answered.
  - destruct (mapkv_put w key v prev) as [r w1] eqn:Hput.
    destruct (Hp (mk_entries w)) as [Hg Hk]; [done|].
    pose proof (mapkv_put_contract _ _ _ _ _ _ Hwf Hput) as Hc.
    pose proof (evolves_put _ _ _ _ _ _ _ Hg Hc) as He.
    eapply IH in Hr as (? & ? & ? & ?); [split_and!; [done|by etrans|done|done]|..]; eauto.
    by eapply mapkv_put_wf.
Qed.

Lemma run_wf {S A} (p : prog S A) w s a w' s' :
  mapkv_wf w -> run p w s = (a, w', s') -> mapkv_wf w'.
Proof.
  revert w s. induction p as [x|f c IH|key c IH|key v prev c IH]; cbn; intros w s Hwf Hr.
  - by injection Hr as <- <- <-.
  - by eapply IH.
  - by eapply IH.
  - destruct (mapkv_put w key v prev) as [r w1] eqn:Hput.
    eapply IH; [by eapply mapkv_put_wf|done].
Qed.

(** A solo run, next to requests that do not move, is one of the
    interleavings. *)
Lemma run_steps_after {S A} (admissible : prog S A -> Prop) rs (p : prog S A) w s a w' s' :
  mapkv_wf w -> run p w s = (a, w', s') ->
  rtc (config_step admissible)
    {| cf_service := w; cf_locals := [s]; cf_requests := rs ++ [(0%nat, p)] |}
    {| cf_service := w'; cf_locals := [s']; cf_requests := rs ++ [(0%nat, Ret a)] |}.
Proof.
  assert (Hstep : forall w s p w' s' p' c,
    request_step w s p w' s' p' ->
    rtc (config_step admissible)
      {| cf_service := w'; cf_locals := [s']; cf_requests := rs ++ [(0%nat, p')] |} c ->
    rtc (config_step admissible)
      {| cf_service := w; cf_locals := [s]; cf_requests := rs ++ [(0%nat, p)] |} c).
  { intros w1 s1 p1 w2 s2 p2 c Hs. apply rtc_l.
    pose proof (config_request admissible w1 [s1] (rs ++ [(0%nat, p1)]) (length rs) 0 p1 s1 w2 s2 p2)
      as Hc.
    rewrite (list.insert_app_r_alt rs), Nat.sub_diag in Hc by lia. apply Hc; [by apply list_lookup_middle|done..]. }
  revert w s. induction p as [x|f c IH|key c IH|key v prev c IH]; cbn; intros w s Hwf Hr.
  - injection Hr as <- <- <-. done.
  - eapply Hstep; [apply step_local|]. by apply IH.
  - eapply Hstep; [by apply (step_get w s key c)|]. by apply IH.
  - destruct (mapkv_put w key v prev) as [r w1] eqn:Hput.
    eapply Hstep; [by apply (step_put w s key v prev c r w1)|].
    apply IH; [by eapply mapkv_put_wf|done].
Qed.
Lemma run_steps {S A} (admissible : prog S A -> Prop) (p : prog S A) w s a w' s' :
  mapkv_wf w -> run p w s = (a, w', s') ->
  rtc (config_step admissible)
    {| cf_service := w; cf_locals := [s]; cf_requests := [(0%nat, p)] |}
    {| cf_service := w'; cf_locals := [s']; cf_requests := [(0%nat, Ret a)] |}.
Proof. apply (run_steps_after admissible []). Qed.
