(* ===== verification/Interleave.v ===== *)
(** * Instants of a run, and runs turn by turn

    Two complements to the logic of [Kv.v], used by every system built on it:
    - requests tagged by whether they were admitted before or after some
      instant of a run, with what holds of both kinds, so that a theorem can
      speak of a state while older requests are still in flight;
    - an executable scheduler that gives the requests of a replica their turns
      in a chosen order, so that a race can be run on concrete values. *)
From Stdlib Require Import Ascii String.
From S2P Require Import Prelude Json Kv.

(** ** Requests before and after an instant *)

(** Requests that satisfy [admissible], whose results carry [late]. *)
Definition admitted {S A} (admissible : prog S A -> Prop) (late : bool)
    (p : prog S (bool * A)) : Prop :=
  exists q, admissible q /\ p = let! a := q in Ret (late, a).

(** A run of any number of replicas from [c0], in which nothing was running,
    through [c] to [c'].  Whatever was admitted before [c] may still be in
    flight there. *)
Definition through {S A W} `{Service W} (admissible : prog S A -> Prop)
    (c0 c c' : config (S:=S) (A:=bool * A) (W:=W)) : Prop :=
  c0.(cf_requests) = [] /\ rtc (config_step (admitted admissible false)) c0 c
  /\ rtc (config_step (admitted admissible true)) c c'.

Section stable.
Context {S : Type} (G : string -> option Value -> Value -> Prop) (J : S -> kv -> Prop).

(** A postcondition holds in every state the clients evolve to. *)
Lemma wp_stable {A} (p : prog S A) (Q : A -> kv -> Prop) m :
  wp G J p Q m -> wp G J p (fun a m1 => forall m2, evolves G m1 m2 -> Q a m2) m.
Proof.
  revert m. induction p as [a|f k IH|key k IH|key v prev k IH]; cbn; intros m H.
  - intros m1 H1 m2 H2. apply H. by etrans.
  - intros s m' He Hj. destruct (H s m' He Hj). auto.
  - eauto.
  - intros m' He. destruct (H m' He) as [Hg Hk]. eauto.
Qed.
Lemma wp_and {A} (p : prog S A) (Q Q' : A -> kv -> Prop) m :
  wp G J p Q m -> wp G J p Q' m -> wp G J p (fun a m' => Q a m' /\ Q' a m') m.
Proof.
  revert m. induction p as [a|f k IH|key k IH|key v prev k IH]; cbn; intros m H H'; eauto.
  - intros s m' He Hj. destruct (H s m' He Hj), (H' s m' He Hj). auto.
  - intros m' He. destruct (H m' He), (H' m' He). eauto.
Qed.
End stable.

Section phases.
Context {S A W : Type} `{ServiceLaws W}.
Context (G : string -> option Value -> Value -> Prop) (J : S -> kv -> Prop).
Context (admissible : prog S A -> Prop) (Q : kv -> A -> kv -> Prop).
Context (J_stable : forall s m m', evolves G m m' -> J s m -> J s m').
Context (admissible_wp :
  forall m0 m p, evolves G m0 m -> admissible p -> wp G J p (Q m0) m).
Notation system := (config (S:=S) (A:=bool * A) (W:=W)).
Notation state c := (entries c.(cf_service)).

Definition from_start (m0 : kv) (a : bool * A) (m : kv) : Prop := Q m0 a.2 m.
Definition from_instant (m0 m1 : kv) (a : bool * A) (m : kv) : Prop :=
  Q m0 a.2 m /\ (a.1 = true -> Q m1 a.2 m).

Lemma admitted_wp late (R : bool * A -> kv -> Prop) m0 m p :
  evolves G m0 m -> admitted admissible late p ->
  (forall a m', Q m0 a m' -> R (late, a) m') -> wp G J p R m.
Proof.
  intros He (q & Hq & ->) HR. apply wp_bind.
  eapply wp_mono; [|apply wp_stable; by apply admissible_wp].
  cbn. intros a m1 H1 m2 H2. apply HR. by apply H1.
Qed.

(** What requests of the first phase returned, whenever they finish, speaks
    of the start; what requests admitted after the instant [c] returned speaks
    of the state at [c] too, whatever was still in flight there. *)
Theorem phases_safe (c0 c c' : system) :
  through admissible c0 c c' -> Forall (fun s => J s (state c0)) c0.(cf_locals) ->
  evolves G (state c0) (state c) /\ evolves G (state c) (state c')
  /\ forall n a, (n, Ret a) ∈ c'.(cf_requests) ->
       from_instant (state c0) (state c) a (state c').
Proof.
  intros (Hi & H1 & H2) Hl.
  destruct (config_steps_ok G J (admitted admissible false)
              (fun a m => a.1 = false /\ from_start (state c0) a m) (state c0)) with (c:=c0) (c':=c)
    as [(He & Hl1 & Hr1) _]; [done| |done|by apply config_start_ok|].
  { intros m p He Hp. by eapply admitted_wp. }
  destruct (config_steps_ok G J (admitted admissible true)
              (from_instant (state c0) (state c)) (state c)) with (c:=c) (c':=c')
    as [(_ & _ & Hr2) He2]; [done| |done| |].
  - intros m p Hm Hp. destruct Hp as (q & Hq & ->). apply wp_bind.
    assert (Hw0 : wp G J q (Q (state c0)) m) by (apply admissible_wp; [by etrans|done]).
    assert (Hw1 : wp G J q (Q (state c)) m) by by apply admissible_wp.
    eapply wp_mono; [|apply wp_stable; exact (wp_and _ _ _ _ _ _ Hw0 Hw1)].
    cbn. intros a m1 Ha m2 Hm2. by destruct (Ha m2 Hm2).
  - split_and!; [done|done|]. eapply Forall_impl; [|exact Hr1]. intros [n p].
    apply wp_mono. intros [late a] m' [Hf Ha]. cbn in Hf. subst late. by split.
  - split_and!; [done|done|]. intros n a Ha. rewrite list.Forall_forall in Hr2.
    specialize (Hr2 _ Ha). by apply Hr2.
Qed.
End phases.

(** ** Turn by turn *)

Section turns.
Context {S A : Type}.

(** One replica: the service, the replica's local state and its requests. *)
Definition replica : Type := mapkv * S * list (prog S A).

(** One await point of a request. *)
Definition advance (p : prog S A) (w : mapkv) (s : S) : prog S A * mapkv * S :=
  match p with
  | Ret a => (Ret a, w, s)
  | Local f k => (k s, w, f s)
  | Get key k => (k (mapkv_get w key), w, s)
  | Put key v prev k => let (r, w') := mapkv_put w key v prev in (k r, w', s)
  end.
Definition turn (x : replica) (i : nat) : replica :=
  let '(w, s, ps) := x in
  match ps !! i with
  | Some p => let '(p', w', s') := advance p w s in (w', s', <[i := p']> ps)
  | None => x
  end.
Definition turns (order : list nat) (x : replica) : replica := fold_left turn order x.
Definition arrive (p : prog S A) (x : replica) : replica :=
  let '(w, s, ps) := x in (w, s, ps ++ [p]).
Definition as_config (x : replica) : config (S:=S) (A:=A) (W:=mapkv) :=
  let '(w, s, ps) := x in
  {| cf_service := w; cf_locals := [s]; cf_requests := pair 0%nat <$> ps |}.
Definition service_of (x : replica) : mapkv := x.1.1.

Lemma as_config_state x : entries (as_config x).(cf_service) = mk_entries (service_of x).
Proof. by destruct x as [[w s] ps]. Qed.

Context (admissible : prog S A -> Prop).

Lemma turn_steps x i :
  mapkv_wf (service_of x) ->
  mapkv_wf (service_of (turn x i))
  /\ rtc (config_step admissible) (as_config x) (as_config (turn x i)).
Proof.
  destruct x as [[w s] ps]. unfold turn. intros Hwf.
  destruct (ps !! i) as [p|] eqn:Hi; [|by split].
  assert (Hstep : forall p' w' s', request_step w s p w' s' p' ->
    rtc (config_step admissible) (as_config (w, s, ps)) (as_config (w', s', <[i := p']> ps))).
  { intros p' w' s' Hs. apply rtc_once. cbn. rewrite list_fmap_insert.
    apply (config_request admissible w [s] _ i 0%nat p s); [by rewrite list_lookup_fmap, Hi|done..]. }
  destruct p as [a|f k|key k|key v prev k]; cbn.
  - rewrite list_insert_id by done. by split.
  - split; [done|]. by apply Hstep, step_local.
  - split; [done|]. by apply Hstep, step_get.
  - destruct (mapkv_put w key v prev) as [r w'] eqn:Hput. cbn.
    split; [by eapply mapkv_put_wf|]. by apply Hstep, step_put.
Qed.
Lemma turns_steps order x :
  mapkv_wf (service_of x) ->
  mapkv_wf (service_of (turns order x))
  /\ rtc (config_step admissible) (as_config x) (as_config (turns order x)).
Proof.
  revert x. induction order as [|i order IH]; intros x Hwf; [by split|].
  destruct (turn_steps x i Hwf) as [Hwf1 H1]. destruct (IH _ Hwf1) as [Hwf2 H2].
  split; [done|]. by etrans.
Qed.
Lemma arrive_steps p x :
  admissible p -> rtc (config_step admissible) (as_config x) (as_config (arrive p x)).
Proof.
  destruct x as [[w s] ps]. intros Hp. apply rtc_once. cbn. rewrite fmap_app.
  by apply config_arrive.
Qed.
(** [ps] arrive and the requests take turns in [order]. *)
Definition phase (ps : list (prog S A)) (order : list nat) (x : replica) : replica :=
  turns order (fold_left (fun x p => arrive p x) ps x).
Lemma phase_steps ps order x :
  mapkv_wf (service_of x) -> Forall admissible ps ->
  mapkv_wf (service_of (phase ps order x))
  /\ rtc (config_step admissible) (as_config x) (as_config (phase ps order x)).
Proof.
  unfold phase. intros Hwf Hps. revert x Hwf.
  induction Hps as [|p ps Hp _ IH]; intros x Hwf; cbn [fold_left]; [by apply turns_steps|].
  destruct (IH (arrive p x)) as [Hwf' Hs]; [by destruct x as [[w s] qs]|].
  split; [done|]. etrans; [by apply arrive_steps|done].
Qed.
Lemma in_config x i p : x.2 !! i = Some p -> (0%nat, p) ∈ (as_config x).(cf_requests).
Proof.
  destruct x as [[w s] ps]. cbn. intros Hi. apply list_elem_of_fmap.
  exists p. split; [done|]. by eapply list_elem_of_lookup_2.
Qed.
End turns.

(** A race on concrete values is a run through the instant between its two
    phases. *)
Section race.
Context {S A : Type} (admissible : prog S A -> Prop).

Definition tag (late : bool) (p : prog S A) : prog S (bool * A) := let! a := p in Ret (late, a).
Lemma tag_admitted late ps :
  Forall admissible ps -> Forall (admitted admissible late) (tag late <$> ps).
Proof.
  intros Hps. apply Forall_fmap. eapply Forall_impl; [|exact Hps]. intros p Hp. by exists p.
Qed.

Lemma race_through {w s ps1 ps2 order1 order2 x1 x2} :
  x1 = phase (tag false <$> ps1) order1 (w, s, []) -> x2 = phase (tag true <$> ps2) order2 x1 ->
  mapkv_wf w -> Forall admissible ps1 -> Forall admissible ps2 ->
  through admissible (as_config (w, s, [])) (as_config x1) (as_config x2).
Proof.
  intros -> -> Hwf H1%(tag_admitted false) H2%(tag_admitted true).
  destruct (phase_steps _ _ order1 (w, s, []) Hwf H1) as [Hwf1 Hs1].
  destruct (phase_steps _ _ order2 _ Hwf1 H2) as [_ Hs2]. by split_and!.
Qed.
End race.
