(* ===== verification/Ledger.v ===== *)
(** * The revocation ledger ([src/src/revocation.rs], data and transitions)

    Selectors, requests and the per-target ledger: a bounded, append-only,
    hash-chained list of revoke and lift events.  Methods that take
    [&mut self] return the ledger they leave behind together with their
    result, since the code updates it before its last check. *)
From Stdlib Require Import Ascii String.
From S2P Require Import Prelude Text Wire Json Token Kv.

Definition LEDGER_VERSION : N := 1.
Definition MAX_CAS_RETRIES : nat := 8.
Definition INTERNAL_ISSUER : string := "fiducia-auth".
Definition INTERNAL_AUDIENCE : string := "fiducia-api".
Definition MAX_TRANSITIONS_PER_TARGET : nat := 32.

Inductive RevocationError :=
  | RE_Store (e : StoreError)
  | RE_Contract (e : RevocationRecordError)
  | RE_InvalidMutation (field : string)
  | RE_InvalidClaims
  | RE_InvalidLedger
  | RE_IdempotencyConflict
  | RE_NotFound
  | RE_NotActive
  | RE_TransitionLimit
  | RE_CasRetriesExhausted.

Inductive RevocationSelector :=
  | Selector_TokenId (tenant_id jti : string)
  | Selector_Subject (tenant_id subject : string).

Inductive RevokeRequest :=
  | Revoke_TokenId (claims : Claims) (reason : string)
  | Revoke_Subject (tenant_id subject : string) (expires_at : N) (reason : string).

Record LiftRequest := {
  lift_selector : RevocationSelector;
  lift_reason : string
}.

Record MutationIdentity := {
  mi_actor : string;
  mi_idempotency_key : string
}.

Inductive RevocationAction :=
  | Action_Revoke (record : RevocationRecord)
  | Action_Lift (actor reason : string) (at_ : N).

Record RevocationEvent := {
  ev_sequence : N;
  ev_action : RevocationAction;
  ev_idempotency_hash : string;
  ev_request_hash : string;
  ev_previous_hash : string;
  ev_event_hash : string
}.

Record RevocationLedger := {
  lg_version : N;
  lg_storage_key : string;
  lg_events : list RevocationEvent
}.

Inductive RevocationStatus := Pending | Active | Lifted | Expired.

Record RevocationSnapshot := {
  sn_storage_key : string;
  sn_generation : N;
  sn_status : RevocationStatus;
  sn_expires_at : option N
}.

Inductive MatchedTarget := Matched_TokenId | Matched_Subject.

Record RevocationDecision := {
  dc_revoked : bool;
  dc_matched_target : option MatchedTarget;
  dc_generation : option N;
  dc_expires_at : option N
}.

#[export] Instance RevocationAction_eq_dec : EqDecision RevocationAction.
Proof. solve_decision. Defined.
#[export] Instance RevocationEvent_eq_dec : EqDecision RevocationEvent.
Proof. solve_decision. Defined.
#[export] Instance RevocationLedger_eq_dec : EqDecision RevocationLedger.
Proof. solve_decision. Defined.
#[export] Instance RevocationSelector_eq_dec : EqDecision RevocationSelector.
Proof. solve_decision. Defined.

(** ** Input validation *)

Definition validate_identifier (field value : string) : result RevocationError unit :=
  let value := trim value in
  reject str_is_empty value || (256 <? str_len value)
         || (any_control value || any_whitespace value)
    with RE_InvalidMutation field ;;
  Ok tt.

Definition validate_audit_text (field value : string) (maximum : N)
  : result RevocationError unit :=
  let value := trim value in
  reject str_is_empty value || (maximum <? str_len value) || any_control value
    with RE_InvalidMutation field ;;
  Ok tt.

Definition validate_mutation (mutation : MutationIdentity) : result RevocationError unit :=
  let? _ := validate_audit_text "actor" mutation.(mi_actor) 128 in
  let idempotency_key := trim mutation.(mi_idempotency_key) in
  reject str_is_empty idempotency_key || (128 <? str_len idempotency_key)
         || (any_control idempotency_key || any_whitespace idempotency_key)
    with RE_InvalidMutation "idempotency_key" ;;
  Ok tt.

Definition validate_internal_claims (claims : Claims) : result RevocationError unit :=
  reject negb (claims.(c_iss) =? INTERNAL_ISSUER)%string
         || negb (claims.(c_aud) =? INTERNAL_AUDIENCE)%string
    with RE_InvalidClaims ;;
  let? _ := validate_identifier "tenant_id" claims.(c_org_id) in
  let? _ := validate_identifier "subject" claims.(c_sub) in
  let? _ := validate_identifier "jti" claims.(c_jti) in
  reject (claims.(c_exp) <=? claims.(c_iat))
         || (MAX_ACCESS_TOKEN_TTL_SECS <? claims.(c_exp) - claims.(c_iat))
    with RE_InvalidClaims ;;
  Ok tt.

Definition is_sha256_hex (value : string) : bool :=
  (String.length value =? 64)%nat && all_bytes lower_hex_byte value.

(** ** Selectors and requests *)

Definition selector_tenant_id (self : RevocationSelector) : string :=
  match self with
  | Selector_TokenId tenant_id _ | Selector_Subject tenant_id _ => tenant_id
  end.
Definition selector_target_kind (self : RevocationSelector) : string :=
  match self with
  | Selector_TokenId _ _ => "token_id"
  | Selector_Subject _ _ => "subject"
  end.
Definition selector_target_value (self : RevocationSelector) : string :=
  match self with
  | Selector_TokenId _ jti => jti
  | Selector_Subject _ subject => subject
  end.

Definition request_selector (self : RevokeRequest) : RevocationSelector :=
  match self with
  | Revoke_TokenId claims _ => Selector_TokenId claims.(c_org_id) claims.(c_jti)
  | Revoke_Subject tenant_id subject _ _ => Selector_Subject tenant_id subject
  end.

Definition request_record (self : RevokeRequest) (actor : string) (now : N)
  : result RevocationError RevocationRecord :=
  match self with
  | Revoke_TokenId claims reason =>
      let? _ := validate_internal_claims claims in
      map_err RE_Contract (for_token claims reason actor now)
  | Revoke_Subject tenant_id subject expires_at reason =>
      map_err RE_Contract (for_subject tenant_id subject reason actor now expires_at)
  end.

(** [RevocationAction::at]. *)
Definition action_at (self : RevocationAction) : N :=
  match self with
  | Action_Revoke record => record.(r_created_at)
  | Action_Lift _ _ at_ => at_
  end.

Section crypto.
Context `{Crypto, ToVec RevocationAction}.

Definition digest_byte_parts (parts : list string) : string :=
  hex_lower (sha256 (framed parts)).
Definition digest_text_parts (parts : list string) : string := digest_byte_parts parts.

Definition mutation_hash (action key actor idempotency_key : string) : string :=
  digest_text_parts [action; key; trim actor; trim idempotency_key].

Definition selector_storage_key (self : RevocationSelector) : result RevocationError string :=
  let? _ := validate_identifier "tenant_id" (selector_tenant_id self) in
  let? _ := validate_identifier (selector_target_kind self) (selector_target_value self) in
  let digest := digest_text_parts
    [INTERNAL_ISSUER; INTERNAL_AUDIENCE; selector_tenant_id self;
     selector_target_kind self; selector_target_value self] in
  Ok ("auth/revocations/v" +:+ decimal REVOCATION_RECORD_VERSION +:+ "/" +:+ digest).

Definition request_hash (self : RevokeRequest) : string :=
  match self with
  | Revoke_TokenId claims reason =>
      digest_text_parts
        ["revoke"; "token_id"; claims.(c_iss); claims.(c_aud); claims.(c_org_id);
         claims.(c_sub); claims.(c_jti); decimal claims.(c_iat); decimal claims.(c_exp);
         trim reason]
  | Revoke_Subject tenant_id subject expires_at reason =>
      digest_text_parts
        ["revoke"; "subject"; tenant_id; subject; decimal expires_at; trim reason]
  end.

Definition lift_request_hash (self : LiftRequest) : string :=
  digest_text_parts
    ["lift"; selector_target_kind self.(lift_selector); selector_tenant_id self.(lift_selector);
     selector_target_value self.(lift_selector); trim self.(lift_reason)].

Definition event_hash (sequence : N) (action : RevocationAction)
    (idempotency_hash request_hash previous_hash : string) : result RevocationError string :=
  let? action := ok_or (to_vec action) RE_InvalidLedger in
  Ok (digest_byte_parts
        [be_bytes 8 sequence; action; idempotency_hash; request_hash; previous_hash]).

(** [RevocationEvent::new]. *)
Definition event_new (sequence : N) (action : RevocationAction)
    (idempotency_hash request_hash previous_hash : string)
  : result RevocationError RevocationEvent :=
  let? hash := event_hash sequence action idempotency_hash request_hash previous_hash in
  Ok {| ev_sequence := sequence; ev_action := action;
        ev_idempotency_hash := idempotency_hash; ev_request_hash := request_hash;
        ev_previous_hash := previous_hash; ev_event_hash := hash |}.

Definition validate_hash (self : RevocationEvent) : result RevocationError unit :=
  reject negb (is_sha256_hex self.(ev_idempotency_hash))
         || negb (is_sha256_hex self.(ev_request_hash))
         || (negb (str_is_empty self.(ev_previous_hash))
             && negb (is_sha256_hex self.(ev_previous_hash)))
         || negb (is_sha256_hex self.(ev_event_hash))
    with RE_InvalidLedger ;;
  let? expected := event_hash self.(ev_sequence) self.(ev_action)
                     self.(ev_idempotency_hash) self.(ev_request_hash)
                     self.(ev_previous_hash) in
  reject negb (expected =? self.(ev_event_hash))%string with RE_InvalidLedger ;;
  Ok tt.

(** ** The ledger *)

Definition generation (self : RevocationLedger) : N :=
  from_option ev_sequence 0 (list.last self.(lg_events)).

Fixpoint current_from (current : option RevocationRecord) (events : list RevocationEvent)
  : option RevocationRecord :=
  match events with
  | [] => current
  | event :: rest =>
      match event.(ev_action) with
      | Action_Revoke record => current_from (Some record) rest
      | Action_Lift _ _ _ => current_from None rest
      end
  end.
Definition current_record (self : RevocationLedger) : option RevocationRecord :=
  current_from None self.(lg_events).

(** [iter().rev().find_map(..)]. *)
Fixpoint find_expiry (events : list RevocationEvent) : option N :=
  match events with
  | [] => None
  | event :: rest =>
      match event.(ev_action) with
      | Action_Revoke record => Some record.(r_expires_at)
      | Action_Lift _ _ _ => find_expiry rest
      end
  end.
Definition latest_expiry (self : RevocationLedger) : option N :=
  find_expiry (rev self.(lg_events)).

Fixpoint replay_from (storage_key : string) (latest : option N)
    (idempotency_hash request_hash : string) (events : list RevocationEvent)
  : result RevocationError (option RevocationSnapshot) :=
  match events with
  | [] => Ok None
  | event :: rest =>
      let latest :=
        match event.(ev_action) with
        | Action_Revoke record => Some record.(r_expires_at)
        | Action_Lift _ _ _ => latest
        end in
      if negb (event.(ev_idempotency_hash) =? idempotency_hash)%string
      then replay_from storage_key latest idempotency_hash request_hash rest
      else
        reject negb (event.(ev_request_hash) =? request_hash)%string
          with RE_IdempotencyConflict ;;
        let status :=
          match event.(ev_action) with
          | Action_Revoke _ => Active
          | Action_Lift _ _ _ => Lifted
          end in
        Ok (Some {| sn_storage_key := storage_key; sn_generation := event.(ev_sequence);
                    sn_status := status; sn_expires_at := latest |})
  end.
Definition replay_snapshot (self : RevocationLedger) (idempotency_hash request_hash : string)
  : result RevocationError (option RevocationSnapshot) :=
  replay_from self.(lg_storage_key) None idempotency_hash request_hash self.(lg_events).

Definition ensure_capacity (self : RevocationLedger) : result RevocationError unit :=
  reject (MAX_TRANSITIONS_PER_TARGET <=? length self.(lg_events))%nat
    with RE_TransitionLimit ;;
  Ok tt.

(** The body of the loop of [validate]: [index] is the loop index,
    [seen] the set of idempotency hashes. *)
Fixpoint validate_events (storage_key : string) (index : N) (expected_previous : string)
    (last_at : N) (current : option RevocationRecord) (seen : gset string)
    (events : list RevocationEvent) : result RevocationError unit :=
  match events with
  | [] => Ok tt
  | event :: rest =>
      reject negb (event.(ev_sequence) =? index + 1)
             || negb (event.(ev_previous_hash) =? expected_previous)%string
             || (action_at event.(ev_action) <? last_at)
             || bool_decide (event.(ev_idempotency_hash) ∈ seen)
        with RE_InvalidLedger ;;
      let? _ := validate_hash event in
      let? current :=
        match event.(ev_action) with
        | Action_Revoke record =>
            let? _ := map_err (fun _ => RE_InvalidLedger) (record_validate record) in
            let? key := map_err (fun _ => RE_InvalidLedger) (record_storage_key record) in
            reject negb (key =? storage_key)%string with RE_InvalidLedger ;;
            Ok (Some record)
        | Action_Lift actor reason at_ =>
            let? _ := map_err (fun _ => RE_InvalidLedger)
                        (validate_audit_text "actor" actor 128) in
            let? _ := map_err (fun _ => RE_InvalidLedger)
                        (validate_audit_text "reason" reason 256) in
            let? active := ok_or current RE_InvalidLedger in
            reject (at_ <? active.(r_created_at)) || (active.(r_expires_at) <=? at_)
              with RE_InvalidLedger ;;
            Ok None
        end in
      validate_events storage_key (index + 1) event.(ev_event_hash)
        (action_at event.(ev_action)) current ({[ event.(ev_idempotency_hash) ]} ∪ seen) rest
  end.

(** [RevocationLedger::validate]. *)
Definition ledger_validate (self : RevocationLedger) : result RevocationError unit :=
  reject negb (self.(lg_version) =? LEDGER_VERSION)
         || (length self.(lg_events) =? 0)%nat
         || (MAX_TRANSITIONS_PER_TARGET <? length self.(lg_events))%nat
    with RE_InvalidLedger ;;
  validate_events self.(lg_storage_key) 0 EmptyString 0 None ∅ self.(lg_events).

(** [RevocationLedger::new]. *)
Definition ledger_new (storage_key : string) (record : RevocationRecord)
    (idempotency_hash request_hash : string) : result RevocationError RevocationLedger :=
  let? event := event_new 1 (Action_Revoke record) idempotency_hash request_hash EmptyString in
  let ledger := {| lg_version := LEDGER_VERSION; lg_storage_key := storage_key;
                   lg_events := [event] |} in
  let? _ := ledger_validate ledger in
  Ok ledger.

Definition last_hash (self : RevocationLedger) : string :=
  from_option ev_event_hash EmptyString (list.last self.(lg_events)).
Definition push_event (self : RevocationLedger) (event : RevocationEvent) : RevocationLedger :=
  {| lg_version := self.(lg_version); lg_storage_key := self.(lg_storage_key);
     lg_events := self.(lg_events) ++ [event] |}.

Definition append_revoke (self : RevocationLedger) (record : RevocationRecord)
    (idempotency_hash request_hash : string)
  : RevocationLedger * result RevocationError unit :=
  match ensure_capacity self with
  | Err e => (self, Err e)
  | Ok _ =>
      match event_new (generation self + 1) (Action_Revoke record)
              idempotency_hash request_hash (last_hash self) with
      | Err e => (self, Err e)
      | Ok event =>
          let self := push_event self event in
          (self, ledger_validate self)
      end
  end.

Definition append_lift (self : RevocationLedger) (actor reason : string) (at_ : N)
    (idempotency_hash request_hash : string)
  : RevocationLedger * result RevocationError unit :=
  let checked :=
    let? _ := ensure_capacity self in
    let? active := ok_or (current_record self) RE_NotActive in
    reject negb (is_active_at active at_) with RE_NotActive ;;
    let? _ := validate_audit_text "actor" actor 128 in
    let? _ := validate_audit_text "reason" reason 256 in
    event_new (generation self + 1) (Action_Lift (trim actor) (trim reason) at_)
      idempotency_hash request_hash (last_hash self) in
  match checked with
  | Err e => (self, Err e)
  | Ok event =>
      let self := push_event self event in
      (self, ledger_validate self)
  end.

Definition snapshot (self : RevocationLedger) (now : N) : RevocationSnapshot :=
  let status :=
    match current_record self with
    | Some record =>
        if now <? record.(r_created_at) then Pending
        else if is_active_at record now then Active
        else Expired
    | None => Lifted
    end in
  {| sn_storage_key := self.(lg_storage_key); sn_generation := generation self;
     sn_status := status; sn_expires_at := latest_expiry self |}.
End crypto.
