(* ===== verification/LedgerFacts.v ===== *)
(** * Facts about the revocation ledger

    The invariant [ledger_validate] checks, how the transitions of
    [Ledger.v] preserve it, idempotent replay, and the tamper evidence of the
    hash chain. *)
From Stdlib Require Import Ascii String.
From S2P Require Import Prelude Text Wire Json Token Kv Ledger.

Section facts.
Context `{Crypto, ToVec RevocationAction}.
Implicit Types (ev : RevocationEvent) (evs : list RevocationEvent) (l : RevocationLedger).

(** The accumulators of the validation loop after a list of events. *)
Definition hash_after (p : string) evs : string :=
  from_option ev_event_hash p (list.last evs).
Definition time_after (t : N) evs : N :=
  from_option (fun ev => action_at ev.(ev_action)) t (list.last evs).
Definition seen_after (s : gset string) evs : gset string :=
  list_to_set (ev_idempotency_hash <$> evs) ∪ s.

(** One iteration of the loop, as a predicate. *)
Definition action_ok (key : string) (current : option RevocationRecord)
    (a : RevocationAction) : Prop :=
  match a with
  | Action_Revoke record => record_storage_key record = Ok key
  | Action_Lift actor reason at_ =>
      is_ok (validate_audit_text "actor" actor 128) = true
      /\ is_ok (validate_audit_text "reason" reason 256) = true
      /\ exists active, current = Some active
         /\ active.(r_created_at) <= at_ < active.(r_expires_at)
  end.
Record event_ok (key : string) (index : N) (prev : string) (last_at : N)
    (current : option RevocationRecord) (seen : gset string) ev : Prop := {
  eo_sequence : ev.(ev_sequence) = index + 1;
  eo_previous : ev.(ev_previous_hash) = prev;
  eo_time : last_at <= action_at ev.(ev_action);
  eo_fresh : ev.(ev_idempotency_hash) ∉ seen;
  eo_hash : validate_hash ev = Ok tt;
  eo_action : action_ok key current ev.(ev_action)
}.

Lemma validate_events_cons key i p t c s ev evs :
  validate_events key i p t c s (ev :: evs) = Ok tt <->
  event_ok key i p t c s ev
  /\ validate_events key (i + 1) ev.(ev_event_hash) (action_at ev.(ev_action))
       (current_from c [ev]) ({[ ev.(ev_idempotency_hash) ]} ∪ s) evs = Ok tt.
Proof.
  cbn [validate_events current_from].
  rewrite reject_ok, !orb_false_iff, !negb_false_iff, N.eqb_eq, String.eqb_eq,
    N.ltb_ge, bool_decide_eq_false.
  split.
  - intros [[[[? ?] ?] ?] ([] & Hh & (c' & Ha & Hrest)%rbind_ok)%rbind_ok].
    assert (action_ok key c (ev_action ev) /\ c' = current_from c [ev]) as [? ->].
    { unfold action_ok. cbn. destruct (ev_action ev); inv_ok; [done|].
      split; [|done]. split_and!; [by apply is_ok_true; eauto..|].
      eexists. split; [done|]. lia. }
    split; [by constructor|]. cbn in Hrest. destruct (ev_action ev); done.
  - intros [[Hs Hp Ht Hf Hh Ha] Hrest]. split_and!; try done.
    rewrite Hh. cbn [rbind]. apply rbind_ok.
    destruct (ev_action ev) as [r|actor reason at_]; cbn in Ha.
    + exists (Some r). split; [|done].
      apply record_storage_key_iff in Ha as Hr. destruct Hr as [[u Hr]%is_ok_true _].
      rewrite Hr, Ha. cbn. by rewrite String.eqb_refl.
    + exists None. split; [|done]. destruct Ha as ([u1 H1]%is_ok_true & [u2 H2]%is_ok_true & a & -> & Hw).
      rewrite H1, H2. cbn. destruct (N.ltb_spec at_ (r_created_at a)); [lia|].
      destruct (N.leb_spec (r_expires_at a) at_); [lia|]. done.
Qed.

Lemma current_from_app c evs1 evs2 :
  current_from c (evs1 ++ evs2) = current_from (current_from c evs1) evs2.
Proof. revert c. induction evs1 as [|ev evs1 IH]; intros c; cbn; [done|]. by case_match. Qed.

Lemma hash_after_cons p ev evs : hash_after p (ev :: evs) = hash_after (ev_event_hash ev) evs.
Proof. unfold hash_after. destruct evs as [|e evs _] using rev_ind; [done|].
  by rewrite app_comm_cons, !last_snoc. Qed.
Lemma time_after_cons t ev evs :
  time_after t (ev :: evs) = time_after (action_at (ev_action ev)) evs.
Proof. unfold time_after. destruct evs as [|e evs _] using rev_ind; [done|].
  by rewrite app_comm_cons, !last_snoc. Qed.

(** Validation of a concatenation is validation of its parts in sequence. *)
Lemma validate_events_app key i p t c s evs1 evs2 :
  validate_events key i p t c s (evs1 ++ evs2) = Ok tt <->
  validate_events key i p t c s evs1 = Ok tt
  /\ validate_events key (i + N.of_nat (length evs1)) (hash_after p evs1) (time_after t evs1)
       (current_from c evs1) (seen_after s evs1) evs2 = Ok tt.
Proof.
  revert i p t c s. induction evs1 as [|ev evs1 IH]; intros i p t c s.
  - cbn [app length]. unfold seen_after. cbn. rewrite N.add_0_r.
    replace (∅ ∪ s) with s by set_solver. tauto.
  - cbn [app]. rewrite !validate_events_cons, IH, hash_after_cons, time_after_cons.
    change (current_from c (ev :: evs1)) with (current_from c ([ev] ++ evs1)).
    rewrite current_from_app.
    replace (i + N.of_nat (length (ev :: evs1))) with (i + 1 + N.of_nat (length evs1))
      by (cbn; lia).
    replace (seen_after s (ev :: evs1))
      with (seen_after ({[ev_idempotency_hash ev]} ∪ s) evs1)
      by (unfold seen_after; cbn; set_solver).
    tauto.
Qed.

Lemma validate_events_snoc key evs ev :
  validate_events key 0 EmptyString 0 None ∅ (evs ++ [ev]) = Ok tt <->
  validate_events key 0 EmptyString 0 None ∅ evs = Ok tt
  /\ event_ok key (N.of_nat (length evs)) (hash_after EmptyString evs) (time_after 0 evs)
       (current_from None evs) (seen_after ∅ evs) ev.
Proof.
  rewrite validate_events_app, validate_events_cons. cbn [validate_events].
  rewrite N.add_0_l. tauto.
Qed.

Definition valid l : Prop := ledger_validate l = Ok tt.

Lemma valid_iff l :
  valid l <->
  l.(lg_version) = LEDGER_VERSION /\ (1 <= length l.(lg_events) <= MAX_TRANSITIONS_PER_TARGET)%nat
  /\ validate_events l.(lg_storage_key) 0 EmptyString 0 None ∅ l.(lg_events) = Ok tt.
Proof.
  unfold valid, ledger_validate.
  rewrite reject_ok, !orb_false_iff, negb_false_iff, N.eqb_eq, Nat.eqb_neq, Nat.ltb_ge. split.
  - intros [[[? ?] ?] ?]. split_and!; [done | lia | done | done].
  - intros (? & ? & ?). split_and!; [done | lia | lia | done].
Qed.

Lemma generation_valid l : valid l -> generation l = N.of_nat (length l.(lg_events)).
Proof.
  intros (_ & Hn & Hv)%valid_iff. unfold generation.
  destruct (lg_events l) as [|ev evs _] using rev_ind; [cbn in Hn; lia|].
  apply validate_events_snoc in Hv as [_ Hev]. rewrite last_snoc. cbn.
  rewrite (eo_sequence _ _ _ _ _ _ _ Hev), length_app. cbn. lia.
Qed.

(** A record that is current in a valid ledger is valid and belongs to it. *)
Lemma current_from_valid key evs r :
  validate_events key 0 EmptyString 0 None ∅ evs = Ok tt ->
  current_from None evs = Some r -> record_storage_key r = Ok key.
Proof.
  induction evs as [|ev evs IH] using rev_ind; [done|].
  rewrite validate_events_snoc, current_from_app. intros [Hv Hev] Hc.
  pose proof (eo_action _ _ _ _ _ _ _ Hev) as Ha. cbn in Hc.
  destruct (ev_action ev); [by injection Hc as <- | done].
Qed.

Lemma current_record_ok l r :
  valid l -> current_record l = Some r ->
  record_storage_key r = Ok l.(lg_storage_key) /\ is_ok (record_validate r) = true.
Proof.
  intros (_ & _ & Hv)%valid_iff Hc. pose proof (current_from_valid _ _ _ Hv Hc) as Hk.
  split; [done|]. by apply record_storage_key_iff in Hk as [? _].
Qed.

Lemma seen_after_empty evs h :
  h ∈ seen_after ∅ evs <-> h ∈ ev_idempotency_hash <$> evs.
Proof. unfold seen_after. rewrite elem_of_union, elem_of_list_to_set. set_solver. Qed.

(** Every accepted transition has its own idempotency identity. *)
Lemma idempotency_nodup key evs :
  validate_events key 0 EmptyString 0 None ∅ evs = Ok tt ->
  NoDup (ev_idempotency_hash <$> evs).
Proof.
  induction evs as [|ev evs IH] using rev_ind; [constructor|].
  rewrite validate_events_snoc, fmap_app. intros [Hv Hev].
  apply list.NoDup_app. split_and!; [auto | | apply NoDup_singleton].
  intros h Hh%seen_after_empty. cbn. rewrite list_elem_of_singleton. intros ->.
  by apply (eo_fresh _ _ _ _ _ _ _ Hev).
Qed.

(** The history of a target: what a later valid ledger keeps. *)
Definition extends l l' : Prop :=
  l.(lg_storage_key) = l'.(lg_storage_key) /\ l.(lg_events) `prefix_of` l'.(lg_events).

(** ** Appending *)

(** The event an operation appends to a valid ledger is acceptable. *)
Definition next_ok l ev : Prop :=
  event_ok l.(lg_storage_key) (N.of_nat (length l.(lg_events))) (last_hash l)
    (time_after 0 l.(lg_events)) (current_record l) (seen_after ∅ l.(lg_events)) ev.

Lemma push_valid_iff l ev :
  valid l ->
  valid (push_event l ev) <->
  (length l.(lg_events) < MAX_TRANSITIONS_PER_TARGET)%nat /\ next_ok l ev.
Proof.
  rewrite !valid_iff. cbn [push_event lg_version lg_storage_key lg_events].
  rewrite length_app, validate_events_snoc. cbn [length]. intros (? & ? & ?).
  unfold next_ok, last_hash, hash_after, current_record, MAX_TRANSITIONS_PER_TARGET in *.
  split; intros; destruct_and!; split_and!; done || lia.
Qed.

Lemma event_new_iff seq a ih rh prev ev :
  event_new seq a ih rh prev = Ok ev <->
  exists bytes, to_vec a = Some bytes
  /\ ev = {| ev_sequence := seq; ev_action := a; ev_idempotency_hash := ih;
             ev_request_hash := rh; ev_previous_hash := prev;
             ev_event_hash := digest_byte_parts [be_bytes 8 seq; bytes; ih; rh; prev] |}.
Proof.
  unfold event_new, event_hash. destruct (to_vec a) as [bytes|]; cbn; [|naive_solver].
  split; [intros [= <-]; eauto | by intros (? & [= <-] & ->)].
Qed.

Lemma validate_hash_iff ev :
  validate_hash ev = Ok tt <->
  is_sha256_hex ev.(ev_idempotency_hash) = true /\ is_sha256_hex ev.(ev_request_hash) = true
  /\ (ev.(ev_previous_hash) = EmptyString \/ is_sha256_hex ev.(ev_previous_hash) = true)
  /\ is_sha256_hex ev.(ev_event_hash) = true
  /\ exists bytes, to_vec ev.(ev_action) = Some bytes
     /\ ev.(ev_event_hash) = digest_byte_parts
          [be_bytes 8 ev.(ev_sequence); bytes; ev.(ev_idempotency_hash);
           ev.(ev_request_hash); ev.(ev_previous_hash)].
Proof.
  unfold validate_hash, event_hash.
  rewrite reject_ok, !orb_false_iff, andb_false_iff, !negb_false_iff.
  assert (He : str_is_empty (ev_previous_hash ev) = true <-> ev_previous_hash ev = EmptyString)
    by (by destruct (ev_previous_hash ev)).
  rewrite He. destruct (to_vec (ev_action ev)) as [bytes|]; cbn; [|naive_solver].
  destruct (String.eqb_spec (digest_byte_parts
    [be_bytes 8 (ev_sequence ev); bytes; ev_idempotency_hash ev; ev_request_hash ev;
     ev_previous_hash ev]) (ev_event_hash ev)) as [Heq|Hne]; cbn.
  - split; [intros Hc; split_and!; [tauto..|eauto] | tauto].
  - split; [naive_solver|]. intros (_ & _ & _ & _ & b & [= <-] & Hb). congruence.
Qed.

(** The chain value is empty only before the first event. *)
Lemma hash_after_shape key evs :
  validate_events key 0 EmptyString 0 None ∅ evs = Ok tt ->
  (evs = [] /\ hash_after EmptyString evs = EmptyString)
  \/ (evs <> [] /\ is_sha256_hex (hash_after EmptyString evs) = true).
Proof.
  destruct evs as [|ev evs _] using rev_ind; [by left|]. right.
  split; [by destruct evs|]. apply validate_events_snoc in H1 as [_ Hev].
  unfold hash_after. rewrite last_snoc. cbn.
  pose proof (eo_hash _ _ _ _ _ _ _ Hev) as Hh. apply validate_hash_iff in Hh. tauto.
Qed.
End facts.

Section hashed.
Context `{CryptoLaws, ToVec RevocationAction}.
Implicit Types (ev : RevocationEvent) (l : RevocationLedger).

Lemma digest_hex parts : is_sha256_hex (digest_byte_parts parts) = true.
Proof.
  unfold is_sha256_hex, digest_byte_parts.
  destruct (hex_sha256_shape (framed parts)) as [-> ->]. done.
Qed.

(** Whether a freshly built event is acceptable. *)
Lemma next_ok_new l a ih rh ev :
  valid l -> event_new (generation l + 1) a ih rh (last_hash l) = Ok ev ->
  next_ok l ev <->
  time_after 0 l.(lg_events) <= action_at a
  /\ ih ∉ ev_idempotency_hash <$> l.(lg_events)
  /\ is_sha256_hex ih = true /\ is_sha256_hex rh = true
  /\ action_ok l.(lg_storage_key) (current_record l) a.
Proof.
  intros Hl (bytes & Hb & ->)%event_new_iff.
  pose proof Hl as (_ & Hn & Hv)%valid_iff.
  assert (Hp : last_hash l = EmptyString \/ is_sha256_hex (last_hash l) = true).
  { destruct (hash_after_shape _ _ Hv) as [[_ ?]|[_ ?]]; auto. }
  rewrite <- seen_after_empty. split.
  - intros [? ? ? ? (? & ? & _)%validate_hash_iff ?]. done.
  - intros (? & ? & ? & ? & ?). constructor; cbn; [|done..| |done].
    + by rewrite (generation_valid l).
    + apply validate_hash_iff. cbn. split_and!; [done..|apply digest_hex|eauto].
Qed.

Lemma append_revoke_iff l record ih rh :
  valid l ->
  snd (append_revoke l record ih rh) = Ok tt <->
  (length l.(lg_events) < MAX_TRANSITIONS_PER_TARGET)%nat
  /\ is_Some (to_vec (Action_Revoke record))
  /\ record_storage_key record = Ok l.(lg_storage_key)
  /\ time_after 0 l.(lg_events) <= record.(r_created_at)
  /\ ih ∉ ev_idempotency_hash <$> l.(lg_events)
  /\ is_sha256_hex ih = true /\ is_sha256_hex rh = true.
Proof.
  intros Hl. unfold append_revoke, ensure_capacity.
  destruct (Nat.leb_spec MAX_TRANSITIONS_PER_TARGET (length (lg_events l))); cbn.
  { split; [done|]. intros. lia. }
  destruct (event_new _ _ _ _ _) as [ev|e] eqn:Hev; cbn.
  - pose proof Hev as (bytes & Hb & _)%event_new_iff.
    match goal with |- ?A <-> _ => change A with (valid (push_event l ev)) end.
    rewrite push_valid_iff, (next_ok_new l _ _ _ _ Hl Hev) by done. cbn.
    rewrite Hb. split; intros; destruct_and!; split_and!; eauto.
  - split; [done|]. intros (_ & [bytes Hb] & _). exfalso.
    unfold event_new, event_hash in Hev. by rewrite Hb in Hev.
Qed.

Lemma event_new_err seq a ih rh prev e :
  event_new seq a ih rh prev = Err e -> to_vec a = None /\ e = RE_InvalidLedger.
Proof.
  unfold event_new, event_hash. destruct (to_vec a); cbn; [done|]. by intros [= <-].
Qed.

(** The audit texts of a lift are stored trimmed, which does not change
    whether they are acceptable. *)
Lemma audit_text_trim field v n :
  validate_audit_text field (trim v) n = validate_audit_text field v n.
Proof. unfold validate_audit_text. by rewrite trim_idem. Qed.

Lemma append_lift_iff l actor reason at_ ih rh :
  valid l ->
  snd (append_lift l actor reason at_ ih rh) = Ok tt <->
  (length l.(lg_events) < MAX_TRANSITIONS_PER_TARGET)%nat
  /\ (exists active, current_record l = Some active
       /\ active.(r_created_at) <= at_ < active.(r_expires_at))
  /\ is_ok (validate_audit_text "actor" actor 128) = true
  /\ is_ok (validate_audit_text "reason" reason 256) = true
  /\ is_Some (to_vec (Action_Lift (trim actor) (trim reason) at_))
  /\ time_after 0 l.(lg_events) <= at_
  /\ ih ∉ ev_idempotency_hash <$> l.(lg_events)
  /\ is_sha256_hex ih = true /\ is_sha256_hex rh = true.
Proof.
  intros Hl. unfold append_lift, ensure_capacity.
  destruct (Nat.leb_spec MAX_TRANSITIONS_PER_TARGET (length (lg_events l))); cbn.
  { split; [done|]. intros. lia. }
  destruct (current_record l) as [active|] eqn:Hc; cbn; [|naive_solver].
  destruct (current_record_ok _ _ Hl Hc) as [_ Hva].
  unfold is_active_at. rewrite Hva. cbn.
  destruct (N.leb_spec (r_created_at active) at_); cbn; [|split; [done|]; naive_solver lia].
  destruct (N.ltb_spec at_ (r_expires_at active)); cbn; [|split; [done|]; naive_solver lia].
  destruct (validate_audit_text "actor" actor 128) as [[]|?] eqn:Ha; cbn; [|naive_solver].
  destruct (validate_audit_text "reason" reason 256) as [[]|?] eqn:Hr; cbn; [|naive_solver].
  destruct (event_new _ _ _ _ _) as [ev|e] eqn:Hev; cbn.
  - pose proof Hev as (bytes & Hb & _)%event_new_iff.
    match goal with |- ?A <-> _ => change A with (valid (push_event l ev)) end.
    rewrite push_valid_iff, (next_ok_new l _ _ _ _ Hl Hev) by done. cbn.
    rewrite Hb, !audit_text_trim, Ha, Hr, Hc. cbn.
    split; intros; destruct_and!; split_and!; eauto.
  - apply event_new_err in Hev as [Hb _]. split; [done|].
    intros (_ & _ & _ & _ & [bytes Hb'] & _). congruence.
Qed.

(** What a successful push means for the observers of the ledger. *)
Lemma push_observe l ev :
  valid l -> next_ok l ev ->
  generation (push_event l ev) = generation l + 1
  /\ current_record (push_event l ev) = current_from (current_record l) [ev]
  /\ extends l (push_event l ev).
Proof.
  intros Hl Hev. split_and!.
  - unfold generation at 1. cbn [push_event lg_events]. rewrite last_snoc. cbn.
    rewrite (eo_sequence _ _ _ _ _ _ _ Hev). by rewrite (generation_valid l).
  - unfold current_record. cbn [push_event lg_events]. apply current_from_app.
  - split; [done|]. by eexists.
Qed.

(** Revoking a target: on a valid ledger, [append_revoke] succeeds exactly
    when the ledger has room for one of its 32 transitions, the record is
    valid and belongs to the ledger's storage key, is not older than the last
    transition, and its idempotency hash is new; then the ledger is still
    valid, keeps every earlier event, its generation grows by one and the
    record is the current one.  A full ledger is left unchanged. *)
Theorem append_revoke_transition l record ih rh :
  valid l ->
  (snd (append_revoke l record ih rh) = Ok tt <->
     (length l.(lg_events) < MAX_TRANSITIONS_PER_TARGET)%nat
     /\ is_Some (to_vec (Action_Revoke record))
     /\ record_storage_key record = Ok l.(lg_storage_key)
     /\ time_after 0 l.(lg_events) <= record.(r_created_at)
     /\ ih ∉ ev_idempotency_hash <$> l.(lg_events)
     /\ is_sha256_hex ih = true /\ is_sha256_hex rh = true)
  /\ (forall l', append_revoke l record ih rh = (l', Ok tt) ->
       valid l' /\ extends l l' /\ generation l' = generation l + 1
       /\ current_record l' = Some record)
  /\ (length l.(lg_events) = MAX_TRANSITIONS_PER_TARGET ->
      append_revoke l record ih rh = (l, Err RE_TransitionLimit)).
Proof.
  intros Hl. split_and!; [by apply append_revoke_iff| |].
  - unfold append_revoke. intros l' Happ.
    destruct (ensure_capacity l); [|done]. destruct (event_new _ _ _ _ _) as [ev|] eqn:Hev; [|done].
    injection Happ as <- Hv. pose proof (proj1 (push_valid_iff l ev Hl) Hv) as [_ Hok].
    destruct (push_observe l ev Hl Hok) as (? & Hc & ?). split_and!; [done..|].
    rewrite Hc. cbn. by apply event_new_iff in Hev as (? & _ & ->).
  - unfold append_revoke, ensure_capacity. intros ->. by rewrite Nat.leb_refl.
Qed.

(** Lifting a target: on a valid ledger, [append_lift] succeeds exactly
    when there is room, a revocation is current and active at that instant,
    the audit texts are acceptable and the idempotency hash is new; then the
    ledger is still valid, keeps its history, and nothing is revoked. *)
Theorem append_lift_transition l actor reason at_ ih rh :
  valid l ->
  (snd (append_lift l actor reason at_ ih rh) = Ok tt <->
     (length l.(lg_events) < MAX_TRANSITIONS_PER_TARGET)%nat
     /\ (exists active, current_record l = Some active
          /\ active.(r_created_at) <= at_ < active.(r_expires_at))
     /\ is_ok (validate_audit_text "actor" actor 128) = true
     /\ is_ok (validate_audit_text "reason" reason 256) = true
     /\ is_Some (to_vec (Action_Lift (trim actor) (trim reason) at_))
     /\ time_after 0 l.(lg_events) <= at_
     /\ ih ∉ ev_idempotency_hash <$> l.(lg_events)
     /\ is_sha256_hex ih = true /\ is_sha256_hex rh = true)
  /\ (forall l', append_lift l actor reason at_ ih rh = (l', Ok tt) ->
       valid l' /\ extends l l' /\ generation l' = generation l + 1
       /\ current_record l' = None)
  /\ (current_record l = None -> (length l.(lg_events) < MAX_TRANSITIONS_PER_TARGET)%nat ->
      append_lift l actor reason at_ ih rh = (l, Err RE_NotActive)).
Proof.
  intros Hl. split_and!; [by apply append_lift_iff| |].
  - unfold append_lift. intros l' Happ.
    match type of Happ with match ?x with _ => _ end = _ => destruct x as [ev|] eqn:Hx end; [|done].
    apply rbind_ok in Hx as (_ & _ & (active & _ & Hx)%rbind_ok).
    apply reject_ok in Hx as (_ & (_ & _ & (_ & _ & Hev)%rbind_ok)%rbind_ok).
    injection Happ as <- Hv. pose proof (proj1 (push_valid_iff l ev Hl) Hv) as [_ Hok].
    destruct (push_observe l ev Hl Hok) as (? & Hc & ?). split_and!; [done..|].
    rewrite Hc. cbn. by apply event_new_iff in Hev as (? & _ & ->).
  - unfold append_lift, ensure_capacity. intros -> Hlt.
    destruct (Nat.leb_spec MAX_TRANSITIONS_PER_TARGET (length (lg_events l))); [lia|done].
Qed.
End hashed.
