(* ===== verification/SampleCodecs.v ===== *)
(** * Concrete serializers for the ledger

    A JSON rendering of the revocation ledger with its decoder, and an
    injective byte rendering of an action: instances of the serialization
    interfaces, used to run the definitions on concrete inputs. *)
From Stdlib Require Import Ascii String.
From S2P Require Import Prelude Text Wire Samples Json Token Kv Ledger.

Definition fits_b (s : string) : bool := str_len s <? 2 ^ 63.
Definition render (parts : list string) : option string :=
  if forallb fits_b parts && fits_b (framed parts) then Some (framed parts) else None.

Lemma render_inj a b v : render a = Some v -> render b = Some v -> a = b.
Proof.
  assert (Hf : forall l, forallb fits_b l = true -> Forall fits l).
  { induction l; cbn; [constructor|]. intros. reflect_bools. constructor; [by apply N.ltb_lt|auto]. }
  unfold render. intros Ha Hb. repeat case_match; simplify_eq. reflect_bools.
  apply framed_inj; auto.
Qed.
Lemma render_fits a v : render a = Some v -> fits v.
Proof. unfold render. intros. case_match; simplify_eq. reflect_bools. by apply N.ltb_lt. Qed.

Definition record_parts (r : RevocationRecord) : list string :=
  [decimal r.(r_version); r.(r_issuer); r.(r_audience); r.(r_tenant_id);
   target_kind r.(r_target); target_value r.(r_target); r.(r_reason); r.(r_actor);
   decimal r.(r_created_at); decimal r.(r_expires_at)].
Definition action_parts (a : RevocationAction) : list string :=
  match a with
  | Action_Revoke r => "revoke" :: record_parts r
  | Action_Lift actor reason at_ => ["lift"; actor; reason; decimal at_]
  end.
#[export] Instance action_to_vec : ToVec RevocationAction := fun a => render (action_parts a).
#[export] Instance action_to_vec_laws : ToVecLaws RevocationAction.
Proof.
  split.
  - intros a b v Ha Hb. pose proof (render_inj _ _ _ Ha Hb) as Heq.
    destruct a as [[? ? ? ? t1 ? ? ? ?]|], b as [[? ? ? ? t2 ? ? ? ?]|]; cbn in Heq; try done.
    + injection Heq as ->%decimal_inj -> -> -> Hk Hv -> -> ->%decimal_inj ->%decimal_inj.
      by destruct t1, t2; cbn in *; subst.
    + by injection Heq as -> -> ->%decimal_inj.
  - intros a v. apply render_fits.
Qed.

(** Decoding helpers. *)
Definition get_str (v : Value) (key : string) : option string := value_get v key ≫= as_str.
Definition get_u64 (v : Value) (key : string) : option N := value_get v key ≫= as_u64.
Definition num (n : N) : Value := Num (PosInt n).

Definition record_value (r : RevocationRecord) : Value :=
  Object [("version", num r.(r_version)); ("issuer", Str r.(r_issuer));
          ("audience", Str r.(r_audience)); ("tenant_id", Str r.(r_tenant_id));
          ("target",
            match r.(r_target) with
            | RevocationTarget_TokenId jti => Object [("kind", Str "token_id"); ("jti", Str jti)]
            | RevocationTarget_Subject s => Object [("kind", Str "subject"); ("subject", Str s)]
            end);
          ("reason", Str r.(r_reason)); ("actor", Str r.(r_actor));
          ("created_at", num r.(r_created_at)); ("expires_at", num r.(r_expires_at))].
Definition target_of (v : Value) : option RevocationTarget :=
  kind ← get_str v "kind";
  if (kind =? "token_id")%string then RevocationTarget_TokenId <$> get_str v "jti"
  else if (kind =? "subject")%string then RevocationTarget_Subject <$> get_str v "subject"
  else None.
Definition record_of (v : Value) : option RevocationRecord :=
  version ← get_u64 v "version"; issuer ← get_str v "issuer"; audience ← get_str v "audience";
  tenant ← get_str v "tenant_id"; target ← value_get v "target" ≫= target_of;
  reason ← get_str v "reason"; actor ← get_str v "actor";
  created ← get_u64 v "created_at"; expires ← get_u64 v "expires_at";
  Some {| r_version := version; r_issuer := issuer; r_audience := audience;
          r_tenant_id := tenant; r_target := target; r_reason := reason; r_actor := actor;
          r_created_at := created; r_expires_at := expires |}.

Definition action_value (a : RevocationAction) : Value :=
  match a with
  | Action_Revoke r => Object [("action", Str "revoke"); ("record", record_value r)]
  | Action_Lift actor reason at_ =>
      Object [("action", Str "lift"); ("actor", Str actor); ("reason", Str reason); ("at", num at_)]
  end.
Definition action_of (v : Value) : option RevocationAction :=
  kind ← get_str v "action";
  if (kind =? "revoke")%string then Action_Revoke <$> (value_get v "record" ≫= record_of)
  else if (kind =? "lift")%string then
    actor ← get_str v "actor"; reason ← get_str v "reason"; at_ ← get_u64 v "at";
    Some (Action_Lift actor reason at_)
  else None.

Definition event_value (ev : RevocationEvent) : Value :=
  Object [("sequence", num ev.(ev_sequence)); ("action", action_value ev.(ev_action));
          ("idempotency_hash", Str ev.(ev_idempotency_hash));
          ("request_hash", Str ev.(ev_request_hash));
          ("previous_hash", Str ev.(ev_previous_hash)); ("event_hash", Str ev.(ev_event_hash))].
Definition event_of (v : Value) : option RevocationEvent :=
  seq ← get_u64 v "sequence"; action ← value_get v "action" ≫= action_of;
  ih ← get_str v "idempotency_hash"; rh ← get_str v "request_hash";
  prev ← get_str v "previous_hash"; hash ← get_str v "event_hash";
  Some {| ev_sequence := seq; ev_action := action; ev_idempotency_hash := ih;
          ev_request_hash := rh; ev_previous_hash := prev; ev_event_hash := hash |}.

Definition ledger_value (l : RevocationLedger) : Value :=
  Object [("version", num l.(lg_version)); ("storage_key", Str l.(lg_storage_key));
          ("events", Array (event_value <$> l.(lg_events)))].
Definition as_array (v : Value) : option (list Value) :=
  match v with
  | Array l => Some l
  | _ => None
  end.
Definition ledger_of (v : Value) : option RevocationLedger :=
  version ← get_u64 v "version"; key ← get_str v "storage_key";
  members ← value_get v "events"; members ← as_array members;
  events ← mapM (M:=option) event_of members;
  Some {| lg_version := version; lg_storage_key := key; lg_events := events |}.

Lemma event_roundtrip ev : event_of (event_value ev) = Some ev.
Proof. by destruct ev as [? [[? ? ? ? [] ? ? ? ?]|] ? ? ? ?]. Qed.

#[export] Instance ledger_serde : Serde RevocationLedger := {
  to_value l := Some (ledger_value l);
  from_value := ledger_of
}.
#[export] Instance ledger_serde_laws : SerdeLaws RevocationLedger.
Proof.
  split. intros [v k evs] ? [= <-]. cbn. unfold ledger_of. cbn.
  assert (mapM (M:=option) event_of (event_value <$> evs) = Some evs) as ->; [|done].
  induction evs as [|ev evs IH]; [done|].
  cbn -[event_of event_value]. rewrite event_roundtrip. cbn -[event_of event_value].
  by rewrite IH.
Qed.
