(* ===== verification/LedgerHistory.v ===== *)
(** * The history of a revocation target

    Idempotent replay, the status a snapshot reports, and the tamper evidence
    of the hash chain. *)
From Stdlib Require Import Ascii String.
From S2P Require Import Prelude Text Wire Samples Json Token Kv Ledger LedgerFacts SampleCodecs.

Section replay.
Context `{Crypto, ToVec RevocationAction}.
Implicit Types (ev : RevocationEvent) (evs : list RevocationEvent) (l : RevocationLedger).

Definition replay_status ev : RevocationStatus :=
  match ev.(ev_action) with
  | Action_Revoke _ => Active
  | Action_Lift _ _ _ => Lifted
  end.
(** What the retry of an accepted event reports, [evs] being the events
    before it. *)
Definition original_outcome (key : string) evs ev : RevocationSnapshot :=
  {| sn_storage_key := key; sn_generation := ev.(ev_sequence);
     sn_status := replay_status ev; sn_expires_at := find_expiry (rev (evs ++ [ev])) |}.

Lemma find_expiry_snoc evs ev :
  find_expiry (rev (evs ++ [ev]))
  = match ev.(ev_action) with
    | Action_Revoke r => Some r.(r_expires_at)
    | Action_Lift _ _ _ => find_expiry (rev evs)
    end.
Proof. by rewrite rev_app_distr. Qed.

Lemma replay_from_app key ih rh evs1 evs2 :
  ih ∉ ev_idempotency_hash <$> evs1 ->
  replay_from key None ih rh (evs1 ++ evs2)
  = replay_from key (find_expiry (rev evs1)) ih rh evs2.
Proof.
  revert evs2. induction evs1 as [|ev evs1 IH] using rev_ind; [done|].
  rewrite fmap_app. intros evs2 [Hn1 Hn2]%list.not_elem_of_app.
  rewrite <- app_assoc, IH by done. rewrite find_expiry_snoc. cbn [app replay_from].
  destruct (String.eqb_spec (ev_idempotency_hash ev) ih) as [Heq|]; [|done].
  destruct Hn2. cbn. rewrite Heq. apply list_elem_of_here.
Qed.

Lemma replay_fresh l ih rh :
  ih ∉ ev_idempotency_hash <$> l.(lg_events) -> replay_snapshot l ih rh = Ok None.
Proof.
  intros Hn. unfold replay_snapshot. rewrite <- (app_nil_r (lg_events l)).
  by rewrite replay_from_app.
Qed.

Lemma replay_hit l evs1 ev evs2 rh :
  l.(lg_events) = evs1 ++ ev :: evs2 ->
  ev.(ev_idempotency_hash) ∉ ev_idempotency_hash <$> evs1 ->
  replay_snapshot l ev.(ev_idempotency_hash) rh
  = if (ev.(ev_request_hash) =? rh)%string
    then Ok (Some (original_outcome l.(lg_storage_key) evs1 ev))
    else Err RE_IdempotencyConflict.
Proof.
  intros Hl Hn. unfold replay_snapshot. rewrite Hl, replay_from_app by done.
  cbn [replay_from]. rewrite String.eqb_refl. cbn.
  destruct (String.eqb_spec (ev_request_hash ev) rh); [cbn|done].
  unfold original_outcome. rewrite find_expiry_snoc. done.
Qed.

Lemma valid_nodup l : valid l -> NoDup (ev_idempotency_hash <$> l.(lg_events)).
Proof. intros (_ & _ & Hv)%valid_iff. by eapply idempotency_nodup. Qed.

Lemma nodup_before evs1 ev evs2 :
  NoDup (ev_idempotency_hash <$> evs1 ++ ev :: evs2) ->
  ev.(ev_idempotency_hash) ∉ ev_idempotency_hash <$> evs1.
Proof.
  rewrite fmap_app. intros (_ & Hd & _)%list.NoDup_app Hin. apply (Hd _ Hin).
  rewrite fmap_cons. apply list_elem_of_here.
Qed.

(** The event a retry finds. *)
Lemma replay_some l ih rh snap :
  replay_snapshot l ih rh = Ok (Some snap) ->
  exists evs1 ev evs2,
    l.(lg_events) = evs1 ++ ev :: evs2 /\ ev.(ev_idempotency_hash) = ih
    /\ ev.(ev_request_hash) = rh /\ snap = original_outcome l.(lg_storage_key) evs1 ev.
Proof.
  intros Hr. destruct (decide (ih ∈ ev_idempotency_hash <$> lg_events l)) as [Hin|Hn].
  2:{ by rewrite (replay_fresh _ _ _ Hn) in Hr. }
  apply list_elem_of_split_l in Hin as (h1 & h2 & Hh & Hn).
  apply fmap_app_inv in Hh as (evs1 & r & -> & Hh & Hl).
  destruct r as [|ev evs2]; [done|]. injection Hh as -> _.
  rewrite (replay_hit _ _ _ _ _ Hl Hn) in Hr. case_match; [|done]. reflect_bools.
  injection Hr as <-. by eexists evs1, ev, evs2.
Qed.

(** Retries are idempotent for the whole life of a target: once a valid
    ledger has accepted an event, presenting its idempotency key again with
    the same request gives one and the same outcome (the generation and
    status of that event) on every valid ledger the target ever reaches
    later, whatever was revoked or lifted in between; presenting it with any
    other request is a conflict there, and a key that was never used replays
    nothing. *)
Theorem replay_is_stable l ev :
  valid l -> ev ∈ l.(lg_events) ->
  exists snap,
    snap.(sn_generation) = ev.(ev_sequence) /\ snap.(sn_status) = replay_status ev
    /\ forall l', valid l' -> extends l l' ->
       replay_snapshot l' ev.(ev_idempotency_hash) ev.(ev_request_hash) = Ok (Some snap)
       /\ (forall rh, rh <> ev.(ev_request_hash) ->
           replay_snapshot l' ev.(ev_idempotency_hash) rh = Err RE_IdempotencyConflict)
       /\ (forall ih rh, ih ∉ ev_idempotency_hash <$> l'.(lg_events) ->
           replay_snapshot l' ih rh = Ok None).
Proof.
  intros Hl (evs1 & evs2 & Hs)%list_elem_of_split.
  exists (original_outcome (lg_storage_key l) evs1 ev). split_and!; [done..|].
  intros l' Hl' [Hk [tail Ht]].
  pose proof (valid_nodup l Hl) as Hnd. rewrite Hs in Hnd. apply nodup_before in Hnd.
  assert (Hs' : lg_events l' = evs1 ++ ev :: (evs2 ++ tail))
    by (rewrite Ht, Hs, <- app_assoc; done).
  split_and!.
  - by rewrite (replay_hit _ _ _ _ _ Hs' Hnd), String.eqb_refl, Hk.
  - intros rh Hne. rewrite (replay_hit _ _ _ _ _ Hs' Hnd).
    destruct (String.eqb_spec (ev_request_hash ev) rh); [by subst|done].
  - intros ih rh. apply replay_fresh.
Qed.

(** The status a snapshot reports is the one the history implies: on a
    valid ledger, [Lifted] means nothing is current; otherwise the current
    record decides, [Pending] before it was created, [Active] while its
    window lasts and [Expired] from its expiry on; and the record matches a
    token only while the status is [Active]. *)
Theorem snapshot_status l now :
  valid l ->
  match current_record l with
  | None => (snapshot l now).(sn_status) = Lifted
  | Some r =>
      r.(r_created_at) < r.(r_expires_at)
      /\ ((snapshot l now).(sn_status) = Pending <-> now < r.(r_created_at))
      /\ ((snapshot l now).(sn_status) = Active <-> r.(r_created_at) <= now < r.(r_expires_at))
      /\ ((snapshot l now).(sn_status) = Expired <-> r.(r_expires_at) <= now)
      /\ (forall c, record_matches r c now = true -> (snapshot l now).(sn_status) = Active)
  end.
Proof.
  intros Hl. unfold snapshot. destruct (current_record l) as [r|] eqn:Hc; [|done].
  destruct (current_record_ok l r Hl Hc) as [_ Hr].
  pose proof Hr as [u (_ & _ & _ & Hw & _)%record_validate_ok]%is_ok_true.
  cbn [sn_status]. unfold is_active_at. rewrite Hr. cbn.
  assert (Hmatch : forall c, record_matches r c now = true ->
                   r_created_at r <= now < r_expires_at r)
    by (intros c Hm%record_matches_iff; tauto).
  destruct (N.ltb_spec now (r_created_at r)), (N.leb_spec (r_created_at r) now),
    (N.ltb_spec now (r_expires_at r)); cbn; try lia;
    split_and!; try done; try (split; [done || lia | done || lia]);
    intros c Hm%Hmatch; done || lia.
Qed.
End replay.

Section chain.
Context `{CryptoLaws, !ToVec RevocationAction, !ToVecLaws RevocationAction}.
Implicit Types (ev : RevocationEvent) (evs : list RevocationEvent) (l : RevocationLedger).

Lemma sha256_hex_fits h : is_sha256_hex h = true -> fits h.
Proof.
  unfold is_sha256_hex, fits, str_len. intros Hh. reflect_bools.
  match goal with Hl : String.length h = _ |- _ => rewrite Hl end. reflexivity.
Qed.

Lemma framed_event_fits n bytes ih rh prev :
  fits bytes -> is_sha256_hex ih = true -> is_sha256_hex rh = true ->
  prev = EmptyString \/ is_sha256_hex prev = true ->
  Forall fits [be_bytes 8 n; bytes; ih; rh; prev].
Proof.
  intros Hb Hi Hr Hp.
  assert (fits (be_bytes 8 n)) by (unfold fits, str_len; by rewrite be_bytes_length).
  assert (fits prev) by (destruct Hp as [->|]; [done|by apply sha256_hex_fits]).
  apply sha256_hex_fits in Hi, Hr. by repeat constructor.
Qed.

(** An event hash determines the event. *)
Lemma event_hash_inj ev1 ev2 :
  validate_hash ev1 = Ok tt -> validate_hash ev2 = Ok tt ->
  ev1.(ev_sequence) < 2 ^ 64 -> ev2.(ev_sequence) < 2 ^ 64 ->
  ev1.(ev_event_hash) = ev2.(ev_event_hash) -> ev1 = ev2 \/ sha256_collision.
Proof.
  intros (Hi1 & Hr1 & Hp1 & _ & b1 & Hb1 & He1)%validate_hash_iff
         (Hi2 & Hr2 & Hp2 & _ & b2 & Hb2 & He2)%validate_hash_iff Hs1 Hs2 Heq.
  pose proof Heq as Hd. rewrite He1, He2 in Hd.
  apply framed_digest_inj in Hd as [Hd|]; [|by right|..].
  - left. remember (be_bytes 8 (ev_sequence ev1)) as s1 eqn:E1.
    remember (be_bytes 8 (ev_sequence ev2)) as s2 eqn:E2.
    injection Hd as Hs <- Hi Hr Hp. rewrite E1, E2 in Hs.
    apply be_bytes_inj in Hs; [|exact Hs1|exact Hs2].
    pose proof (to_vec_inj _ _ _ Hb1 Hb2). destruct ev1, ev2; cbn in *. congruence.
  - apply framed_event_fits; eauto using to_vec_fits.
  - apply framed_event_fits; eauto using to_vec_fits.
Qed.

Lemma validated_sequence key evs ev :
  validate_events key 0 EmptyString 0 None ∅ (evs ++ [ev]) = Ok tt ->
  ev.(ev_sequence) = N.of_nat (length evs) + 1 /\ validate_hash ev = Ok tt
  /\ ev.(ev_previous_hash) = hash_after EmptyString evs.
Proof. rewrite validate_events_snoc. by intros [_ []]. Qed.

(** Validated event lists with one final hash are equal. *)
Lemma chain_inj key1 key2 evs1 evs2 :
  validate_events key1 0 EmptyString 0 None ∅ evs1 = Ok tt ->
  validate_events key2 0 EmptyString 0 None ∅ evs2 = Ok tt ->
  (length evs1 <= MAX_TRANSITIONS_PER_TARGET)%nat ->
  (length evs2 <= MAX_TRANSITIONS_PER_TARGET)%nat ->
  hash_after EmptyString evs1 = hash_after EmptyString evs2 ->
  evs1 = evs2 \/ sha256_collision.
Proof.
  revert evs2. unfold MAX_TRANSITIONS_PER_TARGET.
  induction evs1 as [|ev1 evs1 IH] using rev_ind; intros evs2 Hv1 Hv2 Hl1 Hl2 Heq.
  - destruct (hash_after_shape _ _ Hv2) as [[-> _]|[_ Hh]]; [by left|].
    rewrite <- Heq in Hh. done.
  - destruct evs2 as [|ev2 evs2 _] using rev_ind.
    { destruct (hash_after_shape _ _ Hv1) as [[Hn _]|[_ Hh]]; [by destruct evs1|].
      rewrite Heq in Hh. done. }
    pose proof (validated_sequence _ _ _ Hv1) as (Hs1 & Hh1 & Hp1).
    pose proof (validated_sequence _ _ _ Hv2) as (Hs2 & Hh2 & Hp2).
    apply validate_events_snoc in Hv1 as [Hv1 _]. apply validate_events_snoc in Hv2 as [Hv2 _].
    rewrite length_app in Hl1, Hl2. cbn in Hl1, Hl2.
    unfold hash_after in Heq. rewrite !last_snoc in Heq. cbn in Heq.
    apply event_hash_inj in Heq as [<-|]; [|by right|done|done|lia..].
    rewrite Hp1 in Hp2. destruct (IH evs2) as [<-|]; [done|done|lia|lia|done|by left|by right].
Qed.

(** C20: the hash chain is tamper evident: two ledgers that pass validation
    and carry the same last event hash have the same complete history, event
    by event, or SHA-256 collides.  Whoever rewrites, drops, reorders or
    inserts an earlier event of a target changes the last hash or is
    refused. *)
Theorem chain_tamper_evident l1 l2 :
  valid l1 -> valid l2 -> last_hash l1 = last_hash l2 ->
  l1.(lg_events) = l2.(lg_events) \/ sha256_collision.
Proof.
  intros (_ & [_ Hn1] & Hv1)%valid_iff (_ & [_ Hn2] & Hv2)%valid_iff Heq.
  eapply chain_inj; eauto.
Qed.
End chain.

(** ** Concrete histories *)

Definition sample_mutation (key : string) : MutationIdentity :=
  {| mi_actor := "ops"; mi_idempotency_key := key |}.
Definition sample_revoke : RevokeRequest := Revoke_Subject "tenant" "user" 100 "offboarding".
Definition sample_selector : RevocationSelector := Selector_Subject "tenant" "user".
Definition sample_record : RevocationRecord :=
  {| r_version := 1; r_issuer := ISSUER; r_audience := AUDIENCE; r_tenant_id := "tenant";
     r_target := RevocationTarget_Subject "user"; r_reason := "offboarding"; r_actor := "ops";
     r_created_at := 10; r_expires_at := 100 |}.
Definition sample_hash (text : string) : string := hex_lower (sha256 text).
Definition sample_key : string := scope_key "tenant" "subject" "user".
Definition sample_ledger : RevocationLedger :=
  match ledger_new sample_key sample_record (sample_hash "i1") (sample_hash "r1") with
  | Ok l => l
  | Err _ => {| lg_version := 0; lg_storage_key := EmptyString; lg_events := [] |}
  end.
Definition sample_lifted : RevocationLedger :=
  fst (append_lift sample_ledger "ops" "mistake" 50 (sample_hash "i2") (sample_hash "r2")).

Lemma sample_ledger_valid : valid sample_ledger.
Proof. vm_compute. reflexivity. Qed.
Lemma sample_lifted_valid : valid sample_lifted.
Proof. vm_compute. reflexivity. Qed.
Lemma sample_lifted_extends : extends sample_ledger sample_lifted.
Proof. split; [by vm_compute|]. exists (drop 1 (lg_events sample_lifted)). by vm_compute. Qed.

Definition sample_event : RevocationEvent :=
  match lg_events sample_ledger with
  | ev :: _ => ev
  | [] => {| ev_sequence := 0; ev_action := Action_Lift "" "" 0; ev_idempotency_hash := "";
             ev_request_hash := ""; ev_previous_hash := ""; ev_event_hash := "" |}
  end.

Lemma replay_is_stable_witness :
  exists snap, snap.(sn_generation) = 1
  /\ replay_snapshot sample_lifted sample_event.(ev_idempotency_hash)
       sample_event.(ev_request_hash) = Ok (Some snap).
Proof.
  assert (Hin : sample_event ∈ lg_events sample_ledger) by by_compute.
  assert (Hseq : sample_event.(ev_sequence) = 1) by by_compute.
  destruct (replay_is_stable sample_ledger sample_event sample_ledger_valid Hin)
    as (snap & Hg & _ & Hall).
  exists snap. rewrite <- Hseq. split; [exact Hg|].
  exact (proj1 (Hall sample_lifted sample_lifted_valid sample_lifted_extends)).
Defined.

Lemma snapshot_status_witness : (snapshot sample_ledger 100).(sn_status) = Expired.
Proof.
  assert (Hc : current_record sample_ledger = Some sample_record) by by_compute.
  pose proof (snapshot_status sample_ledger 100 sample_ledger_valid) as Hs.
  rewrite Hc in Hs. apply Hs. by_compute.
Defined.

Lemma chain_tamper_evident_witness :
  lg_events sample_lifted = lg_events sample_lifted \/ sha256_collision.
Proof.
  apply (chain_tamper_evident sample_lifted sample_lifted);
    [apply sample_lifted_valid | apply sample_lifted_valid | reflexivity].
Defined.

Definition second_record : RevocationRecord :=
  {| r_version := 1; r_issuer := ISSUER; r_audience := AUDIENCE; r_tenant_id := "tenant";
     r_target := RevocationTarget_Subject "user"; r_reason := "again"; r_actor := "ops";
     r_created_at := 60; r_expires_at := 90 |}.

Lemma append_revoke_transition_witness :
  snd (append_revoke sample_lifted second_record (sample_hash "i3") (sample_hash "r3")) = Ok tt.
Proof.
  destruct (append_revoke_transition sample_lifted second_record (sample_hash "i3")
              (sample_hash "r3") sample_lifted_valid) as [[_ Hok] _].
  apply Hok. by_compute.
Defined.

Lemma append_lift_transition_witness :
  append_lift sample_lifted "ops" "again" 60 (sample_hash "i3") (sample_hash "r3")
  = (sample_lifted, Err RE_NotActive).
Proof.
  destruct (append_lift_transition sample_lifted "ops" "again" 60 (sample_hash "i3")
              (sample_hash "r3") sample_lifted_valid) as (_ & _ & Hnone).
  apply Hnone; by_compute.
Defined.
