(* ===== verification/RevocationStore.v ===== *)
(** * The revocation store ([src/src/revocation.rs], [RevocationStore])

    [revoke], [lift] and [check] as programs against the key-value service
    (or, without one, the in-process map), and what they guarantee when any
    number of replicas run them concurrently. *)
From Stdlib Require Import Ascii String.
From S2P Require Import Prelude Text Wire Samples Json Token Kv Ledger LedgerFacts SampleCodecs.
From S2P Require Import LedgerHistory.

(** [RevocationStore]: whether it has a [KvClient]; the in-process map is the
    local state of its programs. *)
Record RevocationStore := { rs_kv : bool }.
Notation memory := (gmap string RevocationLedger).
Notation store_prog A := (prog memory (result RevocationError A)).

Section store.
Context `{Crypto, ToVec RevocationAction, Serde RevocationLedger}.

Definition load_ledger (storage_key : string)
  : store_prog (option (RevocationLedger * N)) :=
  let!? stored := prog_map_err RE_Store (get_versioned storage_key) in
  match stored with
  | None => pure (Ok None)
  | Some stored =>
      pure (let? ledger := ok_or (from_value stored.(vv_value)) RE_InvalidLedger in
            let? _ := ledger_validate ledger in
            reject negb (ledger.(lg_storage_key) =? storage_key)%string with RE_InvalidLedger ;;
            Ok (Some (ledger, stored.(vv_mod_revision))))
  end.

(** ** [revoke] *)

(** The ledger to store: [append_revoke] on the existing one, or a new one. *)
Definition next_revoked (ledger : option RevocationLedger) (storage_key : string)
    (record : RevocationRecord) (idempotency_hash request_hash : string)
  : result RevocationError RevocationLedger :=
  match ledger with
  | Some current =>
      let (current, appended) := append_revoke current record idempotency_hash request_hash in
      let? _ := appended in
      Ok current
  | None => ledger_new storage_key record idempotency_hash request_hash
  end.
Definition replayed (ledger : option RevocationLedger) (idempotency_hash request_hash : string)
  : result RevocationError (option RevocationSnapshot) :=
  match ledger with
  | Some current => replay_snapshot current idempotency_hash request_hash
  | None => Ok None
  end.

(** The compare-and-set loop, [retries] attempts left. *)
Fixpoint revoke_loop (retries : nat) (storage_key : string) (record : RevocationRecord)
    (idempotency_hash request_hash : string) (now : N) : store_prog RevocationSnapshot :=
  match retries with
  | O => pure (Err RE_CasRetriesExhausted)
  | S retries =>
      let!? existing := load_ledger storage_key in
      let '(ledger, previous_revision) :=
        match existing with
        | Some (ledger, revision) => (Some ledger, revision)
        | None => (None, 0)
        end in
      let!? snap := pure (replayed ledger idempotency_hash request_hash) in
      match snap with
      | Some snap => pure (Ok snap)
      | None =>
          let!? next := pure (next_revoked ledger storage_key record
                                idempotency_hash request_hash) in
          let!? value := pure (ok_or (to_value next) RE_InvalidLedger) in
          let!? outcome := prog_map_err RE_Store
            (put_if_revision storage_key value previous_revision) in
          match outcome with
          | Applied => pure (Ok (snapshot next now))
          | Mismatch =>
              revoke_loop retries storage_key record idempotency_hash request_hash now
          end
      end
  end.

(** The branch without a service, under the lock. *)
Definition memory_revoke (ledgers : memory) (storage_key : string) (record : RevocationRecord)
    (idempotency_hash request_hash : string) (now : N)
  : memory * result RevocationError RevocationSnapshot :=
  match replayed (ledgers !! storage_key) idempotency_hash request_hash with
  | Err e => (ledgers, Err e)
  | Ok (Some snap) => (ledgers, Ok snap)
  | Ok None =>
      match ledgers !! storage_key with
      | Some current =>
          let (current, appended) :=
            append_revoke current record idempotency_hash request_hash in
          let ledgers := <[storage_key := current]> ledgers in
          match appended with
          | Err e => (ledgers, Err e)
          | Ok _ => (<[storage_key := current]> ledgers, Ok (snapshot current now))
          end
      | None =>
          match ledger_new storage_key record idempotency_hash request_hash with
          | Err e => (ledgers, Err e)
          | Ok next => (<[storage_key := next]> ledgers, Ok (snapshot next now))
          end
      end
  end.

Definition revoke (self : RevocationStore) (request : RevokeRequest)
    (mutation : MutationIdentity) (now : N) : store_prog RevocationSnapshot :=
  let!? _ := pure (validate_mutation mutation) in
  let selector := request_selector request in
  let!? storage_key := pure (selector_storage_key selector) in
  let!? record := pure (request_record request mutation.(mi_actor) now) in
  let!? record_key := pure (map_err RE_Contract (record_storage_key record)) in
  if negb (record_key =? storage_key)%string then pure (Err (RE_InvalidMutation "target"))
  else
    let idempotency_hash :=
      mutation_hash "revoke" storage_key mutation.(mi_actor) mutation.(mi_idempotency_key) in
    let request_hash := request_hash request in
    if self.(rs_kv)
    then revoke_loop MAX_CAS_RETRIES storage_key record idempotency_hash request_hash now
    else
      let! ledgers := with_lock (fun ledgers =>
        fst (memory_revoke ledgers storage_key record idempotency_hash request_hash now)) in
      pure (snd (memory_revoke ledgers storage_key record idempotency_hash request_hash now)).

(** ** [lift] *)

Fixpoint lift_loop (retries : nat) (storage_key actor reason : string)
    (idempotency_hash request_hash : string) (now : N) : store_prog RevocationSnapshot :=
  match retries with
  | O => pure (Err RE_CasRetriesExhausted)
  | S retries =>
      let!? existing := load_ledger storage_key in
      match existing with
      | None => pure (Err RE_NotFound)
      | Some (ledger, previous_revision) =>
          let!? snap := pure (replay_snapshot ledger idempotency_hash request_hash) in
          match snap with
          | Some snap => pure (Ok snap)
          | None =>
              let (ledger, appended) :=
                append_lift ledger actor reason now idempotency_hash request_hash in
              let!? _ := pure appended in
              let!? value := pure (ok_or (to_value ledger) RE_InvalidLedger) in
              let!? outcome := prog_map_err RE_Store
                (put_if_revision storage_key value previous_revision) in
              match outcome with
              | Applied => pure (Ok (snapshot ledger now))
              | Mismatch =>
                  lift_loop retries storage_key actor reason idempotency_hash request_hash now
              end
          end
      end
  end.

Definition memory_lift (ledgers : memory) (storage_key actor reason : string)
    (idempotency_hash request_hash : string) (now : N)
  : memory * result RevocationError RevocationSnapshot :=
  match ledgers !! storage_key with
  | None => (ledgers, Err RE_NotFound)
  | Some ledger =>
      match replay_snapshot ledger idempotency_hash request_hash with
      | Err e => (ledgers, Err e)
      | Ok (Some snap) => (ledgers, Ok snap)
      | Ok None =>
          let (ledger, appended) :=
            append_lift ledger actor reason now idempotency_hash request_hash in
          let ledgers := <[storage_key := ledger]> ledgers in
          match appended with
          | Err e => (ledgers, Err e)
          | Ok _ => (ledgers, Ok (snapshot ledger now))
          end
      end
  end.

Definition lift (self : RevocationStore) (request : LiftRequest)
    (mutation : MutationIdentity) (now : N) : store_prog RevocationSnapshot :=
  let!? _ := pure (validate_mutation mutation) in
  let!? _ := pure (validate_audit_text "reason" request.(lift_reason) 256) in
  let!? storage_key := pure (selector_storage_key request.(lift_selector)) in
  let idempotency_hash :=
    mutation_hash "lift" storage_key mutation.(mi_actor) mutation.(mi_idempotency_key) in
  let request_hash := lift_request_hash request in
  if self.(rs_kv)
  then lift_loop MAX_CAS_RETRIES storage_key mutation.(mi_actor) request.(lift_reason)
         idempotency_hash request_hash now
  else
    let! ledgers := with_lock (fun ledgers =>
      fst (memory_lift ledgers storage_key mutation.(mi_actor) request.(lift_reason)
             idempotency_hash request_hash now)) in
    pure (snd (memory_lift ledgers storage_key mutation.(mi_actor) request.(lift_reason)
                 idempotency_hash request_hash now)).

(** ** [check] *)

Definition read_ledger (self : RevocationStore) (storage_key : string)
  : store_prog (option RevocationLedger) :=
  if self.(rs_kv)
  then
    let!? loaded := load_ledger storage_key in
    pure (Ok (fst <$> loaded))
  else
    let! ledgers := with_lock id in
    pure (Ok (ledgers !! storage_key)).

Definition not_revoked : RevocationDecision :=
  {| dc_revoked := false; dc_matched_target := None; dc_generation := None;
     dc_expires_at := None |}.
Definition selectors (claims : Claims) : list (RevocationSelector * MatchedTarget) :=
  [(Selector_TokenId claims.(c_org_id) claims.(c_jti), Matched_TokenId);
   (Selector_Subject claims.(c_org_id) claims.(c_sub), Matched_Subject)].

(** The body of the loop, up to its [return]. *)
Definition ledger_decision (ledger : RevocationLedger) (matched_target : MatchedTarget)
    (claims : Claims) (now : N) : option RevocationDecision :=
  match current_record ledger with
  | Some record =>
      if record_matches record claims now
      then Some {| dc_revoked := true; dc_matched_target := Some matched_target;
                   dc_generation := Some (generation ledger);
                   dc_expires_at := Some record.(r_expires_at) |}
      else None
  | None => None
  end.
Fixpoint check_selectors (self : RevocationStore)
    (selectors : list (RevocationSelector * MatchedTarget)) (claims : Claims) (now : N)
  : store_prog RevocationDecision :=
  match selectors with
  | [] => pure (Ok not_revoked)
  | (selector, matched_target) :: rest =>
      let!? storage_key := pure (selector_storage_key selector) in
      let!? ledger := read_ledger self storage_key in
      match ledger with
      | None => check_selectors self rest claims now
      | Some ledger =>
          match ledger_decision ledger matched_target claims now with
          | Some decision => pure (Ok decision)
          | None => check_selectors self rest claims now
          end
      end
  end.
Definition check (self : RevocationStore) (claims : Claims) (now : N)
  : store_prog RevocationDecision :=
  let!? _ := pure (validate_internal_claims claims) in
  check_selectors self (selectors claims) claims now.
End store.
