(* ===== verification/RevocationSafety.v ===== *)
(** * Concurrent safety of the revocation store

    What [revoke], [lift] and [check] guarantee against the contract of the
    key-value service while any other clients use it. *)
From Stdlib Require Import Ascii String.
From S2P Require Import Prelude Text Wire Samples Json Token Kv Ledger LedgerFacts SampleCodecs.
From S2P Require Import LedgerHistory RevocationStore.

Section rely.
Context `{CryptoLaws, !ToVec RevocationAction, !Serde RevocationLedger,
          !SerdeLaws RevocationLedger}.
Implicit Types (m : kv) (l : RevocationLedger) (ev : RevocationEvent).

(** The keys this component owns. *)
Definition revocation_key (key : string) : Prop := starts_with key "auth/revocations/v1/" = true.

(** The only change a key of the component ever undergoes: its first event is
    recorded, or one event is appended to a valid ledger. *)
Definition ledger_step (key : string) (old : option Value) (new : Value) : Prop :=
  exists l', from_value new = Some l' /\ valid l' /\ l'.(lg_storage_key) = key
  /\ match old with
     | None => exists ev, l'.(lg_events) = [ev]
     | Some v => exists l ev, from_value v = Some l /\ l' = push_event l ev
     end.

Definition stored m (key : string) l : Prop :=
  exists e, m !! key = Some e /\ from_value e.(vv_value) = Some l
  /\ valid l /\ l.(lg_storage_key) = key.

(** The interface to the other components: they leave the keys of this one
    alone or follow its rule, and tolerate what it writes. *)
Context (G : string -> option Value -> Value -> Prop).
Context (G_rely : forall key old new, revocation_key key -> G key old new ->
                  ledger_step key old new).
Context (G_guarantee : forall key old new, revocation_key key -> ledger_step key old new ->
                       G key old new).
Context (J : memory -> kv -> Prop).
Notation evolves := (evolves G).
Notation wp := (wp G J).

Lemma extends_refl l : extends l l.
Proof. by split. Qed.
Lemma extends_trans l1 l2 l3 : extends l1 l2 -> extends l2 l3 -> extends l1 l3.
Proof. intros [? ?] [? ?]. split; [congruence|by etrans]. Qed.

(** A stored ledger is only ever extended. *)
Lemma stored_evolves m m' key l :
  revocation_key key -> evolves m m' -> stored m key l ->
  exists l', stored m' key l' /\ extends l l'.
Proof.
  intros Hkey He (e & Hm & Hl). specialize (He key). rewrite Hm in He.
  unfold stored. revert He. generalize (m' !! key). clear m' Hm. intros o He.
  remember (Some e) as o0 eqn:Ho. revert e l Ho Hl.
  induction He as [o|o1 o2 o3 (e2 & -> & _ & Hg) _ IH]; intros e l -> (Hd & Hv & Hk).
  - exists l. split; [eauto|]. apply extends_refl.
  - apply G_rely in Hg as (l2 & Hd2 & Hv2 & Hk2 & l1 & ev & Hd1 & ->); [|done].
    cbn in Hd1. rewrite Hd in Hd1. injection Hd1 as <-.
    destruct (IH e2 (push_event l ev)) as (l' & Hs & Hx); [done|done|].
    exists l'. split; [done|]. eapply extends_trans; [|done].
    split; [done|]. by eexists.
Qed.

Lemma stored_appears m m' key :
  revocation_key key -> evolves m m' -> m !! key = None ->
  m' !! key = None \/ exists l, stored m' key l.
Proof.
  intros Hkey He Hm. pose proof (He key) as Hr. rewrite Hm in Hr.
  inversion Hr as [|? o ? (e & -> & _ & Hg) Hr' Hx Hy]; subst; [by left|]. right.
  apply G_rely in Hg as (l & Hl & Hv & Hk & _); [|done].
  destruct (stored_evolves (<[key:=e]> m') m' key l Hkey) as (l' & Hs & _); [| |eauto].
  - intros key'. destruct (decide (key = key')) as [<-|Hne].
    + by rewrite lookup_insert_eq.
    + by rewrite lookup_insert_ne.
  - exists e. by rewrite lookup_insert_eq.
Qed.

Lemma wp_load_ledger (Q : result RevocationError (option (RevocationLedger * N)) -> kv -> Prop)
    key m :
  (forall m0 m', evolves m m0 -> evolves m0 m' -> m0 !! key = None -> Q (Ok None) m') ->
  (forall m0 m' l, evolves m m0 -> evolves m0 m' -> stored m0 key l ->
     Q (Ok (Some (l, rev_of (m0 !! key)))) m') ->
  (forall e m', evolves m m' -> Q (Err e) m') ->
  wp (load_ledger key) Q m.
Proof.
  intros Hnone Hsome Herr. apply wp_qbind, wp_map_err, wp_get_versioned.
  2:{ intros e m' He m2 He2 m3 He3. apply Herr. etrans; [|done]. by etrans. }
  intros m0 m1 He0 He1 m2 He2. cbn [map_err].
  destruct (m0 !! key) as [entry|] eqn:Hm0.
  2:{ intros m3 He3. eapply (Hnone m0); [done| |done]. etrans; [|done]. by etrans. }
  apply wp_pure. intros m3 He3.
  match goal with |- Q ?r m3 => destruct r as [o|e] eqn:Hr end.
  2:{ apply Herr. do 3 (etrans; [|done]). done. }
  apply rbind_ok in Hr as (l & Hd%ok_or_ok & ([] & Hv & [Hk Ho]%reject_ok)%rbind_ok).
  injection Ho as <-. reflect_bools.
  replace (vv_mod_revision entry) with (rev_of (m0 !! key)) by (by rewrite Hm0).
  eapply (Hsome m0); [done| |].
  - etrans; [|done]. by etrans.
  - by exists entry.
Qed.

(** A compare-and-set over the ledger that was read. *)
Lemma wp_commit (Q : result RevocationError CasOutcome -> kv -> Prop) key next value m0 m :
  revocation_key key -> evolves m0 m ->
  ledger_step key (value_of (m0 !! key)) value -> from_value value = Some next ->
  (forall m' l, stored m' key l -> extends next l -> Q (Ok Applied) m') ->
  (forall m', Q (Ok Mismatch) m') -> (forall e m', Q (Err e) m') ->
  wp (prog_map_err RE_Store (put_if_revision key value (rev_of (m0 !! key)))) Q m.
Proof.
  intros Hkey He Hstep Hdec Happ Hmis Herr.
  assert (Hg : forall m', evolves m m' -> cas_matches (m' !! key) (rev_of (m0 !! key)) = true ->
               G key (value_of (m' !! key)) value).
  { intros m' He' Hr%cas_rev. assert (m' !! key = m0 !! key) as ->; [|by apply G_guarantee].
    eapply evolves_same_rev; [|exact Hr]. by etrans. }
  apply wp_map_err, wp_put_if_revision; [exact Hg| | |].
  - intros m' rev m2 He' Hr Hlt He2 m3 He3.
    destruct Hstep as (l & Hl & Hv & Hk & _). rewrite Hdec in Hl. injection Hl as <-.
    set (e := {| vv_value := value; vv_mod_revision := rev |}) in *.
    destruct (stored_evolves (<[key:=e]> m') m3 key next Hkey) as (l' & Hs & Hx).
    + by etrans.
    + exists e. by rewrite lookup_insert_eq.
    + by eapply Happ.
  - intros. apply Hmis.
  - intros. apply Herr.
Qed.

(** The outcome of an accepted mutation: its event is in the stored ledger,
    and the snapshot describes the ledger up to that event; either it was
    found there by its idempotency key, or this request appended it. *)
Definition accepted (action : RevocationAction) (key ih rh : string) (now : N)
    (snap : RevocationSnapshot) m : Prop :=
  exists l evs1 ev evs2,
    stored m key l /\ l.(lg_events) = evs1 ++ ev :: evs2
    /\ ev.(ev_idempotency_hash) = ih /\ ev.(ev_request_hash) = rh
    /\ (snap = original_outcome key evs1 ev
        \/ (ev.(ev_action) = action
            /\ snap = snapshot {| lg_version := LEDGER_VERSION; lg_storage_key := key;
                                  lg_events := evs1 ++ [ev] |} now)).

Lemma extends_events l l' evs1 ev evs2 :
  extends l l' -> l.(lg_events) = evs1 ++ ev :: evs2 ->
  exists evs3, l'.(lg_events) = evs1 ++ ev :: evs3.
Proof. intros [_ [tail ->]] ->. exists (evs2 ++ tail). by rewrite <- app_assoc. Qed.

Lemma accepted_replay action key ih rh now snap m m' l :
  revocation_key key -> evolves m m' -> stored m key l ->
  replay_snapshot l ih rh = Ok (Some snap) -> accepted action key ih rh now snap m'.
Proof.
  intros Hkey He Hs (evs1 & ev & evs2 & Hl & Hi & Hr & ->)%replay_some.
  destruct (stored_evolves _ _ _ _ Hkey He Hs) as (l' & Hs' & Hx).
  destruct (extends_events _ _ _ _ _ Hx Hl) as [evs3 Hl'].
  exists l', evs1, ev, evs3. split_and!; [done..|]. left.
  destruct Hs as (_ & _ & _ & _ & ->). done.
Qed.

Lemma accepted_fresh key now next evs ev m l :
  valid next -> stored m key l -> extends next l -> next.(lg_events) = evs ++ [ev] ->
  accepted ev.(ev_action) key ev.(ev_idempotency_hash) ev.(ev_request_hash) now
    (snapshot next now) m.
Proof.
  intros Hv Hs Hx Hn. destruct (extends_events _ _ _ _ _ Hx Hn) as [evs2 Hl].
  exists l, evs, ev, evs2. split_and!; [done..|]. right. split; [done|].
  apply valid_iff in Hv as (Hver & _). destruct Hx as [Hk _], Hs as (_ & _ & _ & _ & Hk').
  destruct next; cbn in *. congruence.
Qed.

(** ** The transitions as steps *)

(** What a request stores next, over what it read. *)
Record stores (o : option RevocationLedger) (key : string) (action : RevocationAction)
    (ih rh : string) (next : RevocationLedger) : Prop := {
  st_valid : valid next;
  st_key : next.(lg_storage_key) = key;
  st_event : exists evs ev,
    next.(lg_events) = evs ++ [ev] /\ ev.(ev_action) = action
    /\ ev.(ev_idempotency_hash) = ih /\ ev.(ev_request_hash) = rh
    /\ match o with
       | None => evs = []
       | Some l => next = push_event l ev
       end
}.

Lemma append_revoke_stores l record ih rh next :
  append_revoke l record ih rh = (next, Ok tt) ->
  stores (Some l) l.(lg_storage_key) (Action_Revoke record) ih rh next.
Proof.
  unfold append_revoke. intros Happ. destruct (ensure_capacity l); [|done].
  destruct (event_new _ _ _ _ _) as [ev|] eqn:Hev; [|done]. injection Happ as <- Hv.
  split; [done..|]. exists (lg_events l), ev.
  apply event_new_iff in Hev as (? & _ & ->). done.
Qed.

Lemma append_lift_stores l actor reason now ih rh next :
  append_lift l actor reason now ih rh = (next, Ok tt) ->
  stores (Some l) l.(lg_storage_key) (Action_Lift (trim actor) (trim reason) now) ih rh next.
Proof.
  unfold append_lift. intros Happ.
  match type of Happ with match ?x with _ => _ end = _ => destruct x as [ev|] eqn:Hx end; [|done].
  injection Happ as <- Hv. inv_ok. split; [done..|]. exists (lg_events l), ev.
  match goal with He : event_new _ _ _ _ _ = Ok ev |- _ =>
    apply event_new_iff in He as (? & _ & ->) end.
  done.
Qed.

Lemma ledger_new_stores key record ih rh next :
  ledger_new key record ih rh = Ok next ->
  stores None key (Action_Revoke record) ih rh next.
Proof.
  unfold ledger_new. intros (ev & Hev & ([] & Hv & Hn)%rbind_ok)%rbind_ok.
  injection Hn as <-. split; [done..|]. exists [], ev.
  apply event_new_iff in Hev as (? & _ & ->). done.
Qed.

Lemma stores_step o key action ih rh next value :
  stores (fst <$> o) key action ih rh next -> to_value next = Some value ->
  match o with
  | None => True
  | Some (l, v) => from_value v = Some l
  end ->
  ledger_step key (snd <$> o) value /\ from_value value = Some next.
Proof.
  intros [Hv Hk (evs & ev & Hn & _ & _ & _ & Ho)] Hval Hl.
  pose proof (serde_roundtrip _ _ Hval) as Hdec. split; [|done].
  exists next. split_and!; [done..|]. destruct o as [[l v]|]; cbn in *.
  - exists l, ev. done.
  - exists ev. by rewrite Hn, Ho.
Qed.

(** The state a loop iteration read, [o] being the ledger found there. *)
Definition read_at m key (o : option RevocationLedger) : Prop :=
  match o with
  | None => m !! key = None
  | Some l => stored m key l
  end.

Lemma accepted_evolves action key ih rh now snap m m' :
  revocation_key key -> evolves m m' ->
  accepted action key ih rh now snap m -> accepted action key ih rh now snap m'.
Proof.
  intros Hkey He (l & evs1 & ev & evs2 & Hs & Hl & Hrest).
  destruct (stored_evolves _ _ _ _ Hkey He Hs) as (l' & Hs' & Hx).
  destruct (extends_events _ _ _ _ _ Hx Hl) as [evs3 Hl'].
  by exists l', evs1, ev, evs3.
Qed.

(** Storing over what was read, then answering with the new snapshot. *)
Lemma wp_store (again : store_prog RevocationSnapshot) o key action ih rh now next value m0 m :
  let Q (r : result RevocationError RevocationSnapshot) m' :=
    forall snap, r = Ok snap -> accepted action key ih rh now snap m' in
  revocation_key key -> evolves m0 m -> read_at m0 key o ->
  stores o key action ih rh next -> to_value next = Some value ->
  (forall m', wp again Q m') ->
  wp (let!? outcome := prog_map_err RE_Store
        (put_if_revision key value (rev_of (m0 !! key))) in
      match outcome with
      | Applied => pure (Ok (snapshot next now))
      | Mismatch => again
      end) Q m.
Proof.
  intros Q Hkey He Ho Hst Hval Hagain.
  pose proof Hst as [Hv _ (evs & ev & Hn & <- & <- & <- & _)].
  assert (ledger_step key (value_of (m0 !! key)) value /\ from_value value = Some next)
    as [Hstep Hdec].
  { destruct o as [l|]; [destruct Ho as (e & Hm0 & Hd & _); rewrite Hm0|rewrite Ho].
    - exact (stores_step (Some (l, vv_value e)) _ _ _ _ _ _ Hst Hval Hd).
    - exact (stores_step None _ _ _ _ _ _ Hst Hval I). }
  apply wp_qbind. eapply wp_commit; [done|done|done|done| |done|done].
  intros m' l Hs Hx. apply wp_pure. intros m2 He2 snap [= <-].
  eapply accepted_evolves; [done|done|]. by eapply accepted_fresh.
Qed.

Lemma next_revoked_stores o m key record ih rh next :
  read_at m key o -> next_revoked o key record ih rh = Ok next ->
  stores o key (Action_Revoke record) ih rh next.
Proof.
  destruct o as [l|]; cbn [read_at next_revoked]; [|intros _; apply ledger_new_stores].
  intros (_ & _ & _ & _ & <-). destruct (append_revoke _ _ _ _) as [l' [[]|]] eqn:Happ; [|done].
  intros [= <-]. by apply append_revoke_stores.
Qed.

Lemma wp_revoke_loop retries key record ih rh now m :
  revocation_key key ->
  wp (revoke_loop retries key record ih rh now)
     (fun r m' => forall snap, r = Ok snap ->
        accepted (Action_Revoke record) key ih rh now snap m') m.
Proof.
  intros Hkey. revert m. induction retries as [|retries IH]; intros m; cbn [revoke_loop].
  { by apply wp_pure. }
  apply wp_qbind.
  assert (Hrest : forall o m0 m1, evolves m0 m1 -> read_at m0 key o ->
    wp (let!? snap := pure (replayed o ih rh) in
        match snap with
        | Some snap => pure (Ok snap)
        | None =>
            let!? next := pure (next_revoked o key record ih rh) in
            let!? value := pure (ok_or (to_value next) RE_InvalidLedger) in
            let!? outcome := prog_map_err RE_Store
              (put_if_revision key value (rev_of (m0 !! key))) in
            match outcome with
            | Applied => pure (Ok (snapshot next now))
            | Mismatch => revoke_loop retries key record ih rh now
            end
        end)
       (fun r m' => forall snap, r = Ok snap ->
          accepted (Action_Revoke record) key ih rh now snap m') m1).
  { intros o m0 m1 He Ho. apply wp_pure_q; [|done]. intros [snap|] Hr.
    - apply wp_pure. intros m2 He2 snap' [= <-]. destruct o as [l|]; [|done].
      eapply (accepted_replay _ _ _ _ _ _ m0); [done|by etrans|exact Ho|exact Hr].
    - apply wp_pure_q; [|done]. intros next Hn. apply wp_pure_q; [|done].
      intros value Hval%ok_or_ok. eapply wp_store; eauto using next_revoked_stores. }
  apply wp_load_ledger; [| |done].
  - intros m0 m1 _ He1 Hnone. replace 0 with (rev_of (m0 !! key)) by (by rewrite Hnone).
    by apply (Hrest None).
  - intros m0 m1 l _ He1 Hl. by apply (Hrest (Some l)).
Qed.

Lemma wp_lift_loop retries key actor reason ih rh now m :
  revocation_key key ->
  wp (lift_loop retries key actor reason ih rh now)
     (fun r m' => forall snap, r = Ok snap ->
        accepted (Action_Lift (trim actor) (trim reason) now) key ih rh now snap m') m.
Proof.
  intros Hkey. revert m. induction retries as [|retries IH]; intros m; cbn [lift_loop].
  { by apply wp_pure. }
  apply wp_qbind, wp_load_ledger; [by intros; apply wp_pure| |done].
  intros m0 m1 l _ He Hl. apply wp_pure_q; [|done]. intros [snap|] Hr.
  - apply wp_pure. intros m2 He2 snap' [= <-].
    eapply (accepted_replay _ _ _ _ _ _ m0); [done|by etrans|exact Hl|exact Hr].
  - destruct (append_lift _ _ _ _ _ _) as [next r] eqn:Happ.
    apply wp_pure_q; [|done]. intros [] ->. apply wp_pure_q; [|done].
    intros value Hval%ok_or_ok.
    apply append_lift_stores in Happ. pose proof Hl as (_ & _ & _ & _ & Hk). rewrite Hk in Happ.
    eapply (wp_store _ (Some l)); eauto.
Qed.

Lemma selector_key_prefix s key : selector_storage_key s = Ok key -> revocation_key key.
Proof.
  unfold selector_storage_key, revocation_key, starts_with. intros Hk. inv_ok.
  match goal with |- context [strip_prefix ?p ?s] =>
    destruct (strip_prefix p s) eqn:Hs; [done|] end.
  exfalso. cbn in Hs. done.
Qed.

(** ** Requests *)

Notation store := {| rs_kv := true |}.

Lemma wp_revoke request mutation now m :
  wp (revoke store request mutation now)
     (fun r m' => forall snap, r = Ok snap ->
        exists key record, selector_storage_key (request_selector request) = Ok key
        /\ request_record request mutation.(mi_actor) now = Ok record
        /\ record_storage_key record = Ok key
        /\ accepted (Action_Revoke record) key
             (mutation_hash "revoke" key mutation.(mi_actor) mutation.(mi_idempotency_key))
             (request_hash request) now snap m') m.
Proof.
  unfold revoke. apply wp_pure_q; [intros _ _|done]. apply wp_pure_q; [intros key Hk|done].
  apply wp_pure_q; [intros record Hr|done]. apply wp_pure_q; [|done].
  intros record_key Hrk%map_err_ok. cbn [rs_kv].
  destruct (String.eqb_spec record_key key) as [->|]; cbn [negb]; [|by apply wp_pure].
  eapply wp_mono; [|by eapply wp_revoke_loop, selector_key_prefix].
  intros r m' Hacc snap ->. exists key, record. auto.
Qed.

Lemma wp_lift request mutation now m :
  wp (lift store request mutation now)
     (fun r m' => forall snap, r = Ok snap ->
        exists key, selector_storage_key request.(lift_selector) = Ok key
        /\ accepted (Action_Lift (trim mutation.(mi_actor)) (trim request.(lift_reason)) now) key
             (mutation_hash "lift" key mutation.(mi_actor) mutation.(mi_idempotency_key))
             (lift_request_hash request) now snap m') m.
Proof.
  unfold lift. apply wp_pure_q; [intros _ _|done]. apply wp_pure_q; [intros _ _|done].
  apply wp_pure_q; [intros key Hk|done]. cbn [rs_kv].
  eapply wp_mono; [|by eapply wp_lift_loop, selector_key_prefix].
  intros r m' Hacc snap ->. exists key. auto.
Qed.

(** A ledger that revokes the presented token at [now]. *)
Definition revokes l (claims : Claims) (now : N) : Prop :=
  exists record, current_record l = Some record /\ record_matches record claims now = true.

(** What a revoked decision rests on. *)
Definition justified (sels : list (RevocationSelector * MatchedTarget)) (claims : Claims)
    (now : N) (d : RevocationDecision) m : Prop :=
  exists sel target key l0 l,
    (sel, target) ∈ sels /\ selector_storage_key sel = Ok key
    /\ stored m key l /\ extends l0 l /\ valid l0 /\ revokes l0 claims now
    /\ d.(dc_matched_target) = Some target /\ d.(dc_generation) = Some (generation l0).

Lemma ledger_decision_some l target claims now d :
  ledger_decision l target claims now = Some d ->
  d.(dc_revoked) = true /\ revokes l claims now
  /\ d.(dc_matched_target) = Some target /\ d.(dc_generation) = Some (generation l).
Proof.
  unfold ledger_decision, revokes. destruct (current_record l) as [r|]; [|done].
  destruct (record_matches r claims now) eqn:Hm; [|done]. intros [= <-]. split_and!; eauto.
Qed.
Lemma ledger_decision_none l target claims now :
  ledger_decision l target claims now = None -> ~ revokes l claims now.
Proof.
  unfold ledger_decision. intros Hd (r & Hc & Hm). by rewrite Hc, Hm in Hd.
Qed.

(** The answer of [check]: a revoked decision is justified by a stored
    ledger, and a ledger of [m0] that revokes the token is reported, unless
    that ledger has changed since. *)
Definition check_answer m0 (sels : list (RevocationSelector * MatchedTarget)) (claims : Claims)
    (now : N) (r : result RevocationError RevocationDecision) m : Prop :=
  forall d, r = Ok d ->
    (d.(dc_revoked) = true -> justified sels claims now d m)
    /\ forall sel target key l,
         (sel, target) ∈ sels -> selector_storage_key sel = Ok key -> stored m0 key l ->
         revokes l claims now ->
         d.(dc_revoked) = true \/ exists l', stored m key l' /\ extends l l' /\ l' <> l.

Lemma extends_back l1 l2 : valid l1 -> valid l2 -> extends l1 l2 -> extends l2 l1 -> l1 = l2.
Proof.
  intros (Hv1 & _)%valid_iff (Hv2 & _)%valid_iff [Hk H1] [_ H2].
  destruct l1 as [v1 k1 evs1], l2 as [v2 k2 evs2]; cbn in *.
  assert (evs1 = evs2) as -> by (apply (anti_symm prefix); done). congruence.
Qed.

Lemma selectors_key_prefix claims sel target key :
  (sel, target) ∈ selectors claims -> selector_storage_key sel = Ok key -> revocation_key key.
Proof. intros _. apply selector_key_prefix. Qed.

Lemma justified_here sels sel target key l claims now d m :
  (sel, target) ∈ sels -> selector_storage_key sel = Ok key -> stored m key l ->
  ledger_decision l target claims now = Some d -> justified sels claims now d m.
Proof.
  intros Hin Hk Hs (_ & Hr & Ht & Hg)%ledger_decision_some.
  exists sel, target, key, l, l. pose proof Hs as (_ & _ & _ & ? & _).
  split_and!; try done.
Qed.

Lemma justified_evolves sels claims now d m m' :
  evolves m m' -> justified sels claims now d m -> justified sels claims now d m'.
Proof.
  intros He (sel & target & key & l0 & l & Hin & Hk & Hs & Hx & Hrest).
  destruct (stored_evolves _ m' key l (selector_key_prefix _ _ Hk) He Hs) as (l' & Hs' & Hx').
  exists sel, target, key, l0, l'. do 3 (split; [done|]). split; [by eapply extends_trans|done].
Qed.

Lemma check_answer_evolves m0 sels claims now r m m' :
  evolves m m' -> check_answer m0 sels claims now r m -> check_answer m0 sels claims now r m'.
Proof.
  intros He Hans d Hr. destruct (Hans d Hr) as [Hj Hk]. split.
  - intros Hd. by eapply justified_evolves, Hj.
  - intros sel target key l Hin Hkey Hs Hrev.
    destruct (Hk sel target key l Hin Hkey Hs Hrev) as [|(l1 & Hs1 & Hx1 & Hne)]; [by left|].
    destruct (stored_evolves _ m' key l1 (selector_key_prefix _ _ Hkey) He Hs1)
      as (l2 & Hs2 & Hx2).
    right. exists l2. split; [done|]. split; [by eapply extends_trans|]. intros ->. apply Hne.
    destruct Hs as (_ & _ & _ & ? & _), Hs1 as (_ & _ & _ & ? & _). symmetry.
    by apply extends_back.
Qed.

(** A ledger of [m0] read at [m1] as [l1]: unchanged, or changed for good. *)
Lemma read_again m0 m1 m2 key l :
  revocation_key key -> evolves m0 m1 -> evolves m1 m2 -> stored m0 key l ->
  stored m1 key l \/ exists l', stored m2 key l' /\ extends l l' /\ l' <> l.
Proof.
  intros Hkey H01 H12 Hs.
  destruct (stored_evolves _ _ _ _ Hkey H01 Hs) as (l1 & Hs1 & Hx1).
  destruct (stored_evolves _ _ _ _ Hkey H12 Hs1) as (l2 & Hs2 & Hx2).
  destruct (decide (l1 = l)) as [->|Hne]; [by left|]. right. exists l2.
  split_and!; [done|by eapply extends_trans|]. intros ->. apply Hne. symmetry.
  destruct Hs as (_ & _ & _ & ? & _), Hs1 as (_ & _ & _ & ? & _).
  by apply extends_back.
Qed.

Lemma stored_entry_inj m key l l' : stored m key l -> stored m key l' -> l = l'.
Proof. intros (e & Hm & Hd & _) (e' & Hm' & Hd' & _). congruence. Qed.

Lemma check_answer_skip m0 sel target sels claims now key m1 r m :
  selector_storage_key sel = Ok key -> evolves m0 m1 -> evolves m1 m ->
  (forall l, stored m1 key l -> ~ revokes l claims now) ->
  check_answer m0 sels claims now r m ->
  check_answer m0 ((sel, target) :: sels) claims now r m.
Proof.
  intros Hk H01 H1 Hno Hans d Hr. destruct (Hans d Hr) as [Hj He]. split.
  - intros Hd. destruct (Hj Hd) as (sel' & target' & key' & l0 & l & Hin & Hrest).
    exists sel', target', key', l0, l. split; [by right|done].
  - intros sel' target' key' l [[= -> ->]|Hin]%list.elem_of_cons Hk' Hs Hrev; [|by eapply He].
    rewrite Hk in Hk'. injection Hk' as <-. right.
    destruct (read_again m0 m1 m key l) as [Hs1|Hx];
      [by eapply selector_key_prefix|done|done|done| |done].
    by destruct (Hno l Hs1).
Qed.

Lemma wp_check_selectors m0 sels claims now m :
  evolves m0 m ->
  wp (check_selectors store sels claims now) (check_answer m0 sels claims now) m.
Proof.
  revert m. induction sels as [|[sel target] sels IH]; intros m Hm0; cbn [check_selectors].
  { apply wp_pure. intros m' _ d [= <-]. split; [done|]. by intros ? ? ? ? ?%not_elem_of_nil. }
  apply wp_pure_q; [intros key Hk|done]. apply wp_qbind. cbn [read_ledger rs_kv].
  apply wp_qbind, wp_load_ledger; [| |done].
  - intros m1 m2 H1 H2 Hnone. apply wp_pure. intros m3 H3. cbn [fmap option_fmap option_map].
    eapply wp_frame; [|apply IH; do 3 (etrans; [|done]); done].
    intros r m4 H4 Hans. eapply (check_answer_skip _ _ _ _ _ _ _ m1); [done| | | |done].
    + by etrans.
    + do 2 (etrans; [|done]). done.
    + intros l (e & Hm1 & _). congruence.
  - intros m1 m2 l H1 H2 Hl. apply wp_pure. intros m3 H3. cbn [fmap option_fmap option_map fst].
    destruct (ledger_decision l target claims now) as [d|] eqn:Hd.
    + apply wp_pure. intros m4 H4 d' [= <-].
      pose proof (ledger_decision_some _ _ _ _ _ Hd) as (Hrev & _).
      split; [intros _|by intros; left]. eapply (justified_evolves _ _ _ _ m1).
      * do 2 (etrans; [|done]). done.
      * eapply justified_here; [apply list_elem_of_here|done..].
    + eapply wp_frame; [|apply IH; do 3 (etrans; [|done]); done].
      intros r m4 H4 Hans. eapply (check_answer_skip _ _ _ _ _ _ _ m1); [done| | | |done].
      * by etrans.
      * do 2 (etrans; [|done]). done.
      * intros l' Hl'. rewrite (stored_entry_inj _ _ _ _ Hl' Hl).
        by eapply ledger_decision_none.
Qed.

Lemma wp_check m0 claims now m :
  evolves m0 m ->
  wp (check store claims now) (check_answer m0 (selectors claims) claims now) m.
Proof.
  intros Hm0. unfold check. apply wp_pure_q; [intros _ _|done]. by apply wp_check_selectors.
Qed.
End rely.
