(* ===== verification/RevocationSystem.v ===== *)
(** * The revocation service as a whole

    Any number of replicas serve [revoke], [lift] and [check] concurrently
    against one key-value service, next to clients that write other keys.
    The theorems hold in every interleaving, with requests dropped at any
    await point and service calls that fail before or after taking effect. *)
From Stdlib Require Import Ascii String.
From S2P Require Import Prelude Text Wire Samples Json Token Kv Interleave Ledger LedgerFacts SampleCodecs.
From S2P Require Import LedgerHistory RevocationStore RevocationSafety.

Inductive store_request :=
  | Request_Revoke (request : RevokeRequest) (mutation : MutationIdentity) (now : N)
  | Request_Lift (request : LiftRequest) (mutation : MutationIdentity) (now : N)
  | Request_Check (claims : Claims) (now : N).
Inductive store_answer :=
  | Answer_Snapshot (r : result RevocationError RevocationSnapshot)
  | Answer_Decision (r : result RevocationError RevocationDecision).

Section system.
Context `{CryptoLaws, !ToVec RevocationAction, !Serde RevocationLedger,
          !SerdeLaws RevocationLedger}.
Context {W : Type} `{!Service W, !ServiceLaws W}.
Notation store := {| rs_kv := true |}.
Notation client := (prog memory (option (store_request * store_answer))).

(** One request of the store, tagged with what was asked. *)
Definition serve (request : store_request) : client :=
  match request with
  | Request_Revoke r mutation now =>
      let! answer := revoke store r mutation now in
      Ret (Some (request, Answer_Snapshot answer))
  | Request_Lift r mutation now =>
      let! answer := lift store r mutation now in
      Ret (Some (request, Answer_Snapshot answer))
  | Request_Check claims now =>
      let! answer := check store claims now in
      Ret (Some (request, Answer_Decision answer))
  end.

(** A client of the service that never writes a revocation key. *)
Fixpoint foreign {A} (p : prog memory (option A)) : Prop :=
  match p with
  | Ret a => a = None
  | Local f k => forall s, foreign (k s)
  | Get _ k => forall r, foreign (k r)
  | Put key _ _ k => ~ revocation_key key /\ forall r, foreign (k r)
  end.

Definition store_client (p : client) : Prop := (exists request, p = serve request) \/ foreign p.
Definition reaches (c c' : config (S:=memory) (A:=option (store_request * store_answer)) (W:=W))
  : Prop := c.(cf_requests) = [] /\ rtc (config_step store_client) c c'.
Notation state c := (entries c.(cf_service)).

(** The change every client of the system keeps to. *)
Definition revocation_rule (key : string) (old : option Value) (new : Value) : Prop :=
  revocation_key key -> ledger_step key old new.
Notation no_local_claim := (fun (_ : memory) (_ : kv) => True).

Definition answered m0 (a : option (store_request * store_answer)) (m : kv) : Prop :=
  match a with
  | Some (Request_Revoke request mutation now, Answer_Snapshot (Ok snap)) =>
      exists key record, selector_storage_key (request_selector request) = Ok key
      /\ request_record request mutation.(mi_actor) now = Ok record
      /\ record_storage_key record = Ok key
      /\ accepted (Action_Revoke record) key
           (mutation_hash "revoke" key mutation.(mi_actor) mutation.(mi_idempotency_key))
           (request_hash request) now snap m
  | Some (Request_Lift request mutation now, Answer_Snapshot (Ok snap)) =>
      exists key, selector_storage_key request.(lift_selector) = Ok key
      /\ accepted (Action_Lift (trim mutation.(mi_actor)) (trim request.(lift_reason)) now) key
           (mutation_hash "lift" key mutation.(mi_actor) mutation.(mi_idempotency_key))
           (lift_request_hash request) now snap m
  | Some (Request_Check claims now, Answer_Decision r) =>
      check_answer m0 (selectors claims) claims now r m
  | _ => True
  end.

Lemma rule_rely key old new :
  revocation_key key -> revocation_rule key old new -> ledger_step key old new.
Proof. auto. Qed.
Lemma rule_guarantee key old new :
  revocation_key key -> ledger_step key old new -> revocation_rule key old new.
Proof. intros _ Hs _. exact Hs. Qed.

Lemma foreign_wp {A} (G : string -> option Value -> Value -> Prop) (Q : option A -> kv -> Prop) m p :
  (forall key old new, ~ revocation_key key -> G key old new) -> (forall m', Q None m') ->
  foreign p -> wp G no_local_claim p Q m.
Proof.
  intros HG HQ. revert m.
  induction p as [a|f k IH|key k IH|key v prev k IH]; cbn; intros m Hf.
  - intros ? _; subst. apply HQ.
  - intros. split; [done|]. by apply IH.
  - intros. by apply IH.
  - destruct Hf as [Hk Hf]. intros. split; [by intros _; apply HG|]. intros. by apply IH.
Qed.

Lemma serve_wp m0 m request :
  evolves revocation_rule m0 m ->
  wp revocation_rule no_local_claim (serve request) (answered m0) m.
Proof.
  intros He. destruct request as [r mu now|r mu now|claims now]; cbn [serve]; apply wp_bind.
  - eapply wp_frame; [|apply (wp_revoke _ rule_rely rule_guarantee)].
    intros a m1 _ Ha. cbn. intros m2 He2. destruct a as [snap|]; [|done].
    destruct (Ha snap eq_refl) as (key & record & Hk & Hr & Hrk & Hacc).
    exists key, record. split_and!; try done.
    eapply (accepted_evolves _ rule_rely); [by eapply selector_key_prefix|done|done].
  - eapply wp_frame; [|apply (wp_lift _ rule_rely rule_guarantee)].
    intros a m1 _ Ha. cbn. intros m2 He2. destruct a as [snap|]; [|done].
    destruct (Ha snap eq_refl) as (key & Hk & Hacc).
    exists key. split; [done|].
    eapply (accepted_evolves _ rule_rely); [by eapply selector_key_prefix|done|done].
  - eapply wp_frame; [|by apply (wp_check _ rule_rely _ m0)].
    intros a m1 _ Ha. cbn. intros m2 He2. by eapply (check_answer_evolves _ rule_rely).
Qed.

Lemma client_wp m0 m p :
  evolves revocation_rule m0 m -> store_client p ->
  wp revocation_rule no_local_claim p (answered m0) m.
Proof. intros He [[request ->]|Hf]; [by apply serve_wp|apply foreign_wp; [|done..]].
  intros key old new Hn Hk. by destruct Hn.
Qed.

Lemma system_answers c c' :
  reaches c c' ->
  evolves revocation_rule (state c) (state c')
  /\ forall n a, (n, Ret a) ∈ c'.(cf_requests) -> answered (state c) a (state c').
Proof.
  intros [Hr Hs].
  eapply (system_safe revocation_rule no_local_claim store_client); eauto using client_wp.
  apply list.Forall_true. auto.
Qed.

Lemma reaches_evolves c c' c'' :
  reaches c c' -> rtc (config_step store_client) c' c'' ->
  evolves revocation_rule (state c') (state c'').
Proof.
  intros [Hr H1] H2.
  eapply (system_evolves revocation_rule no_local_claim store_client (answered (state c)) (state c));
    eauto using client_wp.
  apply list.Forall_true. auto.
Qed.

(** C3: revocation history is append-only: between any two states of a run,
    with any requests of all replicas and clients of other keys in flight at
    both, requests dropped at any await point and service calls that fail
    before or after taking effect, a ledger that is stored in the earlier
    state is extended, never rewritten, shortened or removed, in the later
    one, and a ledger that appears is valid and belongs to its key. *)
Theorem revocation_append_only c0 c c' key :
  reaches c0 c -> rtc (config_step store_client) c c' -> revocation_key key ->
  (forall l, stored (state c) key l -> exists l', stored (state c') key l' /\ extends l l')
  /\ (state c !! key = None ->
      state c' !! key = None \/ exists l', stored (state c') key l').
Proof.
  intros Hr Hs Hkey. pose proof (reaches_evolves _ _ _ Hr Hs) as He. split.
  - intros l. by eapply (stored_evolves _ rule_rely).
  - by eapply (stored_appears _ rule_rely).
Qed.

(** C4: an acknowledged revocation is durable: whenever a replica has
    answered a revoke request with a snapshot, the ledger stored under the
    target's key contains, in that state and in every later one, an event
    with exactly this request's idempotency and request hashes, and the
    snapshot is the state of the target at that event: either the event this
    very request appended, carrying the record built from the request, or
    the one an earlier attempt under the same idempotency key had appended. *)
Theorem revoke_acknowledged c c' c'' n request mutation now snap :
  reaches c c' -> rtc (config_step store_client) c' c'' ->
  (n, Ret (Some (Request_Revoke request mutation now, Answer_Snapshot (Ok snap))))
    ∈ c'.(cf_requests) ->
  exists key record,
    selector_storage_key (request_selector request) = Ok key
    /\ request_record request mutation.(mi_actor) now = Ok record
    /\ record_storage_key record = Ok key
    /\ accepted (Action_Revoke record) key
         (mutation_hash "revoke" key mutation.(mi_actor) mutation.(mi_idempotency_key))
         (request_hash request) now snap (state c'').
Proof.
  intros Hr Hs Ha. pose proof (reaches_evolves _ _ _ Hr Hs) as He.
  destruct (system_answers _ _ Hr) as [_ Hans].
  destruct (Hans _ _ Ha) as (key & record & Hk & Hrec & Hrk & Hacc).
  exists key, record. do 3 (split; [done|]).
  eapply (accepted_evolves _ rule_rely); [by eapply selector_key_prefix|done|done].
Qed.

(** An acknowledged lift is durable: whenever a replica has answered a
    lift request with a snapshot, the target's stored ledger contains, from
    then on, the lift event of this request, at the generation and with the
    status the snapshot reports. *)
Theorem lift_acknowledged c c' c'' n request mutation now snap :
  reaches c c' -> rtc (config_step store_client) c' c'' ->
  (n, Ret (Some (Request_Lift request mutation now, Answer_Snapshot (Ok snap))))
    ∈ c'.(cf_requests) ->
  exists key, selector_storage_key request.(lift_selector) = Ok key
    /\ accepted (Action_Lift (trim mutation.(mi_actor)) (trim request.(lift_reason)) now) key
         (mutation_hash "lift" key mutation.(mi_actor) mutation.(mi_idempotency_key))
         (lift_request_hash request) now snap (state c'').
Proof.
  intros Hr Hs Ha. pose proof (reaches_evolves _ _ _ Hr Hs) as He.
  destruct (system_answers _ _ Hr) as [_ Hans].
  destruct (Hans _ _ Ha) as (key & Hk & Hacc).
  exists key. split; [done|].
  eapply (accepted_evolves _ rule_rely); [by eapply selector_key_prefix|done|done].
Qed.

(** C2: a revoked token is refused: if at some instant of a run, with any
    requests in flight, the token's id or its subject is revoked by a stored
    ledger at [now], then every check of that token that is admitted after
    that instant and answered, on whichever replica, reports it revoked,
    unless that target's history changed in between; and no check, whenever
    it was admitted, reports a token revoked without a stored history that
    revokes it. *)
Theorem revoked_token_refused
    (c0 c c' : config (S:=memory) (A:=bool * option (store_request * store_answer)) (W:=W))
    n late claims now d :
  through store_client c0 c c' ->
  (n, Ret (late, Some (Request_Check claims now, Answer_Decision (Ok d)))) ∈ c'.(cf_requests) ->
  (late = true -> forall sel target key l,
     (sel, target) ∈ selectors claims -> selector_storage_key sel = Ok key ->
     stored (state c) key l -> revokes l claims now ->
     d.(dc_revoked) = true
     \/ exists l', stored (state c') key l' /\ extends l l' /\ l' <> l)
  /\ (d.(dc_revoked) = true -> justified (selectors claims) claims now d (state c')).
Proof.
  intros Ht Ha.
  destruct (phases_safe revocation_rule no_local_claim store_client answered)
    with (c0:=c0) (c:=c) (c':=c') as (_ & _ & Hans); [done|exact client_wp|done| |].
  { by apply list.Forall_true. }
  destruct (Hans _ _ Ha) as [Hstart Hlate]. split.
  - intros -> sel target key l Hin Hk Hs Hrev. destruct (Hlate eq_refl d eq_refl) as [_ He].
    by eapply He.
  - by apply (Hstart d eq_refl).
Qed.
End system.
