(* ===== verification/RevocationRun.v ===== *)
(** * The revocation store run alone

    The functional behaviour of [revoke] and [check] against a service that
    answers every request, and executions on concrete inputs. *)
From Stdlib Require Import Ascii String.
From S2P Require Import Prelude Text Wire Samples Json Token Kv Interleave Ledger LedgerFacts SampleCodecs.
From S2P Require Import LedgerHistory RevocationStore RevocationSafety RevocationSystem.

Section solo.
Context `{CryptoLaws, !ToVec RevocationAction, !Serde RevocationLedger,
          !SerdeLaws RevocationLedger}.
Implicit Types (l : RevocationLedger) (w : mapkv).
Notation store := {| rs_kv := true |}.

(** What [load_ledger] makes of an entry. *)
Definition loaded (key : string) (o : option VersionedValue)
  : result RevocationError (option (RevocationLedger * N)) :=
  match o with
  | None => Ok None
  | Some e =>
      let? l := ok_or (from_value e.(vv_value)) RE_InvalidLedger in
      let? _ := ledger_validate l in
      reject negb (l.(lg_storage_key) =? key)%string with RE_InvalidLedger ;;
      Ok (Some (l, e.(vv_mod_revision)))
  end.
Lemma run_load key w s : run (load_ledger key) w s = (loaded key (mk_entries w !! key), w, s).
Proof.
  unfold load_ledger. rewrite run_qbind. cbn. by destruct (mk_entries w !! key).
Qed.

Lemma loaded_stored m key l :
  stored m key l -> loaded key (m !! key) = Ok (Some (l, rev_of (m !! key))).
Proof.
  intros (e & -> & Hd & Hv & Hk). cbn. rewrite Hd. cbn. unfold valid in Hv. rewrite Hv. cbn.
  by rewrite Hk, String.eqb_refl.
Qed.

Lemma loaded_inv m key l rev :
  loaded key (m !! key) = Ok (Some (l, rev)) -> stored m key l.
Proof.
  destruct (m !! key) as [e|] eqn:He; [|done]. cbn.
  intros (l' & Hd%ok_or_ok & ([] & Hv & [Hk Ho]%reject_ok)%rbind_ok)%rbind_ok.
  injection Ho as -> _. reflect_bools. by exists e.
Qed.

Lemma read_ledger_run m key w s o :
  mk_entries w = m -> read_at m key o -> run (read_ledger store key) w s = (Ok o, w, s).
Proof.
  intros <- Ho. unfold read_ledger. cbn [rs_kv]. rewrite run_qbind, run_load.
  destruct o as [l|]; cbn [read_at] in Ho.
  - by rewrite (loaded_stored _ _ _ Ho).
  - by rewrite Ho.
Qed.

Lemma ledger_new_ok key record ih rh :
  record_storage_key record = Ok key -> is_Some (to_vec (Action_Revoke record)) ->
  is_sha256_hex ih = true -> is_sha256_hex rh = true ->
  exists ev, ev.(ev_sequence) = 1 /\ ev.(ev_action) = Action_Revoke record
  /\ ledger_new key record ih rh
     = Ok {| lg_version := LEDGER_VERSION; lg_storage_key := key; lg_events := [ev] |}.
Proof.
  intros Hk [bytes Hb] Hi Hr. unfold ledger_new.
  destruct (event_new _ _ _ _ _) as [ev|e] eqn:Hev.
  2:{ apply event_new_err in Hev as [Hn _]. congruence. }
  apply event_new_iff in Hev as (b & Hb' & Hev). cbn [rbind].
  set (l := {| lg_version := _ |}).
  assert (Hv : valid l).
  { apply valid_iff. split_and!; [done|cbn; unfold MAX_TRANSITIONS_PER_TARGET; lia..|].
    apply (validate_events_snoc key []). split; [done|]. subst ev. constructor; cbn; try done.
    - apply N.le_0_l.
    - apply validate_hash_iff. cbn. split_and!; [done|done|by left|apply digest_hex|].
      by exists b. }
  exists ev. subst ev. split_and!; [done..|]. unfold valid in Hv. by rewrite Hv.
Qed.

Definition token_key (claims : Claims) : string :=
  scope_key claims.(c_org_id) "token_id" claims.(c_jti).
Definition subject_key (claims : Claims) : string :=
  scope_key claims.(c_org_id) "subject" claims.(c_sub).

(** Checked claims have both storage keys. *)
Lemma checked_selectors claims :
  validate_internal_claims claims = Ok tt ->
  selector_storage_key (Selector_TokenId claims.(c_org_id) claims.(c_jti))
  = Ok (token_key claims)
  /\ selector_storage_key (Selector_Subject claims.(c_org_id) claims.(c_sub))
     = Ok (subject_key claims).
Proof.
  unfold validate_internal_claims.
  intros [_ (u1 & H1 & (u2 & H2 & (u3 & H3 & _)%rbind_ok)%rbind_ok)%rbind_ok]%reject_ok.
  assert (Hf : forall f1 f2 v u, validate_identifier f1 v = Ok u ->
               exists u, validate_identifier f2 v = Ok u).
  { unfold validate_identifier. intros f1 f2 v u [-> _]%reject_ok. by exists tt. }
  destruct (Hf _ "token_id" _ _ H3) as [u4 H4].
  unfold selector_storage_key; split; cbn [selector_tenant_id selector_target_kind
    selector_target_value]; rewrite H1; cbn [rbind]; [rewrite H4|rewrite H2]; done.
Qed.

(** What a check answers: for well-formed claims it reports the token
    revoked exactly when the ledger stored for the token id or the one for
    its subject has a current record that matches the token at [now], and
    otherwise not revoked; it changes nothing, and a stored entry that does
    not decode to a valid ledger of its key fails the check instead of being
    ignored. *)
Theorem check_decides claims now w (s : memory) :
  validate_internal_claims claims = Ok tt ->
  (forall o1 o2,
     read_at (mk_entries w) (token_key claims) o1 ->
     read_at (mk_entries w) (subject_key claims) o2 ->
     exists d, run (check store claims now) w s = (Ok d, w, s)
     /\ (d.(dc_revoked) = true
         <-> (exists l, o1 = Some l /\ revokes l claims now)
             \/ (exists l, o2 = Some l /\ revokes l claims now)))
  /\ (forall e, loaded (token_key claims) (mk_entries w !! token_key claims) = Err e ->
        run (check store claims now) w s = (Err e, w, s)).
Proof.
  intros Hc. destruct (checked_selectors _ Hc) as [Hk1 Hk2]. unfold check. rewrite Hc. split.
  - intros o1 o2 H1 H2. cbn [selectors check_selectors]. rewrite !run_pure_q, Hk1.
    rewrite run_qbind, (read_ledger_run _ _ _ s o1 eq_refl H1).
    assert (Hrest : exists d,
      run (check_selectors store [(Selector_Subject (c_org_id claims) (c_sub claims),
             Matched_Subject)] claims now) w s = (Ok d, w, s)
      /\ (d.(dc_revoked) = true <-> exists l, o2 = Some l /\ revokes l claims now)).
    { cbn [check_selectors]. rewrite run_pure_q, Hk2.
      rewrite run_qbind, (read_ledger_run _ _ _ s o2 eq_refl H2).
      destruct o2 as [l|]; [|by exists not_revoked; split; [|naive_solver]].
      destruct (ledger_decision l _ claims now) as [d|] eqn:Hd.
      - exists d. apply ledger_decision_some in Hd as (? & ? & _). naive_solver.
      - apply ledger_decision_none in Hd. exists not_revoked. naive_solver. }
    destruct Hrest as (d2 & Hrun & Hd2). cbn [check_selectors] in Hrun.
    destruct o1 as [l|]; [|by exists d2; split; [|naive_solver]].
    destruct (ledger_decision l _ claims now) as [d|] eqn:Hd.
    + exists d. apply ledger_decision_some in Hd as (? & ? & _). naive_solver.
    + apply ledger_decision_none in Hd. exists d2. split; [done|naive_solver].
  - intros e He. cbn [selectors check_selectors]. rewrite !run_pure_q, Hk1.
    rewrite run_qbind. unfold read_ledger. cbn [rs_kv]. by rewrite run_qbind, run_load, He.
Qed.

Lemma revoke_first w (s : memory) key record ih rh now next value retries :
  mk_entries w !! key = None -> ledger_new key record ih rh = Ok next ->
  to_value next = Some value ->
  run (revoke_loop (S retries) key record ih rh now) w s
  = (Ok (snapshot next now),
     {| mk_entries := <[key := {| vv_value := value; vv_mod_revision := mk_next w |}]>
                        (mk_entries w);
        mk_next := mk_next w + 1 |}, s).
Proof.
  intros Hnone Hn Hv. cbn [revoke_loop]. rewrite run_qbind, run_load, Hnone. cbn [loaded].
  rewrite run_pure_q. cbn [replayed]. rewrite run_pure_q. cbn [next_revoked]. rewrite Hn.
  rewrite run_pure_q, Hv. cbn [ok_or]. rewrite run_qbind. unfold prog_map_err, put_if_revision.
  cbn. unfold mapkv_put. rewrite Hnone. done.
Qed.

Lemma token_record claims reason actor now record :
  request_record (Revoke_TokenId claims reason) actor now = Ok record ->
  validate_internal_claims claims = Ok tt /\ now < claims.(c_exp)
  /\ r_created_at record = now /\ r_expires_at record = claims.(c_exp)
  /\ record_storage_key record = Ok (token_key claims)
  /\ forall now', now <= now' < claims.(c_exp) -> record_matches record claims now' = true.
Proof.
  cbn [request_record]. intros ([] & Hc & Hr%map_err_ok)%rbind_ok.
  destruct (for_token_ok _ _ _ _ _ Hr) as (Hw & Hv & ->).
  split_and!; [done|lia|done|done| |].
  - apply record_storage_key_iff. done.
  - intros now' Hnow. apply record_matches_iff. done.
Qed.

(** Revocation takes effect: when a token that was never revoked is
    revoked with a well-formed mutation, the first compare-and-set commits,
    the answer is generation 1, active until the token expires, and as long as
    the history it stored for the token stays, whatever else is written, every
    check of the token until it expires says so. *)
Theorem revoke_takes_effect claims reason mutation now record w (s : memory) :
  validate_mutation mutation = Ok tt ->
  request_record (Revoke_TokenId claims reason) mutation.(mi_actor) now = Ok record ->
  is_Some (to_vec (Action_Revoke record)) -> (forall l, is_Some (to_value l)) ->
  mk_entries w !! token_key claims = None ->
  exists w', run (revoke store (Revoke_TokenId claims reason) mutation now) w s
             = (Ok {| sn_storage_key := token_key claims; sn_generation := 1;
                      sn_status := Active; sn_expires_at := Some claims.(c_exp) |}, w', s)
  /\ forall w2 s2 now',
       mk_entries w2 !! token_key claims = mk_entries w' !! token_key claims ->
       now <= now' < claims.(c_exp) ->
       run (check store claims now') w2 s2
       = (Ok {| dc_revoked := true; dc_matched_target := Some Matched_TokenId;
                dc_generation := Some 1; dc_expires_at := Some claims.(c_exp) |}, w2, s2).
Proof.
  intros Hm Hr Htv Hval Hnone.
  destruct (token_record _ _ _ _ _ Hr) as (Hc & Hexp & Hat & Hex & Hk & Hmatch).
  destruct (checked_selectors _ Hc) as [Hk1 _].
  set (ih := mutation_hash "revoke" (token_key claims) (mi_actor mutation)
               (mi_idempotency_key mutation)).
  set (rh := request_hash (Revoke_TokenId claims reason)).
  destruct (ledger_new_ok (token_key claims) record ih rh) as (ev & Hseq & Hact & Hnew);
    [done|done|apply digest_hex..|].
  match type of Hnew with _ = Ok ?l => set (next := l) in * end.
  destruct (Hval next) as [value Hvalue].
  eexists. split.
  - unfold revoke. rewrite run_pure_q, Hm. cbn [request_selector].
    rewrite run_pure_q, Hk1, run_pure_q, Hr, run_pure_q, Hk. cbn [map_err rs_kv].
    rewrite String.eqb_refl. cbn [negb]. fold ih rh.
    unfold MAX_CAS_RETRIES. rewrite (revoke_first _ _ _ _ _ _ _ next value) by done.
    do 2 f_equal. unfold next, snapshot, current_record, generation, latest_expiry. cbn.
    rewrite Hact, Hseq. cbn. rewrite Hat, Hex. unfold is_active_at.
    rewrite Hat, Hex. apply record_storage_key_iff in Hk as [-> _].
    destruct (N.ltb_spec now now); [lia|]. rewrite N.leb_refl. cbn.
    by destruct (N.ltb_spec now (c_exp claims)); [|lia].
  - intros w2 s2 now' Hkept Hnow. cbn [mk_entries] in Hkept. rewrite lookup_insert_eq in Hkept.
    unfold check. rewrite run_pure_q, Hc. cbn [selectors check_selectors].
    rewrite run_pure_q, Hk1, run_qbind, (read_ledger_run _ _ _ s2 (Some next) eq_refl).
    + unfold ledger_decision, current_record, generation. cbn. rewrite Hact, Hseq. cbn.
      by rewrite (Hmatch _ Hnow), Hex.
    + eexists. split; [exact Hkept|]. cbn.
      split; [by apply serde_roundtrip|]. split; [|done].
      unfold ledger_new in Hnew. by apply ledger_new_stores in Hnew as [? _ _].
Qed.
End solo.

(** ** Concrete executions *)

Notation sample_store := {| rs_kv := true |}.
Definition ops (key : string) : MutationIdentity :=
  {| mi_actor := "ops"; mi_idempotency_key := key |}.
Definition token_revoke : store_request :=
  Request_Revoke (Revoke_TokenId sample_claims "compromised") (ops "k-1") 150.
Definition token_lift : store_request :=
  Request_Lift {| lift_selector := Selector_TokenId sample_claims.(c_org_id) sample_claims.(c_jti);
                  lift_reason := "false alarm" |} (ops "k-2") 160.

Notation sample_config w s rs := (@Build_config memory (option (store_request * store_answer)) mapkv
                                    w [s] rs).
Definition after (request : store_request) (w : mapkv) : option (store_request * store_answer) * mapkv :=
  fst (run (serve request) w ∅).
Definition world1 : mapkv := snd (after token_revoke mapkv_empty).
Definition world2 : mapkv := snd (after token_lift world1).
Definition token_ledger (w : mapkv) : RevocationLedger :=
  match loaded (token_key sample_claims) (mk_entries w !! token_key sample_claims) with
  | Ok (Some (l, _)) => l
  | _ => sample_ledger
  end.

Definition snapshot_of (generation : N) (status : RevocationStatus) : store_answer :=
  Answer_Snapshot (Ok {| sn_storage_key := token_key sample_claims; sn_generation := generation;
                         sn_status := status; sn_expires_at := Some 1000 |}).
Definition revoked_once : RevocationDecision :=
  {| dc_revoked := true; dc_matched_target := Some Matched_TokenId; dc_generation := Some 1;
     dc_expires_at := Some 1000 |}.

Lemma token_revoke_answer :
  fst (after token_revoke mapkv_empty) = Some (token_revoke, snapshot_of 1 Active).
Proof. vm_compute. reflexivity. Qed.
Lemma token_lift_answer :
  fst (after token_lift world1) = Some (token_lift, snapshot_of 2 Lifted).
Proof. vm_compute. reflexivity. Qed.
Lemma token_check_answer :
  fst (after (Request_Check sample_claims 155) world1)
  = Some (Request_Check sample_claims 155, Answer_Decision (Ok revoked_once)).
Proof. vm_compute. reflexivity. Qed.
(** Replaying the revocation after the lift still answers with generation 1. *)
Example replay_after_lift :
  fst (after token_revoke world2) = Some (token_revoke, snapshot_of 1 Active).
Proof. vm_compute. reflexivity. Qed.

Lemma after_reaches request w a :
  mapkv_wf w -> fst (after request w) = a ->
  mapkv_wf (snd (after request w))
  /\ exists s, reaches (sample_config w ∅ [])
                 (sample_config (snd (after request w)) s [(0%nat, Ret a)]).
Proof.
  unfold after. intros Hwf. destruct (run (serve request) w ∅) as [[a' w'] s'] eqn:Hrun.
  cbn [fst snd]. intros <-. split.
  { by eapply run_wf. }
  exists s'. split; [done|]. eapply rtc_l.
  - apply (config_arrive store_client w [∅] [] 0 (serve request)). left. by exists request.
  - by apply run_steps.
Qed.

Lemma world1_wf : mapkv_wf world1.
Proof. apply (after_reaches token_revoke mapkv_empty _ mapkv_empty_wf eq_refl). Qed.

Lemma token_ledger_stored :
  stored (mk_entries world1) (token_key sample_claims) (token_ledger world1)
  /\ revokes (token_ledger world1) sample_claims 155.
Proof.
  split.
  - apply (loaded_inv _ _ _ 1). vm_compute. reflexivity.
  - eexists. split; [vm_compute; reflexivity|vm_compute; reflexivity].
Qed.

Lemma revoke_acknowledged_witness :
  exists key record,
    selector_storage_key (Selector_TokenId "org-a" "jti-1") = Ok key
    /\ record_storage_key record = Ok key
    /\ accepted (Action_Revoke record) key (mutation_hash "revoke" key "ops" "k-1")
         (request_hash (Revoke_TokenId sample_claims "compromised")) 150
         {| sn_storage_key := token_key sample_claims; sn_generation := 1;
            sn_status := Active; sn_expires_at := Some 1000 |} (mk_entries world1).
Proof.
  destruct (after_reaches token_revoke mapkv_empty _ mapkv_empty_wf token_revoke_answer)
    as (_ & s & Hr).
  destruct (revoke_acknowledged _ _ _ 0 _ _ _ _ Hr (rtc_refl _ _) (list_elem_of_here _ _))
    as (key & record & Hk & _ & Hrk & Hacc).
  exists key, record. split; [exact Hk|]. split; [exact Hrk|exact Hacc].
Defined.

Lemma lift_acknowledged_witness :
  exists key,
    selector_storage_key (Selector_TokenId "org-a" "jti-1") = Ok key
    /\ accepted (Action_Lift (trim "ops") (trim "false alarm") 160) key
         (mutation_hash "lift" key "ops" "k-2")
         (lift_request_hash {| lift_selector := Selector_TokenId "org-a" "jti-1";
                               lift_reason := "false alarm" |}) 160
         {| sn_storage_key := token_key sample_claims; sn_generation := 2;
            sn_status := Lifted; sn_expires_at := Some 1000 |} (mk_entries world2).
Proof.
  destruct (after_reaches token_lift world1 _ world1_wf token_lift_answer) as (_ & s & Hr).
  exact (lift_acknowledged _ _ _ 0 _ _ _ _ Hr (rtc_refl _ _) (list_elem_of_here _ _)).
Defined.

(** Two operators revoke the same token at once, and an older check is under
    way: the first compare-and-set commits while the second request holds the
    revision it read before. *)
Definition second_revoke : store_request :=
  Request_Revoke (Revoke_TokenId sample_claims "again") (ops "k-9") 152.
Definition store_replica : Type :=
  replica (S:=memory) (A:=option (store_request * store_answer)).
Definition revoke_race (order : list nat) : store_replica :=
  phase [serve token_revoke; serve second_revoke] order (mapkv_empty, ∅, []).
Definition race_committed : store_replica := revoke_race [1; 0; 0]%nat.
Definition race_over : store_replica := turns [1; 1; 1]%nat race_committed.

Lemma revoke_race_steps :
  reaches (as_config (mapkv_empty, ∅, [])) (as_config race_committed)
  /\ rtc (config_step store_client) (as_config race_committed) (as_config race_over).
Proof.
  destruct (phase_steps store_client [serve token_revoke; serve second_revoke] [1; 0; 0]%nat
              (mapkv_empty, ∅, []) mapkv_empty_wf) as [Hwf Hs].
  { repeat constructor; by eexists. }
  split; [by split|]. by apply turns_steps.
Qed.

Lemma race_ledger_stored :
  stored (mk_entries (service_of race_committed)) (token_key sample_claims)
    (token_ledger (service_of race_committed))
  /\ length (lg_events (token_ledger (service_of race_committed))) = 1%nat
  /\ length (lg_events (token_ledger (service_of race_over))) = 2%nat.
Proof.
  split; [apply (loaded_inv _ _ _ 1)|split]; vm_compute; reflexivity.
Qed.

Lemma revocation_append_only_witness :
  exists l', stored (mk_entries (service_of race_over)) (token_key sample_claims) l'
             /\ extends (token_ledger (service_of race_committed)) l'.
Proof.
  destruct revoke_race_steps as [Hr Hs].
  assert (Hk : revocation_key (token_key sample_claims)) by by_compute.
  pose proof (proj1 (revocation_append_only _ _ _ _ Hr Hs Hk)) as Happend.
  rewrite !as_config_state in Happend. exact (Happend _ (proj1 race_ledger_stored)).
Defined.

(** A check has read that the token has no ledger when the revocation is
    stored, and is still in flight when another check arrives: the older one
    answers from what it read, the newer one that the token is revoked. *)
Definition check_requests : list store_request :=
  [Request_Check sample_claims 155; token_revoke].
Definition late_check : store_request := Request_Check sample_claims 156.
Definition checked_before : replica (S:=memory) (A:=bool * option (store_request * store_answer)) :=
  phase (tag false <$> (serve <$> check_requests)) [0; 1; 1; 1]%nat (mapkv_empty, ∅, []).
Definition checked_after : replica (S:=memory) (A:=bool * option (store_request * store_answer)) :=
  phase (tag true <$> [serve late_check]) [2; 2; 0; 0]%nat checked_before.
Example older_check_passes :
  match checked_after.2 !! 0%nat, checked_after.2 !! 2%nat with
  | Some (Ret (false, Some (_, Answer_Decision (Ok d0)))),
    Some (Ret (true, Some (_, Answer_Decision (Ok d2)))) =>
      d0.(dc_revoked) = false /\ d2.(dc_revoked) = true
  | _, _ => False
  end.
Proof. vm_compute. by split. Qed.

Lemma revoked_token_refused_witness :
  revoked_once.(dc_revoked) = true
  \/ exists l', stored (mk_entries (service_of checked_after)) (token_key sample_claims) l'
     /\ extends (token_ledger (service_of checked_before)) l'
     /\ l' <> token_ledger (service_of checked_before).
Proof.
  assert (Hold : Forall store_client (serve <$> check_requests))
    by (repeat constructor; by eexists).
  assert (Hnew : Forall store_client [serve late_check]) by (repeat constructor; by eexists).
  pose proof (race_through _ (eq_refl checked_before) (eq_refl checked_after) mapkv_empty_wf
                Hold Hnew) as Ht.
  assert (Hd : checked_after.2 !! 2%nat
               = Some (Ret (true, Some (late_check, Answer_Decision (Ok revoked_once)))))
    by (vm_compute; reflexivity).
  pose proof (proj1 (revoked_token_refused _ _ _ 0 true sample_claims 156 revoked_once Ht
                       (in_config _ _ _ Hd)) eq_refl) as Hrefused.
  rewrite !as_config_state in Hrefused.
  apply (Hrefused (Selector_TokenId sample_claims.(c_org_id) sample_claims.(c_jti)) Matched_TokenId).
  - left.
  - by_compute.
  - apply (loaded_inv _ _ _ 1). vm_compute. reflexivity.
  - eexists. split; [vm_compute; reflexivity|vm_compute; reflexivity].
Defined.

Lemma check_decides_witness :
  exists d, run (check sample_store sample_claims 155) world1 ∅ = (Ok d, world1, ∅)
  /\ dc_revoked d = true.
Proof.
  assert (Hc : validate_internal_claims sample_claims = Ok tt) by by_compute.
  assert (Hs : mk_entries world1 !! subject_key sample_claims = None) by by_compute.
  destruct (proj1 (check_decides sample_claims 155 world1 ∅ Hc) (Some (token_ledger world1)) None
              (proj1 token_ledger_stored) Hs) as (d & Hrun & Hd).
  exists d. split; [exact Hrun|]. apply Hd. left. eexists.
  split; [reflexivity|]. exact (proj2 token_ledger_stored).
Defined.

Lemma revoke_takes_effect_witness :
  exists w', run (revoke sample_store (Revoke_TokenId sample_claims "compromised") (ops "k-1") 150)
               mapkv_empty ∅
             = (Ok {| sn_storage_key := token_key sample_claims; sn_generation := 1;
                      sn_status := Active; sn_expires_at := Some 1000 |}, w', ∅).
Proof.
  assert (Hr : exists record,
    request_record (Revoke_TokenId sample_claims "compromised") "ops" 150 = Ok record
    /\ is_Some (to_vec (Action_Revoke record))).
  { eexists. split; [vm_compute; reflexivity|]. by_compute. }
  destruct Hr as (record & Hr & Hv).
  destruct (revoke_takes_effect sample_claims "compromised" (ops "k-1") 150 record mapkv_empty ∅)
    as (w' & Hrun & _); [by_compute|exact Hr|exact Hv|intros l; eexists; reflexivity|by_compute|].
  exists w'. exact Hrun.
Defined.
