(* ===== verification/RevocationCache.v ===== *)
(** * The verifier-local revocation cache ([src/src/revocation_cache.rs])

    A bounded-freshness, fail-closed cache of authoritative decisions.  The
    operations take [&mut self]: they return the cache they leave behind and
    their result.  The refinement at the end relates every run of a cache to
    the history of its calls. *)
From Stdlib Require Import Ascii String.
From S2P Require Import Prelude Text.

(** [RevocationCacheKey]: a string that passed [cache_key_new]. *)
Notation RevocationCacheKey := string (only parsing).

Inductive AuthorityState :=
  | NotRevoked
  | Revoked (expires_at : option N).

Record AuthorityDecision := {
  ad_generation : N;
  ad_state : AuthorityState
}.

Record RefreshPermit := {
  rp_key : RevocationCacheKey;
  rp_sequence : N
}.

Inductive DenyReason := Cold | Stale | RevokedReason | RevocationExpiredNeedsRefresh.
Inductive CacheDecision :=
  | Allow
  | Deny (reason : DenyReason).

Inductive RevocationCacheError :=
  | InvalidFreshness
  | InvalidKey
  | ClockRegression (observed high_water : N)
  | UnknownRefresh
  | SupersededRefresh
  | GenerationRegression (observed cached : N).

#[export] Instance AuthorityState_eq_dec : EqDecision AuthorityState.
Proof. solve_decision. Defined.
#[export] Instance AuthorityDecision_eq_dec : EqDecision AuthorityDecision.
Proof. solve_decision. Defined.

Definition metric_kind (self : RevocationCacheError) : string :=
  match self with
  | InvalidFreshness => "invalid_freshness"
  | InvalidKey => "invalid_key"
  | ClockRegression _ _ => "clock_regression"
  | UnknownRefresh => "unknown_refresh"
  | SupersededRefresh => "superseded_refresh"
  | GenerationRegression _ _ => "generation_regression"
  end.

(** The [Display] text. *)
Definition cache_error_display (self : RevocationCacheError) : string :=
  match self with
  | InvalidFreshness => "invalid revocation-cache freshness"
  | InvalidKey => "invalid revocation-cache key"
  | ClockRegression observed high_water =>
      "revocation-cache clock regressed: observed=" +:+ decimal observed
        +:+ ", high_water=" +:+ decimal high_water
  | UnknownRefresh => "unknown revocation-cache refresh"
  | SupersededRefresh => "superseded revocation-cache refresh"
  | GenerationRegression observed cached =>
      "revocation generation regressed: observed=" +:+ decimal observed
        +:+ ", cached=" +:+ decimal cached
  end.

(** [RevocationCacheKey::new]. *)
Definition cache_key_new (value : string) : result RevocationCacheError RevocationCacheKey :=
  reject str_is_empty value || (512 <? str_len value) || any_control value with InvalidKey ;;
  Ok value.

Record CacheEntry := {
  ce_decision : AuthorityDecision;
  ce_fresh_until : N
}.

Record RevocationCache := {
  rc_freshness_secs : N;
  rc_high_water : option N;
  rc_next_refresh_sequence : N;
  rc_latest_refresh : gmap string N;
  rc_entries : gmap string CacheEntry
}.

Definition cache_new (freshness_secs : N) : result RevocationCacheError RevocationCache :=
  reject freshness_secs =? 0 with InvalidFreshness ;;
  Ok {| rc_freshness_secs := freshness_secs; rc_high_water := None;
        rc_next_refresh_sequence := 1; rc_latest_refresh := ∅; rc_entries := ∅ |}.

Definition high_water (self : RevocationCache) : option N := self.(rc_high_water).

Notation op_result A := (RevocationCache * result RevocationCacheError A)%type.

Definition observe_time (self : RevocationCache) (now : N) : op_result unit :=
  let observed :=
    {| rc_freshness_secs := self.(rc_freshness_secs); rc_high_water := Some now;
       rc_next_refresh_sequence := self.(rc_next_refresh_sequence);
       rc_latest_refresh := self.(rc_latest_refresh); rc_entries := self.(rc_entries) |} in
  match self.(rc_high_water) with
  | Some high_water =>
      if now <? high_water then (self, Err (ClockRegression now high_water))
      else (observed, Ok tt)
  | None => (observed, Ok tt)
  end.

Definition entry_decision (entry : CacheEntry) (now : N) : CacheDecision :=
  match entry.(ce_decision).(ad_state) with
  | Revoked (Some expires_at) =>
      if expires_at <=? now then Deny RevocationExpiredNeedsRefresh else Deny RevokedReason
  | Revoked None => Deny RevokedReason
  | NotRevoked => if now <? entry.(ce_fresh_until) then Allow else Deny Stale
  end.

Definition lookup (self : RevocationCache) (key : RevocationCacheKey) (now : N)
  : op_result CacheDecision :=
  match observe_time self now with
  | (self, Err e) => (self, Err e)
  | (self, Ok _) =>
      match self.(rc_entries) !! key with
      | None => (self, Ok (Deny Cold))
      | Some entry => (self, Ok (entry_decision entry now))
      end
  end.

Definition begin_refresh (self : RevocationCache) (key : RevocationCacheKey) (now : N)
  : op_result RefreshPermit :=
  match observe_time self now with
  | (self, Err e) => (self, Err e)
  | (self, Ok _) =>
      let sequence := self.(rc_next_refresh_sequence) in
      ({| rc_freshness_secs := self.(rc_freshness_secs);
          rc_high_water := self.(rc_high_water);
          rc_next_refresh_sequence := saturating_add self.(rc_next_refresh_sequence) 1;
          rc_latest_refresh := <[key := sequence]> self.(rc_latest_refresh);
          rc_entries := self.(rc_entries) |},
       Ok {| rp_key := key; rp_sequence := sequence |})
  end.

(** The insertion at the end of [apply_authoritative]. *)
Definition install (self : RevocationCache) (permit : RefreshPermit)
    (decision : AuthorityDecision) (now : N) : RevocationCache :=
  {| rc_freshness_secs := self.(rc_freshness_secs);
     rc_high_water := self.(rc_high_water);
     rc_next_refresh_sequence := self.(rc_next_refresh_sequence);
     rc_latest_refresh := delete permit.(rp_key) self.(rc_latest_refresh);
     rc_entries :=
       <[permit.(rp_key) :=
           {| ce_decision := decision;
              ce_fresh_until := saturating_add now self.(rc_freshness_secs) |}]>
         self.(rc_entries) |}.

Definition apply_authoritative (self : RevocationCache) (permit : RefreshPermit)
    (decision : AuthorityDecision) (now : N) : op_result unit :=
  match observe_time self now with
  | (self, Err e) => (self, Err e)
  | (self, Ok _) =>
      match self.(rc_latest_refresh) !! permit.(rp_key) with
      | None => (self, Err UnknownRefresh)
      | Some latest_sequence =>
          if negb (permit.(rp_sequence) =? latest_sequence) then (self, Err SupersededRefresh)
          else
            match self.(rc_entries) !! permit.(rp_key) with
            | Some current =>
                if decision.(ad_generation) <? current.(ce_decision).(ad_generation)
                then (self, Err (GenerationRegression decision.(ad_generation)
                                   current.(ce_decision).(ad_generation)))
                else (install self permit decision now, Ok tt)
            | None => (install self permit decision now, Ok tt)
            end
      end
  end.

Definition invalidate (self : RevocationCache) (key : RevocationCacheKey) (now : N)
  : op_result unit :=
  match observe_time self now with
  | (self, Err e) => (self, Err e)
  | (self, Ok _) =>
      ({| rc_freshness_secs := self.(rc_freshness_secs);
          rc_high_water := self.(rc_high_water);
          rc_next_refresh_sequence := self.(rc_next_refresh_sequence);
          rc_latest_refresh := delete key self.(rc_latest_refresh);
          rc_entries := delete key self.(rc_entries) |}, Ok tt)
  end.

(** ** Histories

    Every public call with what it answered, newest first. *)

Inductive cache_call :=
  | Call_lookup (key : RevocationCacheKey) (now : N) (r : result RevocationCacheError CacheDecision)
  | Call_begin (key : RevocationCacheKey) (now : N) (r : result RevocationCacheError RefreshPermit)
  | Call_apply (permit : RefreshPermit) (decision : AuthorityDecision) (now : N)
      (r : result RevocationCacheError unit)
  | Call_invalidate (key : RevocationCacheKey) (now : N) (r : result RevocationCacheError unit).

(** The runs of a cache that was created with a freshness window. *)
Inductive cache_run (freshness : N) : RevocationCache -> list cache_call -> Prop :=
  | run_new c : cache_new freshness = Ok c -> cache_run freshness c []
  | run_lookup c h key now c' r :
      cache_run freshness c h -> lookup c key now = (c', r) ->
      cache_run freshness c' (Call_lookup key now r :: h)
  | run_begin c h key now c' r :
      cache_run freshness c h -> begin_refresh c key now = (c', r) ->
      cache_run freshness c' (Call_begin key now r :: h)
  | run_apply c h permit decision now c' r :
      cache_run freshness c h -> apply_authoritative c permit decision now = (c', r) ->
      cache_run freshness c' (Call_apply permit decision now r :: h)
  | run_invalidate c h key now c' r :
      cache_run freshness c h -> invalidate c key now = (c', r) ->
      cache_run freshness c' (Call_invalidate key now r :: h).

(** The abstract cache: what a history of calls implies, without the maps. *)

(** The last accepted instant. *)
Definition call_time (call : cache_call) : option N :=
  match call with
  | Call_lookup _ now (Ok _) | Call_begin _ now (Ok _) | Call_invalidate _ now (Ok _) => Some now
  | Call_apply _ _ now (Err (ClockRegression _ _)) => None
  | Call_apply _ _ now _ => Some now
  | _ => None
  end.
Fixpoint spec_time (h : list cache_call) : option N :=
  match h with
  | [] => None
  | call :: h => match call_time call with
                 | Some now => Some now
                 | None => spec_time h
                 end
  end.

(** The last accepted response for a key that was not invalidated since, with
    the instant it was accepted. *)
Fixpoint spec_entry (h : list cache_call) (key : string) : option (AuthorityDecision * N) :=
  match h with
  | [] => None
  | Call_apply permit decision now (Ok _) :: h =>
      if (permit.(rp_key) =? key)%string then Some (decision, now) else spec_entry h key
  | Call_invalidate k _ (Ok _) :: h => if (k =? key)%string then None else spec_entry h key
  | _ :: h => spec_entry h key
  end.

(** The refresh of a key that may still be answered. *)
Fixpoint spec_refresh (h : list cache_call) (key : string) : option N :=
  match h with
  | [] => None
  | Call_begin k _ (Ok permit) :: h =>
      if (k =? key)%string then Some permit.(rp_sequence) else spec_refresh h key
  | Call_apply permit _ _ (Ok _) :: h =>
      if (permit.(rp_key) =? key)%string then None else spec_refresh h key
  | Call_invalidate k _ (Ok _) :: h => if (k =? key)%string then None else spec_refresh h key
  | _ :: h => spec_refresh h key
  end.

(** The permits handed out so far. *)
Fixpoint spec_begun (h : list cache_call) : nat :=
  match h with
  | [] => 0
  | Call_begin _ _ (Ok _) :: h => S (spec_begun h)
  | _ :: h => spec_begun h
  end.

(** ** The refinement *)

Section refinement.
Context (f : N).
Implicit Types (c : RevocationCache) (h : list cache_call).

Definition regresses (time : option N) (now : N) : option N :=
  match time with
  | Some high_water => if now <? high_water then Some high_water else None
  | None => None
  end.

Definition at_time c (now : N) : RevocationCache :=
  {| rc_freshness_secs := c.(rc_freshness_secs); rc_high_water := Some now;
     rc_next_refresh_sequence := c.(rc_next_refresh_sequence);
     rc_latest_refresh := c.(rc_latest_refresh); rc_entries := c.(rc_entries) |}.

Lemma observe_time_spec c now :
  observe_time c now
  = match regresses c.(rc_high_water) now with
    | Some high_water => (c, Err (ClockRegression now high_water))
    | None => (at_time c now, Ok tt)
    end.
Proof. unfold observe_time, regresses. destruct (rc_high_water c); [by case_match|done]. Qed.

Definition entry_at (e : AuthorityDecision * N) : CacheEntry :=
  {| ce_decision := fst e; ce_fresh_until := saturating_add (snd e) f |}.

Record represents c h : Prop := {
  rp_fresh : c.(rc_freshness_secs) = f;
  rp_positive : f <> 0;
  rp_time : c.(rc_high_water) = spec_time h;
  rp_next : c.(rc_next_refresh_sequence) = N.min (1 + N.of_nat (spec_begun h)) u64_max;
  rp_latest key : c.(rc_latest_refresh) !! key = spec_refresh h key;
  rp_entries key : c.(rc_entries) !! key = entry_at <$> spec_entry h key
}.

(** Lookups of an updated map against an updated specification. *)
Ltac by_key :=
  intros ?key; cbn;
  match goal with |- context [String.eqb ?a ?b] => destruct (String.eqb_spec a b) as [<-|] end;
  rewrite ?lookup_insert_eq, ?lookup_delete_eq, ?lookup_insert_ne, ?lookup_delete_ne by done;
  auto.
Ltac same_state := match goal with
  | Hi : represents ?c ?h |- represents ?c (_ :: ?h) => destruct Hi
  | Hi : represents ?c ?h |- represents (at_time ?c _) (_ :: ?h) => destruct Hi
  end; by constructor.

Lemma run_represents c h : cache_run f c h -> represents c h.
Proof.
  induction 1 as [c Hn|c h key now c' r _ Hi Hop|c h key now c' r _ Hi Hop
                 |c h p d now c' r _ Hi Hop|c h key now c' r _ Hi Hop].
  - unfold cache_new in Hn. inv_ok. by constructor.
  - unfold lookup in Hop. rewrite observe_time_spec in Hop.
    destruct (regresses _ now); [injection Hop as <- <-; same_state|].
    destruct (rc_entries _ !! key); injection Hop as <- <-; same_state.
  - unfold begin_refresh in Hop. rewrite observe_time_spec in Hop.
    destruct (regresses _ now); [injection Hop as <- <-; same_state|].
    injection Hop as <- <-. destruct Hi as [Hf Hp Ht Hn Hl He].
    constructor; cbn -[u64_max]; [done|done|done| | |done].
    + rewrite Hn. unfold saturating_add, u64_max. lia.
    + by_key.
  - unfold apply_authoritative in Hop. rewrite observe_time_spec in Hop.
    destruct (regresses _ now); [injection Hop as <- <-; same_state|].
    destruct (rc_latest_refresh _ !! _) as [s|]; [|injection Hop as <- <-; same_state].
    destruct (negb _); [injection Hop as <- <-; same_state|].
    assert (represents (install (at_time c now) p d now) (Call_apply p d now (Ok tt) :: h)).
    { destruct Hi as [Hf Hp Ht Hn Hl He]. constructor; cbn -[u64_max]; [done..| |].
      - by_key.
      - rewrite Hf. by_key. }
    destruct (rc_entries _ !! _); [case_match|]; injection Hop as <- <-; [same_state|done..].
  - unfold invalidate in Hop. rewrite observe_time_spec in Hop.
    destruct (regresses _ now); [injection Hop as <- <-; same_state|].
    injection Hop as <- <-. destruct Hi as [Hf Hp Ht Hn Hl He].
    constructor; cbn -[u64_max]; [done..| |]; by_key.
Qed.

Definition spec_lookup h (key : string) (now : N) : result RevocationCacheError CacheDecision :=
  match regresses (spec_time h) now with
  | Some high_water => Err (ClockRegression now high_water)
  | None =>
      Ok (match spec_entry h key with
          | None => Deny Cold
          | Some e => entry_decision (entry_at e) now
          end)
  end.

Lemma lookup_spec c h key now : represents c h -> snd (lookup c key now) = spec_lookup h key now.
Proof.
  intros [_ _ Ht _ _ He]. unfold lookup, spec_lookup. rewrite observe_time_spec, Ht.
  destruct (regresses _ now); [done|]. cbn. rewrite He. by destruct (spec_entry h key).
Qed.

Lemma regresses_none time now :
  regresses time now = None <-> forall t, time = Some t -> t <= now.
Proof.
  unfold regresses. destruct time as [t|]; [|naive_solver].
  destruct (N.ltb_spec now t); split; try done.
  - intros Ht. specialize (Ht t eq_refl). lia.
  - by intros _ ? [= <-].
Qed.

(** The generations the authority supplied for a key, since it was last
    invalidated. *)
Fixpoint spec_generations h (key : string) : list N :=
  match h with
  | [] => []
  | Call_apply permit decision _ (Ok _) :: h =>
      if (permit.(rp_key) =? key)%string
      then decision.(ad_generation) :: spec_generations h key
      else spec_generations h key
  | Call_invalidate k _ (Ok _) :: h =>
      if (k =? key)%string then [] else spec_generations h key
  | _ :: h => spec_generations h key
  end.

(** When [apply_authoritative] accepts a response. *)
Lemma apply_spec c h permit d now :
  represents c h ->
  snd (apply_authoritative c permit d now)
  = match regresses (spec_time h) now with
    | Some high_water => Err (ClockRegression now high_water)
    | None =>
        match spec_refresh h permit.(rp_key) with
        | None => Err UnknownRefresh
        | Some sequence =>
            if negb (permit.(rp_sequence) =? sequence) then Err SupersededRefresh
            else
              match spec_entry h permit.(rp_key) with
              | Some (current, _) =>
                  if d.(ad_generation) <? current.(ad_generation)
                  then Err (GenerationRegression d.(ad_generation) current.(ad_generation))
                  else Ok tt
              | None => Ok tt
              end
        end
    end.
Proof.
  intros [_ _ Ht _ Hl He]. unfold apply_authoritative. rewrite observe_time_spec, Ht.
  destruct (regresses _ now); [done|]. cbn. rewrite Hl, He.
  destruct (spec_refresh h _); [|done]. destruct (negb _); [done|].
  destruct (spec_entry h _) as [[cur t]|]; cbn; [|done]. by case_match.
Qed.

Lemma apply_accepted c h permit d now c' u :
  represents c h -> apply_authoritative c permit d now = (c', Ok u) ->
  spec_refresh h permit.(rp_key) = Some permit.(rp_sequence)
  /\ forall e, spec_entry h permit.(rp_key) = Some e -> (fst e).(ad_generation) <= d.(ad_generation).
Proof.
  intros Hi Hop. pose proof (apply_spec c h permit d now Hi) as Hs. rewrite Hop in Hs. cbn in Hs.
  destruct (regresses _ now); [done|]. destruct (spec_refresh h _) as [s|]; [|done].
  destruct (negb _) eqn:Hn; [done|]. reflect_bools. subst s. split; [done|].
  intros [cur t] He. rewrite He in Hs. case_match; [done|]. by reflect_bools.
Qed.

Definition generations_bounded h : Prop :=
  forall key d t, spec_entry h key = Some (d, t) ->
    Forall (fun g => g <= d.(ad_generation)) (spec_generations h key).

Lemma run_generations c h :
  cache_run f c h ->
  generations_bounded h /\ forall key, spec_entry h key = None -> spec_generations h key = [].
Proof.
  induction 1 as [c Hn|c h key now c' r Hr [Hb Hn] Hop|c h key now c' r Hr [Hb Hn] Hop
                 |c h p d now c' r Hr [Hb Hn] Hop|c h key now c' r Hr [Hb Hn] Hop]; try done.
  - destruct r as [u|]; [|done]. pose proof (run_represents _ _ Hr) as Hi.
    destruct (apply_accepted _ _ _ _ _ _ _ Hi Hop) as [_ Hge]. split.
    + intros key d' t. cbn. destruct (String.eqb_spec (rp_key p) key) as [<-|]; [|apply Hb].
      intros [= <- <-]. constructor; [done|].
      destruct (spec_entry h (rp_key p)) as [[cur t0]|] eqn:He.
      * specialize (Hge _ eq_refl). eapply Forall_impl; [|by eapply Hb]. cbn in *. lia.
      * rewrite (Hn _ He). constructor.
    + intros key. cbn. case_match; [done|apply Hn].
  - destruct r as [u|]; [|done]. split.
    + intros k d t. cbn. destruct (String.eqb_spec key k); [done|apply Hb].
    + intros k. cbn. case_match; [done|apply Hn].
Qed.

(** C21: an allow is fresh and authoritative: in every run of a cache with
    window [f], a lookup at [now] answers [Allow] exactly when its clock did
    not go back, the last response accepted for that key since its last
    invalidation said not revoked, and fewer than [f] seconds passed since
    it was accepted; and no response accepted since that invalidation had a
    higher generation than the one relied on. *)
Theorem cache_allow_iff c h key now :
  cache_run f c h ->
  (snd (lookup c key now) = Ok Allow <->
     (forall t, spec_time h = Some t -> t <= now)
     /\ exists g t, spec_entry h key = Some ({| ad_generation := g; ad_state := NotRevoked |}, t)
        /\ now < saturating_add t f
        /\ Forall (fun g' => g' <= g) (spec_generations h key)).
Proof.
  intros Hr. rewrite (lookup_spec _ _ _ _ (run_represents _ _ Hr)).
  destruct (run_generations _ _ Hr) as [Hb _]. unfold spec_lookup.
  destruct (regresses (spec_time h) now) as [hw|] eqn:Ht.
  { split; [done|]. intros [Hle _]. apply regresses_none in Hle. congruence. }
  pose proof (proj1 (regresses_none _ _) Ht) as Hle.
  destruct (spec_entry h key) as [[[g st] t]|] eqn:He; [|naive_solver].
  specialize (Hb _ _ _ He). unfold entry_decision. cbn [entry_at ce_decision ad_state fst snd].
  destruct st as [|[x|]].
  - cbn [entry_at ce_fresh_until snd]. destruct (N.ltb_spec now (saturating_add t f)).
    + split; [|done]. intros _. split; [done|]. by exists g, t.
    + split; [done|]. intros (_ & g' & t' & [= <- <-] & Hlt & _). lia.
  - case_match; naive_solver.
  - naive_solver.
Qed.

(** What a lookup answers, as rules on the history of calls alone. *)
Definition in_time h (now : N) : Prop := forall t, spec_time h = Some t -> t <= now.
Inductive lookup_answer h (key : string) (now : N) : result RevocationCacheError CacheDecision -> Prop :=
  | answer_clock high :
      spec_time h = Some high -> now < high ->
      lookup_answer h key now (Err (ClockRegression now high))
  | answer_cold :
      in_time h now -> spec_entry h key = None -> lookup_answer h key now (Ok (Deny Cold))
  | answer_fresh g t :
      in_time h now -> spec_entry h key = Some ({| ad_generation := g; ad_state := NotRevoked |}, t) ->
      now < t + f -> now < u64_max -> lookup_answer h key now (Ok Allow)
  | answer_stale g t :
      in_time h now -> spec_entry h key = Some ({| ad_generation := g; ad_state := NotRevoked |}, t) ->
      t + f <= now \/ u64_max <= now -> lookup_answer h key now (Ok (Deny Stale))
  | answer_revoked g t expiry :
      in_time h now ->
      spec_entry h key = Some ({| ad_generation := g; ad_state := Revoked expiry |}, t) ->
      (forall x, expiry = Some x -> now < x) -> lookup_answer h key now (Ok (Deny RevokedReason))
  | answer_expired g t x :
      in_time h now ->
      spec_entry h key = Some ({| ad_generation := g; ad_state := Revoked (Some x) |}, t) ->
      x <= now -> lookup_answer h key now (Ok (Deny RevocationExpiredNeedsRefresh)).

Lemma spec_lookup_answer h key now : lookup_answer h key now (spec_lookup h key now).
Proof.
  unfold spec_lookup. destruct (regresses (spec_time h) now) as [high|] eqn:Ht.
  { unfold regresses in Ht. destruct (spec_time h) as [t|] eqn:Hh; [|done].
    destruct (N.ltb_spec now t); [|done]. injection Ht as <-. by apply answer_clock. }
  pose proof (proj1 (regresses_none _ _) Ht) as Hin.
  destruct (spec_entry h key) as [[[g [|expiry]] t]|] eqn:He; [| |by apply answer_cold];
    unfold entry_decision; cbn [entry_at ce_decision ce_fresh_until ad_state fst snd].
  - unfold saturating_add. destruct (N.ltb_spec now (N.min (t + f) u64_max)).
    + eapply answer_fresh; [done|exact He|lia..].
    + eapply answer_stale; [done|exact He|lia].
  - destruct expiry as [x|]; [destruct (N.leb_spec x now)|].
    + by eapply answer_expired.
    + eapply answer_revoked; [done|exact He|]. by intros x' [= <-].
    + by eapply answer_revoked.
Qed.
Lemma lookup_answer_unique h key now r1 r2 :
  lookup_answer h key now r1 -> lookup_answer h key now r2 -> r1 = r2.
Proof.
  destruct 1; destruct 1; try congruence; exfalso;
    repeat match goal with
    | Hin : in_time h now, Ht : spec_time h = Some _ |- _ => apply Hin in Ht
    | E1 : spec_entry h key = Some _, E2 : spec_entry h key = Some _ |- _ =>
        rewrite E1 in E2; injection E2; clear E2; intros; subst
    | Hx : forall x, Some ?y = Some x -> _ |- _ => specialize (Hx y eq_refl)
    end; lia || congruence.
Qed.

(** C32: the cache refines its history: a lookup answers exactly what these
    rules on the history of calls say. A clock behind the last accepted
    instant is an error; without an accepted response since the last
    invalidation the answer is [Cold]; a response that said not revoked allows
    for fewer than [f] seconds after it was accepted (on a clock below 2^64-1)
    and is [Stale] afterwards;
    and one that said revoked denies for ever, or, if it carried an expiry,
    until then, when it asks for a refresh: it never allows. *)
Theorem cache_lookup_refines c h key now r :
  cache_run f c h -> (snd (lookup c key now) = r <-> lookup_answer h key now r).
Proof.
  intros Hr%run_represents. rewrite (lookup_spec _ _ _ _ Hr). split.
  - intros <-. apply spec_lookup_answer.
  - intros Ha. eapply lookup_answer_unique; [apply spec_lookup_answer|done].
Qed.

(** When an authoritative response is accepted: exactly when the clock
    did not go back, the permit is that of the latest refresh of its key
    still unanswered, and the generation is not below the one cached; a
    refused response changes no cached decision and no outstanding
    refresh. *)
Theorem cache_apply_iff c h permit d now c' r :
  cache_run f c h -> apply_authoritative c permit d now = (c', r) ->
  (r = Ok tt <->
     (forall t, spec_time h = Some t -> t <= now)
     /\ spec_refresh h permit.(rp_key) = Some permit.(rp_sequence)
     /\ forall e, spec_entry h permit.(rp_key) = Some e ->
          (fst e).(ad_generation) <= d.(ad_generation))
  /\ (r <> Ok tt ->
      c'.(rc_entries) = c.(rc_entries) /\ c'.(rc_latest_refresh) = c.(rc_latest_refresh)).
Proof.
  intros Hr%run_represents Hop. pose proof (apply_spec c h permit d now Hr) as Hs.
  rewrite Hop in Hs. cbn in Hs. split.
  - rewrite Hs. clear Hs Hop. destruct (regresses (spec_time h) now) as [hw|] eqn:Ht.
    { split; [done|]. intros [Hle _]. apply regresses_none in Hle. congruence. }
    pose proof (proj1 (regresses_none _ _) Ht) as Hle.
    destruct (spec_refresh h _) as [s|]; [|naive_solver].
    destruct (N.eqb_spec (rp_sequence permit) s) as [<-|]; cbn; [|naive_solver].
    destruct (spec_entry h _) as [[cur t]|]; [|naive_solver].
    destruct (N.ltb_spec (ad_generation d) (ad_generation cur)).
    + split; [done|]. intros (_ & _ & Hge). specialize (Hge _ eq_refl). cbn in Hge. lia.
    + split; [|done]. intros _. split_and!; [done..|]. by intros e [= <-].
  - clear Hs. unfold apply_authoritative in Hop. rewrite observe_time_spec in Hop.
    intros Hne. repeat (case_match; simplify_eq; try done).
Qed.

Lemma run_suffix c h call : cache_run f c (call :: h) -> exists c', cache_run f c' h.
Proof. inversion 1; eauto. Qed.

(** Permits are numbered in the order they were handed out. *)
Lemma begin_number c h key now p :
  cache_run f c (Call_begin key now (Ok p) :: h) ->
  N.of_nat (spec_begun h) + 1 <= u64_max ->
  p.(rp_key) = key /\ p.(rp_sequence) = N.of_nat (spec_begun h) + 1.
Proof.
  inversion 1 as [| |c0 h0 key0 now0 c1 r0 Hr Hop| |]; subst. intros Hmax.
  destruct (run_represents _ _ Hr) as [_ _ _ Hn _ _]. unfold begin_refresh in Hop.
  rewrite observe_time_spec in Hop. destruct (regresses _ now); [done|].
  injection Hop as _ <-. cbn -[u64_max]. split; [done|]. rewrite Hn. lia.
Qed.

Lemma begun_below c h key now p :
  cache_run f c h -> Call_begin key now (Ok p) ∈ h -> N.of_nat (spec_begun h) <= u64_max ->
  p.(rp_key) = key /\ 1 <= p.(rp_sequence) <= N.of_nat (spec_begun h).
Proof.
  revert c. induction h as [|call h IH]; intros c Hr Hin Hmax; [by apply not_elem_of_nil in Hin|].
  apply list.elem_of_cons in Hin as [<-|Hin].
  - destruct (begin_number _ _ _ _ _ Hr) as [-> ->]; [cbn [spec_begun] in Hmax; lia|].
    cbn [spec_begun]. split; [done|lia].
  - destruct (run_suffix _ _ _ Hr) as [c' Hr'].
    assert (spec_begun h <= spec_begun (call :: h))%nat by (cbn; case_match; try case_match; lia).
    destruct (IH c' Hr' Hin); [lia|]. split; [done|lia].
Qed.

Lemma refresh_latest c h2 key now p h1 s :
  cache_run f c (h2 ++ Call_begin key now (Ok p) :: h1) ->
  N.of_nat (spec_begun (h2 ++ Call_begin key now (Ok p) :: h1)) <= u64_max ->
  spec_refresh (h2 ++ Call_begin key now (Ok p) :: h1) key = Some s -> p.(rp_sequence) <= s.
Proof.
  revert c s. induction h2 as [|call h2 IH]; intros c s Hr Hmax Hs; cbn [app] in *.
  - cbn in Hs. rewrite String.eqb_refl in Hs. injection Hs as <-. lia.
  - destruct (run_suffix _ _ _ Hr) as [c' Hr'].
    set (h := h2 ++ Call_begin key now (Ok p) :: h1) in *.
    assert (spec_begun h <= spec_begun (call :: h))%nat by (cbn; case_match; try case_match; lia).
    assert (Hrec : spec_refresh h key = Some s -> rp_sequence p <= s) by (apply (IH c'); [done|lia]).
    destruct call as [k t [a|e]|k t [q|e]|q d t [u|e]|k t [u|e]]; cbn in Hs; try by apply Hrec.
    + destruct (String.eqb_spec k key) as [->|]; [|by apply Hrec]. injection Hs as <-.
      destruct (begin_number _ _ _ _ _ Hr) as [_ ->]; [cbn [spec_begun] in Hmax; lia|].
      assert (Hin : Call_begin key now (Ok p) ∈ h)
        by (apply list.elem_of_app; right; apply list_elem_of_here).
      destruct (begun_below _ _ _ _ _ Hr' Hin); lia.
    + case_match; [done|by apply Hrec].
    + case_match; [done|by apply Hrec].
Qed.

(** A superseded refresh never installs anything: once a second refresh
    of the same key was begun, the response to the first one is refused
    whenever it arrives, whatever happened in between (as long as the 64-bit
    sequence counter has not been exhausted). *)
Theorem superseded_refresh_refused c h2 key t2 p2 h1 t1 p1 d now :
  cache_run f c (h2 ++ Call_begin key t2 (Ok p2) :: h1) ->
  Call_begin key t1 (Ok p1) ∈ h1 ->
  N.of_nat (spec_begun (h2 ++ Call_begin key t2 (Ok p2) :: h1)) <= u64_max ->
  snd (apply_authoritative c p1 d now) <> Ok tt.
Proof.
  intros Hr Hin Hmax. rewrite (apply_spec _ _ _ _ _ (run_represents _ _ Hr)).
  assert (exists c', cache_run f c' (Call_begin key t2 (Ok p2) :: h1)) as [c2 Hr2].
  { clear Hmax. revert c Hr. induction h2 as [|call h2 IH]; intros c Hr; [eauto|].
    destruct (run_suffix _ _ _ Hr) as [c' Hr']. eauto. }
  destruct (run_suffix _ _ _ Hr2) as [c1 Hr1].
  assert (spec_begun (Call_begin key t2 (Ok p2) :: h1)
          <= spec_begun (h2 ++ Call_begin key t2 (Ok p2) :: h1))%nat as Hle.
  { clear. induction h2 as [|call h2 IH]; [done|]. cbn [app]. etrans; [apply IH|].
    cbn. case_match; try case_match; lia. }
  cbn [spec_begun] in Hle.
  destruct (begin_number _ _ _ _ _ Hr2) as [_ H2]; [lia|].
  destruct (begun_below _ _ _ _ _ Hr1 Hin) as [-> H1]; [lia|].
  destruct (regresses _ now); [done|]. destruct (spec_refresh _ key) as [s|] eqn:Hs; [|done].
  pose proof (refresh_latest _ _ _ _ _ _ _ Hr Hmax Hs).
  destruct (N.eqb_spec (rp_sequence p1) s); [lia|done].
Qed.

(** The clock of a cache never goes back: its high-water mark is the
    last instant it accepted, an accepted call is at that instant or later
    and becomes the mark, and a call with an earlier instant is refused by
    every operation and leaves the whole cache as it was. *)
Theorem clock_regression_refused c h now high :
  cache_run f c h ->
  c.(rc_high_water) = spec_time h
  /\ (c.(rc_high_water) = Some high -> now < high ->
      (forall key, lookup c key now = (c, Err (ClockRegression now high)))
      /\ (forall key, begin_refresh c key now = (c, Err (ClockRegression now high)))
      /\ (forall permit d,
            apply_authoritative c permit d now = (c, Err (ClockRegression now high)))
      /\ (forall key, invalidate c key now = (c, Err (ClockRegression now high)))).
Proof.
  intros Hr. destruct (run_represents _ _ Hr) as [_ _ Ht _ _ _]. split; [done|].
  intros Hh Hlt. unfold lookup, begin_refresh, apply_authoritative, invalidate.
  assert (Ho : observe_time c now = (c, Err (ClockRegression now high))).
  { unfold observe_time. rewrite Hh. by destruct (N.ltb_spec now high); [|lia]. }
  by rewrite Ho.
Qed.
End refinement.

(** ** A concrete run *)

Definition c0 : RevocationCache :=
  {| rc_freshness_secs := 10; rc_high_water := None; rc_next_refresh_sequence := 1;
     rc_latest_refresh := ∅; rc_entries := ∅ |}.
Definition c1 : RevocationCache := fst (begin_refresh c0 "t" 100).
Definition permit1 : RefreshPermit := {| rp_key := "t"; rp_sequence := 1 |}.
Definition c2 : RevocationCache := fst (begin_refresh c1 "t" 101).
Definition permit2 : RefreshPermit := {| rp_key := "t"; rp_sequence := 2 |}.
Definition negative : AuthorityDecision := {| ad_generation := 3; ad_state := NotRevoked |}.
Definition c3 : RevocationCache := fst (apply_authoritative c2 permit2 negative 102).
Definition sample_history : list cache_call :=
  [Call_apply permit2 negative 102 (Ok tt); Call_begin "t" 101 (Ok permit2);
   Call_begin "t" 100 (Ok permit1)].

Lemma sample_run : cache_run 10 c3 sample_history.
Proof.
  apply (run_apply 10 c2); [|vm_compute; reflexivity].
  apply (run_begin 10 c1); [|vm_compute; reflexivity].
  apply (run_begin 10 c0); [|vm_compute; reflexivity]. by constructor.
Qed.

Lemma cache_allow_iff_witness : snd (lookup c3 "t" 111) = Ok Allow.
Proof.
  apply (cache_allow_iff 10 c3 sample_history "t" 111 sample_run). split.
  - intros t [= <-]. vm_compute. discriminate.
  - exists 3, 102. split; [reflexivity|]. split; [vm_compute; reflexivity|].
    repeat constructor. vm_compute. discriminate.
Defined.

Lemma cache_lookup_refines_witness : snd (lookup c3 "t" 112) = Ok (Deny Stale).
Proof.
  apply (cache_lookup_refines 10 c3 sample_history "t" 112 _ sample_run).
  apply (answer_stale _ _ _ _ 3 102); [|reflexivity|left; vm_compute; discriminate].
  intros t [= <-]. vm_compute. discriminate.
Defined.

Lemma cache_apply_iff_witness :
  rc_entries (fst (apply_authoritative c3 permit1 negative 103)) = rc_entries c3.
Proof.
  destruct (apply_authoritative c3 permit1 negative 103) as [c' r] eqn:Hop.
  apply (cache_apply_iff 10 c3 sample_history permit1 negative 103 c' r sample_run Hop).
  intros ->. vm_compute in Hop. discriminate.
Defined.

Lemma superseded_refresh_refused_witness :
  snd (apply_authoritative c2 permit1 negative 102) <> Ok tt.
Proof.
  apply (superseded_refresh_refused 10 c2 [] "t" 101 permit2
           [Call_begin "t" 100 (Ok permit1)] 100 permit1 negative 102).
  - apply (run_begin 10 c1); [|vm_compute; reflexivity].
    apply (run_begin 10 c0); [|vm_compute; reflexivity]. by constructor.
  - apply list_elem_of_here.
  - vm_compute. discriminate.
Defined.

Lemma clock_regression_refused_witness :
  lookup c3 "t" 101 = (c3, Err (ClockRegression 101 102)).
Proof.
  apply (clock_regression_refused 10 c3 sample_history 101 102 sample_run); reflexivity.
Defined.
