(* ===== verification/Cache.v ===== *)
(** * The verifier-local decision cache ([src/src/cache.rs])

    A bounded cache of allow/deny decisions with a freshness budget and a
    monotonic clock.  [HashMap] iterates in an unspecified order, which
    decides which of several equally old entries is evicted: the order is a
    parameter. *)
From Stdlib Require Import Ascii String.
From S2P Require Import Prelude Text.

Definition DEFAULT_FRESHNESS_BUDGET_SECS : N := 30.
Definition DEFAULT_CAPACITY : nat := N.to_nat 65536.

Inductive Decision := Decision_Allow | Decision_Deny.
#[export] Instance Decision_eq_dec : EqDecision Decision.
Proof. solve_decision. Defined.

Inductive Lookup :=
  | Fresh (decision : Decision)
  | Lookup_Stale
  | Miss.

Record ClockRegression := { regressed_by_secs : N }.

Record Entry := {
  e_decision : Decision;
  e_observed_at : N
}.

Record RevocationCache := {
  entries : gmap string Entry;
  high_water : N;
  freshness_budget_secs : N;
  capacity : nat
}.

(** [HashMap::iter]: every entry once, in some order. *)
Class HashIter := hash_iter : gmap string Entry -> list (string * Entry).
Class HashIterLaws `{HashIter} : Prop :=
  hash_iter_entries (m : gmap string Entry) : hash_iter m ≡ₚ map_to_list m.

Definition new (freshness_budget_secs : N) (capacity : nat) : RevocationCache :=
  {| entries := ∅; high_water := 0;
     freshness_budget_secs := N.max freshness_budget_secs 1;
     capacity := Nat.max capacity 1 |}.
Definition with_defaults : RevocationCache := new DEFAULT_FRESHNESS_BUDGET_SECS DEFAULT_CAPACITY.

Definition len (self : RevocationCache) : nat := size self.(entries).
Definition is_empty (self : RevocationCache) : bool := (len self =? 0)%nat.

Definition advance (self : RevocationCache) (now : N)
  : RevocationCache * result ClockRegression unit :=
  if now <? self.(high_water)
  then (self, Err {| regressed_by_secs := self.(high_water) - now |})
  else ({| entries := self.(entries); high_water := now;
           freshness_budget_secs := self.(freshness_budget_secs);
           capacity := self.(capacity) |}, Ok tt).

Definition lookup (self : RevocationCache) (key : string) (now : N)
  : RevocationCache * result ClockRegression Lookup :=
  match advance self now with
  | (self, Err e) => (self, Err e)
  | (self, Ok _) =>
      (self, Ok (match self.(entries) !! key with
                 | Some entry =>
                     if saturating_sub now entry.(e_observed_at)
                        <=? self.(freshness_budget_secs)
                     then Fresh entry.(e_decision)
                     else Lookup_Stale
                 | None => Miss
                 end))
  end.

Definition record_refresh_start (self : RevocationCache) (now : N)
  : RevocationCache * result ClockRegression unit := advance self now.

(** [Iterator::min_by_key]: the first of the minimal elements. *)
Fixpoint min_by_observed (l : list (string * Entry)) : option (string * Entry) :=
  match l with
  | [] => None
  | kv :: r =>
      match min_by_observed r with
      | Some kv' =>
          if (snd kv).(e_observed_at) <=? (snd kv').(e_observed_at) then Some kv else Some kv'
      | None => Some kv
      end
  end.

Section iter.
Context `{HashIter}.

Definition evict_oldest (self : RevocationCache) : RevocationCache :=
  match min_by_observed (hash_iter self.(entries)) with
  | Some (oldest_key, _) =>
      {| entries := delete oldest_key self.(entries); high_water := self.(high_water);
         freshness_budget_secs := self.(freshness_budget_secs); capacity := self.(capacity) |}
  | None => self
  end.

Definition apply_authoritative (self : RevocationCache) (key : string) (decision : Decision)
    (now : N) : RevocationCache * result ClockRegression unit :=
  match advance self now with
  | (self, Err e) => (self, Err e)
  | (self, Ok _) =>
      let entry := {| e_decision := decision; e_observed_at := now |} in
      let self :=
        if negb (bool_decide (is_Some (self.(entries) !! key)))
           && (self.(capacity) <=? size self.(entries))%nat
        then evict_oldest self
        else self in
      ({| entries := <[key := entry]> self.(entries); high_water := self.(high_water);
          freshness_budget_secs := self.(freshness_budget_secs);
          capacity := self.(capacity) |}, Ok tt)
  end.
End iter.

(** ** Runs *)

Inductive cache_op :=
  | Op_lookup (key : string) (now : N)
  | Op_refresh_start (now : N)
  | Op_apply (key : string) (decision : Decision) (now : N).

Section runs.
Context `{HashIterLaws}.
Implicit Types (c : RevocationCache).

Definition op_step c (op : cache_op) : RevocationCache :=
  match op with
  | Op_lookup key now => fst (lookup c key now)
  | Op_refresh_start now => fst (record_refresh_start c now)
  | Op_apply key decision now => fst (apply_authoritative c key decision now)
  end.
Definition op_time (op : cache_op) : N :=
  match op with
  | Op_lookup _ now | Op_refresh_start now | Op_apply _ _ now => now
  end.

(** The last decision applied for a key, at the instants accepted by the
    clock that starts at [hw]. *)
Fixpoint last_applied (hw : N) (key : string) (last : option (Decision * N))
    (ops : list cache_op) : option (Decision * N) :=
  match ops with
  | [] => last
  | op :: ops =>
      if op_time op <? hw then last_applied hw key last ops
      else
        last_applied (op_time op) key
          (match op with
           | Op_apply k decision now => if (k =? key)%string then Some (decision, now) else last
           | _ => last
           end) ops
  end.

Lemma min_by_observed_some l :
  l <> [] -> exists kv, min_by_observed l = Some kv /\ kv ∈ l
  /\ Forall (fun kv' => (snd kv).(e_observed_at) <= (snd kv').(e_observed_at)) l.
Proof.
  induction l as [|kv l IH]; [done|]. intros _. cbn [min_by_observed].
  destruct l as [|kv2 l].
  { exists kv. split; [done|]. split; [apply list_elem_of_here|]. repeat constructor. lia. }
  destruct IH as (kv' & -> & Hin & Hmin); [done|].
  destruct (N.leb_spec (e_observed_at (snd kv)) (e_observed_at (snd kv'))).
  - exists kv. split; [done|]. split; [apply list_elem_of_here|]. constructor; [lia|].
    eapply Forall_impl; [|exact Hmin]. cbn. lia.
  - exists kv'. split; [done|]. split; [by right|]. constructor; [lia|done].
Qed.

Lemma evict_oldest_spec c :
  c.(entries) <> ∅ ->
  exists key e, c.(entries) !! key = Some e
  /\ evict_oldest c = {| entries := delete key c.(entries); high_water := c.(high_water);
                         freshness_budget_secs := c.(freshness_budget_secs);
                         capacity := c.(capacity) |}
  /\ forall k e', c.(entries) !! k = Some e' -> e.(e_observed_at) <= e'.(e_observed_at).
Proof.
  intros Hne. unfold evict_oldest.
  destruct (min_by_observed_some (hash_iter (entries c))) as ([key e] & -> & Hin & Hmin).
  { intros Hnil. apply Hne, map_to_list_empty_iff, Permutation_nil_r.
    by rewrite <- hash_iter_entries, Hnil. }
  rewrite hash_iter_entries in Hin, Hmin. exists key, e. split_and!; [|done|].
  - by apply elem_of_map_to_list.
  - intros k e' Hk%elem_of_map_to_list. rewrite list.Forall_forall in Hmin.
    by apply (Hmin (k, e')).
Qed.

Lemma advance_ok c now :
  c.(high_water) <= now ->
  advance c now = ({| entries := c.(entries); high_water := now;
                      freshness_budget_secs := c.(freshness_budget_secs);
                      capacity := c.(capacity) |}, Ok tt).
Proof. intros Hle. unfold advance. by destruct (N.ltb_spec now (high_water c)); [lia|]. Qed.
Lemma advance_err c now :
  now < c.(high_water) ->
  advance c now = (c, Err {| regressed_by_secs := c.(high_water) - now |}).
Proof. intros Hlt. unfold advance. by destruct (N.ltb_spec now (high_water c)); [|lia]. Qed.

(** The invariant of every cache in use. *)
Record wf c : Prop := {
  wf_bounded : (size c.(entries) <= c.(capacity))%nat;
  wf_capacity : (1 <= c.(capacity))%nat;
  wf_budget : 1 <= c.(freshness_budget_secs);
  wf_past key e : c.(entries) !! key = Some e -> e.(e_observed_at) <= c.(high_water)
}.

Lemma new_wf budget cap : wf (new budget cap).
Proof.
  constructor; cbn; [rewrite map_size_empty; lia|lia|lia|].
  intros key e. by rewrite lookup_empty.
Qed.

Definition with_entry c key decision now : RevocationCache :=
  {| entries := <[key := {| e_decision := decision; e_observed_at := now |}]> c.(entries);
     high_water := now; freshness_budget_secs := c.(freshness_budget_secs);
     capacity := c.(capacity) |}.

(** What an accepted response does: it stores the decision, and it evicts
    another entry, one of the oldest, exactly when the key is new and the
    cache is full. *)
Lemma apply_ok c key decision now :
  wf c -> c.(high_water) <= now ->
  (is_Some (c.(entries) !! key) \/ (size c.(entries) < c.(capacity))%nat)
  /\ apply_authoritative c key decision now = (with_entry c key decision now, Ok tt)
  \/ exists victim e,
       c.(entries) !! key = None /\ size c.(entries) = c.(capacity)
       /\ c.(entries) !! victim = Some e
       /\ (forall k e', c.(entries) !! k = Some e' -> e.(e_observed_at) <= e'.(e_observed_at))
       /\ apply_authoritative c key decision now
          = ({| entries := <[key := {| e_decision := decision; e_observed_at := now |}]>
                             (delete victim c.(entries));
                high_water := now; freshness_budget_secs := c.(freshness_budget_secs);
                capacity := c.(capacity) |}, Ok tt).
Proof.
  intros [Hb Hc _ _] Hle. unfold apply_authoritative. rewrite advance_ok by done. cbn.
  destruct (c.(entries) !! key) as [e0|] eqn:Hk; cbn; [left; by eauto|].
  destruct (Nat.leb_spec (capacity c) (size (entries c))); cbn; [|left; by eauto].
  right. set (c1 := {| entries := entries c; high_water := now; freshness_budget_secs := _;
                       capacity := _ |}).
  destruct (evict_oldest_spec c1) as (victim & e & Hv & -> & Hmin).
  { cbn. intros He. rewrite He, map_size_empty in *. lia. }
  exists victim, e. split_and!; [done|lia|done|done|done].
Qed.

Lemma apply_wf c key decision now :
  wf c -> c.(high_water) <= now -> wf (fst (apply_authoritative c key decision now)).
Proof.
  intros Hwf Hle. pose proof Hwf as [Hb Hc Hbu Hp].
  assert (Hpast : forall m : gmap string Entry, (forall k e, m !! k = Some e -> e.(e_observed_at) <= high_water c) ->
    forall k e, <[key := {| e_decision := decision; e_observed_at := now |}]> m !! k = Some e ->
    e.(e_observed_at) <= now).
  { intros m Hm k e. destruct (decide (key = k)) as [<-|Hne].
    - rewrite lookup_insert_eq. intros [= <-]. cbn. lia.
    - rewrite lookup_insert_ne by done. intros Hk%Hm. lia. }
  destruct (apply_ok c key decision now Hwf Hle)
    as [[Hfit ->]|(v & e & Hn & Hs & Hv & _ & ->)]; cbn [fst with_entry]; constructor; cbn; try done.
  - destruct Hfit as [Hin|Hlt]; [by rewrite map_size_insert_Some|].
    destruct (entries c !! key) eqn:He; [by rewrite map_size_insert_Some by eauto|].
    rewrite map_size_insert_None by done. lia.
  - by apply Hpast.
  - assert (delete v (entries c) !! key = None) as Hd
      by (rewrite lookup_delete_None; by right).
    rewrite map_size_insert_None, map_size_delete_Some by eauto. lia.
  - apply Hpast. intros k e' [_ Hk]%lookup_delete_Some. by eapply Hp.
Qed.

Lemma op_step_wf c op : wf c -> wf (op_step c op).
Proof.
  intros Hwf. destruct (N.ltb_spec (op_time op) (high_water c)) as [Hlt|Hle].
  - destruct op; cbn in *; unfold lookup, record_refresh_start, apply_authoritative;
      by rewrite advance_err.
  - destruct op as [k t|t|k d t]; cbn in *; [| |by apply apply_wf];
      unfold lookup, record_refresh_start; rewrite advance_ok by done; cbn;
      destruct Hwf as [? ? ? Hp]; constructor; cbn; try done; intros k' e Hk%Hp; lia.
Qed.

Lemma steps_wf ops c : wf c -> wf (List.fold_left op_step ops c).
Proof. revert c. induction ops; cbn; auto using op_step_wf. Qed.

Lemma op_step_time c op :
  high_water (op_step c op) = if op_time op <? high_water c then high_water c else op_time op.
Proof.
  destruct (N.ltb_spec (op_time op) (high_water c)) as [Hlt|Hle].
  - destruct op; cbn in *; unfold lookup, record_refresh_start, apply_authoritative;
      by rewrite advance_err.
  - destruct op; cbn in *; unfold lookup, record_refresh_start, apply_authoritative, evict_oldest;
      rewrite advance_ok by done; cbn; try done. case_match; [|done]. by repeat case_match.
Qed.

Lemma apply_entries c key decision now k e :
  wf c -> c.(high_water) <= now ->
  (fst (apply_authoritative c key decision now)).(entries) !! k = Some e ->
  if (key =? k)%string then e = {| e_decision := decision; e_observed_at := now |}
  else c.(entries) !! k = Some e.
Proof.
  intros Hwf Hle.
  destruct (apply_ok c key decision now Hwf Hle) as [[_ ->]|(v & e0 & _ & _ & _ & _ & ->)]; cbn;
    (destruct (String.eqb_spec key k) as [<-|Hne];
     [rewrite lookup_insert_eq; by intros [= <-]|rewrite lookup_insert_ne by done]); [done|].
  by intros [_ Hk]%lookup_delete_Some.
Qed.

(** An entry is the last decision applied for its key. *)
Lemma steps_last key ops c last :
  wf c ->
  (forall e, c.(entries) !! key = Some e -> last = Some (e.(e_decision), e.(e_observed_at))) ->
  forall e, (List.fold_left op_step ops c).(entries) !! key = Some e ->
  last_applied c.(high_water) key last ops = Some (e.(e_decision), e.(e_observed_at)).
Proof.
  revert c last. induction ops as [|op ops IH]; intros c last Hwf Hc; cbn; [done|].
  destruct (N.ltb_spec (op_time op) (high_water c)) as [Hlt|Hle].
  - replace (op_step c op) with c; [by apply IH|].
    destruct op; cbn in *; unfold lookup, record_refresh_start, apply_authoritative;
      by rewrite advance_err.
  - replace (op_time op) with (high_water (op_step c op))
      by (rewrite op_step_time; destruct (N.ltb_spec (op_time op) (high_water c)); lia).
    apply IH; [by apply op_step_wf|].
    destruct op as [k t|t|k d t]; cbn [op_step op_time] in *.
    + unfold lookup. by rewrite advance_ok.
    + unfold record_refresh_start. by rewrite advance_ok.
    + intros e He. pose proof (apply_entries _ _ _ _ _ _ Hwf Hle He) as Hke.
      destruct (k =? key)%string; [by subst e|by apply Hc].
Qed.

Lemma op_step_config c op :
  freshness_budget_secs (op_step c op) = freshness_budget_secs c
  /\ capacity (op_step c op) = capacity c.
Proof.
  destruct op as [k t|t|k d t]; cbn; unfold lookup, record_refresh_start, apply_authoritative,
    advance, evict_oldest; destruct (t <? high_water c); cbn; try done.
  by repeat case_match.
Qed.
Lemma steps_budget ops c :
  freshness_budget_secs (List.fold_left op_step ops c) = freshness_budget_secs c.
Proof. revert c. induction ops as [|op ops IH]; intros c; cbn; [done|].
  rewrite IH. apply op_step_config. Qed.
Lemma steps_capacity ops c : capacity (List.fold_left op_step ops c) = capacity c.
Proof. revert c. induction ops as [|op ops IH]; intros c; cbn; [done|].
  rewrite IH. apply op_step_config. Qed.

Notation exec budget cap ops := (List.fold_left op_step ops (new budget cap)).

(** A decision is served only while it is fresh: whatever calls were made
    on a new cache, a lookup at [now] that answers [Fresh d] had an accepted
    clock, and [d] is the last decision applied for exactly that key, applied
    no later than [now] and at most the freshness budget (at least one
    second) before it; evictions never make it answer with another
    decision. *)
Theorem fresh_is_recent budget cap ops key now d :
  snd (lookup (exec budget cap ops) key now) = Ok (Fresh d) ->
  (exec budget cap ops).(high_water) <= now
  /\ exists t, last_applied 0 key None ops = Some (d, t)
     /\ t <= now /\ now <= t + N.max budget 1.
Proof.
  pose proof (steps_wf ops _ (new_wf budget cap)) as Hwf.
  pose proof (steps_last key ops (new budget cap) None (new_wf budget cap)) as Hlast.
  pose proof (steps_budget ops (new budget cap)) as Hb.
  set (c := exec budget cap ops) in *.
  unfold lookup. destruct (N.ltb_spec now (high_water c)) as [Hlt|Hle].
  { by rewrite advance_err. }
  rewrite advance_ok by done. cbn. intros [= Hd]. split; [done|].
  destruct (entries c !! key) as [e|] eqn:He; [|done].
  pose proof (wf_past _ Hwf _ _ He) as Hpast.
  destruct (N.leb_spec (saturating_sub now (e_observed_at e)) (freshness_budget_secs c));
    [|done].
  injection Hd as <-. exists (e_observed_at e). split; [|split; [lia|]].
  - apply Hlast; [|done]. intros e' He'. cbn in He'. by rewrite lookup_empty in He'.
  - unfold saturating_sub in *. rewrite Hb in *. cbn in *. lia.
Qed.

(** The cache is bounded and evicts only what it must: whatever calls
    were made, it never holds more than its capacity (at least one entry), an
    accepted response is always retained and answers the next lookups, and an
    entry of another key disappears only if the cache was full, the key new,
    and no entry was older than the one removed. *)
Theorem bounded_eviction budget cap ops key decision now :
  let c := exec budget cap ops in
  (size c.(entries) <= Nat.max cap 1)%nat
  /\ (c.(high_water) <= now ->
      exists c', apply_authoritative c key decision now = (c', Ok tt)
      /\ (size c'.(entries) <= Nat.max cap 1)%nat
      /\ snd (lookup c' key now) = Ok (Fresh decision)
      /\ forall k e, k <> key -> c.(entries) !! k = Some e -> c'.(entries) !! k = None ->
           c.(entries) !! key = None /\ size c.(entries) = Nat.max cap 1
           /\ forall k' e', c.(entries) !! k' = Some e' -> e.(e_observed_at) <= e'.(e_observed_at)).
Proof.
  cbn zeta. pose proof (steps_wf ops _ (new_wf budget cap)) as Hwf.
  pose proof (steps_capacity ops (new budget cap)) as Hcap.
  set (c := exec budget cap ops) in *. cbn in Hcap. rewrite <- Hcap.
  split; [apply Hwf|]. intros Hle. pose proof (apply_wf c key decision now Hwf Hle) as Hwf'.
  exists (fst (apply_authoritative c key decision now)).
  assert (Hfresh : forall m t, snd (lookup {| entries := <[key := {| e_decision := decision;
      e_observed_at := now |}]> m; high_water := now;
      freshness_budget_secs := t; capacity := c.(capacity) |} key now) = Ok (Fresh decision)).
  { intros m t. unfold lookup. rewrite advance_ok by done. cbn. rewrite lookup_insert_eq. cbn.
    unfold saturating_sub. rewrite N.sub_diag. by destruct t. }
  destruct (apply_ok c key decision now Hwf Hle)
    as [[_ Hop]|(v & ev & Hn & Hs & Hv & Hmin & Hop)]; rewrite Hop in *; cbn [fst] in *;
    (split; [done|]); (split; [apply Hwf'|]); (split; [apply Hfresh|]); cbn [entries with_entry].
  - intros k e Hne He Hgone. rewrite lookup_insert_ne in Hgone by done. congruence.
  - intros k e Hne He Hgone. rewrite lookup_insert_ne in Hgone by done.
    apply lookup_delete_None in Hgone as [->|]; [|congruence].
    replace e with ev by congruence. split_and!; done.
Qed.

(** A clock that went back changes nothing: every operation whose instant
    is below the high-water mark is refused with the distance to it and
    leaves the cache as it was, and the mark is the greatest instant the
    cache ever accepted. *)
Theorem clock_never_regresses budget cap ops now :
  let c := exec budget cap ops in
  c.(high_water) = List.fold_left N.max (op_time <$> ops) 0
  /\ (now < c.(high_water) ->
      let refused := {| regressed_by_secs := c.(high_water) - now |} in
      (forall key, lookup c key now = (c, Err refused))
      /\ record_refresh_start c now = (c, Err refused)
      /\ (forall key d, apply_authoritative c key d now = (c, Err refused))).
Proof.
  cbn zeta. split.
  - change 0 with (high_water (new budget cap)). generalize (new budget cap).
    induction ops as [|op ops IH]; intros c; cbn; [done|]. rewrite IH, op_step_time. f_equal.
    destruct (N.ltb_spec (op_time op) (high_water c)); lia.
  - intros Hlt. unfold lookup, record_refresh_start, apply_authoritative.
    by rewrite advance_err.
Qed.
End runs.

(** ** A concrete run *)

#[export] Instance sorted_iter : HashIter := map_to_list.
#[export] Instance sorted_iter_laws : HashIterLaws.
Proof. by intros m. Qed.

Definition sample_ops : list cache_op :=
  [Op_apply "a" Decision_Allow 100; Op_apply "b" Decision_Deny 105; Op_lookup "a" 104;
   Op_apply "c" Decision_Allow 107].

Lemma fresh_is_recent_witness :
  exists t, last_applied 0 "b" None sample_ops = Some (Decision_Deny, t) /\ t <= 110.
Proof.
  destruct (fresh_is_recent 5 2 sample_ops "b" 110 Decision_Deny) as (_ & t & Hl & Ht & _).
  - vm_compute. reflexivity.
  - exists t. split; [exact Hl|exact Ht].
Defined.

Lemma bounded_eviction_witness :
  exists c', apply_authoritative (List.fold_left op_step sample_ops (new 5 2)) "d" Decision_Deny 120
             = (c', Ok tt)
  /\ snd (lookup c' "d" 120) = Ok (Fresh Decision_Deny).
Proof.
  assert (Hle : high_water (List.fold_left op_step sample_ops (new 5 2)) <= 120)
    by (vm_compute; discriminate).
  destruct (proj2 (bounded_eviction 5 2 sample_ops "d" Decision_Deny 120) Hle)
    as (c' & Hop & _ & Hl & _).
  exists c'. split; [exact Hop|exact Hl].
Defined.

Lemma clock_never_regresses_witness :
  record_refresh_start (List.fold_left op_step sample_ops (new 5 2)) 100
  = (List.fold_left op_step sample_ops (new 5 2), Err {| regressed_by_secs := 7 |}).
Proof.
  assert (Hlt : 100 < high_water (List.fold_left op_step sample_ops (new 5 2)))
    by (vm_compute; reflexivity).
  exact (proj1 (proj2 (proj2 (clock_never_regresses 5 2 sample_ops 100) Hlt))).
Defined.
