(* ===== verification/Gate.v ===== *)
(** * The verifier-side revocation gate ([src/src/gate.rs])

    [authorize] as a concurrent state machine: any number of requests share
    the cache and the per-key locks, each critical section and each await is
    one step, and a request may be dropped at any point.  An [Arc]'s strong
    count is the number of its clones, the one in the map included. *)
From Stdlib Require Import Ascii String.
From S2P Require Import Prelude Text Wire Token Ledger Cache.

Inductive UnavailableReason := ClockRegressed | RefreshFailed | RefreshTimedOut.
Inductive Authorization :=
  | Allowed
  | RevokedToken
  | Unavailable (reason : UnavailableReason).

Definition decision_to_auth (decision : Decision) : Authorization :=
  match decision with
  | Decision_Allow => Allowed
  | Decision_Deny => RevokedToken
  end.

(** What [timeout(refresh_timeout, authority.check_revocation(..)).await]
    returns: the timeout elapsed, or the authority's answer. *)
Inductive AuthorityAnswer :=
  | Elapsed
  | Answered (r : result RevocationError RevocationDecision).

(** Where a request is in [authorize]; a lock is the address of its [Arc]. *)
Inductive phase :=
  | Ph_fast
  | Ph_acquire
  | Ph_wait (lock : nat)
  | Ph_recheck (lock : nat)
  | Ph_refresh (lock : nat)
  | Ph_authority (lock : nat)
  | Ph_apply (lock : nat) (cached : Decision)
  | Ph_unlock (lock : nat) (outcome : Authorization)
  | Ph_release (lock : nat) (outcome : Authorization)
  | Ph_return (lock : nat) (outcome : Authorization)
  | Ph_done (outcome : Authorization)
  | Ph_dropped.

Record request := {
  q_claims : Claims;
  q_now : N;
  q_phase : phase
}.

(** [RevocationGate] with the requests in flight.  [g_answers] records the
    authority's decisions; no code reads it. *)
Record gate := {
  g_cache : RevocationCache;
  g_key_locks : gmap string nat;
  g_next_lock : nat;
  g_requests : list request;
  g_answers : list (Claims * N * RevocationDecision)
}.

Definition gate_new (cache : RevocationCache) : gate :=
  {| g_cache := cache; g_key_locks := ∅; g_next_lock := 0; g_requests := []; g_answers := [] |}.
Definition gate_with_defaults : gate := gate_new with_defaults.

(** The lock a request uses, and whether it holds its guard. *)
Definition lock_of (p : phase) : option nat :=
  match p with
  | Ph_wait l | Ph_recheck l | Ph_refresh l | Ph_authority l | Ph_apply l _
  | Ph_unlock l _ | Ph_release l _ => Some l
  | _ => None
  end.
Definition guard_of (p : phase) : option nat :=
  match p with
  | Ph_recheck l | Ph_refresh l | Ph_authority l | Ph_apply l _ | Ph_unlock l _ => Some l
  | _ => None
  end.
(** The clone it owns: [release_key] drops its own after it has let the map
    go. *)
Definition clone_of (p : phase) : option nat :=
  match p with
  | Ph_return l _ => Some l
  | _ => lock_of p
  end.
Definition owns (l : nat) (q : request) : bool := bool_decide (clone_of q.(q_phase) = Some l).
Definition guards (l : nat) (q : request) : bool := bool_decide (guard_of q.(q_phase) = Some l).
Definition locked (g : gate) (l : nat) : bool := existsb (guards l) g.(g_requests).

Section crypto.
Context `{Crypto, HashIter}.

Definition revocation_cache_key (claims : Claims) : string :=
  hex_lower (sha256 (framed
    [claims.(c_iss); claims.(c_aud); claims.(c_org_id); claims.(c_sub); claims.(c_jti)])).

Definition key_of (q : request) : string := revocation_cache_key q.(q_claims).

Definition strong_count (g : gate) (key : string) (l : nat) : nat :=
  (if decide (g.(g_key_locks) !! key = Some l) then 1 else 0)
  + length (List.filter (owns l) g.(g_requests)).

(** [cache_lookup], [record_refresh_start] and [apply]: one critical section
    of the cache mutex each. *)
Definition cache_lookup (cache : RevocationCache) (key : string) (now : N)
  : RevocationCache * result unit Lookup :=
  let (cache, r) := lookup cache key now in (cache, map_err (fun _ => tt) r).
Definition gate_record_refresh_start (cache : RevocationCache) (now : N)
  : RevocationCache * result unit unit :=
  let (cache, r) := record_refresh_start cache now in (cache, map_err (fun _ => tt) r).
Definition gate_apply (cache : RevocationCache) (key : string) (decision : Decision) (now : N)
  : RevocationCache * result unit unit :=
  let (cache, r) := apply_authoritative cache key decision now in
  (cache, map_err (fun _ => tt) r).

(** [acquire_key]: the lock in the map, or a new one put there. *)
Definition acquire_key (key_locks : gmap string nat) (next_lock : nat) (key : string)
  : gmap string nat * nat * nat :=
  match key_locks !! key with
  | Some l => (key_locks, next_lock, l)
  | None => (<[key := next_lock]> key_locks, S next_lock, next_lock)
  end.
(** [release_key]: [count] is the strong count read inside. *)
Definition release_key (key_locks : gmap string nat) (key : string) (count : nat)
  : gmap string nat :=
  if (count <=? 2)%nat then delete key key_locks else key_locks.

(** [refresh] between the authority's answer and [apply]. *)
Definition after_answer (l : nat) (answer : AuthorityAnswer) : phase :=
  match answer with
  | Elapsed => Ph_unlock l (Unavailable RefreshTimedOut)
  | Answered (Err _) => Ph_unlock l (Unavailable RefreshFailed)
  | Answered (Ok decision) =>
      Ph_apply l (if decision.(dc_revoked) then Decision_Deny else Decision_Allow)
  end.
Definition decided (q : request) (answer : AuthorityAnswer)
  : list (Claims * N * RevocationDecision) :=
  match answer with
  | Answered (Ok decision) => [(q.(q_claims), q.(q_now), decision)]
  | _ => []
  end.

(** One step of [authorize] for request number [id]. *)
Definition authorize_step (g : gate) (id : nat) (q : request) (answer : AuthorityAnswer)
  : option gate :=
  let key := key_of q in
  let now := q.(q_now) in
  let goto cache key_locks next_lock answers p :=
    Some {| g_cache := cache; g_key_locks := key_locks; g_next_lock := next_lock;
            g_requests := <[id := {| q_claims := q.(q_claims); q_now := now; q_phase := p |}]>
                            g.(g_requests);
            g_answers := answers ++ g.(g_answers) |} in
  let with_cache cache p := goto cache g.(g_key_locks) g.(g_next_lock) [] p in
  match q.(q_phase) with
  | Ph_fast =>
      let (cache, looked) := cache_lookup g.(g_cache) key now in
      with_cache cache
        (match looked with
         | Err _ => Ph_done (Unavailable ClockRegressed)
         | Ok (Fresh decision) => Ph_done (decision_to_auth decision)
         | Ok Lookup_Stale | Ok Miss => Ph_acquire
         end)
  | Ph_acquire =>
      let '(key_locks, next_lock, l) := acquire_key g.(g_key_locks) g.(g_next_lock) key in
      goto g.(g_cache) key_locks next_lock [] (Ph_wait l)
  | Ph_wait l => if locked g l then None else with_cache g.(g_cache) (Ph_recheck l)
  | Ph_recheck l =>
      let (cache, looked) := cache_lookup g.(g_cache) key now in
      with_cache cache
        (match looked with
         | Err _ => Ph_unlock l (Unavailable ClockRegressed)
         | Ok (Fresh decision) => Ph_unlock l (decision_to_auth decision)
         | Ok Lookup_Stale | Ok Miss => Ph_refresh l
         end)
  | Ph_refresh l =>
      let (cache, started) := gate_record_refresh_start g.(g_cache) now in
      with_cache cache
        (match started with
         | Err _ => Ph_unlock l (Unavailable ClockRegressed)
         | Ok _ => Ph_authority l
         end)
  | Ph_authority l =>
      goto g.(g_cache) g.(g_key_locks) g.(g_next_lock) (decided q answer) (after_answer l answer)
  | Ph_apply l cached =>
      let (cache, applied) := gate_apply g.(g_cache) key cached now in
      with_cache cache
        (match applied with
         | Ok _ => Ph_unlock l (decision_to_auth cached)
         | Err _ => Ph_unlock l (Unavailable ClockRegressed)
         end)
  | Ph_unlock l outcome => with_cache g.(g_cache) (Ph_release l outcome)
  | Ph_release l outcome =>
      goto g.(g_cache) (release_key g.(g_key_locks) key (strong_count g key l)) g.(g_next_lock)
        [] (Ph_return l outcome)
  | Ph_return _ outcome => with_cache g.(g_cache) (Ph_done outcome)
  | Ph_done _ | Ph_dropped => None
  end.

(** A request arrives; the client of request number [id] goes away. *)
Definition gate_admit (g : gate) (claims : Claims) (now : N) : gate :=
  {| g_cache := g.(g_cache); g_key_locks := g.(g_key_locks); g_next_lock := g.(g_next_lock);
     g_requests := g.(g_requests) ++
                     [{| q_claims := claims; q_now := now; q_phase := Ph_fast |}];
     g_answers := g.(g_answers) |}.
Definition gate_abandon (g : gate) (id : nat) (q : request) : gate :=
  {| g_cache := g.(g_cache); g_key_locks := g.(g_key_locks); g_next_lock := g.(g_next_lock);
     g_requests := <[id := {| q_claims := q.(q_claims); q_now := q.(q_now);
                              q_phase := Ph_dropped |}]> g.(g_requests);
     g_answers := g.(g_answers) |}.

Inductive gate_step : gate -> gate -> Prop :=
  | gate_arrive g claims now : gate_step g (gate_admit g claims now)
  | gate_run g id q answer g' :
      g.(g_requests) !! id = Some q -> authorize_step g id q answer = Some g' -> gate_step g g'
  | gate_drop g id q : g.(g_requests) !! id = Some q -> gate_step g (gate_abandon g id q).
End crypto.
