(* ===== verification/GateSafety.v ===== *)
(** * Safety of the revocation gate

    Invariants of every run of the gate: refreshes of one token identity are
    serialized, and no request is allowed without fresh evidence from the
    authority. *)
From Stdlib Require Import Ascii String.
From S2P Require Import Prelude Text Wire Samples Token Ledger Cache Gate.

Section locks.
Context `{Crypto, HashIter}.
Implicit Types (g : gate) (q : request).

Definition set_phase q (p : phase) : request :=
  {| q_claims := q.(q_claims); q_now := q.(q_now); q_phase := p |}.

(** Every clone in use is the one in the map, the map is injective, and a
    lock has at most one guard. *)
Record locks_ok g : Prop := {
  lk_mapped id q l : g.(g_requests) !! id = Some q -> lock_of q.(q_phase) = Some l ->
    g.(g_key_locks) !! key_of q = Some l;
  lk_fresh k l : g.(g_key_locks) !! k = Some l -> (l < g.(g_next_lock))%nat;
  lk_inj k1 k2 l : g.(g_key_locks) !! k1 = Some l -> g.(g_key_locks) !! k2 = Some l -> k1 = k2;
  lk_guard i j q1 q2 l : g.(g_requests) !! i = Some q1 -> g.(g_requests) !! j = Some q2 ->
    guard_of q1.(q_phase) = Some l -> guard_of q2.(q_phase) = Some l -> i = j
}.

Lemma guard_owns p l : guard_of p = Some l -> lock_of p = Some l.
Proof. by destruct p. Qed.

Lemma lock_clone p l : lock_of p = Some l -> clone_of p = Some l.
Proof. by destruct p. Qed.

Lemma locked_false g l id q :
  locked g l = false -> g.(g_requests) !! id = Some q -> guard_of q.(q_phase) <> Some l.
Proof.
  unfold locked, guards. intros Hn Hq Hg.
  assert (existsb (fun q => bool_decide (guard_of (q_phase q) = Some l)) (g_requests g) = true)
    as Ht; [|congruence].
  apply existsb_exists. exists q. split; [|by apply bool_decide_eq_true].
  apply list_elem_of_In. by eapply list_elem_of_lookup_2.
Qed.

(** A request that moves without taking a new lock. *)
Lemma locks_ok_move g g' id q p :
  locks_ok g -> g.(g_requests) !! id = Some q ->
  g'.(g_requests) = <[id := set_phase q p]> g.(g_requests) ->
  g'.(g_key_locks) = g.(g_key_locks) -> g'.(g_next_lock) = g.(g_next_lock) ->
  (forall l, lock_of p = Some l -> lock_of q.(q_phase) = Some l) ->
  (forall l, guard_of p = Some l -> guard_of q.(q_phase) = Some l \/ locked g l = false) ->
  locks_ok g'.
Proof.
  intros [Hm Hf Hi Hg] Hq Hr Hk Hn Hl Hgd. constructor; rewrite ?Hr, ?Hk, ?Hn; [|done..|].
  - intros i q' l [(<- & <- & _)|[_ Hq']]%list_lookup_insert_Some; [|by eapply Hm].
    intros Ho%Hl. by eapply (Hm id q).
  - intros i j q1 q2 l [(<- & <- & _)|[Hni H1]]%list_lookup_insert_Some
      [(<- & <- & _)|[Hnj H2]]%list_lookup_insert_Some G1 G2; cbn in *; [done| | |by eapply Hg].
    + destruct (Hgd _ G1) as [G|G]; [by eapply (Hg _ _ q q2)|].
      by destruct (locked_false _ _ _ _ G H2).
    + destruct (Hgd _ G2) as [G|G]; [by eapply (Hg _ _ q1 q)|].
      by destruct (locked_false _ _ _ _ G H1).
Qed.

Lemma filter_two {A} (f : A -> bool) (l : list A) i j x y :
  l !! i = Some x -> l !! j = Some y -> f x = true -> f y = true -> i <> j ->
  (2 <= length (List.filter f l))%nat.
Proof.
  assert (Hone : forall (l : list A) i x, l !! i = Some x -> f x = true ->
                 (1 <= length (List.filter f l))%nat).
  { clear. intros l. induction l as [|z l IH]; intros i x; [by destruct i|].
    destruct i as [|i]; cbn; [intros [= ->] ->; cbn; lia|]. intros Hx Hf.
    specialize (IH _ _ Hx Hf). destruct (f z); cbn; lia. }
  revert i j. induction l as [|z l IH]; intros i j Hi Hj Hx Hy Hne; [by destruct i|].
  destruct i as [|i], j as [|j]; cbn in *; simplify_eq.
  - rewrite Hx. cbn. specialize (Hone _ _ _ Hj Hy). lia.
  - rewrite Hy. cbn. specialize (Hone _ _ _ Hi Hx). lia.
  - specialize (IH i j Hi Hj Hx Hy). assert (i <> j) by congruence.
    destruct (f z); cbn; [|by apply IH]. specialize (IH ltac:(done)). lia.
Qed.

(** The map entry that [release_key] removes has no other user. *)
Lemma release_alone g id q l j q' :
  locks_ok g -> g.(g_requests) !! id = Some q -> lock_of q.(q_phase) = Some l ->
  (strong_count g (key_of q) l <= 2)%nat ->
  g.(g_requests) !! j = Some q' -> lock_of q'.(q_phase) = Some l -> id = j.
Proof.
  intros Hok Hq Ho Hc Hq' Ho'. destruct (decide (id = j)) as [|Hne]; [done|].
  unfold strong_count in Hc. rewrite decide_True in Hc by (by eapply lk_mapped).
  pose proof (filter_two (owns l) _ _ _ _ _ Hq Hq') as Htwo. unfold owns in Htwo.
  rewrite !bool_decide_eq_true in Htwo.
  specialize (Htwo (lock_clone _ _ Ho) (lock_clone _ _ Ho') Hne). unfold owns in Hc. lia.
Qed.

Lemma locks_ok_acquire g id q g' :
  locks_ok g -> g.(g_requests) !! id = Some q -> q.(q_phase) = Ph_acquire ->
  authorize_step g id q Elapsed = Some g' -> locks_ok g'.
Proof.
  intros Hok Hq Hp Hs. unfold authorize_step, acquire_key in Hs. rewrite Hp in Hs.
  pose proof Hok as [Hm Hf Hi Hg].
  destruct (g_key_locks g !! key_of q) as [l|] eqn:Hk; injection Hs as <-.
  - constructor; cbn; [|done..|].
    + intros i q' l' [(<- & <- & _)|[_ Hq']]%list_lookup_insert_Some; [|by eapply Hm].
      cbn. by intros [= <-].
    + intros i j q1 q2 l' [(<- & <- & _)|[_ H1]]%list_lookup_insert_Some
        [(<- & <- & _)|[_ H2]]%list_lookup_insert_Some G1 G2; cbn in *; [done..|].
      by eapply Hg.
  - constructor; cbn.
    + intros i q' l' [(<- & <- & _)|[_ Hq']]%list_lookup_insert_Some Ho; cbn in *.
      * injection Ho as <-. by rewrite lookup_insert_eq.
      * specialize (Hm _ _ _ Hq' Ho). rewrite lookup_insert_ne; [done|]. congruence.
    + intros k l [[_ <-]|[_ Hl]]%lookup_insert_Some; [lia|]. apply Hf in Hl. lia.
    + intros k1 k2 l [[<- <-]|[Hn1 H1]]%lookup_insert_Some [[<- H2]|[Hn2 H2]]%lookup_insert_Some;
        [done| | |by eapply Hi].
      * apply Hf in H2. lia.
      * apply Hf in H1. lia.
    + intros i j q1 q2 l' [(<- & <- & _)|[_ H1]]%list_lookup_insert_Some
        [(<- & <- & _)|[_ H2]]%list_lookup_insert_Some G1 G2; cbn in *; [done..|].
      by eapply Hg.
Qed.

Lemma locks_ok_release g id q l o g' :
  locks_ok g -> g.(g_requests) !! id = Some q -> q.(q_phase) = Ph_release l o ->
  authorize_step g id q Elapsed = Some g' -> locks_ok g'.
Proof.
  intros Hok Hq Hp Hs. unfold authorize_step, release_key in Hs. rewrite Hp in Hs.
  injection Hs as <-. pose proof Hok as [Hm Hf Hi Hg].
  destruct (Nat.leb_spec (strong_count g (key_of q) l) 2) as [Hle|_].
  2:{ eapply (locks_ok_move g _ id q); done. }
  constructor; cbn.
  - intros i q' l' [(<- & <- & _)|[Hne Hq']]%list_lookup_insert_Some Ho; [done|].
    pose proof (Hm _ _ _ Hq' Ho) as Hk'. rewrite lookup_delete_ne; [done|].
    intros Heq. assert (Hlq : lock_of (q_phase q) = Some l) by (by rewrite Hp).
    pose proof (Hm _ _ _ Hq Hlq) as Hk. rewrite Heq, Hk' in Hk. injection Hk as ->.
    by apply Hne, (release_alone g id q l i q').
  - intros k l' [_ Hl]%lookup_delete_Some. by eapply Hf.
  - intros k1 k2 l' [_ H1]%lookup_delete_Some [_ H2]%lookup_delete_Some. by eapply Hi.
  - intros i j q1 q2 l' [(<- & <- & _)|[_ H1]]%list_lookup_insert_Some
      [(<- & <- & _)|[_ H2]]%list_lookup_insert_Some G1 G2; cbn in *; [done..|].
    by eapply Hg.
Qed.

Lemma step_locks g g' : gate_step g g' -> locks_ok g -> locks_ok g'.
Proof.
  destruct 1 as [g claims now|g id q answer g' Hq Hs|g id q Hq]; intros Hok.
  - destruct Hok as [Hm Hf Hi Hg]. constructor; cbn; [|done..|].
    + intros i q l [Hq|[_ Hq]]%lookup_app_Some Ho; [by eapply Hm|].
      apply list_lookup_singleton_Some in Hq as [_ <-]. done.
    + intros i j q1 q2 l [Hq1|[_ Hq1]]%lookup_app_Some [Hq2|[_ Hq2]]%lookup_app_Some G1 G2;
        try (apply list_lookup_singleton_Some in Hq1 as [_ <-]; done);
        try (apply list_lookup_singleton_Some in Hq2 as [_ <-]; done).
      by eapply Hg.
  - unfold authorize_step in Hs. destruct (q_phase q) as [| |l|l|l|l|l cached|l o|l o|l o|o|] eqn:Hp.
    + destruct (cache_lookup _ _ _) as [c r]. injection Hs as <-.
      eapply (locks_ok_move g _ id q); try done; destruct r as [[]|]; done.
    + eapply (locks_ok_acquire g id q); try done. unfold authorize_step. by rewrite Hp.
    + destruct (locked g l) eqn:Hl; [done|]. injection Hs as <-.
      eapply (locks_ok_move g _ id q); try done; rewrite Hp; cbn; [done|].
      intros ? [= <-]. by right.
    + destruct (cache_lookup _ _ _) as [c r]. injection Hs as <-.
      eapply (locks_ok_move g _ id q); try done; rewrite Hp; destruct r as [[]|]; cbn; auto; done.
    + destruct (gate_record_refresh_start _ _) as [c r]. injection Hs as <-.
      eapply (locks_ok_move g _ id q); try done; rewrite Hp; destruct r as [[]|]; cbn; auto; done.
    + injection Hs as <-.
      eapply (locks_ok_move g _ id q); try done; rewrite Hp; destruct answer as [|[]]; cbn; auto; done.
    + destruct (gate_apply _ _ _ _) as [c r]. injection Hs as <-.
      eapply (locks_ok_move g _ id q); try done; rewrite Hp; destruct r as [[]|]; cbn; auto; done.
    + injection Hs as <-.
      eapply (locks_ok_move g _ id q); try done; rewrite Hp; cbn; auto; done.
    + eapply (locks_ok_release g id q); try done. unfold authorize_step. by rewrite Hp.
    + injection Hs as <-. eapply (locks_ok_move g _ id q); done.
    + done.
    + done.
  - eapply (locks_ok_move g _ id q); try done.
Qed.

Lemma start_locks cache : locks_ok (gate_new cache).
Proof. constructor; cbn; try done; intros ? ?; by rewrite lookup_empty. Qed.

Lemma reach_locks cache g : rtc gate_step (gate_new cache) g -> locks_ok g.
Proof.
  intros Hr. pose proof (start_locks cache) as Hok. revert Hok.
  induction Hr; eauto using step_locks.
Qed.

(** C12: refreshes are single-flight: in every run of the gate, with requests
    arriving and being dropped at any point, at most one request of a token
    identity is past the per-key lock, so at most one asks the authority or
    applies its answer at a time, although locks leave the map as soon as
    they look unused. *)
Theorem single_flight cache g i j q1 q2 l1 l2 :
  rtc gate_step (gate_new cache) g ->
  g.(g_requests) !! i = Some q1 -> g.(g_requests) !! j = Some q2 ->
  key_of q1 = key_of q2 ->
  guard_of q1.(q_phase) = Some l1 -> guard_of q2.(q_phase) = Some l2 -> i = j.
Proof.
  intros Hr H1 H2 Hk G1 G2. pose proof (reach_locks _ _ Hr) as Hok.
  pose proof (lk_mapped _ Hok _ _ _ H1 (guard_owns _ _ G1)) as M1.
  pose proof (lk_mapped _ Hok _ _ _ H2 (guard_owns _ _ G2)) as M2.
  assert (l1 = l2) as -> by congruence. by eapply (lk_guard _ Hok).
Qed.
End locks.

Section evidence.
Context `{Crypto, HashIterLaws}.
Implicit Types (g : gate) (q : request).
Context (budget : N).

Definition verdict (d : RevocationDecision) : Decision :=
  if d.(dc_revoked) then Decision_Deny else Decision_Allow.
Definition outcome_of (p : phase) : option Authorization :=
  match p with
  | Ph_unlock _ o | Ph_release _ o | Ph_return _ o | Ph_done o => Some o
  | _ => None
  end.

(** A decision of the authority about the same token identity, made at most
    [budget] seconds before the request's instant. *)
Definition evidence (answers : list (Claims * N * RevocationDecision)) q (d : Decision) : Prop :=
  exists claims t answer, (claims, t, answer) ∈ answers
  /\ revocation_cache_key claims = key_of q /\ verdict answer = d
  /\ t <= q.(q_now) <= t + budget.
Definition justifies answers q (o : Authorization) : Prop :=
  forall d, o = decision_to_auth d -> evidence answers q d.

Record evidence_ok g : Prop := {
  ok_wf : wf g.(g_cache);
  ok_budget : g.(g_cache).(freshness_budget_secs) = budget;
  ok_cache k e : g.(g_cache).(entries) !! k = Some e ->
    exists claims answer, (claims, e.(e_observed_at), answer) ∈ g.(g_answers)
    /\ revocation_cache_key claims = k /\ verdict answer = e.(e_decision);
  ok_apply q l d : q ∈ g.(g_requests) -> q.(q_phase) = Ph_apply l d ->
    exists answer, (q.(q_claims), q.(q_now), answer) ∈ g.(g_answers) /\ verdict answer = d;
  ok_outcome q o : q ∈ g.(g_requests) -> outcome_of q.(q_phase) = Some o ->
    justifies g.(g_answers) q o
}.

Lemma evidence_more answers more q d : evidence answers q d -> evidence (more ++ answers) q d.
Proof.
  intros (c & t & a & Hin & Hrest). exists c, t, a. split; [|done].
  apply list.elem_of_app. by right.
Qed.

Lemma auth_inj d d' : decision_to_auth d = decision_to_auth d' -> d = d'.
Proof. by destruct d, d'. Qed.

(** What a fresh lookup rests on. *)
Lemma fresh_evidence g q c d :
  evidence_ok g -> cache_lookup g.(g_cache) (key_of q) q.(q_now) = (c, Ok (Fresh d)) ->
  evidence g.(g_answers) q d.
Proof.
  intros [Hwf Hb Hc _ _] Hl. unfold cache_lookup in Hl.
  destruct (lookup _ _ _) as [c' r] eqn:Hlk. injection Hl as <- Hr.
  apply map_err_ok in Hr as ->. unfold lookup in Hlk.
  destruct (N.ltb_spec (q_now q) (high_water (g_cache g))).
  { rewrite advance_err in Hlk by done. done. }
  rewrite advance_ok in Hlk by done. cbn in Hlk. injection Hlk as <- Hd.
  destruct (entries (g_cache g) !! key_of q) as [e|] eqn:He; [|done].
  destruct (Hc _ _ He) as (claims & answer & Hin & Hk & Hv).
  pose proof (wf_past _ Hwf _ _ He).
  destruct (N.leb_spec (saturating_sub (q_now q) (e_observed_at e))
              (freshness_budget_secs (g_cache g))); [|done].
  injection Hd as <-. exists claims, (e_observed_at e), answer.
  unfold saturating_sub in *. split_and!; [done|done|done|lia|lia].
Qed.

Lemma set_request_elem (l : list request) id q q' :
  q' ∈ <[id := q]> l -> q' = q \/ q' ∈ l.
Proof.
  intros (i & Hi)%list_elem_of_lookup_1.
  apply list_lookup_insert_Some in Hi as [(_ & -> & _)|[_ Hi]]; [by left|].
  right. by eapply list_elem_of_lookup_2.
Qed.

(** One step: the cache follows its own rules, the answers only grow, and the
    new phase of the request is accounted for. *)
Lemma evidence_ok_move g g' id q p more :
  evidence_ok g -> q ∈ g.(g_requests) ->
  g'.(g_requests) = <[id := set_phase q p]> g.(g_requests) ->
  g'.(g_answers) = more ++ g.(g_answers) ->
  wf g'.(g_cache) -> g'.(g_cache).(freshness_budget_secs) = budget ->
  (forall k e, g'.(g_cache).(entries) !! k = Some e ->
     g.(g_cache).(entries) !! k = Some e
     \/ exists answer, k = key_of q
        /\ (q.(q_claims), e.(e_observed_at), answer) ∈ g.(g_answers)
        /\ verdict answer = e.(e_decision)) ->
  (forall l d, p = Ph_apply l d ->
     exists answer, (q.(q_claims), q.(q_now), answer) ∈ g'.(g_answers) /\ verdict answer = d) ->
  (forall o, outcome_of p = Some o -> justifies g'.(g_answers) q o) ->
  evidence_ok g'.
Proof.
  intros [Hwf Hb Hc Ha Ho] Hq Hr Hm Hwf' Hb' Hc' Hp Hout. constructor; [done|done|..].
  - intros k e He. rewrite Hm. destruct (Hc' _ _ He) as [Hold|(answer & -> & Hin & Hv)].
    + destruct (Hc _ _ Hold) as (claims & answer & Hin & Hrest). exists claims, answer.
      split; [|done]. apply list.elem_of_app. by right.
    + exists (q_claims q), answer. split; [|done]. apply list.elem_of_app. by right.
  - rewrite Hr. intros q' l d [->|Hin]%set_request_elem Hph; [by eapply Hp|].
    destruct (Ha _ _ _ Hin Hph) as (answer & Hin' & Hv). exists answer. split; [|done].
    rewrite Hm. apply list.elem_of_app. by right.
  - rewrite Hr. intros q' o [->|Hin]%set_request_elem Hph; [by apply Hout|].
    intros d Hd. rewrite Hm. apply evidence_more. by eapply Ho.
Qed.

Lemma lookup_cache_ok g key now c r :
  evidence_ok g -> cache_lookup g.(g_cache) key now = (c, r) ->
  wf c /\ c.(freshness_budget_secs) = budget /\ c.(entries) = g.(g_cache).(entries).
Proof.
  intros [Hwf Hb _ _ _] Hl. unfold cache_lookup in Hl.
  pose proof (op_step_wf (g_cache g) (Op_lookup key now) Hwf) as Hw. cbn [op_step] in Hw.
  destruct (op_step_config (g_cache g) (Op_lookup key now)) as [Hb' _]. cbn [op_step] in Hb'.
  destruct (lookup _ _ _) as [c' r'] eqn:Hlk. injection Hl as <- _. cbn in Hw, Hb'.
  split_and!; [done|congruence|]. unfold lookup, advance in Hlk.
  destruct (now <? _); by injection Hlk as <- _.
Qed.

Lemma unavailable_justified answers q reason : justifies answers q (Unavailable reason).
Proof. by intros []. Qed.

Lemma justified_auth answers q d : evidence answers q d -> justifies answers q (decision_to_auth d).
Proof. by intros He d' <-%auth_inj. Qed.

Lemma op_cache_ok g op :
  evidence_ok g ->
  wf (op_step g.(g_cache) op) /\ (op_step g.(g_cache) op).(freshness_budget_secs) = budget.
Proof.
  intros [Hwf Hb _ _ _]. split; [by apply op_step_wf|].
  destruct (op_step_config (g_cache g) op) as [-> _]. done.
Qed.

(** The step that applies the authority's answer. *)
Lemma apply_evidence g id q l d g' :
  evidence_ok g -> g.(g_requests) !! id = Some q -> q.(q_phase) = Ph_apply l d ->
  authorize_step g id q Elapsed = Some g' -> evidence_ok g'.
Proof.
  intros Hok Hq Hp Hs. pose proof (list_elem_of_lookup_2 _ _ _ Hq) as Hin.
  destruct (ok_apply _ Hok _ _ _ Hin Hp) as (answer & Ha & Hv).
  destruct (op_cache_ok g (Op_apply (key_of q) d (q_now q)) Hok) as [Hw Hb].
  unfold authorize_step, gate_apply in Hs. rewrite Hp in Hs. cbn [op_step] in Hw, Hb.
  destruct (N.ltb_spec (q_now q) (high_water (g_cache g))) as [Hlt|Hle].
  - unfold apply_authoritative in Hs. rewrite advance_err in Hs by done. injection Hs as <-.
    eapply (evidence_ok_move g _ id q _ []); try done; [apply Hok|apply Hok|auto|].
    intros o [= <-]. apply unavailable_justified.
  - pose proof (apply_entries (g_cache g) (key_of q) d (q_now q)) as Hent.
    destruct (apply_authoritative _ _ _ _) as [c r] eqn:Hop. cbn [fst] in *.
    assert (Hr : map_err (fun _ : ClockRegression => ()) r = Ok ()).
    { unfold apply_authoritative in Hop. rewrite advance_ok in Hop by done.
      by injection Hop as _ <-. }
    rewrite Hr in Hs. injection Hs as <-.
    eapply (evidence_ok_move g _ id q _ []); try done; cbn.
    + intros k e He. specialize (Hent k e (ok_wf _ Hok) Hle He).
      destruct (String.eqb_spec (key_of q) k) as [<-|]; [|by left]. right. subst e.
      by exists answer.
    + intros o [= <-]. apply justified_auth. exists (q_claims q), (q_now q), answer.
      split_and!; [done|done|done|lia|lia].
Qed.

(** A step that looks in the cache, and goes where what it found sends it. *)
Lemma lookup_evidence g id q c r ks n p :
  evidence_ok g -> q ∈ g.(g_requests) -> cache_lookup g.(g_cache) (key_of q) q.(q_now) = (c, r) ->
  (forall l d, p <> Ph_apply l d) ->
  (forall o, outcome_of p = Some o ->
     (exists d, r = Ok (Fresh d) /\ o = decision_to_auth d) \/ exists reason, o = Unavailable reason) ->
  evidence_ok {| g_cache := c; g_key_locks := ks; g_next_lock := n;
                 g_requests := <[id := set_phase q p]> g.(g_requests);
                 g_answers := g.(g_answers) |}.
Proof.
  intros Hok Hin Hl Hna Hout. destruct (lookup_cache_ok _ _ _ _ _ Hok Hl) as (? & ? & He).
  eapply (evidence_ok_move g _ id q p []); try done; cbn.
  - rewrite He. auto.
  - intros l d ->. by destruct (Hna l d).
  - intros o [(d & -> & ->)|[reason ->]]%Hout; [|apply unavailable_justified].
    by eapply justified_auth, fresh_evidence.
Qed.

(** A step that leaves the cache's entries and decides nothing of its own. *)
Lemma moved_evidence g id q c ks n p :
  evidence_ok g -> q ∈ g.(g_requests) ->
  wf c -> c.(freshness_budget_secs) = budget -> c.(entries) = g.(g_cache).(entries) ->
  (forall l d, p <> Ph_apply l d) ->
  (forall o, outcome_of p = Some o ->
     outcome_of q.(q_phase) = Some o \/ exists reason, o = Unavailable reason) ->
  evidence_ok {| g_cache := c; g_key_locks := ks; g_next_lock := n;
                 g_requests := <[id := set_phase q p]> g.(g_requests);
                 g_answers := g.(g_answers) |}.
Proof.
  intros Hok Hin Hw Hb He Hna Hout. eapply (evidence_ok_move g _ id q p []); try done; cbn.
  - rewrite He. auto.
  - intros l d ->. by destruct (Hna l d).
  - intros o [Ho|[reason ->]]%Hout; [by eapply (ok_outcome _ Hok)|apply unavailable_justified].
Qed.

(** The step that waits for the authority. *)
Lemma answered_evidence g id q l ks n answer :
  evidence_ok g -> q ∈ g.(g_requests) ->
  evidence_ok {| g_cache := g.(g_cache); g_key_locks := ks; g_next_lock := n;
                 g_requests := <[id := set_phase q (after_answer l answer)]> g.(g_requests);
                 g_answers := decided q answer ++ g.(g_answers) |}.
Proof.
  intros Hok Hin. eapply (evidence_ok_move g _ id q _ (decided q answer)); try done; cbn;
    [apply Hok|apply Hok|auto| |].
  - destruct answer as [|[d|e]]; cbn; [done| |done]. intros l' d' [= <- <-].
    exists d. split; [apply list_elem_of_here|done].
  - destruct answer as [|[d|e]]; cbn; [|done|]; intros o [= <-]; apply unavailable_justified.
Qed.

Lemma refresh_start_entries g now c r :
  evidence_ok g -> gate_record_refresh_start g.(g_cache) now = (c, r) ->
  wf c /\ c.(freshness_budget_secs) = budget /\ c.(entries) = g.(g_cache).(entries).
Proof.
  intros Hok Hl. destruct (op_cache_ok g (Op_refresh_start now) Hok) as [Hw Hb].
  unfold gate_record_refresh_start in Hl. cbn [op_step] in Hw, Hb.
  destruct (record_refresh_start _ _) as [c' r'] eqn:Hr. injection Hl as <- _.
  split; [done|]. split; [done|]. unfold record_refresh_start, advance in Hr.
  by destruct (now <? _); injection Hr as <- _.
Qed.

Lemma step_evidence g g' : gate_step g g' -> evidence_ok g -> evidence_ok g'.
Proof.
  destruct 1 as [g claims now|g id q answer g' Hq Hs|g id q Hq]; intros Hok.
  - destruct Hok as [Hwf Hb Hc Ha Ho]. constructor; cbn; [done..| |].
    + intros q l d [Hin|Heq%list_elem_of_singleton]%list.elem_of_app; [by apply Ha|by subst q].
    + intros q o [Hin|Heq%list_elem_of_singleton]%list.elem_of_app; [by apply Ho|by subst q].
  - pose proof (list_elem_of_lookup_2 _ _ _ Hq) as Hin.
    pose proof Hs as Hs0. unfold authorize_step in Hs.
    destruct (q_phase q) as [| |l|l|l|l|l cached|l o|l o|l o|o|] eqn:Hp; try done.
    + destruct (cache_lookup _ _ _) as [c r] eqn:Hl. injection Hs as <-.
      eapply lookup_evidence; [done|done|exact Hl|by destruct r as [[]|]|].
      destruct r as [[]|]; cbn; naive_solver.
    + destruct (acquire_key _ _ _) as [[ks n] l]. injection Hs as <-.
      apply moved_evidence; by try apply Hok.
    + destruct (locked g l); [done|]. injection Hs as <-. apply moved_evidence; by try apply Hok.
    + destruct (cache_lookup _ _ _) as [c r] eqn:Hl. injection Hs as <-.
      eapply lookup_evidence; [done|done|exact Hl|by destruct r as [[]|]|].
      destruct r as [[]|]; cbn; naive_solver.
    + destruct (gate_record_refresh_start _ _) as [c r] eqn:Hl. injection Hs as <-.
      apply refresh_start_entries in Hl as (? & ? & ?); [|done].
      apply moved_evidence; [done..|by destruct r|]. destruct r; cbn; naive_solver.
    + injection Hs as <-. by apply answered_evidence.
    + eapply apply_evidence; try done. unfold authorize_step. by rewrite Hp.
    + injection Hs as <-. apply moved_evidence; try apply Hok; try done. rewrite Hp. naive_solver.
    + injection Hs as <-. apply moved_evidence; try apply Hok; try done. rewrite Hp. naive_solver.
    + injection Hs as <-. apply moved_evidence; try apply Hok; try done. rewrite Hp. naive_solver.
  - apply moved_evidence; try apply Hok; try done. by eapply list_elem_of_lookup_2.
Qed.

Lemma start_evidence cap b : budget = N.max b 1 -> evidence_ok (gate_new (new b cap)).
Proof.
  intros ->. constructor; cbn; [apply new_wf|done| | |].
  - intros k e. by rewrite lookup_empty.
  - intros q l d Hin. by apply not_elem_of_nil in Hin.
  - intros q o Hin. by apply not_elem_of_nil in Hin.
Qed.
End evidence.

Section safety.
Context `{Crypto, HashIterLaws}.

Definition identity_fields (c : Claims) : list string :=
  [c.(c_iss); c.(c_aud); c.(c_org_id); c.(c_sub); c.(c_jti)].

Lemma reached_evidence budget cap g :
  rtc gate_step (gate_new (new budget cap)) g -> evidence_ok (N.max budget 1) g.
Proof.
  intros Hr. pose proof (start_evidence (N.max budget 1) cap budget eq_refl) as Hok. revert Hok.
  induction Hr; eauto using step_evidence.
Qed.

(** A step moves one request to another phase, and records what the authority
    answered it. *)
Lemma authorize_step_moves g id q answer g' :
  authorize_step g id q answer = Some g' ->
  exists p, g'.(g_requests) = <[id := set_phase q p]> g.(g_requests)
  /\ g'.(g_answers) = match q.(q_phase) with
                      | Ph_authority _ => decided q answer
                      | _ => []
                      end ++ g.(g_answers).
Proof.
  unfold authorize_step. intros Hs.
  destruct (q_phase q) as [| |l|l|l|l|l cached|l o|l o|l o|o|]; try done;
    repeat case_match; simplify_eq; by eexists.
Qed.

(** C11: the gate is fail-closed: in every run of a gate over a new cache, a
    request that was answered [Allowed] (or [RevokedToken]) has evidence: the
    authority decided not revoked (revoked) for a token with the same cache
    key, and hence the same issuer, audience, tenant, subject and token id
    unless SHA-256 collides, at an instant not after the request's and at
    most the freshness budget before it.  Timeouts, authority errors and a
    clock that went back never allow. *)
Theorem gate_fail_closed budget cap g id q o d :
  rtc gate_step (gate_new (new budget cap)) g ->
  g.(g_requests) !! id = Some q -> q.(q_phase) = Ph_done o -> o = decision_to_auth d ->
  exists claims t answer, (claims, t, answer) ∈ g.(g_answers)
  /\ verdict answer = d /\ t <= q.(q_now) <= t + N.max budget 1
  /\ revocation_cache_key claims = key_of q
  /\ (Forall fits (identity_fields claims) -> Forall fits (identity_fields q.(q_claims)) ->
      identity_fields claims = identity_fields q.(q_claims) \/ sha256_collision).
Proof.
  intros Hr Hq Hp Ho.
  pose proof (reached_evidence _ _ _ Hr) as Hok.
  destruct (ok_outcome _ _ Hok q o) with (d := d) as (claims & t & answer & Hin & Hk & Hv & Ht);
    [by eapply list_elem_of_lookup_2|by rewrite Hp|done|].
  exists claims, t, answer. do 4 (split; [done|]). intros Hf1 Hf2.
  by apply framed_digest_inj.
Qed.
End safety.
