(* ===== verification/GateRun.v ===== *)
(** * The revocation gate run alone

    [authorize] for one request without contention: it terminates, with this
    result; locks that stay behind; concrete runs. *)
From Stdlib Require Import Ascii String.
From S2P Require Import Prelude Text Wire Samples Token Ledger Cache Gate GateSafety.

Section alone.
Context `{Crypto, HashIterLaws}.
Implicit Types (g : gate) (q : request).

(** Run request [id] for at most [fuel] steps, the authority answering
    [answer]. *)
Fixpoint drive (fuel : nat) g (id : nat) (answer : AuthorityAnswer) : gate :=
  match fuel with
  | O => g
  | S fuel =>
      match g.(g_requests) !! id with
      | Some q =>
          match authorize_step g id q answer with
          | Some g => drive fuel g id answer
          | None => g
          end
      | None => g
      end
  end.

Lemma drive_steps fuel g id answer : rtc gate_step g (drive fuel g id answer).
Proof.
  revert g. induction fuel as [|fuel IH]; intros g; cbn; [done|].
  destruct (g_requests g !! id) as [q|] eqn:Hq; [|done].
  destruct (authorize_step g id q answer) as [g'|] eqn:Hs; [|done].
  eapply rtc_l; [by eapply gate_run|done].
Qed.

(** One request on a gate that no other request is using. *)
Definition single (cache : RevocationCache) (claims : Claims) (now : N) : gate :=
  {| g_cache := cache; g_key_locks := ∅; g_next_lock := 0;
     g_requests := [{| q_claims := claims; q_now := now; q_phase := Ph_fast |}];
     g_answers := [] |}.

Definition answer_outcome (answer : AuthorityAnswer) : Authorization :=
  match answer with
  | Elapsed => Unavailable RefreshTimedOut
  | Answered (Err _) => Unavailable RefreshFailed
  | Answered (Ok d) => decision_to_auth (verdict d)
  end.
Definition authorize_outcome (cache : RevocationCache) (claims : Claims) (now : N)
    (answer : AuthorityAnswer) : Authorization :=
  if now <? cache.(high_water) then Unavailable ClockRegressed
  else
    match cache.(entries) !! revocation_cache_key claims with
    | Some e =>
        if now - e.(e_observed_at) <=? cache.(freshness_budget_secs)
        then decision_to_auth e.(e_decision)
        else answer_outcome answer
    | None => answer_outcome answer
    end.

Definition at_now (cache : RevocationCache) (now : N) : RevocationCache :=
  {| entries := cache.(entries); high_water := now;
     freshness_budget_secs := cache.(freshness_budget_secs); capacity := cache.(capacity) |}.

Definition looked_at (cache : RevocationCache) (key : string) (now : N) : Lookup :=
  match cache.(entries) !! key with
  | Some e => if now - e.(e_observed_at) <=? cache.(freshness_budget_secs)
              then Fresh e.(e_decision) else Lookup_Stale
  | None => Miss
  end.
Lemma cache_lookup_now cache key now :
  cache.(high_water) <= now ->
  cache_lookup cache key now
  = (at_now cache now, Ok (looked_at cache key now)).
Proof. intros Hle. unfold cache_lookup, lookup. by rewrite advance_ok. Qed.

Lemma gate_apply_now cache key d now :
  wf cache -> cache.(high_water) <= now -> exists c, gate_apply cache key d now = (c, Ok tt).
Proof.
  intros Hwf Hle. unfold gate_apply, apply_authoritative. rewrite advance_ok by done. eauto.
Qed.

Lemma drive_step n g q answer g' :
  g.(g_requests) !! 0%nat = Some q -> authorize_step g 0 q answer = Some g' ->
  drive (S n) g 0 answer = drive n g' 0 answer.
Proof. intros Hq Hs. cbn [drive]. by rewrite Hq, Hs. Qed.

(** One request in the phase [p], holding the only clone of its lock. *)
Definition holding (cache : RevocationCache) (claims : Claims) (now : N) (p : phase)
    (answers : list (Claims * N * RevocationDecision)) : gate :=
  {| g_cache := cache; g_key_locks := <[revocation_cache_key claims := 0%nat]> ∅;
     g_next_lock := 1;
     g_requests := [{| q_claims := claims; q_now := now; q_phase := p |}];
     g_answers := answers |}.

(** From the end of the refresh on. *)
Lemma finish_alone n cache claims now o answers answer :
  let g := drive (3 + n) (holding cache claims now (Ph_unlock 0 o) answers) 0 answer in
  g.(g_requests) = [{| q_claims := claims; q_now := now; q_phase := Ph_done o |}]
  /\ g.(g_key_locks) = ∅.
Proof.
  assert (Hk : release_key (<[revocation_cache_key claims:=0%nat]> (∅ : gmap string nat))
    (revocation_cache_key claims) 2 = ∅).
  { unfold release_key. cbn. by rewrite delete_insert_eq, delete_empty. }
  cbn -[revocation_cache_key release_key]. unfold strong_count, key_of.
  cbn [q_claims g_key_locks holding].
  rewrite decide_True by (apply lookup_insert_eq). cbn -[revocation_cache_key release_key].
  destruct n; cbn -[revocation_cache_key release_key]; rewrite ?Hk; done.
Qed.

(** The refresh: start, ask, apply. *)
Lemma refresh_alone cache claims now answer n :
  wf cache -> cache.(high_water) = now ->
  let g := drive (6 + n) (holding cache claims now (Ph_refresh 0) []) 0 answer in
  g.(g_requests) = [{| q_claims := claims; q_now := now;
                       q_phase := Ph_done (answer_outcome answer) |}]
  /\ g.(g_key_locks) = ∅.
Proof.
  intros Hwf Hnow. cbn zeta. change (6 + n)%nat with (S (S (S (3 + n)))).
  erewrite (drive_step (S (S (3 + n)))); [|reflexivity|].
  2:{ unfold authorize_step. cbn [q_phase]. unfold gate_record_refresh_start, record_refresh_start.
      rewrite advance_ok by (cbn; lia). reflexivity. }
  erewrite (drive_step (S (3 + n))); [|reflexivity|unfold authorize_step; reflexivity].
  destruct answer as [|[d|e]]; cbn [after_answer answer_outcome].
  - rewrite (Nat.add_succ_comm 2). apply (finish_alone (S n)).
  - destruct (gate_apply_now (at_now cache now) (revocation_cache_key claims) (verdict d) now)
      as [c Hc]; [|cbn; lia|].
    { destruct Hwf as [? ? ? Hp]. constructor; cbn; try done. intros k e' Hk%Hp. lia. }
    erewrite (drive_step (3 + n)); [|reflexivity|].
    2:{ unfold authorize_step. cbn [q_phase set_phase]. unfold key_of, verdict in *.
        cbn -[gate_apply revocation_cache_key] in *.
        match goal with |- context [gate_apply ?c _ _ _] => change c with (at_now cache now) end.
        rewrite Hc. reflexivity. }
    apply (finish_alone n).
  - rewrite (Nat.add_succ_comm 2). apply (finish_alone (S n)).
Qed.

Lemma done_stays n g claims now o answer :
  g.(g_requests) = [{| q_claims := claims; q_now := now; q_phase := Ph_done o |}] ->
  drive n g 0 answer = g.
Proof. intros Hg. destruct n; cbn; [done|]. by rewrite Hg. Qed.

(** C37: an uncontended request terminates with the intended answer: within
    ten steps [authorize] is done; it reports a clock regression, else a
    fresh cached decision without asking, else what the authority answered
    (a timeout and an error are [Unavailable]); and no per-key lock stays in
    the map. *)
Theorem authorize_alone cache claims now answer :
  wf cache ->
  let g := drive 10 (single cache claims now) 0 answer in
  g.(g_requests) = [{| q_claims := claims; q_now := now;
                       q_phase := Ph_done (authorize_outcome cache claims now answer) |}]
  /\ g.(g_key_locks) = ∅.
Proof.
  intros Hwf. cbn zeta. unfold authorize_outcome.
  destruct (N.ltb_spec now (high_water cache)) as [Hlt|Hle].
  { erewrite (drive_step 9); [|reflexivity|].
    2:{ unfold authorize_step. cbn [q_phase]. unfold cache_lookup, lookup.
        rewrite advance_err by done. reflexivity. }
    cbn [map_err]. erewrite done_stays by reflexivity. done. }
  set (looked := looked_at cache (revocation_cache_key claims) now).
  assert (Hout : forall d, match entries cache !! revocation_cache_key claims with
    | Some e => if now - e_observed_at e <=? freshness_budget_secs cache
                then decision_to_auth (e_decision e) else d
    | None => d
    end = match looked with Fresh v => decision_to_auth v | _ => d end).
  { unfold looked, looked_at. intros d. by repeat case_match. }
  rewrite Hout.
  assert (Hwf' : wf (at_now cache now)).
  { destruct Hwf as [? ? ? Hp]. constructor; cbn; try done. intros k e' Hk%Hp. lia. }
  erewrite (drive_step 9); [|reflexivity|].
  2:{ unfold authorize_step. cbn [q_phase]. rewrite cache_lookup_now by done.
      match goal with |- context [looked_at ?c ?k ?n] => change (looked_at c k n) with looked end. reflexivity. }
  destruct looked as [v| |] eqn:Hlooked.
  { erewrite done_stays by reflexivity. done. }
  all: erewrite (drive_step 8); [|reflexivity|unfold authorize_step; reflexivity];
    (erewrite (drive_step 7); [|reflexivity|unfold authorize_step; reflexivity]);
    (erewrite (drive_step 6); [|reflexivity|unfold authorize_step; cbn [q_phase set_phase];
      rewrite cache_lookup_now by (cbn; lia);
      match goal with |- context [looked_at ?c ?k ?n] => change (looked_at c k n) with looked end;
      rewrite Hlooked; reflexivity]);
    exact (refresh_alone (at_now cache now) claims now answer 0 Hwf' eq_refl).
Qed.

(** A request dropped while it owns a lock clone leaves the map entry behind
    although nothing is in flight. *)
Definition dropped (g : gate) : gate :=
  {| g_cache := g.(g_cache); g_key_locks := g.(g_key_locks); g_next_lock := g.(g_next_lock);
     g_requests := (fun q => {| q_claims := q.(q_claims); q_now := q.(q_now);
                                q_phase := Ph_dropped |}) <$> g.(g_requests);
     g_answers := g.(g_answers) |}.

Lemma dropped_request_leaks_lock budget cap claims (now : N) :
  exists g, rtc gate_step (gate_new (new budget cap)) g
  /\ (forall q, q ∈ g.(g_requests) -> q.(q_phase) = Ph_dropped)
  /\ g.(g_key_locks) !! revocation_cache_key claims = Some 0%nat.
Proof.
  set (g0 := single (new budget cap) claims now).
  set (g1 := drive 2 g0 0 Elapsed).
  assert (Hfirst : rtc gate_step (gate_new (new budget cap)) g0)
    by (apply rtc_once, (gate_arrive (gate_new (new budget cap)) claims now)).
  assert (Hg1 : g1 = holding (at_now (new budget cap) now) claims now (Ph_wait 0) []).
  { assert (Hmiss : forall k, looked_at (new budget cap) k now = Miss)
      by (intros k; unfold looked_at; cbn; by rewrite lookup_empty).
    unfold g1, g0. erewrite (drive_step 1); [|reflexivity|].
    2:{ unfold authorize_step. cbn [q_phase]. rewrite cache_lookup_now by (cbn; lia).
        match goal with |- context [looked_at ?c ?k ?n] =>
          change (looked_at c k n) with (looked_at (new budget cap) k now) end.
        rewrite Hmiss. reflexivity. }
    erewrite (drive_step 0); [|reflexivity|].
    2:{ unfold authorize_step. cbn. reflexivity. }
    done. }
  exists (dropped g1). split; [|split].
  - etrans; [exact Hfirst|]. etrans; [apply (drive_steps 2 g0 0 Elapsed)|]. apply rtc_once.
    fold g1.
    rewrite Hg1. apply (gate_drop (holding (at_now (new budget cap) now) claims now
      (Ph_wait 0) []) 0 {| q_claims := claims; q_now := now; q_phase := Ph_wait 0 |}).
    done.
  - rewrite Hg1. cbn. intros q ->%list_elem_of_singleton. done.
  - rewrite Hg1. cbn. apply lookup_insert_eq.
Qed.
End alone.

(** ** Concrete runs *)

Definition not_revoked_answer : AuthorityAnswer :=
  Answered (Ok {| dc_revoked := false; dc_matched_target := None; dc_generation := None;
                  dc_expires_at := None |}).
Definition sample_gate : gate := drive 10 (single (new 30 8) sample_claims 200) 0 not_revoked_answer.

Lemma sample_gate_reached : rtc gate_step (gate_new (new 30 8)) sample_gate.
Proof.
  eapply rtc_l; [apply (gate_arrive (gate_new (new 30 8)) sample_claims 200)|].
  apply (drive_steps 10 (single (new 30 8) sample_claims 200)).
Qed.

Lemma authorize_alone_witness :
  g_requests sample_gate = [{| q_claims := sample_claims; q_now := 200; q_phase := Ph_done Allowed |}].
Proof.
  exact (proj1 (authorize_alone (new 30 8) sample_claims 200 not_revoked_answer (new_wf 30 8))).
Defined.

Lemma gate_fail_closed_witness :
  exists claims t answer, (claims, t, answer) ∈ sample_gate.(g_answers)
  /\ verdict answer = Decision_Allow /\ t <= 200.
Proof.
  set (q := {| q_claims := sample_claims; q_now := 200; q_phase := Ph_done Allowed |}).
  assert (Hq : sample_gate.(g_requests) !! 0%nat = Some q) by (vm_compute; reflexivity).
  destruct (gate_fail_closed 30 8 sample_gate 0 q Allowed Decision_Allow sample_gate_reached Hq
              eq_refl eq_refl) as (claims & t & answer & Hin & Hv & [Ht _] & _).
  exists claims, t, answer. split; [exact Hin|]. split; [exact Hv|exact Ht].
Defined.

(** Two requests for one token: the second waits while the first asks. *)
Definition contended : gate :=
  let g := drive 5 (single (new 30 8) sample_claims 200) 0 Elapsed in
  {| g_cache := g.(g_cache); g_key_locks := g.(g_key_locks); g_next_lock := g.(g_next_lock);
     g_requests := g.(g_requests) ++
       [{| q_claims := sample_claims; q_now := 200; q_phase := Ph_fast |}];
     g_answers := g.(g_answers) |}.
Lemma contended_reached : rtc gate_step (gate_new (new 30 8)) contended.
Proof.
  eapply rtc_l; [apply (gate_arrive (gate_new (new 30 8)) sample_claims 200)|].
  etrans; [apply (drive_steps 5 (single (new 30 8) sample_claims 200) 0 Elapsed)|].
  apply rtc_once.
  apply (gate_arrive (drive 5 (single (new 30 8) sample_claims 200) 0 Elapsed) sample_claims 200).
Qed.
Example second_waits :
  q_phase <$> (drive 10 contended 1 Elapsed).(g_requests) = [Ph_authority 0; Ph_wait 0].
Proof. vm_compute. reflexivity. Qed.

Lemma single_flight_witness :
  length (drive 10 contended 1 Elapsed).(g_requests) = 2%nat
  /\ ~ exists q, (drive 10 contended 1 Elapsed).(g_requests) !! 1%nat = Some q
        /\ key_of q = revocation_cache_key sample_claims /\ guard_of q.(q_phase) = Some 0%nat.
Proof.
  split; [vm_compute; reflexivity|]. intros (q & Hq & Hk & Hg).
  set (g := drive 10 contended 1 Elapsed) in *.
  assert (Hr : rtc gate_step (gate_new (new 30 8)) g)
    by (etrans; [exact contended_reached|exact (drive_steps 10 contended 1 Elapsed)]).
  set (q0 := {| q_claims := sample_claims; q_now := 200; q_phase := Ph_authority 0 |}).
  assert (H0 : g.(g_requests) !! 0%nat = Some q0) by (vm_compute; reflexivity).
  assert (Heq : 0%nat = 1%nat); [|discriminate Heq].
  apply (single_flight (new 30 8) g 0 1 q0 q 0 0 Hr H0 Hq).
  - symmetry. exact Hk.
  - reflexivity.
  - exact Hg.
Defined.

(** Two requests of one token that end at the same time: each sees the other's
    clone, neither removes the lock, and both return.  The lock stays in the
    map with no request in flight. *)
Definition both_waiting : gate := drive 2 contended 1 Elapsed.
Definition both_releasing : gate :=
  drive 3 (drive 3 both_waiting 0 not_revoked_answer) 1 not_revoked_answer.
Definition both_returned : gate :=
  drive 1 (drive 1 (drive 1 (drive 1 both_releasing 0 Elapsed) 1 Elapsed) 0 Elapsed) 1 Elapsed.
Lemma returned_requests_leak_lock :
  rtc gate_step (gate_new (new 30 8)) both_returned
  /\ q_phase <$> both_releasing.(g_requests) = [Ph_release 0 Allowed; Ph_release 0 Allowed]
  /\ q_phase <$> both_returned.(g_requests) = [Ph_done Allowed; Ph_done Allowed]
  /\ both_returned.(g_key_locks) !! revocation_cache_key sample_claims = Some 0%nat.
Proof.
  split; [|split_and!; vm_compute; reflexivity].
  etrans; [exact contended_reached|]. unfold both_returned, both_releasing, both_waiting.
  repeat (etrans; [|apply drive_steps]). done.
Qed.

(** A refresh that is in flight when any other request brings a later instant
    is refused when it applies its answer: the request at 200 asks, a request
    of another token arrives at 201, the authority answers the first one not
    revoked, and it ends unavailable for a regression of a clock that never
    went back. *)
Definition other_claims : Claims := {|
  c_sub := "org-b"; c_org_id := "org-b"; c_scopes := []; c_iss := ISSUER; c_aud := AUDIENCE;
  c_iat := 100; c_exp := 1000; c_jti := "jti-2" |}.
Definition asking : gate := drive 5 (single (new 30 8) sample_claims 200) 0 Elapsed.
Definition overtaken : gate :=
  drive 10 (drive 1 (gate_admit asking other_claims 201) 1 Elapsed) 0 not_revoked_answer.
Lemma later_request_fails_refresh :
  rtc gate_step (gate_new (new 30 8)) overtaken
  /\ q_phase <$> asking.(g_requests) = [Ph_authority 0]
  /\ q_phase <$> overtaken.(g_requests) = [Ph_done (Unavailable ClockRegressed); Ph_acquire].
Proof.
  split; [|split_and!; vm_compute; reflexivity].
  eapply rtc_l; [apply (gate_arrive (gate_new (new 30 8)) sample_claims 200)|].
  etrans; [apply (drive_steps 5 (single (new 30 8) sample_claims 200) 0 Elapsed)|].
  eapply rtc_l; [apply (gate_arrive asking other_claims 201)|].
  unfold overtaken. repeat (etrans; [|apply drive_steps]). done.
Qed.
