(* ===== verification/Model.v ===== *)
(** * Auth domain types ([src/src/model.rs])

    The user context and its versioned authorization decision, the API-key
    record and its public views. *)
From Stdlib Require Import Ascii String.
From S2P Require Import Prelude Text.

Definition AUTHORIZATION_CONTEXT_VERSION : N := 1.
Definition ADMIN_SURFACE_AUDIENCE : string := "fiducia-admin".
Definition CUSTOMER_SURFACE_AUDIENCE : string := "fiducia-customer".

Inductive AssuranceLevel := Aal1 | Aal2.
#[export] Instance AssuranceLevel_eq_dec : EqDecision AssuranceLevel.
Proof. solve_decision. Defined.

Record AuthorizationContext := {
  ac_version : N;
  ac_surface_audiences : list string;
  ac_roles : list string;
  ac_capabilities : list string
}.

Inductive TrustedRole := Admin | Operator | Customer.
#[export] Instance TrustedRole_eq_dec : EqDecision TrustedRole.
Proof. solve_decision. Defined.

Definition role_as_str (self : TrustedRole) : string :=
  match self with
  | Admin => "admin"
  | Operator => "operator"
  | Customer => "customer"
  end.

Record UserCtx := {
  u_user_id : string;
  u_email : option string;
  u_orgs : list string;
  u_roles : list string;
  u_aal : AssuranceLevel;
  u_project_surfaces : option (list string)
}.

Definition trusted_role (role : string) : option TrustedRole :=
  let role := to_ascii_lowercase (trim role) in
  if (role =? "admin")%string then Some Admin
  else if (role =? "operator")%string then Some Operator
  else if (role =? "customer")%string then Some Customer
  else None.
Definition normalized_trusted_roles (roles : list string) : list TrustedRole :=
  List.fold_left
    (fun normalized role => if bool_decide (role ∈ normalized) then normalized
                            else normalized ++ [role])
    (omap trusted_role roles) [].

Definition then_some {A} (b : bool) (a : A) : list A := if b then [a] else [].

(** [UserCtx::authorization_context]. *)
Definition authorization_context (self : UserCtx) : AuthorizationContext :=
  let trusted_roles := normalized_trusted_roles self.(u_roles) in
  let has_admin := bool_decide (Admin ∈ trusted_roles) in
  let has_operator := bool_decide (Operator ∈ trusted_roles) in
  let has_customer := bool_decide (Customer ∈ trusted_roles) in
  let derived_surfaces :=
    then_some (has_admin || has_operator) ADMIN_SURFACE_AUDIENCE
    ++ then_some (has_customer || bool_decide (self.(u_roles) = [])) CUSTOMER_SURFACE_AUDIENCE in
  let surface_audiences :=
    match self.(u_project_surfaces) with
    | Some allowed => List.filter (fun surface => bool_decide (surface ∈ allowed)) derived_surfaces
    | None => derived_surfaces
    end in
  let admin_surface := bool_decide (ADMIN_SURFACE_AUDIENCE ∈ surface_audiences) in
  let customer_surface := bool_decide (CUSTOMER_SURFACE_AUDIENCE ∈ surface_audiences) in
  let admin_caps : list string :=
    match admin_surface, has_admin, has_operator with
    | true, true, _ => ["admin:read"; "admin:operate"; "admin:write"]
    | true, false, true => ["admin:read"; "admin:operate"]
    | _, _, _ => []
    end in
  let capabilities := admin_caps ++ then_some customer_surface "customer:self-service" in
  {| ac_version := AUTHORIZATION_CONTEXT_VERSION;
     ac_surface_audiences := surface_audiences;
     ac_roles := role_as_str <$> trusted_roles;
     ac_capabilities := capabilities |}.

(** ** API keys *)

Record Introspection := {
  in_valid : bool;
  in_org_id : option string;
  in_key_id : option string;
  in_scopes : list string;
  in_require_idempotency : bool
}.
(** [Introspection::invalid]. *)
Definition introspection_invalid : Introspection :=
  {| in_valid := false; in_org_id := None; in_key_id := None; in_scopes := [];
     in_require_idempotency := false |}.

Record ApiKeyRecord := {
  key_id : string;
  org_id : string;
  name : string;
  secret_hash : string;
  create_idempotency_hash : string;
  last_rotation_idempotency_hash : option string;
  scopes : list string;
  created_ms : N;
  last_used_ms : option N;
  revoked : bool;
  version : N;
  env : string;
  require_idempotency : bool
}.
#[export] Instance ApiKeyRecord_eq_dec : EqDecision ApiKeyRecord.
Proof. solve_decision. Defined.

Record ApiKeyMeta := {
  m_key_id : string;
  m_org_id : string;
  m_name : string;
  m_scopes : list string;
  m_created_ms : N;
  m_last_used_ms : option N;
  m_revoked : bool;
  m_version : N;
  m_env : string;
  m_require_idempotency : bool
}.

(** [From<&ApiKeyRecord> for ApiKeyMeta]. *)
Definition meta_of (record : ApiKeyRecord) : ApiKeyMeta :=
  {| m_key_id := record.(key_id); m_org_id := record.(org_id); m_name := record.(name);
     m_scopes := record.(scopes); m_created_ms := record.(created_ms);
     m_last_used_ms := record.(last_used_ms); m_revoked := record.(revoked);
     m_version := record.(version); m_env := record.(env);
     m_require_idempotency := record.(require_idempotency) |}.

Definition default_require_idempotency : bool := true.

(** [CreateKeyBody] after deserialization. *)
Record CreateKeyBody := {
  b_name : string;
  b_org_id : option string;
  b_scopes : list string;
  b_env : option string;
  b_require_idempotency : bool
}.

(** ** The authorization decision *)

Section authorization.
Implicit Types (u : UserCtx).

Lemma normalized_go l acc :
  NoDup acc ->
  let r := List.fold_left (fun normalized role =>
             if bool_decide (role ∈ normalized) then normalized else normalized ++ [role]) l acc in
  NoDup r /\ forall role : TrustedRole, role ∈ r <-> role ∈ acc \/ role ∈ l.
Proof.
  revert acc. induction l as [|x l IH]; intros acc Hnd; cbn.
  - split; [done|]. intros role. rewrite elem_of_nil. tauto.
  - case_bool_decide as Hx.
    + destruct (IH acc Hnd) as [? Hin]. split; [done|]. intros role.
      rewrite Hin, list.elem_of_cons. naive_solver.
    + destruct (IH (acc ++ [x])) as [? Hin].
      { apply list.NoDup_app. split_and!; [done| |apply NoDup_singleton].
        intros y Hy ->%list_elem_of_singleton. done. }
      split; [done|]. intros role.
      rewrite Hin, list.elem_of_app, list_elem_of_singleton, list.elem_of_cons. tauto.
Qed.

Lemma normalized_elem roles role :
  role ∈ normalized_trusted_roles roles
  <-> exists text, text ∈ roles /\ trusted_role text = Some role.
Proof.
  unfold normalized_trusted_roles.
  destruct (normalized_go (omap trusted_role roles) [] NoDup_nil_2) as [_ ->].
  rewrite elem_of_nil, list_elem_of_omap. naive_solver.
Qed.

(** A trusted role the user holds: some role string, trimmed and in any case,
    names it. *)
Definition holds u (role : TrustedRole) : Prop :=
  exists text, text ∈ u.(u_roles) /\ trusted_role text = Some role.
Definition project_serves u (surface : string) : Prop :=
  forall allowed, u.(u_project_surfaces) = Some allowed -> surface ∈ allowed.

Lemma then_some_elem {A} (b : bool) (a x : A) : x ∈ then_some b a <-> b = true /\ x = a.
Proof.
  destruct b; cbn; [rewrite list_elem_of_singleton; naive_solver|].
  rewrite elem_of_nil. naive_solver.
Qed.

Definition surfaces u : list string := (authorization_context u).(ac_surface_audiences).

Lemma surfaces_elem u surface :
  surface ∈ surfaces u <->
  project_serves u surface
  /\ ((surface = ADMIN_SURFACE_AUDIENCE /\ (holds u Admin \/ holds u Operator))
      \/ (surface = CUSTOMER_SURFACE_AUDIENCE /\ (holds u Customer \/ u.(u_roles) = []))).
Proof.
  unfold surfaces, project_serves, holds. rewrite <- !normalized_elem.
  cbn [authorization_context ac_surface_audiences].
  assert (Hd : forall s, s ∈ then_some
      (bool_decide (Admin ∈ normalized_trusted_roles (u_roles u))
       || bool_decide (Operator ∈ normalized_trusted_roles (u_roles u))) ADMIN_SURFACE_AUDIENCE
    ++ then_some (bool_decide (Customer ∈ normalized_trusted_roles (u_roles u))
       || bool_decide (u_roles u = [])) CUSTOMER_SURFACE_AUDIENCE
    <-> (s = ADMIN_SURFACE_AUDIENCE /\ (Admin ∈ normalized_trusted_roles (u_roles u)
          \/ Operator ∈ normalized_trusted_roles (u_roles u)))
      \/ (s = CUSTOMER_SURFACE_AUDIENCE /\ (Customer ∈ normalized_trusted_roles (u_roles u)
          \/ u_roles u = []))).
  { intros s. rewrite list.elem_of_app, !then_some_elem, !orb_true_iff, !bool_decide_eq_true.
    tauto. }
  destruct (u_project_surfaces u) as [allowed|].
  - rewrite list_elem_of_In, filter_In, <- list_elem_of_In, Hd, bool_decide_eq_true. naive_solver.
  - rewrite Hd. naive_solver.
Qed.

Definition capabilities u : list string := (authorization_context u).(ac_capabilities).

Lemma capabilities_elem u capability :
  capability ∈ capabilities u <->
  (ADMIN_SURFACE_AUDIENCE ∈ surfaces u
   /\ (capability = "admin:read" \/ capability = "admin:operate"
       \/ (capability = "admin:write" /\ holds u Admin)))
  \/ (CUSTOMER_SURFACE_AUDIENCE ∈ surfaces u /\ capability = "customer:self-service").
Proof.
  pose proof (surfaces_elem u ADMIN_SURFACE_AUDIENCE) as Ha. unfold capabilities.
  unfold holds in *. rewrite <- !normalized_elem in *.
  cbn [authorization_context ac_capabilities]. fold (surfaces u).
  rewrite list.elem_of_app, then_some_elem, bool_decide_eq_true.
  case_bool_decide as Hs; cbn.
  - apply Ha in Hs as Hs'. destruct Hs' as [_ [[_ Hr]|[Hr _]]]; [|done].
    case_bool_decide; [|case_bool_decide]; rewrite ?list.elem_of_cons, ?elem_of_nil; tauto.
  - rewrite elem_of_nil. tauto.
Qed.

(** The authorization decision: the admin surface is granted exactly to
    holders of the admin or the operator role, the customer surface exactly
    to holders of the customer role and to users without any role, and each
    only if the issuing project may serve it; [admin:write] takes the admin
    role, [admin:read] and [admin:operate] the admin surface, and
    [customer:self-service] the customer surface; there is no other
    capability or surface.  So a user whose only roles are unknown gets
    neither. *)
Theorem authorization_context_grants u :
  let context := authorization_context u in
  (forall surface, surface ∈ context.(ac_surface_audiences) <->
     project_serves u surface
     /\ ((surface = ADMIN_SURFACE_AUDIENCE /\ (holds u Admin \/ holds u Operator))
         \/ (surface = CUSTOMER_SURFACE_AUDIENCE /\ (holds u Customer \/ u.(u_roles) = []))))
  /\ (forall capability, capability ∈ context.(ac_capabilities) <->
        (ADMIN_SURFACE_AUDIENCE ∈ context.(ac_surface_audiences)
         /\ (capability = "admin:read"
             \/ capability = "admin:operate"
             \/ (capability = "admin:write" /\ holds u Admin)))
        \/ (CUSTOMER_SURFACE_AUDIENCE ∈ context.(ac_surface_audiences)
            /\ capability = "customer:self-service"))
  /\ NoDup context.(ac_roles)
  /\ (forall role, role ∈ context.(ac_roles) <-> exists r, holds u r /\ role = role_as_str r).
Proof.
  cbn zeta. fold (surfaces u). split; [intros; apply surfaces_elem|].
  split; [|split].
  - intros capability. apply capabilities_elem.
  - cbn. assert (Hinj : forall a b, role_as_str a = role_as_str b -> a = b) by (by intros [] []).
    apply NoDup_fmap_2; [exact Hinj|].
    apply (normalized_go (omap trusted_role (u_roles u)) [] NoDup_nil_2).
  - intros role. cbn. rewrite list_elem_of_fmap. unfold holds.
    setoid_rewrite normalized_elem. naive_solver.
Qed.

(** A project binding only ever removes authority: with the surfaces of
    the issuing project configured, a user has no surface and no capability
    that the same user would not have without the binding, and a user whose
    roles are all unknown has none at all. *)
Theorem project_binding_restricts u :
  let unbound := {| u_user_id := u.(u_user_id); u_email := u.(u_email); u_orgs := u.(u_orgs);
                    u_roles := u.(u_roles); u_aal := u.(u_aal); u_project_surfaces := None |} in
  (forall s, s ∈ (authorization_context u).(ac_surface_audiences) ->
     s ∈ (authorization_context unbound).(ac_surface_audiences))
  /\ (forall c, c ∈ (authorization_context u).(ac_capabilities) ->
        c ∈ (authorization_context unbound).(ac_capabilities))
  /\ (u.(u_roles) <> [] -> (forall text, text ∈ u.(u_roles) -> trusted_role text = None) ->
      (authorization_context u).(ac_surface_audiences) = []
      /\ (authorization_context u).(ac_capabilities) = []).
Proof.
  cbn zeta. set (unbound := {| u_roles := u_roles u |}).
  assert (Hs : forall s, s ∈ surfaces u -> s ∈ surfaces unbound).
  { intros s. rewrite !surfaces_elem. unfold holds, project_serves. cbn. naive_solver. }
  split; [exact Hs|]. split.
  - intros c. fold (capabilities u) (capabilities unbound). rewrite !capabilities_elem.
    unfold holds. cbn [unbound u_roles]. naive_solver.
  - intros Hne Hun.
    assert (Hnil : forall (l : list string), (forall x, x ∉ l) -> l = []).
    { intros [|x l] Hx; [done|]. destruct (Hx x). apply list_elem_of_here. }
    assert (Hno : forall s, s ∉ surfaces u).
    { intros s. rewrite surfaces_elem. unfold holds. naive_solver. }
    split; apply Hnil; [exact Hno|]. intros c. fold (capabilities u).
    rewrite capabilities_elem. naive_solver.
Qed.
End authorization.

Definition sample_user : UserCtx :=
  {| u_user_id := "u"; u_email := None; u_orgs := ["o"]; u_roles := [" ADMIN "; "customer"];
     u_aal := Aal1; u_project_surfaces := Some [CUSTOMER_SURFACE_AUDIENCE] |}.

(** A customer project cannot grant the admin surface. *)
Example customer_project_admin :
  authorization_context sample_user
  = {| ac_version := 1; ac_surface_audiences := [CUSTOMER_SURFACE_AUDIENCE];
       ac_roles := ["admin"; "customer"]; ac_capabilities := ["customer:self-service"] |}.
Proof. vm_compute. reflexivity. Qed.

Lemma project_binding_restricts_witness :
  CUSTOMER_SURFACE_AUDIENCE ∈
    (authorization_context
       {| u_user_id := "u"; u_email := None; u_orgs := ["o"]; u_roles := [" ADMIN "; "customer"];
          u_aal := Aal1; u_project_surfaces := None |}).(ac_surface_audiences).
Proof.
  apply (project_binding_restricts sample_user). vm_compute. apply list_elem_of_here.
Defined.
