(* ===== verification/Store.v ===== *)
(** * The key-value client ([src/src/store.rs])

    Paths, the durable form of a key, and the HTTP client of Fiducia KV: what
    it sends and how it decodes the answers.  [reqwest] and the text syntax of
    [serde_json] are parameters. *)
From Stdlib Require Import Ascii String.
From S2P Require Import Prelude Text Json Kv Model.

Definition TRUSTED_HOP_HEADER : string := "x-fiducia-edge-auth".
Definition TRUSTED_AUTH_KIND_HEADER : string := "x-fiducia-auth-kind".
Definition TRUSTED_ORG_HEADER : string := "x-fiducia-org-id".
Definition TRUSTED_KEY_ID_HEADER : string := "x-fiducia-key-id".
Definition TRUSTED_SCOPES_HEADER : string := "x-fiducia-scopes".
Definition AUTH_STORAGE_SERVICE_ID : string := "fiducia-auth-kv".
Definition AUTH_STORAGE_SCOPES : string := "kv:read kv:write".

Definition key_path (key_id : string) : string := "__auth/keys/" +:+ key_id.
Definition org_index_path (org_id : string) : string :=
  "__auth/orgs/" +:+ org_id +:+ "/keys".

(** [StoredKey]: what is serialized, the secret's hash included. *)
Record StoredKey := {
  sk_key_id : string;
  sk_org_id : string;
  sk_name : string;
  sk_secret_hash : string;
  sk_create_idempotency_hash : string;
  sk_last_rotation_idempotency_hash : option string;
  sk_scopes : list string;
  sk_created_ms : N;
  sk_last_used_ms : option N;
  sk_revoked : bool;
  sk_version : N;
  sk_env : string;
  sk_require_idempotency : bool
}.

(** [From<&ApiKeyRecord> for StoredKey] and back. *)
Definition stored_of (r : ApiKeyRecord) : StoredKey :=
  {| sk_key_id := r.(key_id); sk_org_id := r.(org_id); sk_name := r.(name);
     sk_secret_hash := r.(secret_hash); sk_create_idempotency_hash := r.(create_idempotency_hash);
     sk_last_rotation_idempotency_hash := r.(last_rotation_idempotency_hash);
     sk_scopes := r.(scopes); sk_created_ms := r.(created_ms);
     sk_last_used_ms := r.(last_used_ms); sk_revoked := r.(revoked);
     sk_version := r.(version); sk_env := r.(env);
     sk_require_idempotency := r.(require_idempotency) |}.
Definition record_of (s : StoredKey) : ApiKeyRecord :=
  {| key_id := s.(sk_key_id); org_id := s.(sk_org_id); name := s.(sk_name);
     secret_hash := s.(sk_secret_hash); create_idempotency_hash := s.(sk_create_idempotency_hash);
     last_rotation_idempotency_hash := s.(sk_last_rotation_idempotency_hash);
     scopes := s.(sk_scopes); created_ms := s.(sk_created_ms);
     last_used_ms := s.(sk_last_used_ms); revoked := s.(sk_revoked);
     version := s.(sk_version); env := s.(sk_env);
     require_idempotency := s.(sk_require_idempotency) |}.

Record KvClient := {
  kv_base : string;
  kv_internal_secret : string;
  kv_storage_org : string
}.

(** [str::trim_end_matches('/')]. *)
Fixpoint trim_slashes (s : string) : string :=
  match s with
  | EmptyString => EmptyString
  | String a r =>
      match trim_slashes r with
      | EmptyString => if Ascii.eqb a "/" then EmptyString else String a EmptyString
      | t => String a t
      end
  end.

(** [KvClient::from_env]; [var] is the environment. *)
Definition kv_client_from_env (var : string -> option string) : result StoreError KvClient :=
  let non_blank o := match o with
                     | Some u => if str_is_empty (trim u) then None else Some u
                     | None => None
                     end in
  let? base := ok_or (non_blank (var "FIDUCIA_KV_URL")) MissingUrl in
  let? internal_secret := ok_or (non_blank (var "FIDUCIA_INTERNAL_SECRET")) MissingInternalSecret in
  let storage_org := default "fiducia-auth" (var "FIDUCIA_KV_ORG_ID") in
  reject str_is_empty storage_org || (any_whitespace storage_org || any_control storage_org)
    with InvalidStorageOrg ;;
  Ok {| kv_base := trim_slashes base; kv_internal_secret := internal_secret;
        kv_storage_org := storage_org |}.

(** [trusted_request]: the headers it adds. *)
Definition trusted_headers (self : KvClient) : list (string * string) :=
  [(TRUSTED_HOP_HEADER, self.(kv_internal_secret));
   (TRUSTED_AUTH_KIND_HEADER, "api_key");
   (TRUSTED_ORG_HEADER, self.(kv_storage_org));
   (TRUSTED_KEY_ID_HEADER, AUTH_STORAGE_SERVICE_ID);
   (TRUSTED_SCOPES_HEADER, AUTH_STORAGE_SCOPES)].

(** What [send().await] and [json().await] give: a transport error, or a status
    and the body, decoded or not. *)
Inductive HttpReply :=
  | NoReply (error : string)
  | Reply (status : N) (body : result string Value).
Definition is_success (status : N) : bool := (200 <=? status) && (status <? 300).

(** [serde_json]'s text syntax. *)
Class JsonText := {
  json_to_string : Value -> string;
  json_from_str : string -> option Value
}.
(** Its documented round trip, at one value. *)
Definition text_roundtrips `{JsonText} (v : Value) : Prop :=
  json_from_str (json_to_string v) = Some v.

Definition reply_body (reply : HttpReply) : result StoreError Value :=
  match reply with
  | NoReply error => Err (Transport error)
  | Reply status body =>
      reject negb (is_success status) with Http status ;;
      map_err Transport body
  end.

Section client.
Context `{JsonText}.

(** [get_versioned] after the request was sent. *)
Definition get_versioned_reply (reply : HttpReply)
  : result StoreError (option VersionedValue) :=
  let? body := reply_body reply in
  match value_get body "found" ≫= as_bool with
  | Some false => Ok None
  | None => Err InvalidValue
  | Some true =>
      let? entry := ok_or (value_get body "entry") InvalidValue in
      let? raw := ok_or (value_get entry "value" ≫= as_str) InvalidValue in
      let? mod_revision := ok_or (value_get entry "mod_revision" ≫= as_u64) InvalidValue in
      let? value := ok_or (json_from_str raw) InvalidValue in
      Ok (Some {| vv_value := value; vv_mod_revision := mod_revision |})
  end.

(** The body of the [PUT] that [put_inner] sends. *)
Definition put_body (value : Value) (prev_revision : option N) : Value :=
  Object [("value", Str (json_to_string value));
          ("prev_revision",
            match prev_revision with
            | Some revision => Num (PosInt revision)
            | None => Null
            end)].

Definition parse_put_response (response : Value) : result StoreError CasOutcome :=
  reject negb (bool_decide ((value_get response "committed" ≫= as_bool) = Some true))
    with InvalidValue ;;
  let? output := ok_or (value_get response "result" ≫= fun result => value_get result "output")
                   InvalidValue in
  match value_get output "ok" ≫= as_bool with
  | Some true =>
      let? _ := ok_or (value_get output "revision" ≫= as_u64) InvalidValue in
      Ok Applied
  | Some false =>
      if bool_decide ((value_get output "reason" ≫= as_str) = Some "cas_mismatch")
         && bool_decide (is_Some (value_get output "current_revision" ≫= as_u64))
      then Ok Mismatch
      else Err InvalidValue
  | None => Err InvalidValue
  end.

(** [put_inner] after the request was sent. *)
Definition put_reply_outcome (reply : HttpReply) : result StoreError CasOutcome :=
  let? response := reply_body reply in
  parse_put_response response.

(** ** What the decoders accept *)

Lemma record_stored r : record_of (stored_of r) = r.
Proof. by destruct r. Qed.
Lemma stored_record s : stored_of (record_of s) = s.
Proof. by destruct s. Qed.

(** No outcome, and none described. *)
Ltac none :=
  split; [discriminate|]; intros (?s & ?b & ?o & ?r & Heq & Hrest);
  first [discriminate Heq | injection Heq as <- <-; destruct_and! Hrest; congruence].

(** A compare-and-set is taken as applied (as a mismatch) only on a
    success status whose body says committed, [ok] and a revision
    (committed, not [ok], reason [cas_mismatch] and a current revision);
    every other reply, however shaped, is an error and never an outcome. *)
Theorem put_outcome_exact reply :
  (put_reply_outcome reply = Ok Applied <->
     exists status body output revision,
       reply = Reply status (Ok body) /\ is_success status = true
       /\ value_get body "committed" ≫= as_bool = Some true
       /\ value_get body "result" ≫= (fun result => value_get result "output") = Some output
       /\ value_get output "ok" ≫= as_bool = Some true
       /\ value_get output "revision" ≫= as_u64 = Some revision)
  /\ (put_reply_outcome reply = Ok Mismatch <->
     exists status body output revision,
       reply = Reply status (Ok body) /\ is_success status = true
       /\ value_get body "committed" ≫= as_bool = Some true
       /\ value_get body "result" ≫= (fun result => value_get result "output") = Some output
       /\ value_get output "ok" ≫= as_bool = Some false
       /\ value_get output "reason" ≫= as_str = Some "cas_mismatch"
       /\ value_get output "current_revision" ≫= as_u64 = Some revision).
Proof.
  unfold put_reply_outcome, reply_body, parse_put_response.
  destruct reply as [error|status [body|e]]; cbn [rbind map_err].
  { split; none. }
  2:{ destruct (is_success status); cbn; split; none. }
  destruct (is_success status) eqn:Hs; cbn [negb rbind]; [|split; none].
  case_bool_decide as Hc; cbn [negb]; [|split; none].
  destruct (value_get body "result" ≫= _) as [output|] eqn:Ho; cbn [ok_or rbind];
    [|split; none].
  destruct (value_get output "ok" ≫= as_bool) as [[]|] eqn:Hk; [| |split; none].
  - destruct (value_get output "revision" ≫= as_u64) as [rev|] eqn:Hr; cbn [ok_or rbind];
      (split; [|none]); [|none].
    split; [|done]. intros _. by exists status, body, output, rev.
  - case_bool_decide as Hreason; cbn [andb]; [|split; none].
    destruct (value_get output "current_revision" ≫= as_u64) as [rev|] eqn:Hrev; cbn;
      (split; [none|]); [|none].
    split; [|done]. intros _. by exists status, body, output, rev.
Qed.

(** The service's answers to a read, as the client expects them. *)
Definition found_body (e : VersionedValue) : Value :=
  Object [("found", Bool true);
          ("entry", Object [("value", Str (json_to_string e.(vv_value)));
                            ("mod_revision", Num (PosInt e.(vv_mod_revision)))])].
Definition missing_body : Value := Object [("found", Bool false)].

(** What was written is what is read: when the service keeps the text of
    the [value] member a [PUT] sent and returns it in the entry of a [GET],
    the client decodes exactly the value that was stored, with the entry's
    revision, and a missing key as absent; an answer that does not say
    whether the key was found is an error, never an absent key. *)
Theorem get_put_roundtrip value revision prev status :
  text_roundtrips value -> is_success status = true ->
  (exists text,
     value_get (put_body value prev) "value" = Some (Str text)
     /\ get_versioned_reply (Reply status (Ok (Object
          [("found", Bool true);
           ("entry", Object [("value", Str text); ("mod_revision", Num (PosInt revision))])])))
        = Ok (Some {| vv_value := value; vv_mod_revision := revision |}))
  /\ get_versioned_reply (Reply status (Ok missing_body)) = Ok None
  /\ forall body, value_get body "found" ≫= as_bool = None ->
       get_versioned_reply (Reply status (Ok body)) = Err InvalidValue.
Proof.
  intros Ht Hs. unfold get_versioned_reply, reply_body. rewrite Hs. cbn [negb map_err rbind].
  split; [|split].
  - exists (json_to_string value). split; [done|]. cbn. unfold text_roundtrips in Ht. by rewrite Ht.
  - done.
  - intros body Hb. by rewrite Hb.
Qed.
End client.

(** Nothing of a key is lost in storage: the stored form of a record and
    the record rebuilt from it are inverse to each other, the secret's hash,
    the idempotency markers and the version included, while the public
    metadata is the same for both. *)
Theorem stored_key_roundtrip r s :
  record_of (stored_of r) = r /\ stored_of (record_of s) = s
  /\ meta_of (record_of (stored_of r)) = meta_of r.
Proof. rewrite record_stored, stored_record. done. Qed.

(** ** Keys of the store *)

Lemma key_path_inj a b : key_path a = key_path b -> a = b.
Proof. apply str_app_inj_l. Qed.
Lemma str_app_inj_r s1 s2 t : s1 +:+ t = s2 +:+ t -> s1 = s2.
Proof.
  intros Heq. apply str_app_inj in Heq as [-> _]; [done|].
  apply (f_equal String.length) in Heq. rewrite !str_app_length in Heq. lia.
Qed.
Lemma org_index_path_inj a b : org_index_path a = org_index_path b -> a = b.
Proof. intros Heq%str_app_inj_l. by apply str_app_inj_r in Heq. Qed.
Lemma key_path_not_index a b : key_path a <> org_index_path b.
Proof. done. Qed.

(** ** A concrete reply *)

(** A text syntax that is enough for string values. *)
#[export] Instance string_text : JsonText := {
  json_to_string v := match v with
                      | Str s => s
                      | _ => EmptyString
                      end;
  json_from_str s := Some (Str s)
}.

Lemma get_put_roundtrip_witness :
  get_versioned_reply (Reply 200 (Ok missing_body)) = Ok None.
Proof. apply (get_put_roundtrip (Str "record") 7 None 200); reflexivity. Defined.
