(* ===== verification/Keys.v ===== *)
(** * API keys and introspection ([src/src/keys.rs])

    The key store as programs against the key-value service, with the local
    map ([cache]) as their in-process state.  A [CacheEntry] is its record. *)
From Stdlib Require Import Ascii String.
From S2P Require Import Prelude Text Wire Json Kv Model Store.

Definition MAX_CAS_RETRIES : nat := 8.

Notation key_cache := (gmap string ApiKeyRecord).
Notation key_prog A := (prog key_cache (result StoreError A)).

Record KeyStore := {
  ks_kv : bool;
  ks_idempotency_secret : string;
  ks_api_key_pepper : string;
  ks_allow_legacy_sha256 : bool
}.

Record MutationIdentity := {
  actor_id : string;
  idempotency_key : string
}.

(** [json!(ids)] and its inverse on a list of strings. *)
Class IdsJson := {
  json_ids : list string -> Value;
  ids_of_json : Value -> option (list string)
}.
Class IdsJsonLaws `{IdsJson} : Prop :=
  ids_json_roundtrip (ids : list string) : ids_of_json (json_ids ids) = Some ids.

(** [HashMap::values] of the local map, in some order. *)
Class CacheValues := cache_values : gmap string ApiKeyRecord -> list ApiKeyRecord.

(** ** Configuration *)

Definition validated_idempotency_secret (value : option string) : result StoreError string :=
  let? value := ok_or (match value with
                       | Some candidate => if str_is_empty candidate then None else Some candidate
                       | None => None
                       end) MissingIdempotencySecret in
  reject (str_len value <? 32) || any_whitespace value with WeakIdempotencySecret ;;
  Ok value.

Definition validated_api_key_pepper (value : option string) : result StoreError string :=
  let? value := ok_or (match value with
                       | Some candidate => if str_is_empty candidate then None else Some candidate
                       | None => None
                       end) MissingApiKeyPepper in
  reject (str_len value <? 32) || any_whitespace value with WeakApiKeyPepper ;;
  Ok value.

(** [KeyStore::from_env]; [var] is the environment.  The client is returned
    beside the store that uses it. *)
Definition keystore_from_env (var : string -> option string)
  : result StoreError (KeyStore * KvClient) :=
  let? idempotency_secret :=
    validated_idempotency_secret (var "FIDUCIA_KEY_IDEMPOTENCY_SECRET") in
  let? api_key_pepper := validated_api_key_pepper (var "CUSTOMER_API_KEY_PEPPER") in
  let hash_algorithm := default "hmac-sha256" (var "CUSTOMER_API_KEY_HASH_ALGORITHM") in
  reject negb (trim hash_algorithm =? "hmac-sha256")%string with UnsupportedApiKeyHashAlgorithm ;;
  let allow_legacy_sha256 :=
    match var "CUSTOMER_API_KEY_ACCEPT_LEGACY_SHA256" with
    | Some flag => bool_decide (trim flag ∈ ["1"; "true"; "TRUE"; "yes"; "YES"; "on"; "ON"]%string)
    | None => false
    end in
  let? kv := kv_client_from_env var in
  Ok ({| ks_kv := true; ks_idempotency_secret := idempotency_secret;
         ks_api_key_pepper := api_key_pepper; ks_allow_legacy_sha256 := allow_legacy_sha256 |}, kv).

(** ** Wire shape and secrets *)

Definition is_lower_hex (byte : N) : bool :=
  ((48 <=? byte) && (byte <=? 57)) || ((97 <=? byte) && (byte <=? 102)).

Definition parse_raw_key (raw : string) : option (string * string * string) :=
  '(head, secret) ← split_once "." raw;
  if negb (String.length secret =? 64)%nat || negb (all_bytes is_lower_hex secret) then None
  else
    rest ← strip_prefix "fdc_" head;
    '(env, key_id) ← split_once "_" rest;
    if negb ((env =? "live")%string || (env =? "test")%string)
       || negb (String.length key_id =? 16)%nat
       || negb (all_bytes is_lower_hex key_id)
    then None
    else Some (env, key_id, secret).

Definition same_create_request (existing requested : ApiKeyRecord) : bool :=
  (existing.(create_idempotency_hash) =? requested.(create_idempotency_hash))%string
  && (existing.(key_id) =? requested.(key_id))%string
  && (existing.(org_id) =? requested.(org_id))%string
  && (existing.(name) =? requested.(name))%string
  && bool_decide (existing.(scopes) = requested.(scopes))
  && (existing.(env) =? requested.(env))%string
  && Bool.eqb existing.(require_idempotency) requested.(require_idempotency)
  && (existing.(secret_hash) =? requested.(secret_hash))%string.

Definition next_version (version : N) : result StoreError N :=
  ok_or (checked_add version 1) VersionOverflow.

Definition is_admin_scope (scope : string) : bool :=
  (scope =? "admin")%string || starts_with scope "admin:".

(** The bytes are compared in full: the accumulated difference. *)
Fixpoint xor_diff (diff : N) (a b : string) : N :=
  match a, b with
  | String x a, String y b => xor_diff (N.lor diff (N.lxor (N_of_ascii x) (N_of_ascii y))) a b
  | _, _ => diff
  end.
Definition constant_time_eq (a b : string) : bool :=
  if negb (String.length a =? String.length b)%nat then false
  else xor_diff 0 a b =? 0.

(** The raw key shown to the user. *)
Definition raw_key (env key_id secret : string) : string :=
  "fdc_" +:+ env +:+ "_" +:+ key_id +:+ "." +:+ secret.

Section crypto.
Context `{Crypto}.

Definition hash_secret (secret pepper : string) : string :=
  "hmac-sha256:" +:+ hex_lower (hmac_sha256 pepper secret).

Definition verify_secret_hash (stored secret pepper : string) (allow_legacy_sha256 : bool)
  : bool :=
  if starts_with stored "hmac-sha256:"
  then constant_time_eq stored (hash_secret secret pepper)
  else if allow_legacy_sha256 && starts_with stored "sha256:"
  then constant_time_eq stored ("sha256:" +:+ hex_lower (sha256 secret))
  else false.

Definition verify (rec : ApiKeyRecord) (env secret pepper : string) (allow_legacy_sha256 : bool)
  : Introspection :=
  if negb rec.(revoked) && (rec.(Model.env) =? env)%string
     && verify_secret_hash rec.(secret_hash) secret pepper allow_legacy_sha256
  then {| in_valid := true; in_org_id := Some rec.(org_id); in_key_id := Some rec.(key_id);
          in_scopes := List.filter (fun scope => negb (is_admin_scope scope)) rec.(scopes);
          in_require_idempotency := rec.(require_idempotency) |}
  else introspection_invalid.

(** The HMAC input of [derive_idempotency]. *)
Definition mac_input (purpose : string) (parts : list string) : string :=
  List.fold_left (fun acc part => acc +:+ String (ascii_of_N 0) part) parts purpose.
Definition derive_idempotency (self : KeyStore) (purpose : string) (parts : list string)
  : string :=
  hex_lower (hmac_sha256 self.(ks_idempotency_secret) (mac_input purpose parts)).
End crypto.

Section store.
Context `{Crypto, Serde StoredKey, IdsJson, CacheValues}.

(** [self.cache.lock().unwrap().insert(..)]. *)
Definition cache_insert (id : string) (rec : ApiKeyRecord) : prog key_cache key_cache :=
  with_lock (fun cache => <[id := rec]> cache).

Definition decode_key (id : string) (value : Value) : result StoreError ApiKeyRecord :=
  let? stored := ok_or (from_value value) InvalidValue in
  reject negb (stored.(sk_key_id) =? id)%string with InvalidValue ;;
  Ok (record_of stored).

Definition load (id : string) : key_prog (option ApiKeyRecord) :=
  let!? value := kv_get (key_path id) in
  match value with
  | None => pure (Ok None)
  | Some value => pure (let? rec := decode_key id value in Ok (Some rec))
  end.

Definition load_versioned (id : string) : key_prog (option (ApiKeyRecord * N)) :=
  let!? entry := get_versioned (key_path id) in
  match entry with
  | None => pure (Ok None)
  | Some entry =>
      pure (let? rec := decode_key id entry.(vv_value) in
            Ok (Some (rec, entry.(vv_mod_revision))))
  end.

Definition index_get (org : string) : key_prog (list string) :=
  let!? value := kv_get (org_index_path org) in
  match value with
  | Some value => pure (ok_or (ids_of_json value) InvalidValue)
  | None => pure (Ok [])
  end.

Fixpoint index_add_loop (retries : nat) (path id : string) : key_prog unit :=
  match retries with
  | O => pure (Err StoreCasRetriesExhausted)
  | S retries =>
      let!? entry := get_versioned path in
      let!? current := pure (match entry with
                             | Some entry =>
                                 let? ids := ok_or (ids_of_json entry.(vv_value)) InvalidValue in
                                 Ok (ids, entry.(vv_mod_revision))
                             | None => Ok ([], 0)
                             end) in
      let (ids, mod_revision) := current in
      if bool_decide (id ∈ ids) then pure (Ok tt)
      else
        let!? outcome := put_if_revision path (json_ids (ids ++ [id])) mod_revision in
        match outcome with
        | Applied => pure (Ok tt)
        | Mismatch => index_add_loop retries path id
        end
  end.
Definition index_add (org id : string) : key_prog unit :=
  index_add_loop MAX_CAS_RETRIES (org_index_path org) id.

(** The record [create] builds, and the raw key. *)
Definition create_secret (self : KeyStore) (mutation : MutationIdentity) (org : string) : string :=
  derive_idempotency self "create-secret"
    [mutation.(actor_id); org; mutation.(idempotency_key)].
Definition create_key_id (self : KeyStore) (mutation : MutationIdentity) (org : string) : string :=
  String.substring 0 16 (derive_idempotency self "create-key-id"
    [mutation.(actor_id); org; mutation.(idempotency_key)]).
Definition created_record (self : KeyStore) (mutation : MutationIdentity)
    (org name : string) (scopes : list string) (env : string) (require_idempotency : bool)
    (now_ms : N) : ApiKeyRecord :=
  {| key_id := create_key_id self mutation org; org_id := org; Model.name := name;
     secret_hash := hash_secret (create_secret self mutation org) self.(ks_api_key_pepper);
     create_idempotency_hash :=
       derive_idempotency self "create-marker"
         [mutation.(actor_id); org; mutation.(idempotency_key)];
     last_rotation_idempotency_hash := None; Model.scopes := scopes; created_ms := now_ms;
     last_used_ms := None; revoked := false; version := 1; Model.env := env;
     Model.require_idempotency := require_idempotency |}.

(** [create]; [now_ms] is what the clock returned. *)
Definition create (self : KeyStore) (mutation : MutationIdentity) (org name : string)
    (scopes : list string) (env : string) (require_idempotency : bool) (now_ms : N)
  : key_prog (string * ApiKeyMeta) :=
  let rec := created_record self mutation org name scopes env require_idempotency now_ms in
  let id := rec.(key_id) in
  let raw := raw_key env id (create_secret self mutation org) in
  if self.(ks_kv) then
    let!? value := pure (ok_or (to_value (stored_of rec)) InvalidValue) in
    let!? outcome := put_if_revision (key_path id) value 0 in
    match outcome with
    | Mismatch =>
        let!? existing := load id in
        match existing with
        | None => pure (Err KeyIdCollision)
        | Some existing =>
            if negb (same_create_request existing rec)
            then pure (Err StoreIdempotencyConflict)
            else
              let!? _ := index_add org id in
              let! _ := cache_insert id existing in
              pure (Ok (raw, meta_of existing))
        end
    | Applied =>
        let!? _ := index_add org id in
        let! _ := cache_insert id rec in
        pure (Ok (raw, meta_of rec))
    end
  else
    let! cache := with_lock (fun cache => cache) in
    match cache !! id with
    | Some existing =>
        if negb (same_create_request existing rec)
        then pure (Err StoreIdempotencyConflict)
        else pure (Ok (raw, meta_of existing))
    | None =>
        let! _ := cache_insert id rec in
        pure (Ok (raw, meta_of rec))
    end.

Fixpoint list_ids (org : string) (ids : list string) (out : list ApiKeyMeta)
  : key_prog (list ApiKeyMeta) :=
  match ids with
  | [] => pure (Ok out)
  | id :: ids =>
      let!? rec := load id in
      match rec with
      | Some rec =>
          list_ids org ids
            (if (rec.(org_id) =? org)%string then out ++ [meta_of rec] else out)
      | None => list_ids org ids out
      end
  end.
(** [KeyStore::list]. *)
Definition list_keys (self : KeyStore) (org : string) : key_prog (list ApiKeyMeta) :=
  if self.(ks_kv) then
    let!? ids := index_get org in
    list_ids org ids []
  else
    let! cache := with_lock (fun cache => cache) in
    pure (Ok (meta_of <$> List.filter (fun r => (r.(org_id) =? org)%string) (cache_values cache))).

(** The record after [rec.revoked = true; rec.version = next_version(..)]. *)
Definition revoked_record (rec : ApiKeyRecord) (version : N) : ApiKeyRecord :=
  {| key_id := rec.(key_id); org_id := rec.(org_id); name := rec.(name);
     secret_hash := rec.(secret_hash);
     create_idempotency_hash := rec.(create_idempotency_hash);
     last_rotation_idempotency_hash := rec.(last_rotation_idempotency_hash);
     scopes := rec.(scopes); created_ms := rec.(created_ms);
     last_used_ms := rec.(last_used_ms); revoked := true; Model.version := version;
     env := rec.(env); require_idempotency := rec.(require_idempotency) |}.

Fixpoint revoke_loop (retries : nat) (org id : string) : key_prog bool :=
  match retries with
  | O => pure (Err StoreCasRetriesExhausted)
  | S retries =>
      let!? entry := load_versioned id in
      match entry with
      | None => pure (Ok false)
      | Some (rec, mod_revision) =>
          if negb (rec.(org_id) =? org)%string then pure (Ok false)
          else if rec.(revoked) then
            let! _ := cache_insert id rec in
            pure (Ok true)
          else
            let!? version := pure (next_version rec.(version)) in
            let rec := revoked_record rec version in
            let!? value := pure (ok_or (to_value (stored_of rec)) InvalidValue) in
            let!? outcome := put_if_revision (key_path id) value mod_revision in
            match outcome with
            | Applied =>
                let! _ := cache_insert id rec in
                pure (Ok true)
            | Mismatch => revoke_loop retries org id
            end
      end
  end.
(** The branch without a service, under the lock: the flag is set before
    the version is computed. *)
Definition memory_revoke (cache : key_cache) (org id : string)
  : key_cache * result StoreError bool :=
  match cache !! id with
  | Some e =>
      if (e.(org_id) =? org)%string then
        if negb e.(revoked) then
          match next_version e.(version) with
          | Ok version => (<[id := revoked_record e version]> cache, Ok true)
          | Err err => (<[id := revoked_record e e.(version)]> cache, Err err)
          end
        else (cache, Ok true)
      else (cache, Ok false)
  | None => (cache, Ok false)
  end.
Definition revoke (self : KeyStore) (org id : string) : key_prog bool :=
  if self.(ks_kv) then revoke_loop MAX_CAS_RETRIES org id
  else
    let! cache := with_lock (fun cache => fst (memory_revoke cache org id)) in
    pure (snd (memory_revoke cache org id)).

Definition rotated_record (rec : ApiKeyRecord) (hash marker : string) (version : N)
  : ApiKeyRecord :=
  {| key_id := rec.(key_id); org_id := rec.(org_id); name := rec.(name);
     secret_hash := hash;
     create_idempotency_hash := rec.(create_idempotency_hash);
     last_rotation_idempotency_hash := Some marker;
     scopes := rec.(scopes); created_ms := rec.(created_ms);
     last_used_ms := rec.(last_used_ms); revoked := rec.(revoked); Model.version := version;
     env := rec.(env); require_idempotency := rec.(require_idempotency) |}.

(** What the branches of [rotate] answer before they write. *)
Definition rotation_replay (rec : ApiKeyRecord) (secret hash marker : string)
  : option (result StoreError (option (string * ApiKeyMeta))) :=
  if bool_decide (rec.(last_rotation_idempotency_hash) = Some marker) then
    Some (if negb (rec.(secret_hash) =? hash)%string then Err InvalidValue
          else Ok (Some (raw_key rec.(env) rec.(key_id) secret, meta_of rec)))
  else if rec.(revoked) then Some (Ok None)
  else None.

Fixpoint rotate_loop (retries : nat) (org id secret hash marker : string)
  : key_prog (option (string * ApiKeyMeta)) :=
  match retries with
  | O => pure (Err StoreCasRetriesExhausted)
  | S retries =>
      let!? entry := load_versioned id in
      match entry with
      | None => pure (Ok None)
      | Some (rec, mod_revision) =>
          if negb (rec.(org_id) =? org)%string then pure (Ok None)
          else
            match rotation_replay rec secret hash marker with
            | Some answer => pure answer
            | None =>
                let!? version := pure (next_version rec.(version)) in
                let rec := rotated_record rec hash marker version in
                let raw := raw_key rec.(env) rec.(key_id) secret in
                let!? value := pure (ok_or (to_value (stored_of rec)) InvalidValue) in
                let!? outcome := put_if_revision (key_path id) value mod_revision in
                match outcome with
                | Applied =>
                    let! _ := cache_insert id rec in
                    pure (Ok (Some (raw, meta_of rec)))
                | Mismatch => rotate_loop retries org id secret hash marker
                end
            end
      end
  end.
Definition memory_rotate (cache : key_cache) (org id secret hash marker : string)
  : key_cache * result StoreError (option (string * ApiKeyMeta)) :=
  match cache !! id with
  | Some e =>
      if negb (e.(org_id) =? org)%string then (cache, Ok None)
      else
        match rotation_replay e secret hash marker with
        | Some answer => (cache, answer)
        | None =>
            match next_version e.(version) with
            | Err err => (<[id := rotated_record e hash marker e.(version)]> cache, Err err)
            | Ok version =>
                let e := rotated_record e hash marker version in
                (<[id := e]> cache,
                 Ok (Some (raw_key e.(env) e.(key_id) secret, meta_of e)))
            end
        end
  | None => (cache, Ok None)
  end.
Definition rotation_secret (self : KeyStore) (actor idempotency org id : string) : string :=
  derive_idempotency self "rotate-secret" [actor; org; id; idempotency].
Definition rotate (self : KeyStore) (actor idempotency org id : string)
  : key_prog (option (string * ApiKeyMeta)) :=
  let marker := derive_idempotency self "rotate-marker" [actor; org; id; idempotency] in
  let secret := rotation_secret self actor idempotency org id in
  let hash := hash_secret secret self.(ks_api_key_pepper) in
  if self.(ks_kv) then rotate_loop MAX_CAS_RETRIES org id secret hash marker
  else
    let! cache := with_lock (fun cache => fst (memory_rotate cache org id secret hash marker)) in
    pure (snd (memory_rotate cache org id secret hash marker)).

Definition introspect (self : KeyStore) (raw : string) : key_prog Introspection :=
  match parse_raw_key raw with
  | None => pure (Ok introspection_invalid)
  | Some (env, id, secret) =>
      if self.(ks_kv) then
        let!? rec := load id in
        match rec with
        | Some rec =>
            let!? ids := index_get rec.(org_id) in
            let intro :=
              if bool_decide (id ∈ ids)
              then verify rec env secret self.(ks_api_key_pepper) self.(ks_allow_legacy_sha256)
              else introspection_invalid in
            let! _ := cache_insert id rec in
            pure (Ok intro)
        | None => pure (Ok introspection_invalid)
        end
      else
        let! cache := with_lock (fun cache => cache) in
        pure (Ok (match cache !! id with
                  | Some e =>
                      verify e env secret self.(ks_api_key_pepper) self.(ks_allow_legacy_sha256)
                  | None => introspection_invalid
                  end))
  end.
End store.
