(* ===== verification/KeyFacts.v ===== *)
(** * Facts about API keys

    The wire shape of a key, the verification of a presented secret, and what
    introspection can ever reveal. *)
From Stdlib Require Import Ascii String.
From S2P Require Import Prelude Text Wire Samples Json Kv Model Store Keys.

Lemma str_mem_app c s t : str_mem c (s +:+ t) = str_mem c s || str_mem c t.
Proof. induction s as [|a s IH]; cbn; [done|]. by rewrite IH, orb_assoc. Qed.

Lemma starts_with_app p r : starts_with (p +:+ r) p = true.
Proof. unfold starts_with. by rewrite (proj2 (strip_prefix_app p (p +:+ r) r) eq_refl). Qed.

(** The parts of a well-formed key. *)
Record key_parts (env key_id secret : string) : Prop := {
  kp_env : env = "live" \/ env = "test";
  kp_id : String.length key_id = 16%nat /\ all_bytes is_lower_hex key_id = true;
  kp_secret : String.length secret = 64%nat /\ all_bytes is_lower_hex secret = true
}.

Lemma parse_raw_key_some raw env id secret :
  parse_raw_key raw = Some (env, id, secret) <->
  raw = raw_key env id secret /\ key_parts env id secret.
Proof.
  unfold parse_raw_key, raw_key. split.
  - destruct (split_once "." raw) as [[head sec]|] eqn:Hs; [|done].
    apply split_once_some in Hs as [-> _]. cbn [mbind option_bind].
    destruct (negb _ || negb _) eqn:Hsec; [done|].
    destruct (strip_prefix "fdc_" head) as [rest|] eqn:Hp; [|done].
    apply strip_prefix_app in Hp as ->. cbn [mbind option_bind].
    destruct (split_once "_" rest) as [[e i]|] eqn:Hr; [|done].
    apply split_once_some in Hr as [-> _]. cbn [mbind option_bind].
    destruct (negb _ || negb _ || negb _) eqn:Hk; [done|]. intros [= -> -> ->].
    reflect_bools. split; [cbn [String.append]; by rewrite str_app_assoc|].
    constructor; [|done|done].
    match goal with He : (_ || _)%bool = true |- _ => apply orb_true_iff in He end.
    by rewrite !String.eqb_eq in *.
  - intros [-> [He [Hil Hih] [Hsl Hsh]]].
    assert (Hnd : str_mem "." ("fdc_" +:+ env +:+ "_" +:+ id) = false).
    { rewrite !str_mem_app. rewrite (all_bytes_mem is_lower_hex "." id) by done.
      by destruct He as [-> | ->]. }
    assert (Hno : str_mem "_" env = false) by (by destruct He as [-> | ->]).
    replace ("fdc_" +:+ env +:+ "_" +:+ id +:+ "." +:+ secret)
      with (("fdc_" +:+ env +:+ "_" +:+ id) +:+ String "." secret)
      by (rewrite !str_app_assoc; done).
    rewrite split_once_app by done. cbn [mbind option_bind]. rewrite Hsl, Hsh. cbn [Nat.eqb negb orb].
    replace (strip_prefix "fdc_" ("fdc_" +:+ env +:+ "_" +:+ id)) with (Some (env +:+ "_" +:+ id))
      by (symmetry; by apply strip_prefix_app).
    cbn [mbind option_bind].
    replace (env +:+ "_" +:+ id) with (env +:+ String "_" id) by done.
    rewrite split_once_app by done. cbn [mbind option_bind]. rewrite Hil, Hih.
    by destruct He as [-> | ->].
Qed.

(** One wire shape for API keys: a string is accepted exactly when it is
    [fdc_<live|test>_<16 lower-hex digits>.<64 lower-hex digits>], it then
    splits into just these parts, and every key the store issues parses back
    to them; anything else is refused before the store is touched. *)
Theorem parse_raw_key_exact raw env id secret :
  (parse_raw_key raw = Some (env, id, secret) <->
     raw = raw_key env id secret /\ key_parts env id secret)
  /\ (parse_raw_key raw = None <->
     forall env id secret, raw = raw_key env id secret -> ~ key_parts env id secret).
Proof.
  split; [apply parse_raw_key_some|]. split.
  - intros Hn e i s -> Hp.
    assert (parse_raw_key (raw_key e i s) = Some (e, i, s)) by (by apply parse_raw_key_some).
    congruence.
  - intros Hall. destruct (parse_raw_key raw) as [[[e i] s]|] eqn:Hp; [|done].
    apply parse_raw_key_some in Hp as [-> Hparts]. by destruct (Hall e i s eq_refl).
Qed.

(** ** Comparing secrets *)

Lemma xor_diff_zero a : forall d b,
  String.length a = String.length b -> xor_diff d a b = 0 <-> d = 0 /\ a = b.
Proof.
  induction a as [|x a IH]; intros d [|y b] Hl; cbn in *; try done; [naive_solver|].
  injection Hl as Hl. rewrite (IH _ _ Hl), N.lor_eq_0_iff, N.lxor_eq_0_iff. split.
  - intros [[-> Hxy%N_of_ascii_inj] ->]. by subst.
  - intros [-> [= -> ->]]. done.
Qed.

Lemma constant_time_eq_iff a b : constant_time_eq a b = true <-> a = b.
Proof.
  unfold constant_time_eq.
  destruct (Nat.eqb_spec (String.length a) (String.length b)) as [Hl|Hl]; cbn.
  - rewrite N.eqb_eq, xor_diff_zero by done. naive_solver.
  - split; [done|]. by intros ->.
Qed.

(** The constant-time comparison is equality: whatever the two strings,
    comparing every byte and accumulating the differences says equal exactly
    when they are. *)
Theorem constant_time_eq_correct a b : constant_time_eq a b = (a =? b)%string.
Proof.
  destruct (String.eqb_spec a b) as [->|Hne].
  - by apply constant_time_eq_iff.
  - destruct (constant_time_eq a b) eqn:He; [|done]. by apply constant_time_eq_iff in He.
Qed.

Section verify.
Context `{Crypto}.

Lemma hash_secret_prefix secret pepper :
  starts_with (hash_secret secret pepper) "hmac-sha256:" = true.
Proof.
  apply starts_with_app.
Qed.

Lemma verify_hashed secret secret' pepper legacy :
  verify_secret_hash (hash_secret secret pepper) secret' pepper legacy = true <->
  hmac_sha256 pepper secret = hmac_sha256 pepper secret'.
Proof.
  unfold verify_secret_hash. rewrite hash_secret_prefix, constant_time_eq_iff.
  unfold hash_secret. split; [|by intros ->].
  intros Heq%str_app_inj_l. by apply hex_lower_inj in Heq.
Qed.

Lemma verify_valid rec env secret pepper legacy :
  (verify rec env secret pepper legacy).(in_valid) = true ->
  rec.(revoked) = false /\ rec.(Model.env) = env
  /\ verify_secret_hash rec.(secret_hash) secret pepper legacy = true
  /\ verify rec env secret pepper legacy
     = {| in_valid := true; in_org_id := Some rec.(org_id); in_key_id := Some rec.(key_id);
          in_scopes := List.filter (fun scope => negb (is_admin_scope scope)) rec.(scopes);
          in_require_idempotency := rec.(require_idempotency) |}.
Proof.
  unfold verify. destruct (negb (revoked rec) && _ && _) eqn:Hv; [|done]. intros _.
  reflect_bools. done.
Qed.
Lemma verify_invalid rec env secret pepper legacy :
  (verify rec env secret pepper legacy).(in_valid) = false ->
  verify rec env secret pepper legacy = introspection_invalid.
Proof. unfold verify. by case_match. Qed.

(** What a presented secret must match: a record with a peppered hash
    verifies exactly the secrets whose HMAC under the pepper is the stored
    one; an unkeyed SHA-256 record verifies only while legacy records are
    accepted, and any other stored hash verifies nothing. *)
Theorem verify_secret_hash_exact stored secret pepper legacy :
  verify_secret_hash stored secret pepper legacy = true <->
  stored = "hmac-sha256:" +:+ hex_lower (hmac_sha256 pepper secret)
  \/ (legacy = true /\ stored = "sha256:" +:+ hex_lower (sha256 secret)).
Proof.
  unfold verify_secret_hash. destruct (starts_with stored "hmac-sha256:") eqn:Hh.
  - rewrite constant_time_eq_iff. unfold hash_secret. split; [by left|].
    intros [|[_ ->]]; [done|]. unfold starts_with in Hh. by cbn in Hh.
  - assert (Hno : stored <> "hmac-sha256:" +:+ hex_lower (hmac_sha256 pepper secret)).
    { intros ->. pose proof (hash_secret_prefix secret pepper) as Hp. unfold hash_secret in Hp.
      congruence. }
    destruct legacy; cbn [andb]; [|split; [done|]; intros [|[? _]]; done].
    destruct (starts_with stored "sha256:") eqn:Hs.
    + rewrite constant_time_eq_iff. naive_solver.
    + split; [done|]. intros [|[_ ->]]; [done|].
      pose proof (starts_with_app "sha256:" (hex_lower (sha256 secret))). congruence.
Qed.
End verify.

(** ** Derived ids, secrets and markers

    [derive_idempotency] separates the purpose and the parts by NUL bytes, so
    inputs without NUL bytes are told apart. *)
Definition nul : ascii := ascii_of_N 0.
Definition nul_free (s : string) : Prop := str_mem nul s = false.
Fixpoint nul_separated (parts : list string) : string :=
  match parts with
  | [] => EmptyString
  | part :: parts => String nul (part +:+ nul_separated parts)
  end.

Lemma str_app_nil_r s : s +:+ "" = s.
Proof. induction s as [|a s IH]; cbn; [done|]. by rewrite IH. Qed.
Lemma mac_input_separated purpose parts :
  mac_input purpose parts = purpose +:+ nul_separated parts.
Proof.
  unfold mac_input. revert purpose. induction parts as [|part parts IH]; intros purpose; cbn.
  - by rewrite str_app_nil_r.
  - rewrite IH, str_app_assoc. done.
Qed.

Lemma split_separated purpose part parts :
  nul_free purpose ->
  split_once nul (purpose +:+ nul_separated (part :: parts))
  = Some (purpose, part +:+ nul_separated parts).
Proof. apply split_once_app. Qed.
Lemma split_unseparated purpose : nul_free purpose -> split_once nul purpose = None.
Proof.
  unfold nul_free. intros Hf. destruct (split_once nul purpose) as [[x y]|] eqn:Hs; [|done].
  apply split_once_some in Hs as [-> _]. rewrite str_mem_app in Hf. cbn in Hf.
  by rewrite orb_true_r in Hf.
Qed.

Lemma mac_input_inj purpose purpose' parts parts' :
  Forall nul_free (purpose :: parts) -> Forall nul_free (purpose' :: parts') ->
  mac_input purpose parts = mac_input purpose' parts' -> purpose = purpose' /\ parts = parts'.
Proof.
  rewrite !mac_input_separated. revert purpose purpose' parts'.
  induction parts as [|part parts IH]; intros purpose purpose' [|part' parts']
    [Hp Hps]%List.Forall_cons_iff [Hp' Hps']%List.Forall_cons_iff Heq.
  1: { split; [|done]. by rewrite !str_app_nil_r in Heq. }
  all: apply (f_equal (split_once nul)) in Heq; rewrite ?split_separated in Heq by done.
  1, 2: cbn [nul_separated] in Heq; rewrite str_app_nil_r, split_unseparated in Heq; done.
  injection Heq as -> Heq. split; [done|].
  by destruct (IH _ _ _ Hps Hps' Heq) as [-> ->].
Qed.

Definition hmac_collision `{Crypto} (key : string) : Prop :=
  exists x y, x <> y /\ hmac_sha256 key x = hmac_sha256 key y.

(** What is derived for one purpose and one request is derived for no other:
    equal values come from the same purpose and the same parts, in the same
    order, or HMAC-SHA256 collides under the server's secret. *)
Theorem derivations_separate `{Crypto} self purpose purpose' parts parts' :
  Forall nul_free (purpose :: parts) -> Forall nul_free (purpose' :: parts') ->
  derive_idempotency self purpose parts = derive_idempotency self purpose' parts' ->
  (purpose = purpose' /\ parts = parts') \/ hmac_collision self.(ks_idempotency_secret).
Proof.
  intros Hp Hp' Heq%hex_lower_inj.
  destruct (decide (mac_input purpose parts = mac_input purpose' parts')) as [Hm|Hm].
  - left. by apply mac_input_inj.
  - right. by exists (mac_input purpose parts), (mac_input purpose' parts').
Qed.

(** Two requests for keys, by their actor, organization and idempotency key:
    different ones never get the same secret, and the secret of a rotation is
    never that of a creation. *)
Corollary request_secrets_separate `{Crypto} self mutation mutation' org org' id :
  Forall nul_free [mutation.(actor_id); org; mutation.(idempotency_key)] ->
  Forall nul_free [mutation'.(actor_id); org'; id; mutation'.(idempotency_key)] ->
  (create_secret self mutation org = create_secret self mutation' org' ->
   (mutation = mutation' /\ org = org') \/ hmac_collision self.(ks_idempotency_secret))
  /\ (create_secret self mutation org
        = rotation_secret self mutation'.(actor_id) mutation'.(idempotency_key) org' id ->
      hmac_collision self.(ks_idempotency_secret)).
Proof.
  intros Hm Hm'.
  assert (Hparts : Forall nul_free [mutation'.(actor_id); org'; mutation'.(idempotency_key)])
    by (decompose_Forall_hyps; repeat constructor; done).
  split; intros Heq; apply derivations_separate in Heq as [[Hpurpose Heq]|]; try by constructor.
  - left. injection Heq as Ha -> Hk. destruct mutation, mutation'. cbn in *. by subst.
  - discriminate Hpurpose.
  - done.
Qed.

(** Two actors with the same organization and idempotency key. *)
Example actors_separate `{Crypto} self :
  create_secret self {| actor_id := "alice"; idempotency_key := "k" |} "acme"
  = create_secret self {| actor_id := "bob"; idempotency_key := "k" |} "acme" ->
  hmac_collision self.(ks_idempotency_secret).
Proof.
  intros Heq.
  destruct (request_secrets_separate self
    {| actor_id := "alice"; idempotency_key := "k" |} {| actor_id := "bob"; idempotency_key := "k" |}
    "acme" "acme" "id") as [Hs _]; [repeat constructor..|].
  destruct (Hs Heq) as [[Hm _]|Hc]; [discriminate Hm|exact Hc].
Qed.
