(* ===== verification/KeySafety.v ===== *)
(** * Concurrent safety of the key store

    What [create], [revoke], [rotate], [introspect] and [list] guarantee
    against the contract of the key-value service while other replicas and
    other components use it. *)
From Stdlib Require Import Ascii String.
From S2P Require Import Prelude Text Wire Samples Json Kv Model Store Keys KeyFacts.

(** One write of a record: a revocation or a rotation of a record that was not
    revoked. *)
Definition record_succ (r r' : ApiKeyRecord) : Prop :=
  r.(revoked) = false
  /\ (r' = revoked_record r (r.(version) + 1)
      \/ exists hash marker, r' = rotated_record r hash marker (r.(version) + 1)).

(** What no write changes. *)
Definition same_identity (r r' : ApiKeyRecord) : Prop :=
  r'.(key_id) = r.(key_id) /\ r'.(org_id) = r.(org_id) /\ r'.(name) = r.(name)
  /\ r'.(scopes) = r.(scopes) /\ r'.(env) = r.(env) /\ r'.(created_ms) = r.(created_ms)
  /\ r'.(create_idempotency_hash) = r.(create_idempotency_hash)
  /\ r'.(require_idempotency) = r.(require_idempotency).

(** A later state of a record: the same, or a higher version of an identity
    that was not revoked. *)
Definition record_le (r r' : ApiKeyRecord) : Prop :=
  r' = r
  \/ (r.(revoked) = false /\ same_identity r r' /\ r.(version) < r'.(version)).

Lemma record_le_trans r1 r2 r3 : record_le r1 r2 -> record_le r2 r3 -> record_le r1 r3.
Proof.
  intros [->|(H1 & I1 & V1)] [->|(H2 & I2 & V2)]; [by left|by right|by right|]. right.
  unfold same_identity in *. split; [done|]. split; [|lia].
  destruct_and!. split_and!; congruence.
Qed.
Lemma record_succ_le r r' : record_succ r r' -> record_le r r'.
Proof.
  intros [Hr [-> | (h & mk & ->)]]; right; (split; [done|]); (split; [done|]); cbn; lia.
Qed.

Section rely.
Context `{Crypto, !Serde StoredKey, !SerdeLaws StoredKey, !IdsJson, !IdsJsonLaws,
          !CacheValues}.
Implicit Types (m : kv) (r : ApiKeyRecord).

(** The organizations whose keys may be written. *)
Context (writable : string -> Prop).

Definition key_write (id : string) (old : option Value) (new : Value) : Prop :=
  exists r', decode_key id new = Ok r' /\ writable r'.(org_id)
  /\ match old with
     | None => True
     | Some v => exists r, decode_key id v = Ok r /\ record_succ r r'
     end.
Definition index_write (old : option Value) (new : Value) : Prop :=
  exists ids' id, ids_of_json new = Some ids'
  /\ match old with
     | None => ids' = [id]
     | Some v => exists ids, ids_of_json v = Some ids /\ id ∉ ids /\ ids' = ids ++ [id]
     end.

(** The interface to the other components. *)
Context (G : string -> option Value -> Value -> Prop).
Context (key_rely : forall id old new, G (key_path id) old new -> key_write id old new).
Context (key_guarantee : forall id old new, key_write id old new -> G (key_path id) old new).
Context (index_rely : forall org old new, G (org_index_path org) old new -> index_write old new).
Context (index_guarantee :
           forall org old new, writable org -> index_write old new -> G (org_index_path org) old new).
Notation no_local_claim := (fun (_ : key_cache) (_ : kv) => True).
Notation evolves := (evolves G).
Notation wp := (wp G no_local_claim).

Definition key_at m (id : string) r : Prop :=
  exists e, m !! key_path id = Some e /\ decode_key id e.(vv_value) = Ok r.
Definition ids_at m (org : string) (ids : list string) : Prop :=
  match m !! org_index_path org with
  | Some e => ids_of_json e.(vv_value) = Some ids
  | None => ids = []
  end.

Lemma key_rtc id o o' e r :
  rtc (key_step G (key_path id)) o o' -> o = Some e -> decode_key id e.(vv_value) = Ok r ->
  exists e' r', o' = Some e' /\ decode_key id e'.(vv_value) = Ok r' /\ record_le r r'.
Proof.
  intros Hr. revert e r. induction Hr as [o|o1 o2 o3 (e2 & -> & _ & Hg) _ IH]; intros e r -> Hd.
  - exists e, r. split_and!; [done..|by left].
  - apply key_rely in Hg as (r2 & Hd2 & _ & r1 & Hd1 & Hs). cbn in Hd1.
    rewrite Hd in Hd1. injection Hd1 as <-.
    destruct (IH e2 r2 eq_refl Hd2) as (e' & r' & -> & Hd' & Hle).
    exists e', r'. split_and!; [done..|]. eapply record_le_trans; [|done].
    by apply record_succ_le.
Qed.

(** A stored record only moves forward, and not at all once revoked. *)
Lemma key_at_evolves m m' id r :
  evolves m m' -> key_at m id r -> exists r', key_at m' id r' /\ record_le r r'.
Proof.
  intros He (e & Hm & Hd). destruct (key_rtc id _ _ e r (He (key_path id)) Hm Hd)
    as (e' & r' & He' & Hd' & Hle).
  exists r'. split; [by exists e'|done].
Qed.
Lemma key_at_revoked m m' id r :
  evolves m m' -> key_at m id r -> r.(revoked) = true -> key_at m' id r.
Proof.
  intros He Hr Hv. destruct (key_at_evolves _ _ _ _ He Hr) as (r' & Hr' & [->|[Hf _]]); [done|].
  congruence.
Qed.

(** Keys of the other organizations do not change and do not appear. *)
Lemma key_unwritable m m' id :
  evolves m m' ->
  (exists r, (key_at m id r \/ key_at m' id r) /\ ~ writable r.(org_id)) ->
  m' !! key_path id = m !! key_path id.
Proof.
  intros He (r & Hr & Hn). assert (Hr' : exists r', key_at m' id r' /\ r'.(org_id) = r.(org_id)).
  { destruct Hr as [Hr|Hr]; [|by exists r].
    destruct (key_at_evolves _ _ _ _ He Hr) as (r' & Hr' & [->|(_ & (_ & Ho & _) & _)]);
      by eexists. }
  destruct Hr' as (r' & (e & Hm & Hd) & Ho). specialize (He (key_path id)).
  apply rtc_inv_r in He as [->|(o & _ & e' & He' & _ & Hg)]; [done|].
  apply key_rely in Hg as (r2 & Hd2 & Hw & _). rewrite Hm in He'. injection He' as <-.
  rewrite Hd in Hd2. injection Hd2 as <-. rewrite Ho in Hw. done.
Qed.

Lemma key_at_inj m id r r' : key_at m id r -> key_at m id r' -> r = r'.
Proof. intros (e & He & Hd) (e' & He' & Hd'). congruence. Qed.

Lemma ids_rtc org o o' e ids :
  rtc (key_step G (org_index_path org)) o o' -> o = Some e ->
  ids_of_json e.(vv_value) = Some ids ->
  exists e' ids', o' = Some e' /\ ids_of_json e'.(vv_value) = Some ids' /\ ids `prefix_of` ids'
  /\ (NoDup ids -> NoDup ids').
Proof.
  intros Hr. revert e ids.
  induction Hr as [o|o1 o2 o3 (e2 & -> & _ & Hg) _ IH]; intros e ids -> Hd.
  - by exists e, ids.
  - apply index_rely in Hg as (ids2 & id & Hd2 & ids1 & Hd1 & Hn & ->). cbn in Hd1.
    rewrite Hd in Hd1. injection Hd1 as <-.
    destruct (IH e2 _ eq_refl Hd2) as (e' & ids' & -> & Hd' & Hp & Hnd).
    exists e', ids'. split_and!; [done..| |].
    + etrans; [|done]. by eexists.
    + intros Hnd0. apply Hnd, list.NoDup_app. split_and!; [done| |apply NoDup_singleton].
      by intros x Hx ->%list_elem_of_singleton.
Qed.

Lemma ids_at_evolves m m' org ids :
  evolves m m' -> ids_at m org ids ->
  exists ids', ids_at m' org ids' /\ ids `prefix_of` ids' /\ (NoDup ids -> NoDup ids').
Proof.
  unfold ids_at. intros He Hi. specialize (He (org_index_path org)).
  destruct (m !! org_index_path org) as [e|] eqn:Hm.
  - destruct (ids_rtc _ _ _ e ids He eq_refl Hi) as (e' & ids' & -> & Hi' & Hp & Hnd).
    by exists ids'.
  - subst ids. inversion He as [|? o ? (e & -> & _ & Hg) Hr Hx Hy]; subst.
    + exists []. split_and!; [done|by apply prefix_nil|done].
    + apply index_rely in Hg as (ids1 & id & Hd & ->).
      destruct (ids_rtc _ _ _ e [id] Hr eq_refl Hd) as (e' & ids' & -> & Hi' & _ & Hnd).
      exists ids'. split_and!; [done|apply prefix_nil|]. intros _. apply Hnd, NoDup_singleton.
Qed.

Lemma ids_at_elem m m' org id :
  evolves m m' -> (exists ids, ids_at m org ids /\ id ∈ ids) ->
  exists ids, ids_at m' org ids /\ id ∈ ids.
Proof.
  intros He (ids & Hi & Hin). destruct (ids_at_evolves _ _ _ _ He Hi) as (ids' & Hi' & [t ->] & _).
  exists (ids ++ t). split; [done|]. apply list.elem_of_app. by left.
Qed.

(** ** Reading and writing *)

Lemma wp_decoded {A B} (P : A -> Prop) (r : result StoreError A)
    (k : A -> result StoreError B) (Q : result StoreError B -> kv -> Prop) m :
  (forall a, r = Ok a -> P a) ->
  (forall a m', P a -> evolves m m' -> Q (k a) m') ->
  (forall e m', evolves m m' -> Q (Err e) m') ->
  wp (pure (rbind r k)) Q m.
Proof.
  intros Hp Hok Herr. apply wp_pure. intros m' He. destruct r as [a|e]; cbn; auto.
Qed.

Lemma wp_load id (Q : result StoreError (option ApiKeyRecord) -> kv -> Prop) m :
  (forall m', evolves m m' -> Q (Ok None) m') ->
  (forall m0 m' r, evolves m m0 -> evolves m0 m' -> key_at m0 id r -> Q (Ok (Some r)) m') ->
  (forall e m', evolves m m' -> Q (Err e) m') ->
  wp (load id) Q m.
Proof.
  intros Hnone Hsome Herr. apply wp_qbind, wp_kv_get.
  2:{ intros e m' He m2 He2. apply Herr. by etrans. }
  intros m0 m1 He0 He1. destruct (m0 !! key_path id) as [e|] eqn:Hm0; cbn [value_of fmap option_fmap option_map].
  2:{ apply wp_pure. intros m2 He2. apply Hnone. do 2 (etrans; [done|]). done. }
  apply (wp_decoded (fun r => key_at m0 id r)).
  - intros r Hr. by exists e.
  - intros r m2 Hr He2. eapply (Hsome m0); [done|by etrans|done].
  - intros err m2 He2. apply Herr. do 2 (etrans; [done|]). done.
Qed.

Lemma wp_load_versioned id
    (Q : result StoreError (option (ApiKeyRecord * N)) -> kv -> Prop) m :
  (forall m', evolves m m' -> Q (Ok None) m') ->
  (forall m0 m' r, evolves m m0 -> evolves m0 m' -> key_at m0 id r ->
     Q (Ok (Some (r, rev_of (m0 !! key_path id)))) m') ->
  (forall e m', evolves m m' -> Q (Err e) m') ->
  wp (load_versioned id) Q m.
Proof.
  intros Hnone Hsome Herr. apply wp_qbind, wp_get_versioned.
  2:{ intros e m' He m2 He2. apply Herr. by etrans. }
  intros m0 m1 He0 He1. destruct (m0 !! key_path id) as [e|] eqn:Hm0.
  2:{ apply wp_pure. intros m2 He2. apply Hnone. do 2 (etrans; [done|]). done. }
  apply (wp_decoded (fun r => key_at m0 id r)).
  - intros r Hr. by exists e.
  - intros r m2 Hr He2. replace (vv_mod_revision e) with (rev_of (m0 !! key_path id))
      by (by rewrite Hm0). eapply Hsome; [done|by etrans|done].
  - intros err m2 He2. apply Herr. do 2 (etrans; [done|]). done.
Qed.

Lemma wp_index_get org (Q : result StoreError (list string) -> kv -> Prop) m :
  (forall m0 m' ids, evolves m m0 -> evolves m0 m' -> ids_at m0 org ids -> Q (Ok ids) m') ->
  (forall e m', evolves m m' -> Q (Err e) m') ->
  wp (index_get org) Q m.
Proof.
  intros Hok Herr. apply wp_qbind, wp_kv_get.
  2:{ intros e m' He m2 He2. apply Herr. by etrans. }
  intros m0 m1 He0 He1.
  destruct (m0 !! org_index_path org) as [e|] eqn:Hm0; cbn [value_of fmap option_fmap option_map].
  - apply wp_pure. intros m2 He2. destruct (ids_of_json (vv_value e)) as [ids|] eqn:Hd; cbn.
    + eapply (Hok m0); [done|by etrans|]. unfold ids_at. by rewrite Hm0.
    + apply Herr. do 2 (etrans; [done|]). done.
  - apply wp_pure. intros m2 He2. eapply (Hok m0); [done|by etrans|].
    unfold ids_at. by rewrite Hm0.
Qed.

Lemma wp_cache_insert {B} id r (k : prog key_cache B) Q m :
  (forall m', evolves m m' -> wp k Q m') -> wp (let! _ := cache_insert id r in k) Q m.
Proof. intros Hk. apply wp_bind, wp_with_lock; auto. Qed.

Lemma decode_stored r value :
  to_value (stored_of r) = Some value -> decode_key r.(key_id) value = Ok r.
Proof.
  intros Hv. unfold decode_key. rewrite (serde_roundtrip _ _ Hv). cbn [ok_or rbind].
  rewrite record_stored. cbn. by rewrite String.eqb_refl.
Qed.

Lemma wp_write_key id r' value m0 m (Q : put_reply -> kv -> Prop) :
  evolves m0 m -> r'.(key_id) = id -> writable r'.(org_id) -> to_value (stored_of r') = Some value ->
  match m0 !! key_path id with
  | None => True
  | Some e => exists r, decode_key id e.(vv_value) = Ok r /\ record_succ r r'
  end ->
  (forall m' r2, evolves m m' -> key_at m' id r2 -> record_le r' r2 -> Q (Ok Applied) m') ->
  (forall m', evolves m m' -> Q (Ok Mismatch) m') ->
  (forall e m', evolves m m' -> Q (Err e) m') ->
  wp (put_if_revision (key_path id) value (rev_of (m0 !! key_path id))) Q m.
Proof.
  intros He <- HP Hv Hold Happ Hmis Herr. pose proof (decode_stored _ _ Hv) as Hd.
  assert (Hg : G (key_path (key_id r')) (value_of (m0 !! key_path (key_id r'))) value).
  { apply key_guarantee. exists r'. do 2 (split; [done|]). by destruct (m0 !! key_path (key_id r')). }
  apply wp_put_over; [done|done| |done|done].
  intros e m1 m' He' Hm Hm'.
  destruct (key_at_evolves (<[key_path (key_id r') := e]> m1) m' (key_id r') r')
    as (r2 & Hr2 & Hle); [done| |by eapply Happ].
  exists e. rewrite lookup_insert_eq. by rewrite He'.
Qed.

(** The first write of a record. *)
Lemma wp_new_key r value m (Q : put_reply -> kv -> Prop) id :
  r.(key_id) = id -> writable r.(org_id) -> to_value (stored_of r) = Some value ->
  (forall m', (exists r', key_at m' id r' /\ record_le r r') -> Q (Ok Applied) m') ->
  (forall m', evolves m m' -> Q (Ok Mismatch) m') ->
  (forall e m', evolves m m' -> Q (Err e) m') ->
  wp (put_if_revision (key_path id) value 0) Q m.
Proof.
  intros <- HP Hv Happ Hmis Herr. pose proof (decode_stored _ _ Hv) as Hd.
  apply wp_put_if_revision.
  - intros m' _ ->%cas_absent. apply key_guarantee. by exists r.
  - intros m1 rev m' _ _ _ Hm'. apply Happ.
    eapply (key_at_evolves _ m'); [exact Hm'|].
    eexists. rewrite lookup_insert_eq. split; [done|]. exact Hd.
  - intros m1 m' Hm1 _ Hm'. apply Hmis. by etrans.
  - intros e m' Hm'. by apply Herr.
Qed.

Lemma wp_index_add_loop retries org id m :
  writable org ->
  wp (index_add_loop retries (org_index_path org) id)
     (fun res m' => res = Ok tt -> exists ids, ids_at m' org ids /\ id ∈ ids) m.
Proof.
  intros HP. revert m. induction retries as [|retries IH]; intros m; cbn [index_add_loop].
  { by apply wp_pure. }
  apply wp_qbind, wp_get_versioned; [|done].
  intros m0 m1 Hm0 Hm1.
  assert (Hids : forall ids, ids_at m0 org ids ->
    wp (if bool_decide (id ∈ ids) then pure (Ok tt)
        else
          let!? outcome := put_if_revision (org_index_path org) (json_ids (ids ++ [id]))
                             (rev_of (m0 !! org_index_path org)) in
          match outcome with
          | Applied => pure (Ok tt)
          | Mismatch => index_add_loop retries (org_index_path org) id
          end)
       (fun res m' => res = Ok tt -> exists ids, ids_at m' org ids /\ id ∈ ids) m1).
  { intros ids Hi. case_bool_decide as Hin.
    - apply wp_pure. intros m2 Hm2 _. apply (ids_at_elem m0); [by etrans|eauto].
    - apply wp_qbind, wp_put_over; [done| | |auto|done].
      + apply index_guarantee; [done|]. exists (ids ++ [id]), id. split; [apply ids_json_roundtrip|].
        unfold ids_at in Hi. destruct (m0 !! org_index_path org) as [e|]; cbn.
        * by exists ids.
        * by rewrite Hi.
      + intros e m2 m3 Hv _ Hm3. apply wp_pure. intros m4 Hm4 _.
        eapply ids_at_elem; [etrans; [exact Hm3|exact Hm4]|]. exists (ids ++ [id]).
        split; [|apply list.elem_of_app; right; apply list_elem_of_here].
        unfold ids_at. rewrite lookup_insert_eq, Hv. apply ids_json_roundtrip. }
  unfold ids_at in Hids. destruct (m0 !! org_index_path org) as [e|] eqn:Hm; cbn [rev_of] in Hids.
  - apply wp_pure_q; [|done]. intros [ids rev] Hr. inv_ok. by apply Hids.
  - apply wp_pure_q; [|done]. intros [ids rev] [= <- <-]. by apply Hids.
Qed.

(** ** Requests *)

(** A record that was stored while the request ran, and where it is now. *)
Definition seen_at m id r : Prop := exists r', key_at m id r' /\ record_le r r'.

Lemma seen_now m m' id r : evolves m m' -> key_at m id r -> seen_at m' id r.
Proof. intros He Hr. destruct (key_at_evolves _ _ _ _ He Hr) as (r' & ? & ?). by exists r'. Qed.
Lemma seen_evolves m m' id r : evolves m m' -> seen_at m id r -> seen_at m' id r.
Proof.
  intros He (r1 & Hr1 & Hle). destruct (key_at_evolves _ _ _ _ He Hr1) as (r2 & Hr2 & Hle2).
  exists r2. split; [done|]. by eapply record_le_trans.
Qed.
Lemma key_at_id m id r : key_at m id r -> r.(key_id) = id.
Proof. intros (e & _ & Hd). unfold decode_key in Hd. inv_ok. done. Qed.

Notation prod_store self := (self.(ks_kv) = true).

(** [revoke] answers true only when the key of that organization is stored
    revoked, from then on. *)
Definition revoke_post (org id : string) (res : result StoreError bool) m : Prop :=
  res = Ok true -> exists r, key_at m id r /\ r.(revoked) = true /\ r.(org_id) = org.

Lemma wp_revoke_key_loop retries org id m :
  writable org -> wp (revoke_loop retries org id) (revoke_post org id) m.
Proof.
  intros HP. revert m. induction retries as [|retries IH]; intros m; cbn [revoke_loop]; [by apply wp_pure|].
  apply wp_qbind, wp_load_versioned; [by intros; apply wp_pure| |done].
  intros m0 m1 r Hm0 Hm1 Hr.
  destruct (String.eqb_spec (org_id r) org) as [Ho|]; cbn [negb]; [|by apply wp_pure].
  destruct (revoked r) eqn:Hv.
  - apply wp_cache_insert. intros m2 Hm2. apply wp_pure. intros m3 Hm3 _.
    exists r. split; [|done]. eapply key_at_revoked; [|done|done]. do 2 (etrans; [done|]). done.
  - apply wp_pure_q; [|done]. intros v Hver%ok_or_ok%checked_add_some. destruct Hver as [-> _].
    apply wp_pure_q; [|done]. intros value Hval%ok_or_ok.
    pose proof (key_at_id _ _ _ Hr) as Hid. pose proof Hr as (e & He & Hd).
    apply wp_qbind, (wp_write_key id (revoked_record r (version r + 1)));
      [done|done|by rewrite <- Ho in HP|done| | |auto|done].
    + rewrite He. exists r. split; [done|]. split; [done|by left].
    + intros m' r2 Hm' Hr2 Hle. apply wp_cache_insert. intros m2 Hm2. apply wp_pure.
      intros m3 Hm3 _. exists r2.
      assert (r2 = revoked_record r (version r + 1)) as -> by (destruct Hle as [->|[? _]]; done).
      split; [|done]. eapply key_at_revoked; [etrans; [exact Hm2|exact Hm3]|done|done].
Qed.

Lemma wp_revoke_key self org id m :
  prod_store self -> writable org -> wp (revoke self org id) (revoke_post org id) m.
Proof. intros Hkv HP. unfold revoke. rewrite Hkv. by apply wp_revoke_key_loop. Qed.

(** [rotate] returns a key only when a record with the new secret's hash and
    this request's marker was stored for that organization. *)
Definition rotate_post (org id secret hash marker : string)
    (res : result StoreError (option (string * ApiKeyMeta))) m : Prop :=
  forall raw meta, res = Ok (Some (raw, meta)) ->
  exists r, seen_at m id r /\ r.(org_id) = org /\ r.(secret_hash) = hash
  /\ r.(last_rotation_idempotency_hash) = Some marker
  /\ raw = raw_key r.(env) id secret /\ meta = meta_of r.

Lemma wp_rotate_loop retries org id secret hash marker m :
  writable org ->
  wp (rotate_loop retries org id secret hash marker) (rotate_post org id secret hash marker) m.
Proof.
  intros HP. revert m. induction retries as [|retries IH]; intros m; cbn [rotate_loop]; [by apply wp_pure|].
  apply wp_qbind, wp_load_versioned; [by intros; apply wp_pure| |done].
  intros m0 m1 r Hm0 Hm1 Hr. pose proof (key_at_id _ _ _ Hr) as Hid.
  destruct (String.eqb_spec (org_id r) org) as [Ho|]; cbn [negb]; [|by apply wp_pure].
  destruct (rotation_replay r secret hash marker) as [answer|] eqn:Hrep.
  - apply wp_pure. intros m2 Hm2 raw meta ->. unfold rotation_replay in Hrep.
    case_bool_decide as Hmk; [|by case_match].
    destruct (String.eqb_spec (secret_hash r) hash) as [Hh|]; cbn [negb] in Hrep; [|done].
    injection Hrep as <- <-. exists r. rewrite Hid. split_and!; try done.
    eapply seen_now; [|done]. by etrans.
  - assert (Hrev : revoked r = false).
    { unfold rotation_replay in Hrep. case_bool_decide; [done|]. by destruct (revoked r). }
    apply wp_pure_q; [|done]. intros v Hver%ok_or_ok%checked_add_some. destruct Hver as [-> _].
    apply wp_pure_q; [|done]. intros value Hval%ok_or_ok. pose proof Hr as (e & He & Hd).
    apply wp_qbind, (wp_write_key id (rotated_record r hash marker (version r + 1)));
      [done|done|by rewrite <- Ho in HP|done| | |auto|done].
    + rewrite He. exists r. split; [done|]. split; [done|]. right. by exists hash, marker.
    + intros m' r2 Hm' Hr2 Hle. apply wp_cache_insert. intros m2 Hm2. apply wp_pure.
      intros m3 Hm3 raw meta [= <- <-]. exists (rotated_record r hash marker (version r + 1)).
      split; [|by rewrite <- Hid].
      eapply seen_evolves; [etrans; [exact Hm2|exact Hm3]|]. by exists r2.
Qed.

(** [create] returns a key only when its record is stored and indexed. *)
Definition create_post (rec : ApiKeyRecord) (raw : string)
    (res : result StoreError (string * ApiKeyMeta)) m : Prop :=
  forall raw' meta, res = Ok (raw', meta) ->
  raw' = raw
  /\ (exists r, seen_at m rec.(key_id) r /\ meta = meta_of r
      /\ (r = rec \/ same_create_request r rec = true))
  /\ exists ids, ids_at m rec.(org_id) ids /\ rec.(key_id) ∈ ids.

Lemma wp_create self mutation org nm scs en req now m :
  prod_store self -> writable org ->
  let rec := created_record self mutation org nm scs en req now in
  wp (create self mutation org nm scs en req now)
     (create_post rec (raw_key en rec.(key_id) (create_secret self mutation org))) m.
Proof.
  intros Hkv HP rec. unfold create. rewrite Hkv. fold rec.
  apply wp_pure_q; [|done]. intros value Hval%ok_or_ok.
  assert (Hindexed : forall r m1, seen_at m1 (key_id rec) r ->
    r = rec \/ same_create_request r rec = true ->
    wp (let!? _ := index_add org (key_id rec) in
        let! _ := cache_insert (key_id rec) r in
        pure (Ok (raw_key en (key_id rec) (create_secret self mutation org), meta_of r)))
       (create_post rec (raw_key en rec.(key_id) (create_secret self mutation org))) m1).
  { intros r m1 Hr Hsame. apply wp_qbind.
    eapply wp_frame; [|by apply wp_index_add_loop].
    intros [[]|e] m2 Hm2 Hidx; [|done]. specialize (Hidx eq_refl).
    apply wp_cache_insert. intros m3 Hm3. apply wp_pure. intros m4 Hm4 raw' meta [= <- <-].
    assert (Hm24 : evolves m2 m4) by (by etrans).
    split; [done|]. split; [|by eapply ids_at_elem].
    exists r. split; [|done]. eapply seen_evolves; [|done]. by etrans. }
  apply wp_qbind, (wp_new_key rec); [done|done|done| | |done].
  - intros m' Hr. apply Hindexed; [done|by left].
  - intros m' _. apply wp_qbind, wp_load; [by intros; apply wp_pure| |done].
    intros m0 m1 r Hm0 Hm1 Hr.
    destruct (same_create_request r rec) eqn:Hsame; cbn [negb]; [|by apply wp_pure].
    apply Hindexed; [by eapply seen_now|by right].
Qed.

(** [introspect]: a valid answer rests on a stored, indexed record that was
    not revoked and whose secret was presented, and a record that was revoked
    at [m0] never makes one. *)
Definition introspect_post self m0 (raw : string) (res : result StoreError Introspection) m
  : Prop :=
  forall intro, res = Ok intro ->
  (intro.(in_valid) = true ->
     exists en id secret r,
       parse_raw_key raw = Some (en, id, secret) /\ seen_at m id r
       /\ r.(revoked) = false /\ r.(env) = en
       /\ verify_secret_hash r.(secret_hash) secret self.(ks_api_key_pepper)
            self.(ks_allow_legacy_sha256) = true
       /\ (exists ids, ids_at m r.(org_id) ids /\ id ∈ ids)
       /\ intro = {| in_valid := true; in_org_id := Some r.(org_id);
                     in_key_id := Some r.(key_id);
                     in_scopes := List.filter (fun scope => negb (is_admin_scope scope)) r.(scopes);
                     in_require_idempotency := r.(require_idempotency) |})
  /\ (forall en id secret r, parse_raw_key raw = Some (en, id, secret) -> key_at m0 id r ->
        r.(revoked) = true -> intro = introspection_invalid).

Lemma introspect_invalid_post self m0 raw m :
  introspect_post self m0 raw (Ok introspection_invalid) m.
Proof. by intros intro [= <-]. Qed.

Lemma wp_introspect self m0 raw m :
  prod_store self -> evolves m0 m ->
  wp (introspect self raw) (introspect_post self m0 raw) m.
Proof.
  intros Hkv Hm. unfold introspect. rewrite Hkv.
  destruct (parse_raw_key raw) as [[[en id] secret]|] eqn:Hp;
    [|apply wp_pure; intros; apply introspect_invalid_post].
  apply wp_qbind, wp_load; [intros; apply wp_pure; intros; apply introspect_invalid_post| |done].
  intros m1 m2 r Hm1 Hm2 Hr. apply wp_qbind, wp_index_get; [|done].
  intros m3 m4 ids Hm3 Hm4 Hids. apply wp_cache_insert. intros m5 Hm5. apply wp_pure.
  intros m6 Hm6. case_bool_decide as Hin; [|apply introspect_invalid_post].
  assert (Hm36 : evolves m3 m6) by (do 2 (etrans; [done|]); done).
  assert (Hm16 : evolves m1 m6) by (do 2 (etrans; [done|]); done).
  intros intro [= <-]. split.
  - intros Hv. apply verify_valid in Hv as (Hrev & Hen & Hs & Heq).
    exists en, id, secret, r. rewrite Heq. split_and!; try done.
    + by eapply seen_now.
    + eapply ids_at_elem; [exact Hm36|eauto].
  - rewrite Hp. intros ? ? ? r0 [= <- <- <-] Hr0 Hrev.
    assert (key_at m1 id r0) as Hr1 by (eapply key_at_revoked; [etrans; [exact Hm|done]|done|done]).
    rewrite <- (key_at_inj _ _ _ _ Hr Hr1) in Hrev. unfold verify. by rewrite Hrev.
Qed.

(** [list] returns only keys of the organization that were stored. *)
Definition list_post (org : string) (res : result StoreError (list ApiKeyMeta)) m : Prop :=
  forall metas, res = Ok metas ->
  Forall (fun meta => exists r, meta = meta_of r /\ r.(org_id) = org
                                /\ seen_at m r.(key_id) r) metas.

Lemma wp_list_ids org ids out m :
  Forall (fun meta => exists r, meta = meta_of r /\ r.(org_id) = org
                                /\ seen_at m r.(key_id) r) out ->
  wp (list_ids org ids out) (list_post org) m.
Proof.
  assert (Hmore : forall out m m', evolves m m' ->
    Forall (fun meta => exists r, meta = meta_of r /\ r.(org_id) = org
                                  /\ seen_at m r.(key_id) r) out ->
    Forall (fun meta => exists r, meta = meta_of r /\ r.(org_id) = org
                                  /\ seen_at m' r.(key_id) r) out).
  { intros o m1 m2 Hm. apply Forall_impl. intros meta (r & ? & ? & ?). exists r.
    do 2 (split; [done|]). by eapply seen_evolves. }
  revert out m. induction ids as [|id ids IH]; intros out m Hout; cbn [list_ids].
  { apply wp_pure. intros m' Hm' metas [= <-]. by eapply Hmore. }
  apply wp_qbind, wp_load; [| |done].
  - intros m' Hm'. by eapply IH, Hmore.
  - intros m0 m' r Hm0 Hm' Hr. apply IH. pose proof (key_at_id _ _ _ Hr) as Hid.
    assert (Hmm' : evolves m m') by (by etrans). specialize (Hmore _ _ _ Hmm' Hout).
    destruct (String.eqb_spec (org_id r) org) as [Ho|]; [|done].
    apply Forall_app. split; [done|]. constructor; [|constructor].
    exists r. do 2 (split; [done|]). rewrite Hid. by apply (seen_now m0).
Qed.

Lemma wp_list self org m : prod_store self -> wp (list_keys self org) (list_post org) m.
Proof.
  intros Hkv. unfold list_keys. rewrite Hkv. apply wp_qbind, wp_index_get; [|done].
  intros m0 m' ids _ _ _. apply wp_list_ids. constructor.
Qed.

Lemma wp_rotate self actor idem org id m :
  prod_store self -> writable org ->
  wp (rotate self actor idem org id)
     (rotate_post org id (rotation_secret self actor idem org id)
        (hash_secret (rotation_secret self actor idem org id) self.(ks_api_key_pepper))
        (derive_idempotency self "rotate-marker" [actor; org; id; idem])) m.
Proof. intros Hkv HP. unfold rotate. rewrite Hkv. by apply wp_rotate_loop. Qed.
End rely.
