(* ===== verification/KeySystem.v ===== *)
(** * The key service as a whole

    Any number of replicas serve the operations of the key store concurrently
    against one key-value service, next to clients that write other keys, with
    dropped requests and failing service calls. *)
From Stdlib Require Import Ascii String.
From S2P Require Import Prelude Text Wire Samples Json Kv Model Store Keys KeyFacts KeySafety.

Inductive key_request :=
  | Req_create (mutation : MutationIdentity) (org name : string) (scopes : list string)
      (env : string) (require_idempotency : bool) (now_ms : N)
  | Req_list (org : string)
  | Req_revoke (org id : string)
  | Req_rotate (actor idempotency org id : string)
  | Req_introspect (raw : string).
Inductive key_answer :=
  | Ans_key (r : result StoreError (string * ApiKeyMeta))
  | Ans_list (r : result StoreError (list ApiKeyMeta))
  | Ans_revoked (r : result StoreError bool)
  | Ans_rotated (r : result StoreError (option (string * ApiKeyMeta)))
  | Ans_introspection (r : result StoreError Introspection).

Section system.
Context `{Crypto, !Serde StoredKey, !SerdeLaws StoredKey, !IdsJson, !IdsJsonLaws,
          !CacheValues}.
Context {W : Type} `{!Service W, !ServiceLaws W}.
Context (self : KeyStore) (production : self.(ks_kv) = true).
Notation client := (prog key_cache (option (key_request * key_answer))).
Notation state c := (entries c.(cf_service)).

Definition serve (request : key_request) : client :=
  match request with
  | Req_create mutation org nm scs en req now =>
      let! answer := create self mutation org nm scs en req now in
      Ret (Some (request, Ans_key answer))
  | Req_list org =>
      let! answer := list_keys self org in Ret (Some (request, Ans_list answer))
  | Req_revoke org id =>
      let! answer := revoke self org id in Ret (Some (request, Ans_revoked answer))
  | Req_rotate actor idem org id =>
      let! answer := rotate self actor idem org id in Ret (Some (request, Ans_rotated answer))
  | Req_introspect raw =>
      let! answer := introspect self raw in Ret (Some (request, Ans_introspection answer))
  end.

(** A client that never writes a key or an index. *)
Fixpoint foreign {A} (p : prog key_cache (option A)) : Prop :=
  match p with
  | Ret a => a = None
  | Local f k => forall s, foreign (k s)
  | Get _ k => forall r, foreign (k r)
  | Put path _ _ k =>
      (forall id, path <> key_path id) /\ (forall org, path <> org_index_path org)
      /\ forall r, foreign (k r)
  end.
Definition key_client (p : client) : Prop := (exists request, p = serve request) \/ foreign p.
Definition reaches (c c' : config (S:=key_cache) (A:=option (key_request * key_answer)) (W:=W))
  : Prop := c.(cf_requests) = [] /\ rtc (config_step key_client) c c'.

(** What clients may write when only keys of the [writable] organizations
    change. *)
Definition key_rule_of (writable : string -> Prop) (path : string) (old : option Value)
    (new : Value) : Prop :=
  (forall id, path = key_path id -> key_write writable id old new)
  /\ (forall org, path = org_index_path org -> writable org /\ index_write old new).
Notation key_rule := (key_rule_of (fun _ => True)).
Notation no_local_claim := (fun (_ : key_cache) (_ : kv) => True).
Implicit Types (writable : string -> Prop).

Lemma rule_key_rely writable id old new :
  key_rule_of writable (key_path id) old new -> key_write writable id old new.
Proof. intros [Hk _]. by apply Hk. Qed.
Lemma rule_key_guarantee writable id old new :
  key_write writable id old new -> key_rule_of writable (key_path id) old new.
Proof. intros Hw. split; [by intros ? <-%key_path_inj|done]. Qed.
Lemma rule_index_rely writable org old new :
  key_rule_of writable (org_index_path org) old new -> index_write old new.
Proof. intros [_ Hi]. by eapply Hi. Qed.
Lemma rule_index_guarantee writable org old new :
  writable org -> index_write old new -> key_rule_of writable (org_index_path org) old new.
Proof.
  intros HP Hw. split; [|by intros ? <-%org_index_path_inj].
  intros id Heq. by destruct (key_path_not_index id org).
Qed.
Lemma index_unwritable writable m m' org :
  evolves (key_rule_of writable) m m' -> ~ writable org ->
  m' !! org_index_path org = m !! org_index_path org.
Proof.
  intros He Hn. specialize (He (org_index_path org)).
  apply rtc_inv_r in He as [->|(o & _ & e & _ & _ & [_ Hg])]; [done|].
  by destruct Hn, (Hg org eq_refl).
Qed.

(** The organization a request may write. *)
Definition written_org (request : key_request) : option string :=
  match request with
  | Req_create _ org _ _ _ _ _ | Req_revoke org _ | Req_rotate _ _ org _ => Some org
  | Req_list _ | Req_introspect _ => None
  end.
Definition writes_only writable (request : key_request) : Prop :=
  forall org, written_org request = Some org -> writable org.

Definition answered m0 (a : option (key_request * key_answer)) (m : kv) : Prop :=
  match a with
  | Some (Req_create mutation org nm scs en req now, Ans_key r) =>
      let rec := created_record self mutation org nm scs en req now in
      create_post rec (raw_key en rec.(key_id) (create_secret self mutation org)) r m
  | Some (Req_list org, Ans_list r) => list_post org r m
  | Some (Req_revoke org id, Ans_revoked r) => revoke_post org id r m
  | Some (Req_rotate actor idem org id, Ans_rotated r) =>
      rotate_post org id (rotation_secret self actor idem org id)
        (hash_secret (rotation_secret self actor idem org id) self.(ks_api_key_pepper))
        (derive_idempotency self "rotate-marker" [actor; org; id; idem]) r m
  | Some (Req_introspect raw, Ans_introspection r) => introspect_post self m0 raw r m
  | _ => True
  end.

(** Answers stay justified while other requests run. *)
Lemma answered_evolves writable m0 a m m' :
  evolves (key_rule_of writable) m m' -> answered m0 a m -> answered m0 a m'.
Proof.
  intros He. destruct a as [[[mutation org nm scs en req now|org|org id|actor idem org id|raw]
                             [r|r|r|r|r]]|]; cbn [answered]; try done.
  - intros Hp raw meta Hr. destruct (Hp raw meta Hr) as (Hraw & (r0 & Hs & Hrest) & Hi).
    split; [done|]. split.
    + exists r0. split; [|done]. by eapply (seen_evolves _ _ (rule_key_rely writable)).
    + by eapply (ids_at_elem _ (rule_index_rely writable)).
  - intros Hp metas Hr. eapply Forall_impl; [|by apply Hp].
    intros meta (r0 & ? & ? & Hs). exists r0. do 2 (split; [done|]).
    by eapply (seen_evolves _ _ (rule_key_rely writable)).
  - intros Hp Hr. destruct (Hp Hr) as (r0 & Hk & Hv & Ho). exists r0. split; [|done].
    by eapply (key_at_revoked _ _ (rule_key_rely writable)).
  - intros Hp raw meta Hr. destruct (Hp raw meta Hr) as (r0 & Hs & Hrest).
    exists r0. split; [|done]. by eapply (seen_evolves _ _ (rule_key_rely writable)).
  - intros Hp intro Hr. destruct (Hp intro Hr) as [Hv Hi]. split; [|done].
    intros Hvalid. destruct (Hv Hvalid) as (en & id & secret & r0 & Hraw & Hs & Hrev & Hen & Hsec & Hidx & Heq).
    exists en, id, secret, r0. split; [done|].
    split; [by eapply (seen_evolves _ _ (rule_key_rely writable))|]. do 3 (split; [done|]).
    split; [by eapply (ids_at_elem _ (rule_index_rely writable))|done].
Qed.

Lemma key_serve_wp writable m0 m request :
  evolves (key_rule_of writable) m0 m -> writes_only writable request ->
  wp (key_rule_of writable) no_local_claim (serve request) (answered m0) m.
Proof.
  intros He Hw.
  assert (Hret : forall (A : Type) (p : prog key_cache A) (tag : A -> key_answer),
    wp (key_rule_of writable) no_local_claim p
      (fun r m' => answered m0 (Some (request, tag r)) m') m ->
    wp (key_rule_of writable) no_local_claim (let! r := p in Ret (Some (request, tag r)))
      (answered m0) m).
  { intros A p tag Hp. apply wp_bind. eapply wp_frame; [|exact Hp].
    intros a m1 _ Ha m2 Hm2. by eapply (answered_evolves writable). }
  pose proof (rule_key_rely writable) as Hkr. pose proof (rule_key_guarantee writable) as Hkg.
  pose proof (rule_index_rely writable) as Hir.
  pose proof (rule_index_guarantee writable) as Hig.
  destruct request as [mutation org nm scs en req now|org|org id|actor idem org id|raw];
    cbn [serve]; apply Hret.
  - apply (wp_create _ _ Hkr Hkg Hir Hig); [done|by apply Hw].
  - by apply (wp_list _ _ Hkr).
  - apply (wp_revoke_key _ _ Hkr Hkg); [done|by apply Hw].
  - apply (wp_rotate _ _ Hkr Hkg); [done|by apply Hw].
  - by apply (wp_introspect _ _ Hkr Hir).
Qed.

Lemma key_foreign_wp {A} writable (Q : option A -> kv -> Prop) m p :
  (forall m', Q None m') -> foreign p -> wp (key_rule_of writable) no_local_claim p Q m.
Proof.
  intros HQ. revert m.
  induction p as [a|f k IH|key k IH|path v prev k IH]; cbn; intros m Hf.
  - intros ? _; subst. apply HQ.
  - intros. split; [done|]. by apply IH.
  - intros. by apply IH.
  - destruct Hf as (Hk & Hi & Hf). intros. split; [|intros; by apply IH].
    intros _. split; [intros id ->; by destruct (Hk id)|intros org ->; by destruct (Hi org)].
Qed.

Lemma key_client_wp m0 m p :
  evolves key_rule m0 m -> key_client p -> wp key_rule no_local_claim p (answered m0) m.
Proof. intros He [[request ->]|Hf]; [by apply key_serve_wp|by apply key_foreign_wp]. Qed.

Lemma key_system_answers c c' :
  reaches c c' ->
  evolves key_rule (state c) (state c')
  /\ forall n a, (n, Ret a) ∈ c'.(cf_requests) -> answered (state c) a (state c').
Proof.
  intros [Hr Hs].
  eapply (system_safe key_rule no_local_claim key_client); eauto using key_client_wp.
  apply list.Forall_true. auto.
Qed.

Lemma key_reaches_evolves c0 c c' :
  reaches c0 c -> rtc (config_step key_client) c c' -> evolves key_rule (state c) (state c').
Proof.
  intros [Hr Hs] Hs'.
  eapply (system_evolves key_rule no_local_claim key_client (answered (state c0)) (state c0));
    eauto using key_client_wp.
  apply list.Forall_true. auto.
Qed.

(** C5: the life of an API key: between any two states of a run, with any
    requests of all replicas in flight at both, the id, organization, name,
    scopes and environment of a stored key stay the same; its record is
    unchanged or has a larger version; and once it is revoked nothing about
    it ever changes again, so no rotation and no retry revives it.  The index
    of an organization only grows, at its end, and never gains a
    duplicate. *)
Theorem key_life c0 c c' :
  reaches c0 c -> rtc (config_step key_client) c c' ->
  (forall id r, key_at (state c) id r ->
     exists r', key_at (state c') id r'
     /\ (r' = r \/ (r.(revoked) = false /\ same_identity r r' /\ r.(version) < r'.(version))))
  /\ (forall org ids, ids_at (state c) org ids ->
        exists ids', ids_at (state c') org ids' /\ ids `prefix_of` ids'
        /\ (NoDup ids -> NoDup ids')).
Proof.
  intros Hr Hs. pose proof (key_reaches_evolves _ _ _ Hr Hs) as He. split.
  - intros id r. by eapply (key_at_evolves _ _ (rule_key_rely _)).
  - intros org ids. by eapply (ids_at_evolves _ (rule_index_rely _)).
Qed.

(** A revoked key is refused everywhere: if a key is stored revoked while no
    request is running ([AuthSystem.v] has the statement with requests in
    flight), then every introspection of it that starts later and is answered,
    on any replica, with any secret, and whatever runs next to it, is invalid;
    and a revoke request that was answered [true] left the key stored
    revoked. *)
Theorem revoked_key_refused c c' :
  reaches c c' ->
  (forall n raw intro env id secret r,
     (n, Ret (Some (Req_introspect raw, Ans_introspection (Ok intro)))) ∈ c'.(cf_requests) ->
     parse_raw_key raw = Some (env, id, secret) ->
     key_at (state c) id r -> r.(revoked) = true -> intro = introspection_invalid)
  /\ (forall n org id,
     (n, Ret (Some (Req_revoke org id, Ans_revoked (Ok true)))) ∈ c'.(cf_requests) ->
     exists r, key_at (state c') id r /\ r.(revoked) = true /\ r.(org_id) = org).
Proof.
  intros [_ Hans]%key_system_answers. split.
  - intros n raw intro en id secret r Ha Hp Hk Hr.
    by eapply (proj2 (Hans _ _ Ha intro eq_refl)).
  - intros n org id Ha. by apply (Hans _ _ Ha).
Qed.

(** What a valid introspection proves: under every interleaving, a valid
    answer was given for a well-formed key of which a record was stored, not
    revoked, of the presented environment, listed in its organization's
    index, and whose stored hash is that of the presented secret; it names
    that record's organization and key id, and its scopes are the record's
    without any administrative one. *)
Theorem introspection_sound c c' n raw intro :
  reaches c c' ->
  (n, Ret (Some (Req_introspect raw, Ans_introspection (Ok intro)))) ∈ c'.(cf_requests) ->
  intro.(in_valid) = true ->
  exists env id secret r r',
    parse_raw_key raw = Some (env, id, secret)
    /\ key_at (state c') id r' /\ record_le r r'
    /\ r.(revoked) = false /\ r.(Model.env) = env
    /\ verify_secret_hash r.(secret_hash) secret self.(ks_api_key_pepper)
         self.(ks_allow_legacy_sha256) = true
    /\ (exists ids, ids_at (state c') r.(org_id) ids /\ id ∈ ids)
    /\ intro.(in_org_id) = Some r.(org_id) /\ intro.(in_key_id) = Some id
    /\ (forall scope, scope ∈ intro.(in_scopes) <->
          scope ∈ r.(scopes) /\ scope <> "admin" /\ starts_with scope "admin:" = false).
Proof.
  intros [_ Hans]%key_system_answers Ha Hv.
  destruct (proj1 (Hans _ _ Ha intro eq_refl) Hv)
    as (en & id & secret & r & Hp & (r' & Hk & Hle) & Hrev & Hen & Hs & Hidx & ->).
  assert (Hid : key_id r = id).
  { pose proof (key_at_id _ _ _ Hk) as Hid. destruct Hle as [->|(_ & (Hi & _) & _)]; congruence. }
  exists en, id, secret, r, r'. cbn [in_org_id in_key_id in_scopes]. rewrite Hid.
  do 9 (split; [done|]). intros scope.
  rewrite list_elem_of_In, filter_In, <- list_elem_of_In. unfold is_admin_scope.
  rewrite negb_true_iff, orb_false_iff, String.eqb_neq. done.
Qed.

(** An issued key is stored and listed: under every interleaving, when a
    create request was answered with a key, the raw key is the one derived
    from the request, a record with its id is stored that is the request's
    own or was made by an earlier attempt of exactly the same request, and
    the organization's index lists it; keys that a list request returned
    belong to the organization asked for; and a rotation that was answered
    with a key had stored that key's hash. *)
Theorem issued_keys_stored c c' :
  reaches c c' ->
  (forall n mutation org nm scs en req now raw meta,
     (n, Ret (Some (Req_create mutation org nm scs en req now, Ans_key (Ok (raw, meta)))))
       ∈ c'.(cf_requests) ->
     let rec := created_record self mutation org nm scs en req now in
     raw = raw_key en rec.(key_id) (create_secret self mutation org)
     /\ (exists r, seen_at (state c') rec.(key_id) r /\ meta = meta_of r
         /\ (r = rec \/ same_create_request r rec = true))
     /\ exists ids, ids_at (state c') org ids /\ rec.(key_id) ∈ ids)
  /\ (forall n org metas,
     (n, Ret (Some (Req_list org, Ans_list (Ok metas)))) ∈ c'.(cf_requests) ->
     Forall (fun meta => meta.(m_org_id) = org) metas)
  /\ (forall n actor idem org id raw meta,
     (n, Ret (Some (Req_rotate actor idem org id, Ans_rotated (Ok (Some (raw, meta))))))
       ∈ c'.(cf_requests) ->
     exists r, seen_at (state c') id r /\ r.(org_id) = org
     /\ r.(secret_hash)
        = hash_secret (rotation_secret self actor idem org id) self.(ks_api_key_pepper)
     /\ raw = raw_key r.(env) id (rotation_secret self actor idem org id)
     /\ meta = meta_of r).
Proof.
  intros [_ Hans]%key_system_answers. split; [|split].
  - intros n mutation org nm scs en req now raw meta Ha rec.
    by apply (Hans _ _ Ha raw meta eq_refl).
  - intros n org metas Ha. eapply Forall_impl; [|by apply (Hans _ _ Ha metas eq_refl)].
    by intros meta (r & -> & Ho & _).
  - intros n actor idem org id raw meta Ha.
    destruct (Hans _ _ Ha raw meta eq_refl) as (r & Hs & Ho & Hh & _ & Hraw & Hmeta).
    by exists r.
Qed.
End system.
