(* ===== verification/KeyRun.v ===== *)
(** * The key store run alone

    The functional behaviour of [create], [rotate] and [introspect] against a
    service that answers every request, and executions on concrete inputs. *)
From Stdlib Require Import Ascii String.
From S2P Require Import Prelude Text Wire Samples Json Kv Interleave Model Store Keys KeyFacts KeySafety.
From S2P Require Import KeySystem SampleCodecs.

Section solo.
Context `{CryptoLaws, !Serde StoredKey, !SerdeLaws StoredKey, !IdsJson, !IdsJsonLaws,
          !CacheValues}.
Implicit Types (w : mapkv) (r : ApiKeyRecord) (cache : key_cache).
Context (self : KeyStore) (production : self.(ks_kv) = true).

Lemma run_load_key id w cache r :
  key_at (mk_entries w) id r -> run (load id) w cache = (Ok (Some r), w, cache).
Proof.
  intros (e & He & Hd). unfold load, kv_get, get_versioned. rewrite !run_qbind.
  cbn -[key_path]. unfold mapkv_get. rewrite He. cbn. by rewrite Hd.
Qed.
Lemma run_load_versioned id w cache r :
  key_at (mk_entries w) id r ->
  run (load_versioned id) w cache
  = (Ok (Some (r, rev_of (mk_entries w !! key_path id))), w, cache).
Proof.
  intros (e & He & Hd). unfold load_versioned, get_versioned. rewrite !run_qbind.
  cbn -[key_path]. unfold mapkv_get. rewrite He. cbn. by rewrite Hd.
Qed.
Lemma run_index_get org w cache ids :
  ids_at (mk_entries w) org ids -> run (index_get org) w cache = (Ok ids, w, cache).
Proof.
  unfold ids_at, index_get, kv_get, get_versioned. intros Hi. rewrite !run_qbind.
  cbn -[org_index_path]. unfold mapkv_get.
  destruct (mk_entries w !! org_index_path org) as [e|]; cbn; by rewrite ?Hi.
Qed.

Lemma run_cache_insert {B} id r (k : prog key_cache B) w cache :
  run (let! _ := cache_insert id r in k) w cache = run k w (<[id := r]> cache).
Proof. done. Qed.

Lemma key_at_written w id r value :
  r.(key_id) = id -> to_value (stored_of r) = Some value ->
  key_at (mk_entries (written w (key_path id) value)) id r.
Proof.
  intros <- Hv. eexists. cbn. rewrite lookup_insert_eq. split; [done|].
  by apply decode_stored.
Qed.
Lemma ids_at_written_key w org ids id value :
  ids_at (mk_entries w) org ids -> ids_at (mk_entries (written w (key_path id) value)) org ids.
Proof. unfold ids_at. cbn. rewrite lookup_insert_ne; [done|apply key_path_not_index]. Qed.

(** What introspection answers for a stored and indexed key. *)
Lemma run_introspect raw en id secret w cache r ids :
  parse_raw_key raw = Some (en, id, secret) -> key_at (mk_entries w) id r ->
  ids_at (mk_entries w) r.(org_id) ids -> id ∈ ids ->
  fst (fst (run (introspect self raw) w cache))
  = Ok (verify r en secret self.(ks_api_key_pepper) self.(ks_allow_legacy_sha256)).
Proof.
  intros Hp Hr Hi Hin. unfold introspect. rewrite Hp, production.
  rewrite run_qbind, (run_load_key _ _ _ r Hr), run_qbind, (run_index_get _ _ _ ids Hi).
  rewrite run_cache_insert. by rewrite bool_decide_true.
Qed.

Lemma derived_shape purpose parts :
  String.length (derive_idempotency self purpose parts) = 64%nat
  /\ all_bytes is_lower_hex (derive_idempotency self purpose parts) = true.
Proof.
  unfold derive_idempotency. rewrite hex_lower_length, hmac_sha256_length.
  split; [done|]. apply hex_lower_all.
Qed.

Lemma rotate_parts r actor idem org id :
  r.(env) = "live" \/ r.(env) = "test" ->
  String.length id = 16%nat -> all_bytes is_lower_hex id = true ->
  key_parts r.(env) id (rotation_secret self actor idem org id).
Proof. intros He Hl Hh. constructor; [done|done|apply derived_shape]. Qed.

(** C31: rotation replaces the secret without overlap: rotating a live,
    indexed key with a new idempotency key answers with a raw key that is
    valid at once, with the version increased by one, and the key presented
    before stops being valid at the same instant, unless the two secrets
    have the same HMAC. *)
Theorem rotation_replaces_secret actor idem org id r ids old w cache :
  let marker := derive_idempotency self "rotate-marker" [actor; org; id; idem] in
  let secret := rotation_secret self actor idem org id in
  revisions_positive w -> (forall s, is_Some (to_value (A:=StoredKey) s)) ->
  key_at (mk_entries w) id r -> r.(org_id) = org -> ids_at (mk_entries w) org ids -> id ∈ ids ->
  r.(revoked) = false -> r.(last_rotation_idempotency_hash) <> Some marker ->
  r.(version) < u64_max -> key_parts r.(env) id old ->
  exists meta w' cache',
    run (rotate self actor idem org id) w cache
    = (Ok (Some (raw_key r.(env) id secret, meta)), w', cache')
    /\ meta.(m_version) = r.(version) + 1
    /\ (exists intro, fst (fst (run (introspect self (raw_key r.(env) id secret)) w' cache')) = Ok intro
        /\ intro.(in_valid) = true)
    /\ (hmac_sha256 self.(ks_api_key_pepper) old <> hmac_sha256 self.(ks_api_key_pepper) secret ->
        fst (fst (run (introspect self (raw_key r.(env) id old)) w' cache'))
        = Ok introspection_invalid).
Proof.
  intros marker secret Hpos Hser Hr Ho Hi Hin Hrev Hmk Hver Hold.
  set (hash := hash_secret secret (ks_api_key_pepper self)).
  set (r' := rotated_record r hash marker (version r + 1)).
  destruct (Hser (stored_of r')) as [value Hvalue].
  pose proof (key_at_id _ _ _ Hr) as Hid.
  exists (meta_of r'), (written w (key_path id) value), (<[id := r']> cache).
  assert (Hr' : key_at (mk_entries (written w (key_path id) value)) id r')
    by (by apply key_at_written).
  assert (Hi' : ids_at (mk_entries (written w (key_path id) value)) (org_id r') ids).
  { change (org_id r') with (org_id r). rewrite Ho. by apply ids_at_written_key. }
  destruct Hold as [Henv [Hlen Hhex] Hsec].
  assert (Hnew : parse_raw_key (raw_key (env r) id secret) = Some (env r, id, secret))
    by (apply parse_raw_key_some; split; [done|by apply rotate_parts]).
  assert (Hpold : parse_raw_key (raw_key (env r) id old) = Some (env r, id, old))
    by (by apply parse_raw_key_some).
  split; [|split; [done|split]].
  - unfold rotate. rewrite production. fold marker secret hash. unfold MAX_CAS_RETRIES.
    cbn [rotate_loop]. rewrite run_qbind, (run_load_versioned _ _ _ r Hr), Ho, String.eqb_refl.
    cbn [negb]. unfold rotation_replay. rewrite bool_decide_false, Hrev by done.
    unfold next_version, checked_add. destruct (N.ltb_spec u64_max (version r + 1)); [lia|].
    rewrite run_pure_q. cbn [ok_or]. fold r'. rewrite run_pure_q, Hvalue. cbn [ok_or].
    rewrite run_qbind, run_put by done. rewrite run_cache_insert. cbn. by rewrite Hid.
  - erewrite run_introspect by done. eexists. split; [done|]. unfold verify.
    rewrite (proj2 (verify_hashed secret secret _ _) eq_refl : verify_secret_hash (secret_hash r') _ _ _ = true).
    change (revoked r') with (revoked r). change (env r') with (env r).
    by rewrite Hrev, String.eqb_refl.
  - intros Hne. erewrite run_introspect by done. f_equal. apply verify_invalid.
    destruct (in_valid _) eqn:Hv; [|done].
    apply verify_valid in Hv as (_ & _ & Hs & _).
    change (secret_hash r') with hash in Hs. apply verify_hashed in Hs. by destruct Hne.
Qed.
End solo.

(** ** A concrete rendering of stored keys *)

Definition opt_value {A} (f : A -> Value) (o : option A) : Value :=
  match o with
  | Some a => f a
  | None => Null
  end.
Definition get_opt {A} (v : Value) (key : string) (f : Value -> option A) : option (option A) :=
  match value_get v key with
  | Some Null => Some None
  | Some x => Some <$> f x
  | None => None
  end.
Definition strings_of (v : Value) : option (list string) :=
  l ← as_array v; mapM (M:=option) as_str l.

Definition stored_value (s : StoredKey) : Value :=
  Object [("key_id", Str s.(sk_key_id)); ("org_id", Str s.(sk_org_id)); ("name", Str s.(sk_name));
          ("secret_hash", Str s.(sk_secret_hash));
          ("create_idempotency_hash", Str s.(sk_create_idempotency_hash));
          ("last_rotation_idempotency_hash", opt_value Str s.(sk_last_rotation_idempotency_hash));
          ("scopes", Array (Str <$> s.(sk_scopes))); ("created_ms", num s.(sk_created_ms));
          ("last_used_ms", opt_value num s.(sk_last_used_ms)); ("revoked", Bool s.(sk_revoked));
          ("version", num s.(sk_version)); ("env", Str s.(sk_env));
          ("require_idempotency", Bool s.(sk_require_idempotency))].
Definition stored_from (v : Value) : option StoredKey :=
  id ← get_str v "key_id"; org ← get_str v "org_id"; nm ← get_str v "name";
  hash ← get_str v "secret_hash"; marker ← get_str v "create_idempotency_hash";
  rotation ← get_opt v "last_rotation_idempotency_hash" as_str;
  scs ← value_get v "scopes" ≫= strings_of; created ← get_u64 v "created_ms";
  used ← get_opt v "last_used_ms" as_u64; rev ← value_get v "revoked" ≫= as_bool;
  ver ← get_u64 v "version"; en ← get_str v "env";
  req ← value_get v "require_idempotency" ≫= as_bool;
  Some {| sk_key_id := id; sk_org_id := org; sk_name := nm; sk_secret_hash := hash;
          sk_create_idempotency_hash := marker; sk_last_rotation_idempotency_hash := rotation;
          sk_scopes := scs; sk_created_ms := created; sk_last_used_ms := used; sk_revoked := rev;
          sk_version := ver; sk_env := en; sk_require_idempotency := req |}.

Lemma strings_roundtrip l : mapM (M:=option) as_str (Str <$> l) = Some l.
Proof. induction l as [|s l IH]; [done|]. cbn. cbn in IH. by rewrite IH. Qed.

#[export] Instance stored_serde : Serde StoredKey := {
  to_value s := Some (stored_value s);
  from_value := stored_from
}.
#[export] Instance stored_serde_laws : SerdeLaws StoredKey.
Proof.
  split. intros [? ? ? ? ? rot scs ? used ? ? ? ?] ? [= <-]. unfold from_value, stored_serde.
  unfold stored_from, get_str, get_u64, get_opt. cbn -[strings_of].
  unfold strings_of. cbn -[mapM]. rewrite strings_roundtrip. cbn. by destruct rot, used.
Qed.
#[export] Instance sample_ids : IdsJson := {
  json_ids ids := Array (Str <$> ids);
  ids_of_json := strings_of
}.
#[export] Instance sample_ids_laws : IdsJsonLaws.
Proof. intros l. apply strings_roundtrip. Qed.
#[export] Instance sample_cache_values : CacheValues := fun m => snd <$> map_to_list m.

(** ** Concrete executions *)

Definition sample_store : KeyStore :=
  {| ks_kv := true; ks_idempotency_secret := "idempotency"; ks_api_key_pepper := "pepper";
     ks_allow_legacy_sha256 := false |}.
Definition who (key : string) : MutationIdentity := {| actor_id := "user"; idempotency_key := key |}.
Definition create_request : key_request :=
  Req_create (who "c1") "org" "ci" ["kv:read"; "admin:write"] "live" true 5.

Definition after (request : key_request) (w : mapkv) : option (key_request * key_answer) * mapkv :=
  fst (run (serve sample_store request) w ∅).
Definition key1 : ApiKeyRecord :=
  created_record sample_store (who "c1") "org" "ci" ["kv:read"; "admin:write"] "live" true 5.
Definition raw1 : string := raw_key "live" key1.(key_id) (create_secret sample_store (who "c1") "org").
Definition kw1 : mapkv := snd (after create_request mapkv_empty).
Definition kw2 : mapkv := snd (after (Req_revoke "org" key1.(key_id)) kw1).
Definition rotated (idem : string) : string :=
  raw_key "live" key1.(key_id) (rotation_secret sample_store "user" idem "org" key1.(key_id)).
Definition rotate_request (idem : string) : key_request :=
  Req_rotate "user" idem "org" key1.(key_id).
Definition valid_answer (a : option (key_request * key_answer)) : option bool :=
  match a with
  | Some (_, Ans_introspection (Ok intro)) => Some intro.(in_valid)
  | _ => None
  end.

(** A created key is valid and never carries the administrative scope. *)
Example created_key_valid :
  fst (after (Req_introspect raw1) kw1)
  = Some (Req_introspect raw1, Ans_introspection (Ok
      {| in_valid := true; in_org_id := Some "org"; in_key_id := Some key1.(key_id);
         in_scopes := ["kv:read"]; in_require_idempotency := true |})).
Proof. vm_compute. reflexivity. Qed.

(** A late retry of an earlier rotation, after a later one, puts the replaced
    secret back: only the marker of the last rotation is remembered. *)
Theorem rotation_retry_revives_secret :
  let w1 := snd (after (rotate_request "r1") kw1) in
  let w2 := snd (after (rotate_request "r2") w1) in
  let w3 := snd (after (rotate_request "r1") w2) in
  valid_answer (fst (after (Req_introspect (rotated "r1")) w1)) = Some true
  /\ valid_answer (fst (after (Req_introspect (rotated "r1")) w2)) = Some false
  /\ valid_answer (fst (after (Req_introspect (rotated "r2")) w2)) = Some true
  /\ valid_answer (fst (after (Req_introspect (rotated "r1")) w3)) = Some true
  /\ valid_answer (fst (after (Req_introspect (rotated "r2")) w3)) = Some false.
Proof. vm_compute. split_and!; reflexivity. Qed.

Notation key_config w s rs := (@Build_config key_cache (option (key_request * key_answer)) mapkv
                                 w [s] rs).

Lemma key_after_reaches request w a :
  mapkv_wf w -> fst (after request w) = a ->
  mapkv_wf (snd (after request w))
  /\ exists s, reaches sample_store (key_config w ∅ [])
                 (key_config (snd (after request w)) s [(0%nat, Ret a)]).
Proof.
  unfold after. intros Hwf.
  destruct (run (serve sample_store request) w ∅) as [[a' w'] s'] eqn:Hrun.
  cbn [fst snd]. intros <-. split; [by eapply run_wf|]. exists s'. split; [done|]. eapply rtc_l.
  - apply (config_arrive (key_client sample_store) w [∅] [] 0 (serve sample_store request)).
    left. by exists request.
  - by apply run_steps.
Qed.

Lemma kw1_wf : mapkv_wf kw1.
Proof. apply (key_after_reaches create_request mapkv_empty _ mapkv_empty_wf eq_refl). Qed.
Lemma kw2_wf : mapkv_wf kw2.
Proof. apply (key_after_reaches (Req_revoke "org" key1.(key_id)) kw1 _ kw1_wf eq_refl). Qed.

Definition key_in (w : mapkv) : option ApiKeyRecord :=
  match value_of (mk_entries w !! key_path key1.(key_id)) with
  | Some v => match decode_key key1.(key_id) v with
              | Ok r => Some r
              | Err _ => None
              end
  | None => None
  end.
Lemma key_in_at w r : key_in w = Some r -> key_at (mk_entries w) key1.(key_id) r.
Proof.
  unfold key_in, key_at. destruct (mk_entries w !! _) as [e|]; cbn [value_of fmap option_fmap option_map];
    [|done].
  destruct (decode_key _ _) eqn:Hd; [|done]. intros [= <-]. by exists e.
Qed.
Lemma key1_stored : key_at (mk_entries kw1) key1.(key_id) key1.
Proof. apply key_in_at. vm_compute. reflexivity. Qed.
Lemma key1_revoked : key_at (mk_entries kw2) key1.(key_id) (revoked_record key1 2).
Proof. apply key_in_at. vm_compute. reflexivity. Qed.
Lemma key1_indexed : ids_at (mk_entries kw1) "org" [key1.(key_id)].
Proof. unfold ids_at. vm_compute. reflexivity. Qed.
Lemma raw1_parses :
  parse_raw_key raw1 = Some ("live"%string, key1.(key_id), create_secret sample_store (who "c1") "org").
Proof. vm_compute. reflexivity. Qed.

(** A rotation holds the revision it read when the revocation of the same key
    commits; it is then refused, and the key stays revoked. *)
Definition key_race : list key_request := [rotate_request "r1"; Req_revoke "org" key1.(key_id)].
Definition race_revoked : replica (S:=key_cache) (A:=option (key_request * key_answer)) :=
  phase (serve sample_store <$> key_race) ([0] ++ repeat 1 12)%nat (kw1, ∅, []).
Definition race_ended : replica (S:=key_cache) (A:=option (key_request * key_answer)) :=
  turns (repeat 0%nat 12) race_revoked.
Lemma race_revoked_stored :
  key_at (mk_entries (service_of race_revoked)) key1.(key_id) (revoked_record key1 2).
Proof. apply key_in_at. vm_compute. reflexivity. Qed.
Example late_rotation_refused :
  match race_revoked.2 !! 0%nat, race_ended.2 !! 0%nat with
  | Some (Ret _), _ => False
  | Some _, Some (Ret (Some (_, Ans_rotated (Ok None)))) => True
  | _, _ => False
  end.
Proof. vm_compute. exact I. Qed.

Lemma key_race_steps :
  reaches sample_store (as_config (kw1, ∅, [])) (as_config race_revoked)
  /\ rtc (config_step (key_client sample_store)) (as_config race_revoked) (as_config race_ended).
Proof.
  destruct (phase_steps (key_client sample_store) (serve sample_store <$> key_race)
              ([0] ++ repeat 1 12)%nat (kw1, ∅, []) kw1_wf) as [Hwf Hs].
  { repeat constructor; by eexists. }
  split; [by split|]. by apply turns_steps.
Qed.

Lemma key_life_witness :
  key_at (mk_entries (service_of race_ended)) key1.(key_id) (revoked_record key1 2).
Proof.
  destruct key_race_steps as [Hr Hs].
  pose proof (proj1 (key_life sample_store eq_refl _ _ _ Hr Hs) key1.(key_id)
                (revoked_record key1 2)) as Hlife.
  rewrite !as_config_state in Hlife.
  destruct (Hlife race_revoked_stored) as (r' & Hk & [->|(Hn & _)]).
  - exact Hk.
  - discriminate Hn.
Defined.

Lemma introspect_revoked_answer :
  fst (after (Req_introspect raw1) kw2)
  = Some (Req_introspect raw1, Ans_introspection (Ok introspection_invalid)).
Proof. vm_compute. reflexivity. Qed.

Lemma revoked_key_refused_witness :
  exists r, key_at (mk_entries kw2) key1.(key_id) r /\ r.(revoked) = true /\ r.(org_id) = "org"%string.
Proof.
  assert (Ha : fst (after (Req_revoke "org" key1.(key_id)) kw1)
               = Some (Req_revoke "org" key1.(key_id), Ans_revoked (Ok true)))
    by (vm_compute; reflexivity).
  destruct (key_after_reaches (Req_revoke "org" key1.(key_id)) kw1 _ kw1_wf Ha) as (_ & s & Hr).
  exact (proj2 (revoked_key_refused sample_store eq_refl _ _ Hr) 0%nat "org"%string key1.(key_id)
           (list_elem_of_here _ _)).
Defined.

Definition valid_intro : Introspection :=
  {| in_valid := true; in_org_id := Some "org"; in_key_id := Some key1.(key_id);
     in_scopes := ["kv:read"]; in_require_idempotency := true |}.
Lemma introspection_sound_witness :
  exists secret, parse_raw_key raw1 = Some ("live"%string, key1.(key_id), secret).
Proof.
  assert (Ha : fst (after (Req_introspect raw1) kw1)
               = Some (Req_introspect raw1, Ans_introspection (Ok valid_intro)))
    by (vm_compute; reflexivity).
  destruct (key_after_reaches (Req_introspect raw1) kw1 _ kw1_wf Ha) as (_ & s & Hr).
  destruct (introspection_sound sample_store eq_refl _ _ 0%nat raw1 valid_intro Hr
              (list_elem_of_here _ _) eq_refl)
    as (en & id & secret & r & r' & Hp & _ & _ & _ & _ & _ & _ & _ & Hid & _).
  pose proof raw1_parses as Hq. rewrite Hp in Hq.
  exists secret. rewrite Hp. injection Hq as -> -> ->. reflexivity.
Defined.

Lemma issued_keys_stored_witness :
  exists ids, ids_at (mk_entries kw1) "org" ids /\ key1.(key_id) ∈ ids.
Proof.
  assert (Ha : fst (after create_request mapkv_empty)
               = Some (create_request, Ans_key (Ok (raw1, meta_of key1))))
    by (vm_compute; reflexivity).
  destruct (key_after_reaches create_request mapkv_empty _ mapkv_empty_wf Ha) as (_ & s & Hr).
  destruct (proj1 (issued_keys_stored sample_store eq_refl _ _ Hr) 0%nat _ _ _ _ _ _ _ _ _
              (list_elem_of_here _ _)) as (_ & _ & Hids).
  exact Hids.
Defined.

Lemma rotation_replaces_secret_witness :
  exists meta w' cache',
    run (rotate sample_store "user" "r1" "org" key1.(key_id)) kw1 ∅
    = (Ok (Some (rotated "r1", meta)), w', cache') /\ meta.(m_version) = 2.
Proof.
  destruct (rotation_replaces_secret sample_store eq_refl "user" "r1" "org" key1.(key_id) key1
              [key1.(key_id)] (create_secret sample_store (who "c1") "org") kw1 ∅)
    as (meta & w' & cache' & Hrun & Hv & _).
  - apply bounded_revisions. vm_compute. reflexivity.
  - intros s. eexists. reflexivity.
  - exact key1_stored.
  - reflexivity.
  - exact key1_indexed.
  - apply list_elem_of_here.
  - reflexivity.
  - discriminate.
  - reflexivity.
  - apply (parse_raw_key_some raw1). exact raw1_parses.
  - exists meta, w', cache'. split; [exact Hrun|exact Hv].
Defined.
