(* ===== verification/Helpers.v ===== *)
(** * The helpers that modules keep a copy of

    Several modules of the program carry their own version of the same small
    function: the rendering of bytes in hexadecimal, the comparison of secrets
    and the reading of the clock.  The rest of the development uses one
    definition for each; here every copy is written as its module has it, and
    proved to be that definition. *)
From Stdlib Require Import Ascii String.
From S2P Require Import Prelude Text Keys KeyFacts.

(** ** Hexadecimal *)

Definition HEX : string := "0123456789abcdef".
(** [HEX[i] as char]; an index past the end panics. *)
Definition hex_at (i : N) : option ascii := String.get (N.to_nat i) HEX.
(** [char::from_digit], for a radix up to 36. *)
Definition from_digit (num radix : N) : option ascii :=
  if num <? radix
  then Some (ascii_of_N (if num <? 10 then 48 + num else 97 + (num - 10)))
  else None.

(** The loop that pushes the two digits of every byte; [None] is a panic. *)
Fixpoint push_digits (digit : N -> option ascii) (bytes output : string) : option string :=
  match bytes with
  | EmptyString => Some output
  | String byte rest =>
      high ← digit (N.shiftr (N_of_ascii byte) 4);
      low ← digit (N.land (N_of_ascii byte) 15);
      push_digits digit rest (output +:+ String high (String low EmptyString))
  end.
(** [to_hex] of [gate.rs], [hex_lower] of [routes.inc.rs], and [to_hex] of
    [keys.rs]. *)
Definition gate_to_hex (bytes : string) : option string := push_digits hex_at bytes "".
Definition ceremony_hex_lower (value : string) : option string := push_digits hex_at value "".
Definition keys_to_hex (bytes : string) : option string :=
  push_digits (fun nibble => from_digit nibble 16) bytes "".

(** [format!("{byte:02x}")]: the digits of the byte, at least two of them. *)
Definition format_02x (byte : N) : string :=
  if byte <? 16 then String "0" (String (hex_digit byte) EmptyString)
  else String (hex_digit (byte / 16)) (String (hex_digit (byte mod 16)) EmptyString).
(** [hex] of [token.rs]. *)
Fixpoint token_hex (bytes : string) : string :=
  match bytes with
  | EmptyString => EmptyString
  | String byte rest => format_02x (N_of_ascii byte) +:+ token_hex rest
  end.

(** ** Comparison of secrets *)

(** The loop over the zipped bytes. *)
Definition zip_diff (left right : string) : N :=
  List.fold_left (fun diff '(x, y) => N.lor diff (N.lxor (N_of_ascii x) (N_of_ascii y)))
    (zip (String.list_ascii_of_string left) (String.list_ascii_of_string right)) 0.
(** [constant_time_eq] of [main.rs] and of [fiducia-revocation-admin.rs]. *)
Definition server_constant_time_eq (a b : string) : bool :=
  if negb (String.length a =? String.length b)%nat then false
  else zip_diff a b =? 0.
Definition admin_constant_time_eq (left right : string) : bool :=
  if negb (String.length left =? String.length right)%nat then false
  else zip_diff left right =? 0.

(** ** Clocks *)

(** [SystemTime::now], in nanoseconds after the epoch, and its
    [duration_since(UNIX_EPOCH)], which fails before it. *)
Definition duration_since_epoch (system_time : Z) : option N :=
  if (system_time <? 0)%Z then None else Some (Z.to_N system_time).
Definition as_secs (duration : N) : N := duration / 1000000000.
Definition as_millis (duration : N) : N := duration / 1000000.

(** [now_secs] of [token.rs] and of [fiducia-revocation-admin.rs]. *)
Definition token_now_secs (system_time : Z) : N :=
  default 0 (as_secs <$> duration_since_epoch system_time).
Definition admin_now_secs (system_time : Z) : N :=
  as_secs (default 0 (duration_since_epoch system_time)).
(** [now_ms] of [keys.rs] ([as u64] keeps the low 64 bits) and of
    [routes.inc.rs]. *)
Definition keys_now_ms (system_time : Z) : N :=
  default 0 ((fun duration => as_millis duration mod (u64_max + 1))
             <$> duration_since_epoch system_time).
Definition ceremony_now_ms (system_time : Z) : N :=
  let millis := as_millis (default 0 (duration_since_epoch system_time)) in
  if millis <=? u64_max then millis else u64_max.

(** ** All copies agree *)

Lemma nibble_digits n :
  n < 16 -> hex_at n = Some (hex_digit n) /\ from_digit n 16 = Some (hex_digit n).
Proof.
  intros Hn.
  assert (Hin : In n (List.map N.of_nat (List.seq 0 16))).
  { apply in_map_iff. exists (N.to_nat n). split; [lia|]. apply in_seq. lia. }
  cbn in Hin. repeat (destruct Hin as [<-|Hin]; [split; reflexivity|]). destruct Hin.
Qed.

Lemma high_nibble a : N.shiftr (N_of_ascii a) 4 = N_of_ascii a / 16.
Proof. by rewrite N.shiftr_div_pow2. Qed.
Lemma low_nibble a : N.land (N_of_ascii a) 15 = N_of_ascii a mod 16.
Proof. change 15 with (N.ones 4). by rewrite N.land_ones. Qed.

Lemma push_digits_hex digit bytes output :
  (forall n, n < 16 -> digit n = Some (hex_digit n)) ->
  push_digits digit bytes output = Some (output +:+ hex_lower bytes).
Proof.
  intros Hd. revert output. induction bytes as [|a bytes IH]; intros output; cbn [push_digits].
  - by rewrite str_app_nil_r.
  - destruct (nibbles a) as [Hh Hl]. rewrite high_nibble, low_nibble, !Hd by done.
    cbn [mbind option_bind]. rewrite IH, str_app_assoc. done.
Qed.

(** Every rendering of bytes is the same, and none of them can panic on its
    table or on a digit. *)
Theorem hex_renderings_agree bytes :
  gate_to_hex bytes = Some (hex_lower bytes)
  /\ ceremony_hex_lower bytes = Some (hex_lower bytes)
  /\ keys_to_hex bytes = Some (hex_lower bytes)
  /\ token_hex bytes = hex_lower bytes.
Proof.
  split_and!; [apply push_digits_hex; apply nibble_digits..|].
  induction bytes as [|a bytes IH]; [done|]. cbn [token_hex hex_lower]. rewrite IH.
  unfold format_02x. destruct (N.ltb_spec (N_of_ascii a) 16) as [Hlt|]; [|done].
  by rewrite N.div_small, N.mod_small by done.
Qed.

Lemma zip_diff_xor left right : zip_diff left right = xor_diff 0 left right.
Proof.
  unfold zip_diff. generalize 0%N as diff. revert right.
  induction left as [|x left IH]; intros [|y right] diff; cbn; try done; apply IH.
Qed.

(** Every comparison of secrets is equality of the two strings. *)
Theorem secret_comparisons_agree a b :
  server_constant_time_eq a b = (a =? b)%string
  /\ admin_constant_time_eq a b = (a =? b)%string
  /\ constant_time_eq a b = (a =? b)%string.
Proof.
  assert (Heq : constant_time_eq a b = (a =? b)%string).
  { destruct (String.eqb_spec a b) as [->|Hne]; [by apply constant_time_eq_iff|].
    destruct (constant_time_eq a b) eqn:He; [|done]. by apply constant_time_eq_iff in He. }
  unfold server_constant_time_eq, admin_constant_time_eq. rewrite zip_diff_xor.
  split_and!; exact Heq.
Qed.

(** The time since the epoch, zero before it. *)
Definition since_epoch (system_time : Z) : N := default 0 (duration_since_epoch system_time).

Lemma since_epoch_mono t t' : (t <= t')%Z -> since_epoch t <= since_epoch t'.
Proof.
  unfold since_epoch, duration_since_epoch. intros Ht.
  destruct (Z.ltb_spec t 0), (Z.ltb_spec t' 0); cbn; lia.
Qed.
Lemma since_epoch_before t : (t < 0)%Z -> since_epoch t = 0.
Proof. unfold since_epoch, duration_since_epoch. intros Ht. by rewrite (proj2 (Z.ltb_lt _ _) Ht). Qed.

Lemma token_now_secs_eq t : token_now_secs t = as_secs (since_epoch t).
Proof. unfold token_now_secs, since_epoch. by destruct (duration_since_epoch t). Qed.
Lemma keys_now_ms_eq t : keys_now_ms t = as_millis (since_epoch t) mod (u64_max + 1).
Proof. unfold keys_now_ms, since_epoch. by destruct (duration_since_epoch t). Qed.
Lemma ceremony_now_ms_eq t : ceremony_now_ms t = N.min (as_millis (since_epoch t)) u64_max.
Proof.
  unfold ceremony_now_ms. fold (since_epoch t).
  destruct (N.leb_spec (as_millis (since_epoch t)) u64_max); lia.
Qed.

Lemma millis_secs nanos : as_millis nanos / 1000 = as_secs nanos.
Proof. unfold as_millis, as_secs. by rewrite N.Div0.div_div. Qed.
Lemma millis_fit t :
  (t < 1000000 * (Z.of_N u64_max + 1))%Z -> as_millis (since_epoch t) <= u64_max.
Proof.
  intros Ht. unfold as_millis, since_epoch, duration_since_epoch.
  apply N.lt_succ_r, N.Div0.div_lt_upper_bound. destruct (Z.ltb_spec t 0); cbn; lia.
Qed.

(** The clocks read one time: a clock before 1970 reads zero everywhere, both
    clocks of seconds agree, both clocks of milliseconds agree as long as the
    time fits, and then they are the seconds in milliseconds; the clock of the
    ceremonies never goes back while the system's does not, past the range
    too, where the one of the keys wraps around. *)
Theorem clocks_agree t t' :
  token_now_secs t = admin_now_secs t
  /\ ((t < 0)%Z -> token_now_secs t = 0 /\ keys_now_ms t = 0 /\ ceremony_now_ms t = 0)
  /\ ((t < 1000000 * (Z.of_N u64_max + 1))%Z ->
      keys_now_ms t = ceremony_now_ms t /\ keys_now_ms t / 1000 = token_now_secs t)
  /\ ((t <= t')%Z -> ceremony_now_ms t <= ceremony_now_ms t' /\ token_now_secs t <= token_now_secs t')
  /\ keys_now_ms (1000000 * (Z.of_N u64_max + 1)) = 0.
Proof.
  rewrite !token_now_secs_eq, !ceremony_now_ms_eq, (keys_now_ms_eq t).
  split_and!; [done| | | |vm_compute; reflexivity].
  - intros ->%since_epoch_before. by vm_compute.
  - intros Hm%millis_fit. rewrite N.mod_small, N.min_l by lia. split; [done|apply millis_secs].
  - intros Ht%since_epoch_mono. pose proof (N.Div0.div_le_mono _ _ 1000000 Ht).
    split; [unfold as_millis; lia|by apply N.Div0.div_le_mono].
Qed.
