(* ===== verification/Net.v ===== *)
(** * Requests, responses and URLs

    The parts of [http], [axum] and [url] the handlers touch: header lookup,
    status codes with a JSON body, and a parsed URL by its components.
    Parsing a URL is the [url] crate's and a parameter. *)
From Stdlib Require Import Ascii String.
From S2P Require Import Prelude Text Json Model.

(** [HeaderMap::get_all]: the values of a header, each as its bytes; and
    [HeaderMap::get], the first of them. *)
Notation HeaderMap := (string -> list string) (only parsing).
Definition header_get (headers : HeaderMap) (name : string) : option string := head (headers name).

(** [HeaderValue::to_str]: visible ASCII, space and tab only. *)
Definition header_byte (b : N) : bool := ((32 <=? b) && (b <? 127)) || (b =? 9).
Definition to_str (value : string) : option string :=
  if all_bytes header_byte value then Some value else None.
Definition header_str (headers : HeaderMap) (name : string) : option string :=
  header_get headers name ≫= to_str.

Lemma header_str_get headers name value :
  header_str headers name = Some value -> header_get headers name = Some value.
Proof.
  unfold header_str, to_str. destruct (header_get headers name) as [v|]; cbn; [|done].
  destruct (all_bytes header_byte v); [done|done].
Qed.

(** What [supabase::verify_session] answers for a bearer token; [Supabase.v]
    models the programs that compute it. *)
Class VerifySession := verify_session_answer : string -> option UserCtx.

(** A response: a status with the value it serializes, or a refusal with the
    [{ "error": code }] body of [error_response]. *)
Inductive Response (A : Type) :=
  | Respond (status : N) (body : A)
  | Refuse (status : N) (code : string).
Arguments Respond {A} status body.
Arguments Refuse {A} status code.
Definition status_of {A} (response : Response A) : N :=
  match response with
  | Respond status _ => status
  | Refuse status _ => status
  end.

Definition OK : N := 200.
Definition CREATED : N := 201.
Definition NO_CONTENT : N := 204.
Definition BAD_REQUEST : N := 400.
Definition UNAUTHORIZED : N := 401.
Definition FORBIDDEN : N := 403.
Definition NOT_FOUND : N := 404.
Definition CONFLICT : N := 409.
Definition GONE : N := 410.
Definition TOO_MANY_REQUESTS : N := 429.
Definition INTERNAL_SERVER_ERROR : N := 500.
Definition BAD_GATEWAY : N := 502.
Definition SERVICE_UNAVAILABLE : N := 503.

(** A response with the JSON it is written with. *)
Record HttpResponse := {
  hr_status : N;
  hr_no_store : bool;
  hr_body : Value
}.
Definition json_response (status : N) (body : Value) : HttpResponse :=
  {| hr_status := status; hr_no_store := false; hr_body := body |}.
Definition error_body (code : string) : Value := Object [("error", Str code)]%string.

(** [json!] of a value whose [Serialize] is derived. *)
Class ToJson (A : Type) := to_json : A -> Value.

(** What [std::env::var] fails with. *)
Inductive VarError := NotPresent | NotUnicode.

(** The routers, as they are built: the handlers a path pattern answers each
    method with, and the layers around them, the innermost first.  How [axum]
    matches a path against the patterns is its own. *)
Inductive Method := GET | POST | DELETE | OPTIONS.
#[global] Instance Method_eq_dec : EqDecision Method.
Proof. solve_decision. Defined.
Record CorsLayer := {
  cors_origin : string;
  cors_methods : list Method;
  cors_headers : list string
}.
Inductive Layer :=
  | TraceLayer
  | TimeoutLayer (seconds : N)
  | RequestBodyLimitLayer (bytes : N)
  | CatchPanicLayer
  | Cors (layer : CorsLayer).
Record Router (H : Type) := {
  rt_routes : list (string * list (Method * H));
  rt_layers : list Layer
}.
Arguments rt_routes {H} _.
Arguments rt_layers {H} _.
(** [Router::route] panics on a pattern given twice, and on a method given
    twice for one pattern. *)
Definition route_table_ok {H} (router : Router H) : Prop :=
  NoDup router.(rt_routes).*1 /\ Forall (fun route => NoDup route.2.*1) router.(rt_routes).
Definition methods_of {H} (router : Router H) : list Method :=
  router.(rt_routes) ≫= (fun route => route.2.*1).

(** [std::env::var(name).ok().and_then(|p| p.parse().ok()).unwrap_or(fallback)]
    of a [u16]. *)
Definition port_or (var : string -> option string) (name : string) (fallback : N) : N :=
  default fallback (var name ≫= parse_unsigned 65535).
Lemma port_or_bound var name fallback : fallback <= 65535 -> port_or var name fallback <= 65535.
Proof.
  intros Hf. unfold port_or. destruct (var name ≫= parse_unsigned 65535) as [port|] eqn:Hp; cbn; [|done].
  apply bind_Some in Hp as (text & _ & Hp). by eapply parse_unsigned_bound.
Qed.

(** [Url], by the accessors the program calls. *)
Record Url := {
  url_scheme : string;
  url_username : string;
  url_password : option string;
  url_host_str : option string;
  url_path : string;
  url_query : option string;
  url_fragment : option string
}.
Class UrlParse := url_parse : string -> option Url.
