(* ===== verification/CeremonyModel.v ===== *)
(** * Governance ceremonies: data ([src/src/governance_ceremony/model.inc.rs])

    The records, requests and errors of the approval ceremony, and the input
    validation and hashing helpers of [routes.inc.rs] and [integrity.inc.rs]
    that every part of it uses. *)
From Stdlib Require Import Ascii String.
From S2P Require Import Prelude Text Wire Json Kv.

Definition CONTRACT_VERSION : string := "1.0".
Definition OBJECT_KIND : string := "governance_webauthn_ceremony".
Definition VERIFIER_HEADER : string := "x-fiducia-governance-verifier-auth".
Definition IDEMPOTENCY_HEADER : string := "idempotency-key".
Definition DEFAULT_TTL_SECS : N := 300.
Definition MIN_TTL_SECS : N := 60.
Definition MAX_TTL_SECS : N := 900.
Definition MAX_CAS_ATTEMPTS : nat := 8.
Definition CEREMONY_ID_PREFIX : string := "gcer_".
Definition SHA256_URN_PREFIX : string := "sha256:".
Definition SHA256_HEX_BYTES : nat := 64.

Record ApprovalBinding := {
  b_tenant_id : string;
  b_participant_id : string;
  b_proposal_id : string;
  b_canonical_proposal_hash : string;
  b_policy_id : string;
  b_policy_version : N;
  b_policy_hash : string;
  b_continuity_state : string;
  b_continuity_generation : N;
  b_rp_id : string;
  b_origin : string;
  b_credential_generation : N;
  b_activation_credential_id : option string;
  b_created_at_ms : N;
  b_expires_at_ms : N
}.

Inductive CeremonyStatus := St_Pending | St_Claimed | St_Completed | St_Rejected | St_Expired.

Record TerminalVerification := {
  t_outcome : CeremonyStatus;
  t_reason : string;
  t_assertion_receipt_hash : option string;
  t_credential_id : option string;
  t_credential_generation : option N;
  t_completed_at_ms : N;
  t_result_hash : string
}.

Record CeremonyRecord := {
  cr_contract_version : string;
  cr_object_kind : string;
  cr_ceremony_id : string;
  cr_binding : ApprovalBinding;
  cr_binding_hash : string;
  cr_challenge_hash : string;
  cr_status : CeremonyStatus;
  cr_claim_id : option string;
  cr_fencing_token : N;
  cr_claimed_at_ms : option N;
  cr_terminal : option TerminalVerification
}.

Record BeginApprovalRequest := {
  br_org_id : string;
  br_participant_id : string;
  br_canonical_proposal_hash : string;
  br_policy_id : string;
  br_policy_version : N;
  br_policy_hash : string;
  br_continuity_state : string;
  br_continuity_generation : N;
  br_credential_generation : N;
  br_activation_credential_id : option string
}.

Record BeginApprovalResponse := {
  ba_ceremony_id : string;
  ba_binding_hash : string;
  ba_challenge : string;
  ba_challenge_hash : string;
  ba_rp_id : string;
  ba_origin : string;
  ba_expires_at_ms : N;
  ba_replayed : bool
}.

Record ClaimRequest := {
  cl_tenant_id : string;
  cl_participant_id : string;
  cl_claim_id : string;
  cl_fencing_token : N
}.

Record ClaimResponse := {
  ca_ceremony_id : string;
  ca_status : CeremonyStatus;
  ca_fencing_token : N;
  ca_replayed : bool;
  ca_taken_over : bool
}.

Record CompleteVerifiedRequest := {
  cv_tenant_id : string;
  cv_participant_id : string;
  cv_claim_id : string;
  cv_fencing_token : N;
  cv_binding_hash : string;
  cv_challenge_hash : string;
  cv_credential_id : string;
  cv_credential_generation : N;
  cv_assertion_receipt_hash : string;
  cv_user_verified : bool
}.

Record CompleteVerifiedResponse := {
  co_ceremony_id : string;
  co_status : CeremonyStatus;
  co_terminal : TerminalVerification;
  co_replayed : bool
}.

Inductive CeremonyError :=
  | CE_Disabled
  | CE_MissingConfig (name : string)
  | CE_WeakSecret (name : string)
  | CE_InvalidConfig (reason : string)
  | CE_InvalidRequest (reason : string)
  | CE_ProtectedState (reason : string)
  | CE_NotFound
  | CE_Conflict
  | CE_Expired
  | CE_StaleFencing
  | CE_AlreadyClaimed
  | CE_NotClaimed
  | CE_ClaimMismatch
  | CE_Unauthorized
  | CE_CasRetriesExhausted
  | CE_Webauthn (error : string)
  | CE_Store (e : StoreError)
  | CE_Json.

#[export] Instance CeremonyStatus_eq_dec : EqDecision CeremonyStatus.
Proof. solve_decision. Defined.
#[export] Instance ApprovalBinding_eq_dec : EqDecision ApprovalBinding.
Proof. solve_decision. Defined.
#[export] Instance TerminalVerification_eq_dec : EqDecision TerminalVerification.
Proof. solve_decision. Defined.
#[export] Instance CeremonyRecord_eq_dec : EqDecision CeremonyRecord.
Proof. solve_decision. Defined.

(** ** Validation *)

Definition validate_identifier (value field : string) : result CeremonyError unit :=
  reject str_is_empty value || (160 <? str_len value)
         || (any_control value || any_whitespace value)
    with CE_InvalidRequest "invalid_identifier" ;;
  Ok tt.

Definition validate_sha256_urn (value field : string) : result CeremonyError unit :=
  match strip_prefix "sha256:" value with
  | None => Err (CE_InvalidRequest "invalid_sha256_urn")
  | Some hex =>
      reject negb (String.length hex =? 64)%nat || negb (all_bytes ascii_hexdigit hex)
        with CE_InvalidRequest "invalid_sha256_urn" ;;
      Ok tt
  end.

Definition validate_idempotency_key (value : string) : result CeremonyError unit :=
  reject (str_len value <? 16) || (128 <? str_len value)
         || (any_whitespace value || any_control value)
    with CE_InvalidRequest "invalid_idempotency_key" ;;
  Ok tt.

Definition is_lower_hex (byte : N) : bool :=
  ascii_hexdigit byte && negb ((65 <=? byte) && (byte <=? 90)).

Definition validate_ceremony_id (value : string) : result CeremonyError unit :=
  match strip_prefix CEREMONY_ID_PREFIX value with
  | Some hex =>
      if (String.length hex =? SHA256_HEX_BYTES)%nat && all_bytes is_lower_hex hex then Ok tt
      else Err (CE_InvalidRequest "invalid_ceremony_id")
  | None => Err (CE_InvalidRequest "invalid_ceremony_id")
  end.

Definition validate_canonical_sha256_urn (value field : string) : result CeremonyError unit :=
  match strip_prefix SHA256_URN_PREFIX value with
  | Some hex =>
      if (String.length hex =? SHA256_HEX_BYTES)%nat && all_bytes is_lower_hex hex then Ok tt
      else Err (CE_InvalidRequest "invalid_sha256_urn")
  | None => Err (CE_InvalidRequest "invalid_sha256_urn")
  end.

(** [for (value, field) in values { check(value, field)?; }] *)
Fixpoint try_each {A E} (check : A -> result E unit) (values : list A) : result E unit :=
  match values with
  | [] => Ok tt
  | value :: rest =>
      let? _ := check value in
      try_each check rest
  end.

(** [ApprovalBinding::validate]. *)
Definition binding_validate (self : ApprovalBinding) : result CeremonyError unit :=
  let? _ := try_each (fun '(value, field) => validate_identifier value field)
    [(self.(b_tenant_id), "tenant_id"); (self.(b_participant_id), "participant_id");
     (self.(b_proposal_id), "proposal_id"); (self.(b_policy_id), "policy_id");
     (self.(b_continuity_state), "continuity_state"); (self.(b_rp_id), "rp_id");
     (self.(b_origin), "origin")]%string in
  let? _ := validate_sha256_urn self.(b_canonical_proposal_hash) "canonical_proposal_hash" in
  let? _ := validate_sha256_urn self.(b_policy_hash) "policy_hash" in
  reject (self.(b_policy_version) =? 0) || (self.(b_credential_generation) =? 0)
    with CE_InvalidRequest "policy_version and credential_generation must be positive" ;;
  reject self.(b_expires_at_ms) <=? self.(b_created_at_ms)
    with CE_InvalidRequest "ceremony expiry must be after creation" ;;
  match self.(b_activation_credential_id) with
  | Some credential_id => validate_identifier credential_id "activation_credential_id"
  | None => Ok tt
  end.

(** [CeremonyRecord::validate_identity]. *)
Definition validate_identity (self : CeremonyRecord) (tenant_id participant_id : string)
  : result CeremonyError unit :=
  reject negb (self.(cr_binding).(b_tenant_id) =? tenant_id)%string
         || negb (self.(cr_binding).(b_participant_id) =? participant_id)%string
    with CE_Unauthorized ;;
  Ok tt.

Definition corrupt (reason : string) : CeremonyError := CE_ProtectedState reason.
Definition stored_ok {A} (result : result CeremonyError A) (reason : string)
  : Prelude.result CeremonyError A := map_err (fun _ => corrupt reason) result.

(** ** Identifiers and hashes *)

Definition ceremony_path (ceremony_id : string) : string :=
  "__auth/governance/ceremonies/" +:+ ceremony_id.

Section crypto.
Context `{Crypto}.

Definition sha256_bytes (value : string) : string := "sha256:" +:+ hex_lower (sha256 value).
Definition sha256_json {A} `{ToVec A} (value : A) : result CeremonyError string :=
  let? bytes := ok_or (to_vec value) CE_Json in
  Ok (sha256_bytes bytes).

Definition binding_hash `{ToVec ApprovalBinding} (self : ApprovalBinding)
  : result CeremonyError string :=
  let? _ := binding_validate self in
  sha256_json self.

Definition ceremony_id (tenant_id participant_id proposal_id key : string) : string :=
  "gcer_" +:+ hex_lower (sha256 (framed [tenant_id; participant_id; proposal_id; key])).

(** [HmacSha256::new_from_slice] accepts keys of any length. *)
Definition derive_challenge (secret ceremony_id binding_hash : string)
  : result CeremonyError string :=
  Ok (b64url_encode (hmac_sha256 secret
        ("fiducia-governance-ceremony-v1" +:+ String "000" (framed [ceremony_id; binding_hash])))).
End crypto.

(** What the validators accept. *)
Lemma validate_identifier_ok value field :
  validate_identifier value field = Ok tt <->
  0 < str_len value <= 160 /\ any_whitespace value = false /\ any_control value = false.
Proof.
  unfold validate_identifier. rewrite reject_ok, !orb_false_iff, N.ltb_ge.
  assert (str_is_empty value = false <-> 0 < str_len value) as ->.
  { destruct value; unfold str_len; cbn; [split; [done|lia]|split; [lia|done]]. }
  naive_solver.
Qed.

Lemma try_each_ok {A E} (check : A -> result E unit) values :
  try_each check values = Ok tt <-> Forall (fun v => check v = Ok tt) values.
Proof.
  induction values as [|v values IH]; cbn [try_each]; [by split; [constructor|]|].
  rewrite rbind_ok, List.Forall_cons_iff, <- IH. split.
  - by intros ([] & ? & ?).
  - intros [? ?]. by exists tt.
Qed.

(** Equal rendered digests come from equal bytes, up to a collision. *)
Lemma sha256_bytes_inj `{Crypto} x y :
  sha256_bytes x = sha256_bytes y -> x = y \/ sha256_collision.
Proof. unfold sha256_bytes. intros Heq. injection Heq as Heq. by apply hex_sha256_inj. Qed.

Lemma sha256_json_inj `{Crypto} {A} `{!ToVec A, !ToVecLaws A} (a b : A) h :
  sha256_json a = Ok h -> sha256_json b = Ok h -> a = b \/ sha256_collision.
Proof.
  unfold sha256_json. intros Ha Hb. inv_ok.
  match goal with Heq : sha256_bytes _ = sha256_bytes _ |- _ =>
    apply sha256_bytes_inj in Heq as [Heq|]; [subst|by right] end.
  left. by eapply to_vec_inj.
Qed.
