(* ===== verification/ProtectedState.v ===== *)
(** * Protected ceremony state ([src/src/governance_ceremony/webauthn.rs])

    The authenticated envelope in which WebAuthn state is kept on the server,
    its keyring, and the adapter around the [webauthn-rs] library. *)
From Stdlib Require Import Ascii String.
From S2P Require Import Prelude Text Wire Samples Json Kv Net CeremonyModel.

Definition PROTECTED_STATE_CONTRACT_VERSION : string := "1.0".
Definition PROTECTED_STATE_OBJECT_KIND : string := "governance_webauthn_protected_bundle".
Definition PROTECTED_STATE_ALGORITHM : string := "xchacha20poly1305".
Definition XCHACHA_NONCE_BYTES : nat := 24.

Inductive ProtectedStateKind := PasskeyRegistration | PasskeyAuthentication.
#[export] Instance ProtectedStateKind_eq_dec : EqDecision ProtectedStateKind.
Proof. solve_decision. Defined.

Record ProtectedStateContext := {
  px_tenant_id : string;
  px_ceremony_id : string;
  px_binding_hash : string;
  px_state_kind : ProtectedStateKind;
  px_expires_at_ms : N
}.

Record ProtectedCeremonyState := {
  pe_contract_version : string;
  pe_object_kind : string;
  pe_algorithm : string;
  pe_key_id : string;
  pe_keyring_version : N;
  pe_state_kind : ProtectedStateKind;
  pe_nonce : string;
  pe_ciphertext : string;
  pe_associated_data_hash : string
}.

(** A key is its 32 bytes. *)
Record ProtectedStateCodec := {
  pc_active_key_id : string;
  pc_keyring_version : N;
  pc_keys : gmap string string
}.

(** The struct local to [associated_data]. *)
Record AssociatedData := {
  ad_contract_version : string;
  ad_object_kind : string;
  ad_algorithm : string;
  ad_key_id : string;
  ad_keyring_version : N;
  ad_context : ProtectedStateContext
}.

(** The XChaCha20-Poly1305 crate: key, nonce, text, associated data. *)
Class Aead := {
  aead_encrypt : string -> string -> string -> string -> option string;
  aead_decrypt : string -> string -> string -> string -> option string
}.
Class AeadLaws `{Aead} : Prop :=
  aead_roundtrip key nonce msg aad ct :
    aead_encrypt key nonce msg aad = Some ct -> aead_decrypt key nonce ct aad = Some msg.

(** RFC 8439: the cipher is a stream and the tag is computed from the
    ciphertext, so what decrypts is the encryption of the text it decrypts
    to, under the same key, nonce and associated data. *)
Class AeadTidy `{Aead} : Prop :=
  aead_tidy key nonce ct aad msg :
    aead_decrypt key nonce ct aad = Some msg -> aead_encrypt key nonce msg aad = Some ct.

(** A ciphertext that is authentic twice: under a key of each of two keyrings,
    with another key, nonce or associated data. *)
Definition aead_collision `{Aead} (keys keys' : gmap string string) : Prop :=
  exists id key nonce msg aad id' key' nonce' msg' aad' ct,
    keys !! id = Some key /\ aead_encrypt key nonce msg aad = Some ct
    /\ keys' !! id' = Some key' /\ aead_encrypt key' nonce' msg' aad' = Some ct
    /\ (key, nonce, aad) <> (key', nonce', aad').

(** [serde_json::from_slice] at one type, and its round trip with [to_vec]. *)
Class FromSlice (A : Type) := from_slice : string -> option A.
Class SliceLaws (A : Type) `{!ToVec A, !FromSlice A} : Prop :=
  slice_roundtrip (a : A) v : to_vec a = Some v -> from_slice v = Some a.

(** [ProtectedStateContext::validate]. *)
Definition context_validate (self : ProtectedStateContext) : result CeremonyError unit :=
  reject str_is_empty self.(px_tenant_id) || str_is_empty self.(px_ceremony_id)
    with CE_ProtectedState "tenant and ceremony identifiers are required" ;;
  let? _ := validate_sha256_urn self.(px_binding_hash) "binding_hash" in
  reject self.(px_expires_at_ms) =? 0
    with CE_ProtectedState "protected state expiry must be positive" ;;
  Ok tt.

(** ** The keyring *)

Definition bad_key_id (key_id : string) : bool :=
  str_is_empty key_id || (128 <? str_len key_id)
  || (any_whitespace key_id || any_control key_id).

(** [ProtectedStateCodec::new]. *)
Definition codec_new (active_key_id : string) (keyring_version : N) (keys : gmap string string)
  : result CeremonyError ProtectedStateCodec :=
  reject keyring_version =? 0
    with CE_ProtectedState "protected-state keyring version must be positive" ;;
  reject str_is_empty active_key_id || negb (bool_decide (is_Some (keys !! active_key_id)))
    with CE_ProtectedState "active protected-state key is missing" ;;
  reject bool_decide (keys = ∅) || existsb bad_key_id (fst <$> map_to_list keys)
    with CE_ProtectedState "protected-state key identifiers are invalid" ;;
  Ok {| pc_active_key_id := active_key_id; pc_keyring_version := keyring_version;
        pc_keys := keys |}.

Section codec.
Context `{Crypto, Aead, !ToVec AssociatedData}.

(** The loop of [from_base64_keys] over the map's entries in key order. *)
Fixpoint decode_keys (encoded_keys : list (string * string)) (keys : gmap string string)
  : result CeremonyError (gmap string string) :=
  match encoded_keys with
  | [] => Ok keys
  | (key_id, encoded) :: rest =>
      let? decoded := ok_or (b64url_decode encoded)
                        (CE_ProtectedState "invalid state-key encoding") in
      reject negb (String.length decoded =? 32)%nat
        with CE_ProtectedState "state key must be 32 bytes" ;;
      decode_keys rest (<[key_id := decoded]> keys)
  end.
Definition from_base64_keys (active_key_id : string) (keyring_version : N)
    (encoded_keys : list (string * string)) : result CeremonyError ProtectedStateCodec :=
  let? keys := decode_keys encoded_keys ∅ in
  codec_new active_key_id keyring_version keys.

(** ** The envelope *)

Definition associated_data (context : ProtectedStateContext) (key_id : string)
    (keyring_version : N) : result CeremonyError string :=
  ok_or (to_vec {| ad_contract_version := PROTECTED_STATE_CONTRACT_VERSION;
                   ad_object_kind := PROTECTED_STATE_OBJECT_KIND;
                   ad_algorithm := PROTECTED_STATE_ALGORITHM;
                   ad_key_id := key_id;
                   ad_keyring_version := keyring_version;
                   ad_context := context |}) CE_Json.

(** [entropy] is what [getrandom] returned for the 24-byte nonce. *)
Definition seal {T} `{!ToVec T} (self : ProtectedStateCodec) (entropy : option string)
    (context : ProtectedStateContext) (value : T) : result CeremonyError ProtectedCeremonyState :=
  let? _ := context_validate context in
  let? key := ok_or (self.(pc_keys) !! self.(pc_active_key_id))
                (CE_ProtectedState "active protected-state key is unavailable") in
  let? associated_data := associated_data context self.(pc_active_key_id)
                            self.(pc_keyring_version) in
  let? plaintext := ok_or (to_vec value) CE_Json in
  let? nonce := ok_or entropy (CE_ProtectedState "nonce generation failed") in
  let? ciphertext := ok_or (aead_encrypt key nonce plaintext associated_data)
                       (CE_ProtectedState "state encryption failed") in
  Ok {| pe_contract_version := PROTECTED_STATE_CONTRACT_VERSION;
        pe_object_kind := PROTECTED_STATE_OBJECT_KIND;
        pe_algorithm := PROTECTED_STATE_ALGORITHM;
        pe_key_id := self.(pc_active_key_id);
        pe_keyring_version := self.(pc_keyring_version);
        pe_state_kind := context.(px_state_kind);
        pe_nonce := b64url_encode nonce;
        pe_ciphertext := b64url_encode ciphertext;
        pe_associated_data_hash := sha256_bytes associated_data |}.

(** [ProtectedStateCodec::open]. *)
Definition open_envelope {T} `{!FromSlice T} (self : ProtectedStateCodec)
    (context : ProtectedStateContext) (envelope : ProtectedCeremonyState)
  : result CeremonyError T :=
  let? _ := context_validate context in
  reject negb (envelope.(pe_contract_version) =? PROTECTED_STATE_CONTRACT_VERSION)%string
         || negb (envelope.(pe_object_kind) =? PROTECTED_STATE_OBJECT_KIND)%string
         || negb (envelope.(pe_algorithm) =? PROTECTED_STATE_ALGORITHM)%string
         || (envelope.(pe_keyring_version) =? 0)
         || negb (bool_decide (envelope.(pe_state_kind) = context.(px_state_kind)))
    with CE_ProtectedState "protected-state envelope metadata mismatch" ;;
  let? key := ok_or (self.(pc_keys) !! envelope.(pe_key_id))
                (CE_ProtectedState "protected-state key is unavailable") in
  let? associated_data := associated_data context envelope.(pe_key_id)
                            envelope.(pe_keyring_version) in
  reject negb (envelope.(pe_associated_data_hash) =? sha256_bytes associated_data)%string
    with CE_ProtectedState "protected-state associated data mismatch" ;;
  let? nonce := ok_or (b64url_decode envelope.(pe_nonce))
                  (CE_ProtectedState "invalid protected-state nonce") in
  reject negb (String.length nonce =? XCHACHA_NONCE_BYTES)%nat
    with CE_ProtectedState "invalid protected-state nonce" ;;
  let? ciphertext := ok_or (b64url_decode envelope.(pe_ciphertext))
                       (CE_ProtectedState "invalid protected-state ciphertext") in
  let? plaintext := ok_or (aead_decrypt key nonce ciphertext associated_data)
                      (CE_ProtectedState "protected-state authentication failed") in
  ok_or (from_slice plaintext) CE_Json.

Definition require_kind (context : ProtectedStateContext) (required : ProtectedStateKind)
  : result CeremonyError unit :=
  reject negb (bool_decide (context.(px_state_kind) = required))
    with CE_ProtectedState "protected-state ceremony kind mismatch" ;;
  Ok tt.
End codec.

(** ** The adapter *)

(** The [webauthn-rs] safe API.  The operations that draw randomness take it
    as their first argument. *)
Class WebauthnRs := {
  WebauthnBuilder : Type;
  Webauthn : Type;
  CreationChallengeResponse : Type;
  PasskeyRegistration_ : Type;
  RegisterPublicKeyCredential : Type;
  Passkey : Type;
  RequestChallengeResponse : Type;
  PasskeyAuthentication_ : Type;
  PublicKeyCredential : Type;
  AuthenticationResult : Type;
  wa_builder : string -> Url -> result string WebauthnBuilder;
  wa_build : WebauthnBuilder -> result string Webauthn;
  start_passkey_registration : string -> Webauthn -> string -> string -> string ->
    option (list string) -> result string (CreationChallengeResponse * PasskeyRegistration_);
  finish_passkey_registration : Webauthn -> RegisterPublicKeyCredential ->
    PasskeyRegistration_ -> result string Passkey;
  start_passkey_authentication : string -> Webauthn -> list Passkey ->
    result string (RequestChallengeResponse * PasskeyAuthentication_);
  finish_passkey_authentication : Webauthn -> PublicKeyCredential ->
    PasskeyAuthentication_ -> result string AuthenticationResult
}.

Record RegistrationBundle `{WebauthnRs} := {
  rb_client_options : Value;
  rb_state : PasskeyRegistration_
}.
Record AuthenticationBundle `{WebauthnRs} := {
  ab_client_options : Value;
  ab_state : PasskeyAuthentication_
}.
Record GovernanceWebauthn `{WebauthnRs} := {
  gw_webauthn : Webauthn;
  gw_protected_state : ProtectedStateCodec
}.

Section adapter.
Context `{Crypto, Aead, !ToVec AssociatedData, WebauthnRs, UrlParse,
          !ToVec RegistrationBundle, !FromSlice RegistrationBundle,
          !ToVec AuthenticationBundle, !FromSlice AuthenticationBundle,
          !Serde CreationChallengeResponse, !Serde RequestChallengeResponse}.

Definition governance_webauthn_new (rp_id rp_origin : string)
    (protected_state : ProtectedStateCodec) : result CeremonyError GovernanceWebauthn :=
  let? origin := ok_or (url_parse rp_origin)
                   (CE_InvalidConfig "invalid governance WebAuthn origin") in
  let? builder := map_err CE_Webauthn (wa_builder rp_id origin) in
  let? webauthn := map_err CE_Webauthn (wa_build builder) in
  Ok {| gw_webauthn := webauthn; gw_protected_state := protected_state |}.

Definition start_registration (self : GovernanceWebauthn) (random : string)
    (entropy : option string) (context : ProtectedStateContext)
    (user_unique_id user_name user_display_name : string)
    (exclude_credentials : option (list string))
  : result CeremonyError (CreationChallengeResponse * ProtectedCeremonyState) :=
  let? _ := require_kind context PasskeyRegistration in
  let? (challenge, state) := map_err CE_Webauthn
    (start_passkey_registration random self.(gw_webauthn) user_unique_id user_name
       user_display_name exclude_credentials) in
  let? client_options := ok_or (to_value challenge) CE_Json in
  let bundle := {| rb_client_options := client_options; rb_state := state |} in
  let? envelope := seal self.(gw_protected_state) entropy context bundle in
  Ok (challenge, envelope).

Definition finish_registration (self : GovernanceWebauthn) (context : ProtectedStateContext)
    (envelope : ProtectedCeremonyState) (credential : RegisterPublicKeyCredential)
  : result CeremonyError Passkey :=
  let? _ := require_kind context PasskeyRegistration in
  let? bundle := open_envelope (T:=RegistrationBundle) self.(gw_protected_state) context envelope in
  map_err CE_Webauthn
    (finish_passkey_registration self.(gw_webauthn) credential bundle.(rb_state)).

Definition start_authentication (self : GovernanceWebauthn) (random : string)
    (entropy : option string) (context : ProtectedStateContext) (passkeys : list Passkey)
  : result CeremonyError (RequestChallengeResponse * ProtectedCeremonyState) :=
  let? _ := require_kind context PasskeyAuthentication in
  reject match passkeys with [] => true | _ => false end
    with CE_InvalidRequest "at least one active passkey is required" ;;
  let? (challenge, state) := map_err CE_Webauthn
    (start_passkey_authentication random self.(gw_webauthn) passkeys) in
  let? client_options := ok_or (to_value challenge) CE_Json in
  let bundle := {| ab_client_options := client_options; ab_state := state |} in
  let? envelope := seal self.(gw_protected_state) entropy context bundle in
  Ok (challenge, envelope).

Definition finish_authentication (self : GovernanceWebauthn) (context : ProtectedStateContext)
    (envelope : ProtectedCeremonyState) (credential : PublicKeyCredential)
  : result CeremonyError AuthenticationResult :=
  let? _ := require_kind context PasskeyAuthentication in
  let? bundle := open_envelope (T:=AuthenticationBundle) self.(gw_protected_state) context
                   envelope in
  map_err CE_Webauthn
    (finish_passkey_authentication self.(gw_webauthn) credential bundle.(ab_state)).

Definition recover_client_options (self : GovernanceWebauthn) (context : ProtectedStateContext)
    (envelope : ProtectedCeremonyState) : result CeremonyError Value :=
  match context.(px_state_kind) with
  | PasskeyRegistration =>
      let? bundle := open_envelope (T:=RegistrationBundle) self.(gw_protected_state) context
                       envelope in
      Ok bundle.(rb_client_options)
  | PasskeyAuthentication =>
      let? bundle := open_envelope (T:=AuthenticationBundle) self.(gw_protected_state) context
                       envelope in
      Ok bundle.(ab_client_options)
  end.
End adapter.

(** ** What an envelope protects *)

Section facts.
Context `{CryptoLaws, AeadLaws, !ToVec AssociatedData}.

(** What [open_envelope] established. *)
Lemma open_inv {T} `{!FromSlice T} self context envelope (value : T) :
  open_envelope self context envelope = Ok value ->
  exists data, associated_data context envelope.(pe_key_id) envelope.(pe_keyring_version) = Ok data
  /\ envelope.(pe_associated_data_hash) = sha256_bytes data
  /\ envelope.(pe_state_kind) = context.(px_state_kind)
  /\ is_Some (self.(pc_keys) !! envelope.(pe_key_id)).
Proof.
  unfold open_envelope. intros Ho. inv_ok. eexists.
  split; [eassumption|]. split; [eassumption|]. split; [eassumption|]. by eexists.
Qed.

(** An envelope opens again with the same context under any keyring that
    still holds its key, whatever its active key and version are. *)
Lemma open_sealed {T} `{!ToVec T, !FromSlice T, !SliceLaws T} self self' nonce context
    (value : T) envelope :
  self.(pc_keyring_version) <> 0 -> String.length nonce = XCHACHA_NONCE_BYTES ->
  self'.(pc_keys) !! self.(pc_active_key_id) = self.(pc_keys) !! self.(pc_active_key_id) ->
  seal self (Some nonce) context value = Ok envelope ->
  open_envelope self' context envelope = Ok value.
Proof.
  intros Hv Hn Hk Hs. unfold seal in Hs. inv_ok.
  unfold open_envelope. cbn. rewrite Hk.
  repeat match goal with
         | Heq : ?x = Ok _ |- context [?x] => rewrite Heq; clear Heq; cbn
         | Heq : ?x = Some _ |- context [?x] => rewrite Heq; clear Heq; cbn
         end.
  rewrite (proj2 (N.eqb_neq _ _) Hv), bool_decide_eq_true_2 by done. cbn.
  rewrite String.eqb_refl, !b64url_roundtrip. cbn.
  match goal with Heq : Some _ = Some _ |- _ => injection Heq as -> end.
  rewrite Hn. cbn. erewrite aead_roundtrip by eassumption. cbn.
  by erewrite slice_roundtrip by eassumption.
Qed.

(** The calls of the cipher behind a seal and behind an opening. *)
Lemma sealed_call {T} `{!ToVec T} self nonce context (value : T) envelope :
  seal self (Some nonce) context value = Ok envelope ->
  exists key data plaintext ct,
    self.(pc_keys) !! self.(pc_active_key_id) = Some key
    /\ associated_data context self.(pc_active_key_id) self.(pc_keyring_version) = Ok data
    /\ to_vec value = Some plaintext /\ aead_encrypt key nonce plaintext data = Some ct
    /\ b64url_decode envelope.(pe_ciphertext) = Some ct
    /\ envelope.(pe_key_id) = self.(pc_active_key_id)
    /\ envelope.(pe_keyring_version) = self.(pc_keyring_version)
    /\ envelope.(pe_state_kind) = context.(px_state_kind).
Proof.
  unfold seal. intros Hs. inv_ok. cbn. match goal with Heq : Some _ = Some _ |- _ => injection Heq as -> end.
  eexists _, _, _, _. split_and!; [eassumption..|apply b64url_roundtrip|done|done|done].
Qed.
Lemma opened_call {T} `{!FromSlice T} self context envelope (value : T) :
  open_envelope self context envelope = Ok value ->
  exists key data plaintext nonce ct,
    self.(pc_keys) !! envelope.(pe_key_id) = Some key
    /\ associated_data context envelope.(pe_key_id) envelope.(pe_keyring_version) = Ok data
    /\ b64url_decode envelope.(pe_nonce) = Some nonce
    /\ b64url_decode envelope.(pe_ciphertext) = Some ct
    /\ aead_decrypt key nonce ct data = Some plaintext /\ from_slice plaintext = Some value
    /\ envelope.(pe_state_kind) = context.(px_state_kind).
Proof.
  unfold open_envelope. intros Ho. inv_ok. eexists _, _, _, _, _. split_and!; eassumption.
Qed.

(** C38: state sealed for one ceremony never opens in another: an envelope
    that carries the ciphertext of a sealed one, however its other fields and
    its associated-data hash were rewritten, opens under any keyring only for
    the very tenant, ceremony, binding, kind of state and expiry it was sealed
    for, under the same key id, keyring version and nonce, and to exactly the
    text that was sealed; unless the ciphertext is authentic under keys of
    both keyrings with another key, nonce or associated data. *)
Theorem envelope_context_bound `{!AeadTidy, !ToVecLaws AssociatedData}
    {T U} `{!ToVec T, !FromSlice U}
    self self' nonce context context' (value : T) (value' : U) envelope envelope' :
  seal self (Some nonce) context value = Ok envelope ->
  b64url_decode envelope'.(pe_ciphertext) = b64url_decode envelope.(pe_ciphertext) ->
  open_envelope self' context' envelope' = Ok value' ->
  (context' = context /\ envelope'.(pe_key_id) = envelope.(pe_key_id)
   /\ envelope'.(pe_keyring_version) = envelope.(pe_keyring_version)
   /\ envelope'.(pe_state_kind) = envelope.(pe_state_kind)
   /\ b64url_decode envelope'.(pe_nonce) = Some nonce
   /\ exists plaintext, to_vec value = Some plaintext /\ from_slice plaintext = Some value')
  \/ aead_collision self.(pc_keys) self'.(pc_keys).
Proof.
  intros (key & data & plain & ct & Hkey & Hd & Hp & He & Hct & Hid & Hver & Hkind)%sealed_call
    Hsame (key' & data' & plain' & nonce' & ct' & Hkey' & Hd' & Hn' & Hct' & Hdec & Hval & Hkind')
      %opened_call.
  assert (ct' = ct) as -> by congruence. pose proof (aead_tidy _ _ _ _ _ Hdec) as He'.
  destruct (decide ((key, nonce, data) = (key', nonce', data'))) as [Heq|Hne].
  - injection Heq as <- <- <-. left. apply ok_or_ok in Hd, Hd'.
    pose proof (to_vec_inj _ _ _ Hd Hd') as Heq. injection Heq as Hk Hv Hctx. subst context'.
    split_and!; [done|congruence..|done|]. exists plain. split; [done|].
    rewrite (aead_roundtrip _ _ _ _ _ He) in Hdec. by injection Hdec as ->.
  - right. by exists self.(pc_active_key_id), key, nonce, plain, data, envelope'.(pe_key_id), key', nonce',
      plain', data', ct.
Qed.

Lemma decode_keys_ok encoded keys0 keys :
  decode_keys encoded keys0 = Ok keys ->
  (forall key_id key, keys0 !! key_id = Some key -> String.length key = 32%nat) ->
  forall key_id key, keys !! key_id = Some key ->
    String.length key = 32%nat
    /\ (keys0 !! key_id = Some key
        \/ exists text, (key_id, text) ∈ encoded /\ b64url_decode text = Some key).
Proof.
  revert keys0. induction encoded as [|[k text] rest IH]; cbn [decode_keys]; intros keys0 Hd Hlen0.
  - injection Hd as ->. eauto.
  - inv_ok. intros key_id key Hk.
    assert (Hlen : String.length x = 32%nat) by (by reflect_bools).
    edestruct IH as [Hl Hin]; [eassumption| |exact Hk|].
    { intros i v [[<- <-]|[_ Hv]]%lookup_insert_Some; [done|by eapply Hlen0]. }
    split; [done|]. destruct Hin as [Hin|(t & Hin & Ht)].
    + apply lookup_insert_Some in Hin as [[<- <-]|[_ Hv]]; [|by left].
      right. exists text. split; [by left|done].
    + right. exists t. split; [by right|done].
Qed.

Lemma codec_new_ok active version keys codec :
  codec_new active version keys = Ok codec <->
  codec = {| pc_active_key_id := active; pc_keyring_version := version; pc_keys := keys |}
  /\ version <> 0 /\ active <> "" /\ is_Some (keys !! active)
  /\ forall key_id key, keys !! key_id = Some key -> bad_key_id key_id = false.
Proof.
  unfold codec_new. rewrite !reject_ok, N.eqb_neq, !orb_false_iff, negb_false_iff.
  rewrite bool_decide_eq_true, bool_decide_eq_false.
  assert (Hids : existsb bad_key_id (fst <$> map_to_list keys) = false <->
                 forall key_id key, keys !! key_id = Some key -> bad_key_id key_id = false).
  { rewrite <- not_true_iff_false, existsb_exists. split.
    - intros Hn key_id key Hk. apply not_true_iff_false. intros Hb. apply Hn.
      exists key_id. split; [|done]. apply list_elem_of_In, list_elem_of_fmap.
      exists (key_id, key). split; [done|]. by apply elem_of_map_to_list.
    - intros Hall (key_id & Hin & Hb).
      apply list_elem_of_In, list_elem_of_fmap in Hin as ([k v] & -> & Hkv%elem_of_map_to_list).
      cbn in Hb. specialize (Hall _ _ Hkv). congruence. }
  rewrite Hids. split.
  - intros (Hv & [He Ha] & [_ Hall] & [= <-]). split_and!; try done. by intros ->.
  - intros (-> & Hv & He & Ha & Hall). split_and!; try done; [by destruct active|].
    intros ->. by destruct Ha.
Qed.

(** A keyring that was accepted can seal and its identifiers are clean:
    the configured keyring has a positive version, an active key that is
    present, only keys of exactly 32 bytes that decode from the configured
    text, and only non-empty identifiers of at most 128 bytes without
    whitespace or control characters; every other configuration is refused. *)
Theorem keyring_wellformed active version encoded codec :
  from_base64_keys active version encoded = Ok codec ->
  codec.(pc_active_key_id) = active /\ codec.(pc_keyring_version) = version /\ version <> 0
  /\ is_Some (codec.(pc_keys) !! active)
  /\ forall key_id key, codec.(pc_keys) !! key_id = Some key ->
       String.length key = 32%nat
       /\ (exists text, (key_id, text) ∈ encoded /\ b64url_decode text = Some key)
       /\ 0 < str_len key_id <= 128
       /\ any_whitespace key_id = false /\ any_control key_id = false.
Proof.
  unfold from_base64_keys. intros (keys & Hd & Hn)%rbind_ok.
  apply codec_new_ok in Hn as (-> & Hv & _ & Ha & Hids). cbn.
  do 4 (split; [done|]). intros key_id key Hk.
  destruct (decode_keys_ok _ _ _ Hd) with key_id key as [Hl [Habs|Hin]]; [|done|done|].
  { intros ? ?. by rewrite lookup_empty. }
  split; [done|]. split; [done|]. specialize (Hids _ _ Hk).
  unfold bad_key_id in Hids. reflect_bools. split; [|done]. split; [|done].
  destruct key_id; [done|]. unfold str_len. cbn. lia.
Qed.
End facts.

Section recovery.
Context `{CryptoLaws, AeadLaws, !ToVec AssociatedData, WebauthnRs, UrlParse,
          !ToVec RegistrationBundle, !FromSlice RegistrationBundle, !SliceLaws RegistrationBundle,
          !ToVec AuthenticationBundle, !FromSlice AuthenticationBundle,
          !SliceLaws AuthenticationBundle,
          !Serde CreationChallengeResponse, !Serde RequestChallengeResponse}.

(** C39: what was kept on the server is what the library sees again: after a
    registration was started, any replica whose keyring still holds the key
    that sealed it (active or not, of whatever version) recovers exactly the
    browser options that were produced, and finishes the ceremony with
    exactly the library state that was produced, and with nothing from the
    browser in its place; the envelope cannot be used to finish an
    authentication. *)
Theorem registration_state_recovered self self' random nonce context uid user display excluded
    challenge envelope :
  self.(gw_protected_state).(pc_keyring_version) <> 0 ->
  String.length nonce = XCHACHA_NONCE_BYTES ->
  self'.(gw_protected_state).(pc_keys) !! self.(gw_protected_state).(pc_active_key_id)
    = self.(gw_protected_state).(pc_keys) !! self.(gw_protected_state).(pc_active_key_id) ->
  start_registration self random (Some nonce) context uid user display excluded
    = Ok (challenge, envelope) ->
  exists state options,
    start_passkey_registration random self.(gw_webauthn) uid user display excluded
      = Ok (challenge, state)
    /\ to_value challenge = Some options
    /\ recover_client_options self' context envelope = Ok options
    /\ (forall credential, finish_registration self' context envelope credential
          = map_err CE_Webauthn
              (finish_passkey_registration self'.(gw_webauthn) credential state))
    /\ forall context' credential,
         is_ok (finish_authentication self' context' envelope credential) = false.
Proof.
  intros Hv Hn Hk Hs. unfold start_registration in Hs.
  apply rbind_ok in Hs as ([] & Hkind & Hs).
  apply rbind_ok in Hs as ([chal state] & Hstart%map_err_ok & Hs).
  apply rbind_ok in Hs as (options & Hopt%ok_or_ok & Hs).
  apply rbind_ok in Hs as (env & Hseal & [= -> ->]).
  pose proof (open_sealed _ _ _ _ _ _ Hv Hn Hk Hseal) as Hopen.
  pose proof (open_inv _ _ _ _ Hopen) as (_ & _ & _ & Hek & _).
  assert (Hctx : context.(px_state_kind) = PasskeyRegistration).
  { unfold require_kind in Hkind. inv_ok. done. }
  exists state, options. split; [done|]. split; [done|].
  unfold recover_client_options, finish_registration. rewrite Hctx, Hopen, Hkind.
  split; [done|]. split; [done|]. intros context' credential.
  unfold finish_authentication, require_kind.
  destruct (bool_decide_reflect (px_state_kind context' = PasskeyAuthentication)) as [Hc|]; [|done].
  clear Hopen. cbn. destruct (open_envelope _ context' _) as [bundle|] eqn:Ho; [|done].
  apply open_inv in Ho as (_ & _ & _ & Hek' & _). congruence.
Qed.
End recovery.
