(* ===== verification/ProtectedRun.v ===== *)
(** * Protected state: a concrete run

    Toy instances of the cipher, of the serializers and of the WebAuthn
    library, at which the theorems of [ProtectedState.v] are evaluated. *)
From Stdlib Require Import Ascii String.
From S2P Require Import Prelude Text Wire Samples Json Token Kv Ledger SampleCodecs.
From S2P Require Import Net CeremonyModel ProtectedState.

(** A cipher that prefixes the text, in hexadecimal, with a tag. *)
Definition toy_tag (key nonce msg aad : string) : string :=
  hex_lower (toy_digest (framed [key; nonce; msg; aad])).
#[export] Instance toy_aead : Aead := {
  aead_encrypt key nonce msg aad := Some (toy_tag key nonce msg aad +:+ "." +:+ msg);
  aead_decrypt key nonce ct aad :=
    match split_once "." ct with
    | Some (tag, msg) => if (tag =? toy_tag key nonce msg aad)%string then Some msg else None
    | None => None
    end
}.
Lemma split_hex s t : split_once "." (hex_lower s +:+ String "." t) = Some (hex_lower s, t).
Proof.
  apply split_once_app. apply (all_bytes_mem lower_hex_byte); [done|apply hex_lower_all].
Qed.
#[export] Instance toy_aead_laws : AeadLaws.
Proof.
  intros key nonce msg aad ct Hct.
  assert (Hs : split_once "." ct = Some (toy_tag key nonce msg aad, msg)).
  { apply (f_equal (default ""%string)) in Hct. change (default "" (Some ct)) with ct in Hct.
    rewrite <- Hct. apply split_hex. }
  unfold aead_decrypt, toy_aead. rewrite Hs. by rewrite String.eqb_refl.
Qed.

#[export] Instance toy_aead_tidy : AeadTidy.
Proof.
  intros key nonce ct aad msg Hd. unfold aead_decrypt, aead_encrypt, toy_aead in *.
  destruct (split_once "." ct) as [[tag msg']|] eqn:Hs; [|done].
  destruct (String.eqb_spec tag (toy_tag key nonce msg' aad)) as [->|]; [|done].
  apply split_once_some in Hs as [-> _]. by injection Hd as ->.
Qed.

Definition kind_text (kind : ProtectedStateKind) : string :=
  match kind with
  | PasskeyRegistration => "passkey_registration"
  | PasskeyAuthentication => "passkey_authentication"
  end.
#[export] Instance associated_to_vec : ToVec AssociatedData := fun d =>
  render [d.(ad_contract_version); d.(ad_object_kind); d.(ad_algorithm); d.(ad_key_id);
          decimal d.(ad_keyring_version); d.(ad_context).(px_tenant_id);
          d.(ad_context).(px_ceremony_id); d.(ad_context).(px_binding_hash);
          kind_text d.(ad_context).(px_state_kind); decimal d.(ad_context).(px_expires_at_ms)].
#[export] Instance associated_laws : ToVecLaws AssociatedData.
Proof.
  split; [|intros ? ?; apply render_fits].
  intros [? ? ? ? ? [? ? ? k1 ?]] [? ? ? ? ? [? ? ? k2 ?]] v Ha Hb.
  pose proof (render_inj _ _ _ Ha Hb) as Heq. cbn in Heq.
  injection Heq as -> -> -> -> ->%decimal_inj -> -> -> Hk ->%decimal_inj.
  destruct k1, k2; done.
Qed.

(** A library whose states and challenges are texts. *)
#[export] Instance toy_webauthn : WebauthnRs := {
  WebauthnBuilder := string;
  Webauthn := string;
  CreationChallengeResponse := string;
  PasskeyRegistration_ := string;
  RegisterPublicKeyCredential := string;
  Passkey := string;
  RequestChallengeResponse := string;
  PasskeyAuthentication_ := string;
  PublicKeyCredential := string;
  AuthenticationResult := string;
  wa_builder rp _ := Ok rp;
  wa_build b := Ok b;
  start_passkey_registration random _ uid name _ _ := Ok (random +:+ name, random +:+ uid);
  finish_passkey_registration _ credential state :=
    if (credential =? state)%string then Ok credential else Err "credential mismatch";
  start_passkey_authentication random _ _ := Ok (random, random);
  finish_passkey_authentication _ credential state :=
    if (credential =? state)%string then Ok credential else Err "credential mismatch"
}.
#[export] Instance text_serde : Serde string := {
  to_value s := Some (Str s);
  from_value := as_str
}.

Definition bundle_text (options : Value) (state : string) : option string :=
  match options with
  | Str s => Some (hex_lower s +:+ "." +:+ state)
  | _ => None
  end.
Definition bundle_of (s : string) : option (Value * string) :=
  match split_once "." s with
  | Some (options, state) =>
      match unhex options with
      | Some options => Some (Str options, state)
      | None => None
      end
  | None => None
  end.
Lemma bundle_roundtrip options state v :
  bundle_text options state = Some v -> bundle_of v = Some (options, state).
Proof.
  destruct options as [| | |s| |]; try done. intros Hv.
  apply (f_equal (default ""%string)) in Hv. change (default "" (Some v)) with v in Hv.
  rewrite <- Hv. unfold bundle_of.
  assert (Hs : split_once "." (default "" (bundle_text (Str s) state)) = Some (hex_lower s, state))
    by apply split_hex.
  by rewrite Hs, unhex_hex.
Qed.

#[export] Instance registration_to_vec : ToVec RegistrationBundle :=
  fun b => bundle_text b.(rb_client_options) b.(rb_state).
#[export] Instance registration_from_slice : FromSlice RegistrationBundle :=
  fun s => '(options, state) ← bundle_of s;
           Some {| rb_client_options := options; rb_state := state |}.
#[export] Instance registration_laws : SliceLaws RegistrationBundle.
Proof.
  intros [options state] v Hv. unfold from_slice, registration_from_slice.
  by rewrite (bundle_roundtrip _ _ _ Hv).
Qed.
#[export] Instance authentication_to_vec : ToVec AuthenticationBundle :=
  fun b => bundle_text b.(ab_client_options) b.(ab_state).
#[export] Instance authentication_from_slice : FromSlice AuthenticationBundle :=
  fun s => '(options, state) ← bundle_of s;
           Some {| ab_client_options := options; ab_state := state |}.
#[export] Instance authentication_laws : SliceLaws AuthenticationBundle.
Proof.
  intros [options state] v Hv. unfold from_slice, authentication_from_slice.
  by rewrite (bundle_roundtrip _ _ _ Hv).
Qed.

(** A keyring with two keys, and the one after a rotation. *)
Definition key_text (c : string) : string := hex_lower (toy_digest c).
Definition keyring1 : result CeremonyError ProtectedStateCodec :=
  from_base64_keys "k1" 1 [("k1", key_text "a"); ("k2", key_text "b")].
Definition keyring2 : result CeremonyError ProtectedStateCodec :=
  from_base64_keys "k2" 2 [("k1", key_text "a"); ("k2", key_text "b")].
Definition the_codec (r : result CeremonyError ProtectedStateCodec) : ProtectedStateCodec :=
  match r with
  | Ok codec => codec
  | Err _ => {| pc_active_key_id := ""; pc_keyring_version := 0; pc_keys := ∅ |}
  end.
Definition sample_context : ProtectedStateContext :=
  {| px_tenant_id := "tenant"; px_ceremony_id := "gcer_1";
     px_binding_hash := sha256_bytes "binding"; px_state_kind := PasskeyRegistration;
     px_expires_at_ms := 5 |}.
Definition sample_nonce : string := "abcdefghijklmnopqrstuvwx".
Definition adapter (codec : ProtectedStateCodec) : GovernanceWebauthn :=
  {| gw_webauthn := "rp"; gw_protected_state := codec |}.
Definition sample_envelope : ProtectedCeremonyState :=
  match start_registration (adapter (the_codec keyring1)) "r" (Some sample_nonce) sample_context
          "uid" "name" "Name" None with
  | Ok (_, envelope) => envelope
  | Err _ => {| pe_contract_version := ""; pe_object_kind := ""; pe_algorithm := "";
                pe_key_id := ""; pe_keyring_version := 0; pe_state_kind := PasskeyRegistration;
                pe_nonce := ""; pe_ciphertext := ""; pe_associated_data_hash := "" |}
  end.

Lemma keyring_wellformed_witness : is_Some ((the_codec keyring1).(pc_keys) !! "k1").
Proof.
  assert (Hk : keyring1 = Ok (the_codec keyring1)) by (vm_compute; reflexivity).
  exact (proj1 (proj2 (proj2 (proj2 (keyring_wellformed "k1" 1 _ _ Hk))))).
Defined.

Lemma registration_state_recovered_witness :
  recover_client_options (adapter (the_codec keyring2)) sample_context sample_envelope
  = Ok (Str "rname").
Proof.
  assert (Hs : start_registration (adapter (the_codec keyring1)) "r" (Some sample_nonce)
                 sample_context "uid" "name" "Name" None = Ok ("rname"%string, sample_envelope))
    by (vm_compute; reflexivity).
  destruct (registration_state_recovered (adapter (the_codec keyring1))
              (adapter (the_codec keyring2)) "r" sample_nonce sample_context "uid" "name" "Name"
              None "rname" sample_envelope) as (state & options & _ & Ho & Hr & _).
  - vm_compute. discriminate.
  - reflexivity.
  - vm_compute. reflexivity.
  - exact Hs.
  - rewrite Hr. injection Ho as <-. reflexivity.
Defined.

(** The state is opened after a rotation of the keyring; the same ciphertext
    under another ceremony's label, with the hash an outsider computes for it,
    is refused by the cipher. *)
Definition sample_state : RegistrationBundle :=
  {| rb_client_options := Str "rname"; rb_state := "ruid" |}.
Definition other_context : ProtectedStateContext :=
  {| px_tenant_id := "tenant"; px_ceremony_id := "gcer_2";
     px_binding_hash := sha256_bytes "binding"; px_state_kind := PasskeyRegistration;
     px_expires_at_ms := 5 |}.
Definition moved_envelope : ProtectedCeremonyState :=
  {| pe_contract_version := sample_envelope.(pe_contract_version);
     pe_object_kind := sample_envelope.(pe_object_kind);
     pe_algorithm := sample_envelope.(pe_algorithm); pe_key_id := sample_envelope.(pe_key_id);
     pe_keyring_version := sample_envelope.(pe_keyring_version);
     pe_state_kind := sample_envelope.(pe_state_kind); pe_nonce := sample_envelope.(pe_nonce);
     pe_ciphertext := sample_envelope.(pe_ciphertext);
     pe_associated_data_hash :=
       match associated_data other_context "k1" 1 with
       | Ok data => sha256_bytes data
       | Err _ => ""
       end |}.
Example moved_refused :
  open_envelope (T:=RegistrationBundle) (the_codec keyring2) other_context moved_envelope
  = Err (CE_ProtectedState "protected-state authentication failed").
Proof. vm_compute. reflexivity. Qed.

Lemma envelope_context_bound_witness :
  open_envelope (T:=RegistrationBundle) (the_codec keyring2) sample_context sample_envelope
    = Ok sample_state
  /\ (b64url_decode sample_envelope.(pe_nonce) = Some sample_nonce
      \/ aead_collision (the_codec keyring1).(pc_keys) (the_codec keyring2).(pc_keys)).
Proof.
  assert (Hs : seal (the_codec keyring1) (Some sample_nonce) sample_context sample_state
               = Ok sample_envelope) by (vm_compute; reflexivity).
  assert (Ho : open_envelope (T:=RegistrationBundle) (the_codec keyring2) sample_context
                 sample_envelope = Ok sample_state) by (vm_compute; reflexivity).
  split; [exact Ho|].
  destruct (envelope_context_bound _ _ _ _ _ _ _ _ _ Hs eq_refl Ho)
    as [(_ & _ & _ & _ & Hn & _)|Hc].
  - left. exact Hn.
  - right. exact Hc.
Defined.
