(* ===== verification/SupabasePolicy.v ===== *)
(** * The remote-userinfo policy ([src/src/supabase_policy.rs])

    Which deployments may fall back to asking Supabase about a session.  [var]
    stands for [std::env::var]. *)
From Stdlib Require Import Ascii String.
From S2P Require Import Prelude Text.

Definition DEPLOYMENT_MODE_ENV : string := "FIDUCIA_DEPLOYMENT_MODE".
Definition REMOTE_USERINFO_ENV : string := "SUPABASE_AUTH_ALLOW_REMOTE_USERINFO".
Definition PUBLISHABLE_KEY_ENV : string := "SUPABASE_PUBLISHABLE_KEY".

Inductive DeploymentMode := Production | Staging | Development | Test.
#[export] Instance DeploymentMode_eq_dec : EqDecision DeploymentMode.
Proof. solve_decision. Defined.

Inductive RemoteUserinfoPolicyError :=
  | InvalidDeploymentMode (value : string)
  | InvalidBoolean (name value : string)
  | ForbiddenInProduction
  | PolicyMissingPublishableKey.

(** [DeploymentMode::parse] and [as_str]. *)
Definition mode_parse (value : option string) : result RemoteUserinfoPolicyError DeploymentMode :=
  let text := to_ascii_lowercase (trim (default "production"%string value)) in
  if (text =? "production")%string || (text =? "prod")%string then Ok Production
  else if (text =? "staging")%string || (text =? "stage")%string then Ok Staging
  else if (text =? "development")%string || (text =? "dev")%string then Ok Development
  else if (text =? "test")%string then Ok Test
  else Err (InvalidDeploymentMode text).
Definition mode_as_str (self : DeploymentMode) : string :=
  match self with
  | Production => "production"
  | Staging => "staging"
  | Development => "development"
  | Test => "test"
  end.

Definition parse_optional_bool (name : string) (value : option string)
  : result RemoteUserinfoPolicyError (option bool) :=
  match value with
  | None => Ok None
  | Some value =>
      let text := to_ascii_lowercase (trim value) in
      if bool_decide (text ∈ ["1"; "true"; "yes"; "on"]%string) then Ok (Some true)
      else if bool_decide (text ∈ ["0"; "false"; "no"; "off"]%string) then Ok (Some false)
      else Err (InvalidBoolean name text)
  end.

Definition remote_userinfo_policy_from_values
    (deployment_mode requested_remote_userinfo : option string) (has_publishable_key : bool)
  : result RemoteUserinfoPolicyError (DeploymentMode * bool) :=
  let? mode := mode_parse deployment_mode in
  let? requested := parse_optional_bool REMOTE_USERINFO_ENV requested_remote_userinfo in
  let allow_remote_userinfo := default false requested in
  reject bool_decide (mode = Production) && allow_remote_userinfo with ForbiddenInProduction ;;
  reject allow_remote_userinfo && negb has_publishable_key with PolicyMissingPublishableKey ;;
  Ok (mode, allow_remote_userinfo).

(** [env_value]: a variable that is set to something that is not blank. *)
Definition env_value (var : string -> option string) (name : string) : option string :=
  match trim <$> var name with
  | Some value => if str_is_empty value then None else Some value
  | None => None
  end.

Definition remote_userinfo_policy_from_env (var : string -> option string)
  : result RemoteUserinfoPolicyError (DeploymentMode * bool) :=
  let deployment_mode := env_value var DEPLOYMENT_MODE_ENV in
  let requested_remote_userinfo := env_value var REMOTE_USERINFO_ENV in
  remote_userinfo_policy_from_values deployment_mode requested_remote_userinfo
    (bool_decide (is_Some (env_value var PUBLISHABLE_KEY_ENV))).

(** ** What the policy allows *)

Lemma env_value_some var name value :
  env_value var name = Some value ->
  exists raw, var name = Some raw /\ value = trim raw /\ value <> ""%string.
Proof.
  unfold env_value. destruct (var name) as [raw|]; cbn; [|done].
  destruct (str_is_empty (trim raw)) eqn:He; [done|]. intros [= <-]. exists raw.
  split_and!; [done..|]. intros Hn. by rewrite Hn in He.
Qed.

Lemma mode_roundtrip mode : mode_parse (Some (mode_as_str mode)) = Ok mode.
Proof. by destruct mode. Qed.

(** An explicit request for the fallback. *)
Definition opts_in (requested : option string) : Prop :=
  exists text, requested = Some text
  /\ to_ascii_lowercase (trim text) ∈ ["1"; "true"; "yes"; "on"]%string.

Lemma parse_optional_bool_true name value :
  parse_optional_bool name value = Ok (Some true) <-> opts_in value.
Proof.
  unfold parse_optional_bool, opts_in. destruct value as [text|]; [|naive_solver].
  repeat case_bool_decide; naive_solver.
Qed.

Lemma policy_allows mode requested key m :
  remote_userinfo_policy_from_values mode requested key = Ok (m, true) ->
  m <> Production /\ opts_in requested /\ key = true.
Proof.
  unfold remote_userinfo_policy_from_values. intros Hp.
  apply rbind_ok in Hp as (m' & _ & Hp). apply rbind_ok in Hp as (r & Hr & Hp).
  apply reject_ok in Hp as [Hprod Hp]. apply reject_ok in Hp as [Hkey [= -> Ha]].
  rewrite Ha in *. rewrite andb_true_r in Hprod. cbn [andb] in Hkey.
  apply negb_false_iff in Hkey. apply bool_decide_eq_false in Hprod.
  destruct r as [[]|]; [|done..]. by apply parse_optional_bool_true in Hr.
Qed.

(** The fallback fails closed: it is allowed exactly in a deployment whose
    mode parses to something other than production, which asks for it
    explicitly and has a publishable key. *)
Theorem remote_userinfo_fail_closed deployment_mode requested key :
  (exists mode, remote_userinfo_policy_from_values deployment_mode requested key = Ok (mode, true))
  <-> (exists mode, mode_parse deployment_mode = Ok mode /\ mode <> Production)
      /\ opts_in requested /\ key = true.
Proof.
  split.
  - intros [mode Hp]. pose proof (policy_allows _ _ _ _ Hp) as (Hm & Hr & Hk).
    split; [|done]. exists mode. split; [|done].
    unfold remote_userinfo_policy_from_values in Hp.
    apply rbind_ok in Hp as (m' & Hm' & Hp). apply rbind_ok in Hp as (r & _ & Hp).
    do 2 (apply reject_ok in Hp as [_ Hp]). by injection Hp as ->.
  - intros ((mode & Hm & Hne) & Hr & ->). exists mode.
    unfold remote_userinfo_policy_from_values. rewrite Hm. cbn [rbind].
    rewrite (proj2 (parse_optional_bool_true _ _) Hr). cbn [rbind default].
    by rewrite bool_decide_false.
Qed.
