(* ===== verification/Supabase.v ===== *)
(** * Supabase session verification ([src/src/supabase.rs])

    The project registry and its configuration, the selection of a project by
    the token's issuer, verification against the project's cached keys with
    the forced refresh, the remote fallback, and the user context built from
    verified claims.

    The JWT library and the serialization derives are parameters.  The async
    functions are programs [io]: a [Lock] is one critical section of the key
    cache together with the clock read in it, a [Fetch_keys] or [Fetch_user]
    one HTTP request, a [Count] one increment of a metric. *)
From Stdlib Require Import Ascii String.
From S2P Require Import Prelude Text Wire Samples Json Kv Model Store Net ProtectedState.
From S2P Require Import SupabasePolicy.

Definition DEFAULT_AUDIENCE : string := "authenticated".
Definition PROJECTS_ENV : string := "FIDUCIA_SUPABASE_PROJECTS".
Definition DEFAULT_JWKS_TTL_SECS : N := 10 * 60.
Definition MIN_FORCED_JWKS_REFRESH_SECS : N := 30.

(** [Duration::from_secs]; times and durations are in nanoseconds. *)
Definition from_secs (secs : N) : N := secs * 1000000000.

(** ** The [jsonwebtoken] crate *)

Inductive Algorithm :=
  | HS256 | HS384 | HS512 | ES256 | ES384 | RS256 | RS384 | RS512 | PS256 | PS384 | PS512 | EdDSA.
Record Header := { h_alg : Algorithm; h_kid : option string }.
Record Validation := {
  va_algorithm : Algorithm;
  va_issuer : list string;
  va_audience : list string;
  va_required_spec_claims : list string
}.

Record SupabaseClaims := {
  sc_sub : string;
  sc_email : option string;
  sc_role : option string;
  sc_aal : option string;
  sc_app_metadata : option Value;
  sc_user_metadata : option Value
}.
Record SupabaseUser := {
  su_id : string;
  su_aud : option string;
  su_email : option string;
  su_role : option string;
  su_aal : option string;
  su_app_metadata : option Value;
  su_user_metadata : option Value
}.

Class JsonWebToken := {
  Jwk : Type;
  DecodingKey : Type;
  jwk_key_id : Jwk -> option string;
  jwk_octet_key : Jwk -> bool;
  decode_header : string -> result string Header;
  from_jwk : Jwk -> result string DecodingKey;
  jwt_decode : string -> DecodingKey -> Validation -> result string SupabaseClaims
}.

Inductive VerifyError :=
  | VE_EmptyJwks
  | VE_Http (error : string)
  | VE_InvalidToken (reason : string)
  | VE_Jwt (error : string)
  | VE_MissingJwk
  | VE_MissingPublishableKey
  | VE_MissingConfiguration (message : string)
  | VE_RemoteUserinfoPolicy (error : RemoteUserinfoPolicyError)
  | VE_RejectedBySupabase
  | VE_SupabaseStatus (status : N)
  | VE_SymmetricJwk
  | VE_UnexpectedAudience (aud : option string)
  | VE_UnexpectedAssurance (aal : string)
  | VE_UnexpectedRole (role : option string)
  | VE_UnknownIssuer
  | VE_UnsupportedAlgorithm (alg : Algorithm).

(** ** Configuration *)

Record SupabaseConfig := {
  sb_name : string;
  sb_surfaces : list string;
  sb_audience : string;
  sb_issuer : string;
  sb_jwks_ttl : N;
  sb_jwks_url : string;
  sb_publishable_key : option string;
  sb_user_url : string;
  sb_allow_remote_userinfo : bool
}.
Record SupabaseProjectSpec := {
  sp_name : string;
  sp_surfaces : list string;
  sp_url : option string;
  sp_project_ref : option string;
  sp_issuer : option string;
  sp_jwks_url : option string;
  sp_user_url : option string;
  sp_audience : option string;
  sp_publishable_key_env : option string
}.
(** [serde_json::from_str::<Vec<SupabaseProjectSpec>>]. *)
Class SpecsJson := specs_from_json : string -> option (list SupabaseProjectSpec).

Definition supabase_url_for_project (project_ref : string) : string :=
  "https://" +:+ trim project_ref +:+ ".supabase.co".
Definition normalize_url (url : string) : string := trim_slashes (trim url).

(** The loop over [spec.surfaces]. *)
Fixpoint collect_surfaces (texts surfaces : list string) : result VerifyError (list string) :=
  match texts with
  | [] => Ok surfaces
  | text :: rest =>
      let? surface :=
        if (trim text =? ADMIN_SURFACE_AUDIENCE)%string then Ok ADMIN_SURFACE_AUDIENCE
        else if (trim text =? CUSTOMER_SURFACE_AUDIENCE)%string then Ok CUSTOMER_SURFACE_AUDIENCE
        else Err (VE_MissingConfiguration
          "FIDUCIA_SUPABASE_PROJECTS surfaces must be fiducia-admin or fiducia-customer") in
      collect_surfaces rest
        (if bool_decide (surface ∈ surfaces) then surfaces else surfaces ++ [surface])
  end.

(** [SupabaseConfig::project_surfaces]. *)
Definition project_surfaces (self : SupabaseConfig) : option (list string) :=
  match self.(sb_surfaces) with
  | [] => None
  | surfaces => Some surfaces
  end.

Section config.
Context `{SpecsJson} (var : string -> option string).

Definition jwks_ttl_from_env : N :=
  from_secs (default DEFAULT_JWKS_TTL_SECS
               (env_value var "SUPABASE_AUTH_JWKS_TTL_SECS" ≫= parse_unsigned u64_max)).

(** [SupabaseConfig::from_spec]. *)
Definition from_spec (spec : SupabaseProjectSpec) (allow_remote_userinfo : bool)
  : result VerifyError SupabaseConfig :=
  reject str_is_empty (trim spec.(sp_name))
    with VE_MissingConfiguration "FIDUCIA_SUPABASE_PROJECTS entries require a non-empty name" ;;
  let? surfaces := collect_surfaces spec.(sp_surfaces) [] in
  reject match surfaces with [] => true | _ => false end
    with VE_MissingConfiguration "FIDUCIA_SUPABASE_PROJECTS entries require at least one surface" ;;
  let? url :=
    match spec.(sp_url), spec.(sp_project_ref) with
    | Some url, _ => Ok (normalize_url url)
    | None, Some project_ref => Ok (supabase_url_for_project project_ref)
    | None, None =>
        Err (VE_MissingConfiguration "FIDUCIA_SUPABASE_PROJECTS entries require url or project_ref")
    end in
  let issuer := default (url +:+ "/auth/v1") spec.(sp_issuer) in
  let jwks_url := default (issuer +:+ "/.well-known/jwks.json") spec.(sp_jwks_url) in
  let user_url := default (issuer +:+ "/user") spec.(sp_user_url) in
  let? publishable_key :=
    match spec.(sp_publishable_key_env) with
    | Some name =>
        let? value := ok_or (env_value var name) (VE_MissingConfiguration
          "referenced Supabase publishable-key env var is missing or empty") in
        Ok (Some value)
    | None => Ok None
    end in
  Ok {| sb_name := trim spec.(sp_name);
        sb_surfaces := surfaces;
        sb_audience := default DEFAULT_AUDIENCE spec.(sp_audience);
        sb_issuer := issuer;
        sb_jwks_ttl := jwks_ttl_from_env;
        sb_jwks_url := jwks_url;
        sb_publishable_key := publishable_key;
        sb_user_url := user_url;
        sb_allow_remote_userinfo := allow_remote_userinfo |}.

(** [SupabaseConfig::from_env]. *)
Definition supabase_config_from_env : result VerifyError SupabaseConfig :=
  let? url :=
    match env_value var "SUPABASE_URL" with
    | Some url => Ok url
    | None =>
        let? project_ref :=
          ok_or (match env_value var "SUPABASE_PROJECT_REF" with
                 | Some project_ref => Some project_ref
                 | None => env_value var "SUPABASE_PROJECT_ID"
                 end)
            (VE_MissingConfiguration "SUPABASE_URL or SUPABASE_PROJECT_REF must be set") in
        Ok (supabase_url_for_project project_ref)
    end in
  let url := normalize_url url in
  let issuer := default (url +:+ "/auth/v1") (env_value var "SUPABASE_AUTH_ISSUER") in
  let jwks_url :=
    default (issuer +:+ "/.well-known/jwks.json") (env_value var "SUPABASE_AUTH_JWKS_URL") in
  let user_url := default (issuer +:+ "/user") (env_value var "SUPABASE_AUTH_USER_URL") in
  let publishable_key := env_value var PUBLISHABLE_KEY_ENV in
  let? (deployment_mode, allow_remote_userinfo) :=
    map_err VE_RemoteUserinfoPolicy (remote_userinfo_policy_from_env var) in
  Ok {| sb_name := default "default"%string (env_value var "SUPABASE_PROJECT_NAME");
        sb_surfaces := [];
        sb_audience := default DEFAULT_AUDIENCE (env_value var "SUPABASE_AUTH_AUDIENCE");
        sb_issuer := issuer;
        sb_jwks_ttl := jwks_ttl_from_env;
        sb_jwks_url := jwks_url;
        sb_publishable_key := publishable_key;
        sb_user_url := user_url;
        sb_allow_remote_userinfo := allow_remote_userinfo |}.

(** The loop of [ProjectRegistry::from_env]. *)
Fixpoint collect_projects (specs : list SupabaseProjectSpec) (allow_remote_userinfo : bool)
    (projects : list SupabaseConfig) : result VerifyError (list SupabaseConfig) :=
  match specs with
  | [] => Ok projects
  | spec :: rest =>
      let? project := from_spec spec allow_remote_userinfo in
      reject List.existsb (fun existing => (existing.(sb_issuer) =? project.(sb_issuer))%string)
               projects
        with VE_MissingConfiguration "FIDUCIA_SUPABASE_PROJECTS contains duplicate issuers" ;;
      reject List.existsb (fun existing => (existing.(sb_name) =? project.(sb_name))%string) projects
        with VE_MissingConfiguration "FIDUCIA_SUPABASE_PROJECTS contains duplicate project names" ;;
      reject project.(sb_allow_remote_userinfo)
             && negb (bool_decide (is_Some project.(sb_publishable_key)))
        with VE_MissingPublishableKey ;;
      collect_projects rest allow_remote_userinfo (projects ++ [project])
  end.

(** [ProjectRegistry::from_env]; a [ProjectRegistry] is its projects. *)
Definition registry_from_env : result VerifyError (list SupabaseConfig) :=
  match env_value var PROJECTS_ENV with
  | None =>
      let? only := supabase_config_from_env in
      Ok [only]
  | Some raw =>
      let? specs := ok_or (specs_from_json raw)
        (VE_MissingConfiguration "FIDUCIA_SUPABASE_PROJECTS must be a JSON array") in
      reject match specs with [] => true | _ => false end
        with VE_MissingConfiguration "FIDUCIA_SUPABASE_PROJECTS must not be empty" ;;
      let? (_, allow_remote_userinfo) :=
        map_err VE_RemoteUserinfoPolicy (remote_userinfo_policy_from_env var) in
      collect_projects specs allow_remote_userinfo []
  end.

(** [validate_config], and [registry], which reports a bad registry without
    its reason. *)
Definition validate_config : bool := is_ok registry_from_env.
Definition registry : result VerifyError (list SupabaseConfig) :=
  map_err (fun _ => VE_MissingConfiguration "supabase project registry is invalid")
    registry_from_env.
End config.

(** ** Routing *)

Section routing.
Context `{Crypto, !FromSlice Value}.

Definition unverified_issuer (jwt : string) : option string :=
  payload ← nth_error (split_on "." jwt) 1;
  if 12 * 1024 <? str_len payload then None
  else
    bytes ← b64url_decode payload;
    value ← from_slice bytes;
    value_get value "iss" ≫= as_str.

(** [ProjectRegistry::select]. *)
Definition select (projects : list SupabaseConfig) (jwt : string)
  : result VerifyError SupabaseConfig :=
  let by_issuer :=
    let? issuer := ok_or (unverified_issuer jwt) (VE_InvalidToken "missing issuer claim") in
    ok_or (List.find (fun project => (project.(sb_issuer) =? issuer)%string) projects)
      VE_UnknownIssuer in
  match projects with
  | [only] =>
      match only.(sb_surfaces) with
      | [] => Ok only
      | _ => by_issuer
      end
  | _ => by_issuer
  end.
End routing.

(** ** The user context *)

Definition assurance_level_from_claim (value : option string) : result VerifyError AssuranceLevel :=
  let text := default "aal1"%string value in
  if (text =? "aal1")%string then Ok Aal1
  else if (text =? "aal2")%string then Ok Aal2
  else Err (VE_UnexpectedAssurance text).

Definition push_org (orgs : list string) (org : string) : list string :=
  let org := trim org in
  if negb (str_is_empty org) && negb (bool_decide (org ∈ orgs)) then orgs ++ [org] else orgs.
Fixpoint push_org_value (orgs : list string) (value : Value) : list string :=
  match value with
  | Str org => push_org orgs org
  | Array values => List.fold_left (fun orgs value => push_org_value orgs value) values orgs
  | _ => orgs
  end.
Definition ORG_KEYS : list string :=
  ["orgs"; "org_ids"; "organizations"; "organization_ids"; "org_id"; "organization_id";
   "tenant_id"]%string.

Definition push_role (roles : list string) (role : string) : list string :=
  let role := to_ascii_lowercase (trim role) in
  if negb (str_is_empty role) && negb (bool_decide (role ∈ roles)) then roles ++ [role] else roles.
Fixpoint push_role_value (roles : list string) (value : Value) : list string :=
  match value with
  | Str role => push_role roles role
  | Array values => List.fold_left (fun roles value => push_role_value roles value) values roles
  | _ => roles
  end.
Definition ROLE_KEYS : list string := ["fiducia_roles"; "roles"; "role"]%string.

(** The nested loops over the metadata values that are present and the keys. *)
Definition from_metadata (push : list string -> Value -> list string) (keys : list string)
    (values : list (option Value)) : list string :=
  List.fold_left
    (fun acc value =>
       List.fold_left
         (fun acc key =>
            match value_get value key with
            | Some found => push acc found
            | None => acc
            end) keys acc)
    (omap id values) [].
Definition orgs_from_metadata (values : list (option Value)) : list string :=
  from_metadata push_org_value ORG_KEYS values.
Definition roles_from_metadata (values : list (option Value)) : list string :=
  from_metadata push_role_value ROLE_KEYS values.

Definition user_ctx_from_claims (claims : SupabaseClaims) (config : SupabaseConfig)
  : result VerifyError UserCtx :=
  reject negb (bool_decide (claims.(sc_role) = Some DEFAULT_AUDIENCE))
    with VE_UnexpectedRole claims.(sc_role) ;;
  reject str_is_empty (trim claims.(sc_sub)) with VE_InvalidToken "missing subject" ;;
  let orgs := orgs_from_metadata [claims.(sc_app_metadata)] in
  let roles := roles_from_metadata [claims.(sc_app_metadata)] in
  let? aal := assurance_level_from_claim claims.(sc_aal) in
  Ok {| u_user_id := claims.(sc_sub); u_email := claims.(sc_email); u_orgs := orgs;
        u_roles := roles; u_aal := aal; u_project_surfaces := project_surfaces config |}.

(** [o.is_some_and(|v| v != expected)]. *)
Definition some_other (o : option string) (expected : string) : bool :=
  match o with
  | Some v => negb (v =? expected)%string
  | None => false
  end.
Definition user_ctx_from_remote_user (user : SupabaseUser) (config : SupabaseConfig)
  : result VerifyError UserCtx :=
  reject some_other user.(su_aud) config.(sb_audience) with VE_UnexpectedAudience user.(su_aud) ;;
  reject some_other user.(su_role) DEFAULT_AUDIENCE with VE_UnexpectedRole user.(su_role) ;;
  reject str_is_empty (trim user.(su_id)) with VE_InvalidToken "missing user id" ;;
  let orgs := orgs_from_metadata [user.(su_app_metadata)] in
  let roles := roles_from_metadata [user.(su_app_metadata)] in
  let? aal := assurance_level_from_claim user.(su_aal) in
  Ok {| u_user_id := user.(su_id); u_email := user.(su_email); u_orgs := orgs;
        u_roles := roles; u_aal := aal; u_project_surfaces := project_surfaces config |}.

(** ** Verification *)

Definition is_asymmetric_algorithm (alg : Algorithm) : bool :=
  match alg with
  | ES256 | ES384 | RS256 | RS384 | RS512 | PS256 | PS384 | PS512 | EdDSA => true
  | HS256 | HS384 | HS512 => false
  end.

(** *** Metrics

    One increment of a counter of the meter [fiducia-auth], with its one
    attribute. *)
Record Metric := { mt_counter : string; mt_key : string; mt_value : string }.
#[export] Instance Metric_eq_dec : EqDecision Metric.
Proof. solve_decision. Defined.

Inductive UnknownKidStage := Observed | RefreshBlocked.
Definition stage_as_str (self : UnknownKidStage) : string :=
  match self with
  | Observed => "observed"
  | RefreshBlocked => "refresh_blocked"
  end.
Inductive ForcedRefreshOutcome :=
  | Forced_Attempted | Forced_Succeeded | Forced_Failed | Forced_MissingAfterRefresh.
Definition forced_as_str (self : ForcedRefreshOutcome) : string :=
  match self with
  | Forced_Attempted => "attempted"
  | Forced_Succeeded => "succeeded"
  | Forced_Failed => "failed"
  | Forced_MissingAfterRefresh => "missing_after_refresh"
  end.
Inductive RemoteUserinfoOutcome :=
  | Remote_Attempted | Remote_Accepted | Remote_ClaimRejected | Remote_Rejected
  | Remote_TransportError | Remote_InvalidResponse | Remote_UpstreamStatus.
Definition remote_as_str (self : RemoteUserinfoOutcome) : string :=
  match self with
  | Remote_Attempted => "attempted"
  | Remote_Accepted => "accepted"
  | Remote_ClaimRejected => "claim_rejected"
  | Remote_Rejected => "rejected"
  | Remote_TransportError => "transport_error"
  | Remote_InvalidResponse => "invalid_response"
  | Remote_UpstreamStatus => "upstream_status"
  end.

Definition unknown_kid_metric (stage : UnknownKidStage) : Metric :=
  {| mt_counter := "fiducia.auth.supabase.unknown_kid"; mt_key := "stage";
     mt_value := stage_as_str stage |}.
Definition forced_refresh_metric (outcome : ForcedRefreshOutcome) : Metric :=
  {| mt_counter := "fiducia.auth.supabase.forced_jwks_refresh"; mt_key := "outcome";
     mt_value := forced_as_str outcome |}.
Definition remote_userinfo_metric (outcome : RemoteUserinfoOutcome) : Metric :=
  {| mt_counter := "fiducia.auth.supabase.remote_userinfo"; mt_key := "outcome";
     mt_value := remote_as_str outcome |}.

(** What a request gives: a transport error, or a status with the body decoded
    at the type that is asked for, or not. *)
Inductive http_reply (B : Type) :=
  | Http_error (error : string)
  | Http_reply (status : N) (body : result string B).
Arguments Http_error {B} error.
Arguments Http_reply {B} status body.
(** [Response::error_for_status]. *)
Definition error_status (status : N) : bool := (400 <=? status) && (status <? 600).

Section verify.
Context `{Crypto, !FromSlice Value, !JsonWebToken}.

Record CachedJwks := { cj_fetched_at : N; cj_jwks : list Jwk }.
(** [JWKS_CACHE], by JWKS URL. *)
Notation cache := (gmap string CachedJwks).

Inductive io (A : Type) : Type :=
  | IRet (a : A)
  | Lock (f : N -> cache -> cache) (k : N -> cache -> io A)
  | Fetch_keys (url : string) (k : http_reply (list Jwk) -> io A)
  | Fetch_user (url publishable_key jwt : string) (k : http_reply SupabaseUser -> io A)
  | Count (metric : Metric) (k : io A).
Arguments IRet {A} a.
Arguments Lock {A} f k.
Arguments Fetch_keys {A} url k.
Arguments Fetch_user {A} url publishable_key jwt k.
Arguments Count {A} metric k.

Fixpoint ibind {A B} (p : io A) (k : A -> io B) : io B :=
  match p with
  | IRet a => k a
  | Lock f c => Lock f (fun now m => ibind (c now m) k)
  | Fetch_keys url c => Fetch_keys url (fun r => ibind (c r) k)
  | Fetch_user url key jwt c => Fetch_user url key jwt (fun r => ibind (c r) k)
  | Count metric c => Count metric (ibind c k)
  end.
Definition iqbind {E A B} (p : io (result E A)) (k : A -> io (result E B)) : io (result E B) :=
  ibind p (fun r => match r with
                    | Ok a => k a
                    | Err e => IRet (Err e)
                    end).

Definition record_unknown_kid {A} (stage : UnknownKidStage) (k : io A) : io A :=
  Count (unknown_kid_metric stage) k.
Definition record_forced_refresh {A} (outcome : ForcedRefreshOutcome) (k : io A) : io A :=
  Count (forced_refresh_metric outcome) k.
Definition record_remote_userinfo {A} (outcome : RemoteUserinfoOutcome) (k : io A) : io A :=
  Count (remote_userinfo_metric outcome) k.

Definition find_key (jwks : list Jwk) (kid : string) : option Jwk :=
  List.find (fun jwk => bool_decide (jwk_key_id jwk = Some kid)) jwks.

Definition reject_symmetric_jwk (jwk : Jwk) : result VerifyError unit :=
  reject jwk_octet_key jwk with VE_SymmetricJwk ;;
  Ok tt.

Definition forced_refresh_cooldown_elapsed (cached_age : N) : bool :=
  from_secs MIN_FORCED_JWKS_REFRESH_SECS <=? cached_age.
(** [forced_refresh_allowed], on what it reads under the lock; [elapsed] is
    zero for an instant in the future. *)
Definition refresh_allowed (config : SupabaseConfig) (now : N) (m : cache) : bool :=
  match m !! config.(sb_jwks_url) with
  | Some cached => forced_refresh_cooldown_elapsed (saturating_sub now cached.(cj_fetched_at))
  | None => true
  end.
Definition read_lock {A} (f : N -> cache -> A) : io A := Lock (fun _ m => m) (fun now m => IRet (f now m)).
Definition forced_refresh_allowed (config : SupabaseConfig) : io bool :=
  read_lock (refresh_allowed config).

(** The set a verification may use: the one cached, while it is younger than
    its time to live. *)
Definition fresh_jwks (config : SupabaseConfig) (now : N) (m : cache) : option (list Jwk) :=
  match m !! config.(sb_jwks_url) with
  | Some cached =>
      if saturating_sub now cached.(cj_fetched_at) <? config.(sb_jwks_ttl)
      then Some cached.(cj_jwks)
      else None
  | None => None
  end.

Definition refresh_jwks (config : SupabaseConfig) : io (result VerifyError (list Jwk)) :=
  Fetch_keys config.(sb_jwks_url) (fun reply =>
    let fetched :=
      match reply with
      | Http_error error => Err (VE_Http error)
      | Http_reply status body =>
          reject error_status status with VE_Http "status" ;;
          let? jwks := map_err VE_Http body in
          reject match jwks with [] => true | _ => false end with VE_EmptyJwks ;;
          Ok jwks
      end in
    match fetched with
    | Ok jwks =>
        Lock (fun now m =>
                <[config.(sb_jwks_url) := {| cj_fetched_at := now; cj_jwks := jwks |}]> m)
          (fun _ _ => IRet (Ok jwks))
    | Err e => IRet (Err e)
    end).

Definition cached_jwks (config : SupabaseConfig) : io (result VerifyError (list Jwk)) :=
  ibind (read_lock (fresh_jwks config)) (fun cached =>
    match cached with
    | Some jwks => IRet (Ok jwks)
    | None => refresh_jwks config
    end).

(** The key for an id: from the cached set, or from a forced refresh. *)
Definition key_for (config : SupabaseConfig) (kid : string) (jwks : list Jwk)
  : io (result VerifyError Jwk) :=
  match find_key jwks kid with
  | Some jwk => IRet (Ok jwk)
  | None =>
      record_unknown_kid Observed
        (ibind (forced_refresh_allowed config) (fun allowed =>
          if negb allowed then record_unknown_kid RefreshBlocked (IRet (Err VE_MissingJwk))
          else
            record_forced_refresh Forced_Attempted
              (ibind (refresh_jwks config) (fun refreshed =>
                match refreshed with
                | Err error => record_forced_refresh Forced_Failed (IRet (Err error))
                | Ok jwks =>
                    match find_key jwks kid with
                    | Some jwk => record_forced_refresh Forced_Succeeded (IRet (Ok jwk))
                    | None =>
                        record_forced_refresh Forced_MissingAfterRefresh
                          (IRet (Err VE_MissingJwk))
                    end
                end))))
  end.

Definition validation_for (config : SupabaseConfig) (alg : Algorithm) : Validation :=
  {| va_algorithm := alg; va_issuer := [config.(sb_issuer)];
     va_audience := [config.(sb_audience)];
     va_required_spec_claims := ["exp"; "iss"; "aud"; "sub"]%string |}.

(** What [verify_with_jwks] does with the key it found. *)
Definition verify_with_key (jwt : string) (config : SupabaseConfig) (alg : Algorithm) (jwk : Jwk)
  : result VerifyError UserCtx :=
  let? _ := reject_symmetric_jwk jwk in
  let? decoding_key := map_err VE_Jwt (from_jwk jwk) in
  let? claims := map_err VE_Jwt (jwt_decode jwt decoding_key (validation_for config alg)) in
  user_ctx_from_claims claims config.

Definition verify_with_jwks (jwt : string) (config : SupabaseConfig) (alg : Algorithm)
    (kid : string) : io (result VerifyError UserCtx) :=
  iqbind (cached_jwks config) (fun jwks =>
    iqbind (key_for config kid jwks) (fun jwk =>
      IRet (verify_with_key jwt config alg jwk))).

Definition verify_with_user_endpoint (jwt : string) (config : SupabaseConfig)
  : io (result VerifyError UserCtx) :=
  match config.(sb_publishable_key) with
  | None => IRet (Err VE_MissingPublishableKey)
  | Some publishable_key =>
      Fetch_user config.(sb_user_url) publishable_key jwt (fun reply =>
        match reply with
        | Http_error error => record_remote_userinfo Remote_TransportError (IRet (Err (VE_Http error)))
        | Http_reply status body =>
            if status =? OK then
              match body with
              | Err error => record_remote_userinfo Remote_InvalidResponse (IRet (Err (VE_Http error)))
              | Ok user =>
                  let result := user_ctx_from_remote_user user config in
                  record_remote_userinfo
                    (if is_ok result then Remote_Accepted else Remote_ClaimRejected)
                    (IRet result)
              end
            else if (status =? UNAUTHORIZED) || (status =? FORBIDDEN)
            then record_remote_userinfo Remote_Rejected (IRet (Err VE_RejectedBySupabase))
            else record_remote_userinfo Remote_UpstreamStatus (IRet (Err (VE_SupabaseStatus status)))
        end)
  end.

Definition verify_session_with (jwt : string) (config : SupabaseConfig)
  : io (result VerifyError UserCtx) :=
  match map_err VE_Jwt (decode_header jwt) with
  | Err e => IRet (Err e)
  | Ok header =>
      match is_asymmetric_algorithm header.(h_alg), header.(h_kid) with
      | true, Some kid =>
          ibind (verify_with_jwks jwt config header.(h_alg) kid) (fun verified =>
            match verified with
            | Ok user => IRet (Ok user)
            | Err e =>
                if negb config.(sb_allow_remote_userinfo) then IRet (Err e)
                else record_remote_userinfo Remote_Attempted (verify_with_user_endpoint jwt config)
            end)
      | _, _ =>
          if negb config.(sb_allow_remote_userinfo)
          then IRet (Err (VE_UnsupportedAlgorithm header.(h_alg)))
          else record_remote_userinfo Remote_Attempted (verify_with_user_endpoint jwt config)
      end
  end.

Definition verify_session_inner (projects : result VerifyError (list SupabaseConfig))
    (jwt : string) : io (result VerifyError UserCtx) :=
  if str_is_empty (trim jwt) then IRet (Err (VE_InvalidToken "empty bearer token"))
  else
    match (let? projects := projects in select projects jwt) with
    | Ok config => verify_session_with jwt config
    | Err e => IRet (Err e)
    end.
Definition verify_session (projects : result VerifyError (list SupabaseConfig)) (bearer_jwt : string)
  : io (option UserCtx) :=
  ibind (verify_session_inner projects bearer_jwt) (fun verified =>
    IRet (match verified with
          | Ok user => Some user
          | Err _ => None
          end)).
End verify.
Arguments IRet {_ A} a.
Arguments Lock {_ A} f k.
Arguments Fetch_keys {_ A} url k.
Arguments Fetch_user {_ A} url publishable_key jwt k.
Arguments Count {_ A} metric k.
