(* ===== verification/SupabaseFacts.v ===== *)
(** * Projects and user contexts

    What an accepted registry guarantees, how a token is routed to a project,
    and what a user context is made of. *)
From Stdlib Require Import Ascii String.
From S2P Require Import Prelude Text Wire Samples Json Kv Model Store Net ProtectedState.
From S2P Require Import SupabasePolicy Supabase.

(** ** Names in metadata *)

(** A text that a string, or an array of such values, carries. *)
Inductive carries : Value -> string -> Prop :=
  | carries_str s : carries (Str s) s
  | carries_array l v s : v ∈ l -> carries v s -> carries (Array l) s.

Lemma carries_str_iff s t : carries (Str s) t <-> t = s.
Proof. split; [by inversion 1|]. intros ->. constructor. Qed.
Lemma carries_array_iff l t : carries (Array l) t <-> exists v, v ∈ l /\ carries v t.
Proof. split; [inversion 1; subst; eauto|]. intros (v & ? & ?). by eapply carries_array. Qed.

(** [push_org] and [push_role] up to the way they normalise a text. *)
Section push.
Context (norm : string -> string).

Definition push_name (acc : list string) (text : string) : list string :=
  let text := norm text in
  if negb (str_is_empty text) && negb (bool_decide (text ∈ acc)) then acc ++ [text] else acc.
Fixpoint push_names (acc : list string) (value : Value) : list string :=
  match value with
  | Str text => push_name acc text
  | Array values => List.fold_left (fun acc value => push_names acc value) values acc
  | _ => acc
  end.

Definition adds (push : list string -> list string) (new : string -> Prop) : Prop :=
  forall acc, NoDup acc ->
  NoDup (push acc) /\ forall x, x ∈ push acc <-> x ∈ acc \/ (x <> ""%string /\ new x).

Lemma adds_fold {A} (push : list string -> A -> list string) (new : A -> string -> Prop) l :
  (forall a, a ∈ l -> adds (fun acc => push acc a) (new a)) ->
  adds (fun acc => List.fold_left push l acc) (fun x => exists a, a ∈ l /\ new a x).
Proof.
  intros Hl acc. revert acc. induction l as [|a l IH]; intros acc Hnd; cbn.
  - split; [done|]. intros x. split; [by left|]. intros [?|(_ & a & Ha & _)]; [done|].
    by apply not_elem_of_nil in Ha.
  - destruct (Hl a (list_elem_of_here _ _) acc Hnd) as [Hnd' Hin].
    destruct (IH (fun b Hb => Hl b (list_elem_of_further _ _ _ Hb)) _ Hnd') as [Hnd2 Hin2].
    split; [done|]. intros x. rewrite Hin2, Hin. setoid_rewrite list.elem_of_cons. naive_solver.
Qed.

Lemma push_name_adds text : adds (fun acc => push_name acc text) (fun x => x = norm text).
Proof.
  intros acc Hnd. unfold push_name. destruct (str_is_empty (norm text)) eqn:He; cbn [negb andb].
  - split; [done|]. intros x. destruct (norm text); [naive_solver|done].
  - assert (norm text <> ""%string) by (by intros Hn; rewrite Hn in He).
    case_bool_decide as Hx; cbn [negb].
    + split; [done|]. naive_solver.
    + split; [|intros x; rewrite list.elem_of_app, list_elem_of_singleton; naive_solver].
      apply list.NoDup_app. split_and!; [done| |apply NoDup_singleton].
      by intros y Hy ->%list_elem_of_singleton.
Qed.

Lemma push_names_adds value :
  adds (fun acc => push_names acc value) (fun x => exists text, carries value text /\ x = norm text).
Proof.
  induction value as [| | |s|l IH|l _] using value_nested_ind; intros acc Hnd; cbn [push_names].
  1-3, 6: split; [done|]; intros x; split; [by left|]; intros [?|(_ & t & Ht & _)]; [done|];
    inversion Ht.
  - destruct (push_name_adds s acc Hnd) as [? Hin]. split; [done|]. intros x. rewrite Hin.
    setoid_rewrite carries_str_iff. naive_solver.
  - rewrite list.Forall_forall in IH.
    destruct (adds_fold push_names (fun v x => exists t, carries v t /\ x = norm t) l IH acc Hnd)
      as [? Hin]. split; [done|]. intros x. rewrite Hin. setoid_rewrite carries_array_iff.
    naive_solver.
Qed.

(** A name the metadata gives under one of the keys. *)
Definition named_in (keys : list string) (metadata : option Value) (x : string) : Prop :=
  exists m key v text, metadata = Some m /\ key ∈ keys /\ value_get m key = Some v
  /\ carries v text /\ x = norm text /\ x <> ""%string.

Lemma from_metadata_exact keys metadata :
  NoDup (from_metadata push_names keys [metadata])
  /\ forall x, x ∈ from_metadata push_names keys [metadata] <-> named_in keys metadata x.
Proof.
  unfold from_metadata, named_in. destruct metadata as [m|]; cbn [omap list_omap id List.fold_left].
  2:{ split; [constructor|]. intros x. rewrite elem_of_nil. naive_solver. }
  destruct (adds_fold
    (fun acc key => match value_get m key with Some found => push_names acc found | None => acc end)
    (fun key x => exists v, value_get m key = Some v /\ exists t, carries v t /\ x = norm t) keys)
    with (acc := @nil string) as [Hnd Hin].
  - intros key _ acc Hnd. destruct (value_get m key) as [v|] eqn:Hv; [|naive_solver].
    destruct (push_names_adds v acc Hnd) as [? Hin]. split; [done|]. intros x. rewrite Hin.
    naive_solver.
  - constructor.
  - split; [exact Hnd|]. intros x. rewrite Hin, elem_of_nil. naive_solver.
Qed.
End push.

Definition lower_trim (text : string) : string := to_ascii_lowercase (trim text).
Lemma orgs_exact metadata :
  NoDup (orgs_from_metadata [metadata])
  /\ forall org, org ∈ orgs_from_metadata [metadata] <-> named_in trim ORG_KEYS metadata org.
Proof. exact (from_metadata_exact trim ORG_KEYS metadata). Qed.
Lemma roles_exact metadata :
  NoDup (roles_from_metadata [metadata])
  /\ forall role, role ∈ roles_from_metadata [metadata] <-> named_in lower_trim ROLE_KEYS metadata role.
Proof. exact (from_metadata_exact lower_trim ROLE_KEYS metadata). Qed.

Lemma trim_not_empty s : str_is_empty (trim s) = false <-> trim s <> ""%string.
Proof. by destruct (trim s). Qed.

Lemma assurance_exact value aal :
  assurance_level_from_claim value = Ok aal ->
  (aal = Aal2 <-> value = Some "aal2"%string) /\ (value = None -> aal = Aal1).
Proof.
  unfold assurance_level_from_claim. destruct value as [text|]; cbn [default id]; cbv zeta.
  - destruct (String.eqb_spec text "aal1") as [->|Hne1].
    { intros Heq. assert (aal = Aal1) as -> by congruence. by repeat split. }
    destruct (String.eqb_spec text "aal2") as [->|Hne2]; [|done].
    intros Heq. assert (aal = Aal2) as -> by congruence. by repeat split.
  - intros Heq. change (Ok (E:=VerifyError) Aal1 = Ok aal) in Heq.
    assert (aal = Aal1) as -> by congruence. by repeat split.
Qed.

(** C27: identity comes from verified claims and administrator-controlled
    metadata only: the context built from a session's claims has the subject
    as its user, exactly the organizations and roles that [app_metadata] names
    under the known keys (trimmed, non-empty, without duplicates; never
    anything of [user_metadata]), two-factor assurance only if the claim says
    so, and the surfaces of the project that verified it; the claims must
    carry the authenticated role and a subject that is not blank. *)
Theorem user_context_exact claims config u :
  user_ctx_from_claims claims config = Ok u ->
  claims.(sc_role) = Some DEFAULT_AUDIENCE
  /\ u.(u_user_id) = claims.(sc_sub) /\ trim claims.(sc_sub) <> ""%string
  /\ (forall org, org ∈ u.(u_orgs) <-> named_in trim ORG_KEYS claims.(sc_app_metadata) org)
  /\ (forall role, role ∈ u.(u_roles) <-> named_in lower_trim ROLE_KEYS claims.(sc_app_metadata) role)
  /\ NoDup u.(u_orgs) /\ NoDup u.(u_roles)
  /\ (u.(u_aal) = Aal2 <-> claims.(sc_aal) = Some "aal2"%string)
  /\ u.(u_project_surfaces) = project_surfaces config.
Proof.
  unfold user_ctx_from_claims. intros Hu.
  apply reject_ok in Hu as [Hrole Hu]. apply reject_ok in Hu as [Hsub Hu].
  apply rbind_ok in Hu as (aal & Haal & [= <-]). reflect_bools. cbn.
  destruct (orgs_exact (sc_app_metadata claims)) as [? ?].
  destruct (roles_exact (sc_app_metadata claims)) as [? ?].
  apply assurance_exact in Haal as [? _]. apply trim_not_empty in Hsub. done.
Qed.

(** ** The registry *)

Section registry.
Context `{SpecsJson} (var : string -> option string).

Definition known_surfaces (surfaces : list string) : Prop :=
  surfaces <> [] /\ NoDup surfaces
  /\ forall s, s ∈ surfaces -> s = ADMIN_SURFACE_AUDIENCE \/ s = CUSTOMER_SURFACE_AUDIENCE.

Lemma collect_surfaces_ok texts acc surfaces :
  collect_surfaces texts acc = Ok surfaces -> NoDup acc ->
  (forall s, s ∈ acc -> s = ADMIN_SURFACE_AUDIENCE \/ s = CUSTOMER_SURFACE_AUDIENCE) ->
  NoDup surfaces
  /\ forall s, s ∈ surfaces -> s = ADMIN_SURFACE_AUDIENCE \/ s = CUSTOMER_SURFACE_AUDIENCE.
Proof.
  revert acc. induction texts as [|text texts IH]; cbn [collect_surfaces]; intros acc Hc Hnd Hacc.
  { assert (acc = surfaces) as <- by congruence. done. }
  apply rbind_ok in Hc as (s & Hs & Hc).
  assert (Hknown : s = ADMIN_SURFACE_AUDIENCE \/ s = CUSTOMER_SURFACE_AUDIENCE).
  { destruct (_ =? _)%string; [left; congruence|]. destruct (_ =? _)%string; [|done].
    right; congruence. }
  case_bool_decide as Hin; [by apply (IH acc)|]. apply (IH _ Hc).
  - apply list.NoDup_app. split_and!; [done| |apply NoDup_singleton].
    by intros y Hy ->%list_elem_of_singleton.
  - intros x. rewrite list.elem_of_app, list_elem_of_singleton. intros [?|Hx]; [by apply Hacc|by subst].
Qed.

Lemma from_spec_ok spec allow p :
  from_spec var spec allow = Ok p ->
  known_surfaces p.(sb_surfaces) /\ p.(sb_name) <> ""%string
  /\ p.(sb_allow_remote_userinfo) = allow.
Proof.
  unfold from_spec. intros Hp. apply reject_ok in Hp as [Hn%trim_not_empty Hp].
  apply rbind_ok in Hp as (surfaces & Hs & Hp). apply reject_ok in Hp as [Hne Hp].
  apply rbind_ok in Hp as (? & _ & Hp). apply rbind_ok in Hp as (? & _ & [= <-]). cbn.
  split; [|done]. apply collect_surfaces_ok in Hs as [? ?].
  - split; [by destruct surfaces|done].
  - constructor.
  - intros s Hin. by apply not_elem_of_nil in Hin.
Qed.

(** Bound projects with pairwise distinct issuers and names. *)
Record isolated (projects : list SupabaseConfig) : Prop := {
  iso_surfaces p : p ∈ projects -> known_surfaces p.(sb_surfaces);
  iso_issuers : NoDup (sb_issuer <$> projects);
  iso_names : NoDup (sb_name <$> projects)
}.

Lemma existsb_eqb_false {A} (f : A -> string) (x : string) l :
  List.existsb (fun a => (f a =? x)%string) l = false -> x ∉ f <$> l.
Proof.
  intros Hf (a & -> & Ha)%list.list_elem_of_fmap.
  assert (Ht : List.existsb (fun b => (f b =? f a)%string) l = true).
  { apply List.existsb_exists. exists a. rewrite String.eqb_refl. split; [|done].
    by apply list_elem_of_In. }
  congruence.
Qed.
Lemma nodup_snoc {A} (f : A -> string) l a :
  NoDup (f <$> l) -> f a ∉ f <$> l -> NoDup (f <$> (l ++ [a])).
Proof.
  intros Hnd Hni. rewrite fmap_app. apply list.NoDup_app. split_and!; [done| |apply NoDup_singleton].
  by intros x Hx ->%list_elem_of_singleton.
Qed.

Lemma collect_projects_ok specs allow acc projects :
  collect_projects var specs allow acc = Ok projects -> isolated acc ->
  Forall (fun p => p.(sb_allow_remote_userinfo) = allow
                   /\ (allow = true -> is_Some p.(sb_publishable_key))) acc ->
  isolated projects
  /\ Forall (fun p => p.(sb_allow_remote_userinfo) = allow
                      /\ (allow = true -> is_Some p.(sb_publishable_key))) projects
  /\ (length projects = length acc + length specs)%nat.
Proof.
  revert acc. induction specs as [|spec specs IH]; cbn [collect_projects]; intros acc Hc Hiso Hall.
  { assert (acc = projects) as <- by congruence. split_and!; [done..|cbn; lia]. }
  apply rbind_ok in Hc as (p & Hp & Hc).
  apply reject_ok in Hc as [Hi%existsb_eqb_false Hc].
  apply reject_ok in Hc as [Hn%existsb_eqb_false Hc].
  apply reject_ok in Hc as [Hkey Hc]. apply from_spec_ok in Hp as (Hs & _ & Ha).
  destruct (IH _ Hc) as (? & ? & Hlen).
  - destruct Hiso. constructor; [|by apply nodup_snoc..].
    intros q. rewrite list.elem_of_app, list_elem_of_singleton. intros [?|Hq]; [auto|by subst].
  - apply Forall_app. split; [done|]. apply Forall_singleton. split; [done|]. intros ->.
    rewrite Ha in Hkey. cbn [andb] in Hkey. by reflect_bools.
  - split_and!; [done..|]. rewrite Hlen, length_app. cbn. lia.
Qed.

(** The fallback was asked for, outside production. *)
Definition remote_allowed : Prop :=
  exists mode, remote_userinfo_policy_from_env var = Ok (mode, true) /\ mode <> Production
  /\ is_Some (env_value var PUBLISHABLE_KEY_ENV).

Lemma remote_policy_allows mode :
  remote_userinfo_policy_from_env var = Ok (mode, true) -> remote_allowed.
Proof.
  intros Hp. pose proof Hp as (Hm & _ & Hk)%policy_allows. exists mode.
  split_and!; try done. by apply bool_decide_eq_true in Hk.
Qed.

Lemma registry_shape projects :
  registry_from_env var = Ok projects ->
  (exists only, projects = [only] /\ only.(sb_surfaces) = []) \/ (projects <> [] /\ isolated projects).
Proof.
  unfold registry_from_env. destruct (env_value var PROJECTS_ENV) as [raw|]; intros Hr.
  - apply rbind_ok in Hr as (specs & _ & Hr). apply reject_ok in Hr as [Hne Hr].
    apply rbind_ok in Hr as ([mode allow] & _ & Hr).
    apply collect_projects_ok in Hr as (Hiso & _ & Hlen); [| |constructor].
    + right. split; [|done]. intros ->. by destruct specs.
    + constructor; [|constructor..]. intros p Hp. by apply not_elem_of_nil in Hp.
  - apply rbind_ok in Hr as (only & Ho & Hr). assert (projects = [only]) as -> by congruence.
    unfold supabase_config_from_env in Ho. apply rbind_ok in Ho as (url & _ & Ho).
    apply rbind_ok in Ho as ([mode allow] & _ & Ho). injection Ho as Ho. subst only.
    left. by eexists.
Qed.

Lemma registry_remote projects p :
  registry_from_env var = Ok projects -> p ∈ projects -> p.(sb_allow_remote_userinfo) = true ->
  is_Some p.(sb_publishable_key) /\ remote_allowed.
Proof.
  intros Hr Hp Ha. revert Hr.
  unfold registry_from_env. destruct (env_value var PROJECTS_ENV) as [raw|]; intros Hr.
  - apply rbind_ok in Hr as (specs & _ & Hr). apply reject_ok in Hr as [Hne Hr].
    apply rbind_ok in Hr as ([mode allow] & Hpol%map_err_ok & Hr).
    apply collect_projects_ok in Hr as (_ & Hall & _); [| |constructor].
    + rewrite list.Forall_forall in Hall. destruct (Hall p Hp) as [Heq Hk].
      rewrite Ha in Heq. subst allow. split; [by apply Hk|]. by eapply remote_policy_allows.
    + constructor; [|constructor..]. intros q Hq. by apply not_elem_of_nil in Hq.
  - apply rbind_ok in Hr as (only & Ho & Hr). assert (projects = [only]) as -> by congruence.
    unfold supabase_config_from_env in Ho. apply rbind_ok in Ho as (url & _ & Ho).
    apply rbind_ok in Ho as ([mode allow] & Hpol%map_err_ok & Ho). injection Ho as Ho. subst only.
    apply list_elem_of_singleton in Hp as ->. cbn in *. subst allow.
    pose proof (remote_policy_allows _ Hpol) as Hall. split; [|done].
    by destruct Hall as (_ & _ & _ & Hk).
Qed.

(** C28: an accepted registry separates the projects: it is one unbound project
    (the deployment without a registry), or every project is bound to at least
    one known surface and no two share an issuer or a name; and a project that
    may fall back to the remote endpoint has a publishable key, in a
    deployment that asked for it outside production. *)
Theorem registry_separates projects :
  registry_from_env var = Ok projects ->
  ((exists only, projects = [only] /\ only.(sb_surfaces) = []) \/ (projects <> [] /\ isolated projects))
  /\ forall p, p ∈ projects -> p.(sb_allow_remote_userinfo) = true ->
       is_Some p.(sb_publishable_key) /\ remote_allowed.
Proof. intros Hr. split; [by apply registry_shape|]. intros p. by apply registry_remote. Qed.

(** ** Routing *)

Context `{Crypto, !FromSlice Value}.

Lemma find_some_iff {A} (p : A -> bool) l a :
  List.find p l = Some a -> a ∈ l /\ p a = true.
Proof. intros [Hin ?]%List.find_some. split; [by apply list_elem_of_In|done]. Qed.

(** A token is routed by its issuer, unambiguously: under an accepted
    registry a token selects the one unbound project, or the only project
    whose issuer is the one the token names, which is bound to its surfaces. *)
Theorem token_routed projects jwt p :
  registry_from_env var = Ok projects -> select projects jwt = Ok p ->
  (projects = [p] /\ p.(sb_surfaces) = [])
  \/ (unverified_issuer jwt = Some p.(sb_issuer) /\ known_surfaces p.(sb_surfaces)
      /\ p ∈ projects /\ forall q, q ∈ projects -> q.(sb_issuer) = p.(sb_issuer) -> q = p).
Proof.
  intros Hr Hs.
  assert (Hcase : (projects = [p] /\ sb_surfaces p = [])
    \/ (unverified_issuer jwt = Some (sb_issuer p) /\ p ∈ projects
        /\ forall only, projects = [only] -> sb_surfaces only <> [])).
  { unfold select in Hs. set (by_issuer := rbind _ _) in Hs.
    assert (Hby : by_issuer = Ok p -> unverified_issuer jwt = Some (sb_issuer p) /\ p ∈ projects).
    { unfold by_issuer. intros (issuer & Hi%ok_or_ok & Hf%ok_or_ok)%rbind_ok.
      apply find_some_iff in Hf as [? ->%String.eqb_eq]. done. }
    destruct projects as [|only [|]].
    - right. split_and!; [by apply Hby..|done].
    - destruct (sb_surfaces only) eqn:Ho.
      + left. assert (only = p) as -> by congruence. done.
      + right. split_and!; [by apply Hby..|]. intros ? [= <-]. by rewrite Ho.
    - right. split_and!; [by apply Hby..|done]. }
  destruct Hcase as [Hl|(Hi & Hin & Hno)]; [by left|]. right.
  destruct (registry_shape _ Hr) as [(only & -> & Ho)|[_ Hiso]]; [by destruct (Hno only)|].
  split_and!; [done|by apply Hiso|done|].
  intros q Hq Heq. destruct Hiso as [_ Hnd _].
  apply list.list_elem_of_lookup in Hq as [i Hqi]. apply list.list_elem_of_lookup in Hin as [j Hpj].
  assert (i = j) as <-; [|congruence].
  eapply NoDup_lookup; [exact Hnd| |]; rewrite list_lookup_fmap.
  - by rewrite Hqi.
  - rewrite Hpj. cbn. by rewrite Heq.
Qed.
End registry.
