(* ===== verification/SessionSafety.v ===== *)
(** * Sessions under concurrency

    Requests of one process share the key cache; any number of them run
    interleaved, with arbitrary replies of Supabase and an arbitrary passage of
    time.  [iwp] is the weakest precondition of a verification against the
    history of replies; [exec] records the trace of one request, for what it
    says about outgoing traffic. *)
From Stdlib Require Import Ascii String.
From S2P Require Import Prelude Text Wire Samples Json Kv Model Store Net ProtectedState.
From S2P Require Import SupabasePolicy Supabase SupabaseFacts.

Section sessions.
Context `{Crypto, !FromSlice Value, !JsonWebToken}.
Notation cache := (gmap string CachedJwks).

(** Successful replies of Supabase so far. *)
Inductive served :=
  | Served_keys (url : string) (keys : list Jwk)
  | Served_user (url publishable_key jwt : string) (user : SupabaseUser).
Notation history := (list served).

Definition keys_event (url : string) (reply : http_reply (list Jwk)) : history :=
  match reply with
  | Http_reply _ (Ok keys) => [Served_keys url keys]
  | _ => []
  end.
Definition user_event (url key jwt : string) (reply : http_reply SupabaseUser) : history :=
  match reply with
  | Http_reply status (Ok user) => if status =? OK then [Served_user url key jwt user] else []
  | _ => []
  end.

(** Every cached set is one its URL served, and is not empty. *)
Definition cache_served (m : cache) (h : history) : Prop :=
  forall url cached, m !! url = Some cached ->
  cached.(cj_jwks) <> [] /\ Served_keys url cached.(cj_jwks) ∈ h.

Fixpoint iwp {A} (p : io A) (Q : A -> history -> Prop) (h : history) : Prop :=
  match p with
  | IRet a => forall h', h ⊆ h' -> Q a h'
  | Lock f k =>
      forall h' now m, h ⊆ h' -> cache_served m h' ->
      cache_served (f now m) h' /\ iwp (k now m) Q h'
  | Fetch_keys url k =>
      forall h' reply, h ⊆ h' -> keys_event url reply ⊆ h' -> iwp (k reply) Q h'
  | Fetch_user url key jwt k =>
      forall h' reply, h ⊆ h' -> user_event url key jwt reply ⊆ h' -> iwp (k reply) Q h'
  | Count metric k => forall h', h ⊆ h' -> iwp k Q h'
  end.

Lemma iwp_grows {A} (p : io A) Q h h' : h ⊆ h' -> iwp p Q h -> iwp p Q h'.
Proof.
  destruct p; cbn; intros Hh Hp; intros.
  all: first [apply Hp; [by etrans|done] | apply Hp; by etrans].
Qed.
Lemma iwp_mono {A} (p : io A) (Q Q' : A -> history -> Prop) h :
  (forall a h', Q a h' -> Q' a h') -> iwp p Q h -> iwp p Q' h.
Proof.
  intros HQ. revert h. induction p; cbn; intros h Hp; intros; eauto.
  edestruct Hp as [? ?]; eauto.
Qed.
Lemma iwp_bind {A B} (p : io A) (k : A -> io B) Q h :
  iwp p (fun a => iwp (k a) Q) h -> iwp (ibind p k) Q h.
Proof.
  revert h. induction p; cbn; intros h Hp; intros; eauto.
  edestruct Hp as [? ?]; eauto.
Qed.
Lemma iwp_qbind {E A B} (p : io (result E A)) (k : A -> io (result E B)) Q h :
  iwp p (fun r h' => match r with
                     | Ok a => iwp (k a) Q h'
                     | Err e => forall h'', h' ⊆ h'' -> Q (Err e) h''
                     end) h ->
  iwp (iqbind p k) Q h.
Proof. intros Hp. apply iwp_bind. eapply iwp_mono; [|exact Hp]. by intros [a|e] h'. Qed.
Lemma iwp_read {A} (f : N -> cache -> A) (Q : A -> history -> Prop) h :
  (forall h' now m, h ⊆ h' -> cache_served m h' -> Q (f now m) h') ->
  (forall a h1 h2, h1 ⊆ h2 -> Q a h1 -> Q a h2) -> iwp (read_lock f) Q h.
Proof.
  intros Hr Hmono. cbn. intros h' now m Hh Hm. split; [done|]. intros h'' Hh'.
  eapply Hmono; [exact Hh'|]. by apply Hr.
Qed.

(** ** The system *)

Record session_system (A : Type) := {
  ss_now : N;
  ss_cache : cache;
  ss_requests : list (io A);
  ss_history : history
}.
Arguments ss_now {A} _.
Arguments ss_cache {A} _.
Arguments ss_requests {A} _.
Arguments ss_history {A} _.

Section system.
Context {A : Type} (admissible : io A -> Prop).

Inductive session_step : session_system A -> session_system A -> Prop :=
  | session_tick now now' m ps h :
      now <= now' ->
      session_step {| ss_now := now; ss_cache := m; ss_requests := ps; ss_history := h |}
                   {| ss_now := now'; ss_cache := m; ss_requests := ps; ss_history := h |}
  | session_lock now m ps h i f k :
      ps !! i = Some (Lock f k) ->
      session_step {| ss_now := now; ss_cache := m; ss_requests := ps; ss_history := h |}
                   {| ss_now := now; ss_cache := f now m; ss_requests := <[i := k now m]> ps;
                      ss_history := h |}
  | session_keys now m ps h i url k reply :
      ps !! i = Some (Fetch_keys url k) ->
      session_step {| ss_now := now; ss_cache := m; ss_requests := ps; ss_history := h |}
                   {| ss_now := now; ss_cache := m; ss_requests := <[i := k reply]> ps;
                      ss_history := h ++ keys_event url reply |}
  | session_user now m ps h i url key jwt k reply :
      ps !! i = Some (Fetch_user url key jwt k) ->
      session_step {| ss_now := now; ss_cache := m; ss_requests := ps; ss_history := h |}
                   {| ss_now := now; ss_cache := m; ss_requests := <[i := k reply]> ps;
                      ss_history := h ++ user_event url key jwt reply |}
  | session_count now m ps h i metric k :
      ps !! i = Some (Count metric k) ->
      session_step {| ss_now := now; ss_cache := m; ss_requests := ps; ss_history := h |}
                   {| ss_now := now; ss_cache := m; ss_requests := <[i := k]> ps;
                      ss_history := h |}
  | session_arrive now m ps h p :
      admissible p ->
      session_step {| ss_now := now; ss_cache := m; ss_requests := ps; ss_history := h |}
                   {| ss_now := now; ss_cache := m; ss_requests := ps ++ [p]; ss_history := h |}
  | session_drop now m ps1 p ps2 h :
      session_step {| ss_now := now; ss_cache := m; ss_requests := ps1 ++ p :: ps2; ss_history := h |}
                   {| ss_now := now; ss_cache := m; ss_requests := ps1 ++ ps2; ss_history := h |}.

Lemma session_step_history s s' : session_step s s' -> s.(ss_history) ⊆ s'.(ss_history).
Proof. destruct 1; cbn; set_solver. Qed.

Context (Q : A -> history -> Prop).
Context (admissible_iwp : forall p h, admissible p -> iwp p Q h).

Definition session_ok (s : session_system A) : Prop :=
  cache_served s.(ss_cache) s.(ss_history)
  /\ Forall (fun p => iwp p Q s.(ss_history)) s.(ss_requests).

Lemma cache_served_grows m h h' : h ⊆ h' -> cache_served m h -> cache_served m h'.
Proof. intros Hh Hm url cached Hc. destruct (Hm _ _ Hc). split; [done|]. by apply Hh. Qed.

Lemma session_progress ps i p' h h' :
  h ⊆ h' -> Forall (fun p => iwp p Q h) ps -> iwp p' Q h' ->
  Forall (fun p => iwp p Q h') (<[i := p']> ps).
Proof.
  intros Hh Hall Hp. apply Forall_insert; [|done]. eapply Forall_impl; [|exact Hall].
  intros p. by apply iwp_grows.
Qed.

Lemma session_step_ok s s' : session_step s s' -> session_ok s -> session_ok s'.
Proof.
  intros Hs [Hc Hr].
  destruct Hs as [now now' m ps h Hle|now m ps h i f k Hi|now m ps h i url k reply Hi
                 |now m ps h i url key jwt k reply Hi|now m ps h i metric k Hi|now m ps h p Ha|now m ps1 p ps2 h]; cbn in *.
  - by split.
  - pose proof (list.Forall_lookup_1 _ _ _ _ Hr Hi) as Hp. cbn in Hp.
    destruct (Hp h now m) as [? ?]; [done..|]. split; [done|]. by eapply session_progress.
  - pose proof (list.Forall_lookup_1 _ _ _ _ Hr Hi) as Hp. cbn in Hp.
    assert (Hh : h ⊆ h ++ keys_event url reply) by set_solver.
    split; [by eapply cache_served_grows|]. eapply session_progress; [done..|].
    apply Hp; set_solver.
  - pose proof (list.Forall_lookup_1 _ _ _ _ Hr Hi) as Hp. cbn in Hp.
    assert (Hh : h ⊆ h ++ user_event url key jwt reply) by set_solver.
    split; [by eapply cache_served_grows|]. eapply session_progress; [done..|].
    apply Hp; set_solver.
  - pose proof (list.Forall_lookup_1 _ _ _ _ Hr Hi) as Hp. cbn in Hp.
    split; [done|]. eapply session_progress; [done..|]. by apply Hp.
  - split; [done|]. apply Forall_app. split; [done|]. apply Forall_singleton.
    by apply admissible_iwp.
  - split; [done|]. rewrite Forall_app, List.Forall_cons_iff in Hr. apply Forall_app. tauto.
Qed.

Lemma session_ok_start s : s.(ss_cache) = ∅ -> s.(ss_requests) = [] -> session_ok s.
Proof.
  intros Hm Hps. split; [|by rewrite Hps]. intros url c. by rewrite Hm, lookup_empty.
Qed.
Lemma session_ok_finished s a : session_ok s -> IRet a ∈ s.(ss_requests) -> Q a s.(ss_history).
Proof.
  intros [_ Hr] Ha. rewrite list.Forall_forall in Hr. specialize (Hr _ Ha). by apply Hr.
Qed.

(** Every finished request returned what its postcondition admits. *)
Lemma session_safe s s' :
  s.(ss_cache) = ∅ -> s.(ss_requests) = [] -> rtc session_step s s' ->
  cache_served s'.(ss_cache) s'.(ss_history)
  /\ forall a, IRet a ∈ s'.(ss_requests) -> Q a s'.(ss_history).
Proof.
  intros Hm Hps Hs. pose proof (session_ok_start _ Hm Hps) as Hok. clear Hm Hps. revert Hok.
  induction Hs as [s|s1 s2 s3 Hs _ IH]; intros Hok.
  - split; [apply Hok|]. intros a. by apply session_ok_finished.
  - apply IH. by eapply session_step_ok.
Qed.
End system.

(** ** What a verification guarantees *)

Lemma iwp_refresh_jwks config (Q : result VerifyError (list Jwk) -> history -> Prop) h :
  (forall h' jwks, h ⊆ h' -> Served_keys config.(sb_jwks_url) jwks ∈ h' -> Q (Ok jwks) h') ->
  (forall e h', h ⊆ h' -> Q (Err e) h') ->
  iwp (refresh_jwks config) Q h.
Proof.
  intros Hok Herr. cbn. intros h1 reply Hh1 Hev.
  match goal with |- iwp (match ?r with _ => _ end) _ _ => destruct r as [jwks|e] eqn:Hr end.
  2:{ intros h2 Hh2. apply Herr. by etrans. }
  assert (Hserved : jwks <> [] /\ Served_keys config.(sb_jwks_url) jwks ∈ h1).
  { destruct reply as [e|status body]; [done|]. apply reject_ok in Hr as [_ Hr].
    apply rbind_ok in Hr as (keys & Hb%map_err_ok & Hr). apply reject_ok in Hr as [Hne [= <-]].
    subst body. split; [by destruct keys|]. apply Hev. apply list_elem_of_here. }
  destruct Hserved as [Hne Hin]. intros h2 now m Hh2 Hm. split.
  - intros url cached. destruct (decide (config.(sb_jwks_url) = url)) as [<-|Hurl].
    + rewrite lookup_insert_eq. intros [= <-]. cbn. split; [done|]. by apply Hh2.
    + rewrite lookup_insert_ne by done. apply Hm.
  - intros h3 Hh3. apply Hok; [by do 2 (etrans; [done|])|]. by apply Hh3, Hh2.
Qed.

Lemma iwp_cached_jwks config (Q : result VerifyError (list Jwk) -> history -> Prop) h :
  (forall h' jwks, h ⊆ h' -> Served_keys config.(sb_jwks_url) jwks ∈ h' -> Q (Ok jwks) h') ->
  (forall e h', h ⊆ h' -> Q (Err e) h') ->
  iwp (cached_jwks config) Q h.
Proof.
  intros Hok Herr. cbn. intros h1 now m Hh1 Hm. split; [done|].
  destruct (fresh_jwks config now m) as [jwks|] eqn:Hf.
  - intros h2 Hh2. unfold fresh_jwks in Hf. destruct (m !! _) as [cached|] eqn:Hc; [|done].
    destruct (_ <? _); [|done]. injection Hf as <-. destruct (Hm _ _ Hc) as [_ Hin].
    apply Hok; [by etrans|]. by apply Hh2.
  - apply iwp_refresh_jwks; intros; [apply Hok|apply Herr]; try done; by etrans.
Qed.

Definition key_served (config : SupabaseConfig) (kid : string) (jwk : Jwk) (h : history) : Prop :=
  exists jwks, Served_keys config.(sb_jwks_url) jwks ∈ h /\ find_key jwks kid = Some jwk.

Lemma iwp_key_for config kid jwks (Q : result VerifyError Jwk -> history -> Prop) h :
  Served_keys config.(sb_jwks_url) jwks ∈ h ->
  (forall h' jwk, h ⊆ h' -> key_served config kid jwk h' -> Q (Ok jwk) h') ->
  (forall e h', h ⊆ h' -> Q (Err e) h') ->
  iwp (key_for config kid jwks) Q h.
Proof.
  intros Hserved Hok Herr. unfold key_for. destruct (find_key jwks kid) as [jwk|] eqn:Hf.
  { intros h1 Hh1. apply Hok; [done|]. exists jwks. split; [by apply Hh1|done]. }
  cbn -[refresh_jwks]. intros h0 Hh0 h1 now m Hh1 Hm. split; [done|].
  destruct (refresh_allowed config now m); cbn [negb].
  2:{ intros h2 Hh2 h3 Hh3. apply Herr. by do 3 (etrans; [done|]). }
  intros h2 Hh2. apply iwp_bind, iwp_refresh_jwks.
  - intros h3 keys Hh3 Hin.
    destruct (find_key keys kid) as [jwk|] eqn:Hk; intros h4 Hh4 h5 Hh5.
    + apply Hok; [by do 5 (etrans; [done|])|]. exists keys. split; [by apply Hh5, Hh4|done].
    + apply Herr. by do 5 (etrans; [done|]).
  - intros e h3 Hh3 h4 Hh4 h5 Hh5. apply Herr. by do 5 (etrans; [done|]).
Qed.

(** A user vouched for by a key of the project. *)
Definition by_project_key (jwt : string) (config : SupabaseConfig) (header : Header) (u : UserCtx)
    (h : history) : Prop :=
  exists kid jwk key claims,
    is_asymmetric_algorithm header.(h_alg) = true /\ header.(h_kid) = Some kid
    /\ key_served config kid jwk h /\ jwk_octet_key jwk = false /\ from_jwk jwk = Ok key
    /\ jwt_decode jwt key (validation_for config header.(h_alg)) = Ok claims
    /\ user_ctx_from_claims claims config = Ok u.
(** A user the project's own endpoint named, where that is allowed. *)
Definition by_user_endpoint (jwt : string) (config : SupabaseConfig) (u : UserCtx) (h : history)
  : Prop :=
  config.(sb_allow_remote_userinfo) = true
  /\ exists key user, config.(sb_publishable_key) = Some key
     /\ Served_user config.(sb_user_url) key jwt user ∈ h
     /\ user_ctx_from_remote_user user config = Ok u.

Lemma iwp_user_endpoint jwt config (Q : result VerifyError UserCtx -> history -> Prop) h :
  config.(sb_allow_remote_userinfo) = true ->
  (forall h' u, by_user_endpoint jwt config u h' -> Q (Ok u) h') ->
  (forall e h', Q (Err e) h') ->
  iwp (verify_with_user_endpoint jwt config) Q h.
Proof.
  intros Ha Hok Herr. unfold verify_with_user_endpoint.
  destruct (sb_publishable_key config) as [key|] eqn:Hk; [|intros h1 _; apply Herr].
  intros h1 reply Hh1 Hev. destruct reply as [e|status body]; [by intros ? _ ? _; apply Herr|].
  unfold user_event in Hev. destruct (status =? OK) eqn:Hst.
  2:{ destruct (_ || _); intros ? _ ? _; apply Herr. }
  destruct body as [user|e]; intros h2 Hh2 h3 Hh3; [|by apply Herr].
  destruct (user_ctx_from_remote_user user config) as [u|e] eqn:Hu; [|by apply Herr].
  apply Hok. split; [done|]. exists key, user. split_and!; [done| |done].
  apply Hh3, Hh2, Hev, list_elem_of_here.
Qed.

Definition verified (jwt : string) (config : SupabaseConfig) (u : UserCtx) (h : history) : Prop :=
  exists header, decode_header jwt = Ok header
  /\ (by_project_key jwt config header u h \/ by_user_endpoint jwt config u h).

Lemma verified_grows jwt config u h h' :
  h ⊆ h' -> verified jwt config u h -> verified jwt config u h'.
Proof.
  intros Hh (header & Hd & Hv). exists header. split; [done|].
  destruct Hv as [(kid & jwk & key & claims & ? & ? & (keys & ? & ?) & Hrest)
                 |(? & key & user & ? & ? & ?)].
  - left. exists kid, jwk, key, claims. do 2 (split; [done|]). split; [|exact Hrest].
    exists keys. split; [by apply Hh|done].
  - right. split; [done|]. exists key, user. split_and!; [done|by apply Hh|done].
Qed.

Lemma iwp_verify_session_with jwt config (Q : result VerifyError UserCtx -> history -> Prop) h :
  (forall h' u, verified jwt config u h' -> Q (Ok u) h') ->
  (forall e h', Q (Err e) h') ->
  iwp (verify_session_with jwt config) Q h.
Proof.
  intros Hok Herr. unfold verify_session_with.
  destruct (decode_header jwt) as [header|e] eqn:Hh; cbn [map_err]; [|intros h1 _; apply Herr].
  assert (Hend : forall e h',
    iwp (if negb (sb_allow_remote_userinfo config) then IRet (Err e)
         else record_remote_userinfo Remote_Attempted (verify_with_user_endpoint jwt config)) Q h').
  { intros e h'. destruct (sb_allow_remote_userinfo config) eqn:Ha; cbn [negb]; [|intros h1 _; apply Herr].
    intros h1 _. apply iwp_user_endpoint; [done| |done]. intros h2 u Hu. apply Hok. exists header.
    split; [done|by right]. }
  destruct (is_asymmetric_algorithm (h_alg header)) eqn:Halg; [|apply Hend].
  destruct (h_kid header) as [kid|] eqn:Hkid; [|apply Hend].
  apply iwp_bind, iwp_qbind, iwp_cached_jwks.
  - intros h1 jwks Hh1 Hin. apply iwp_qbind, iwp_key_for; [done| |].
    + intros h2 jwk Hh2 Hserved h3 Hh3.
      destruct (verify_with_key jwt config (h_alg header) jwk) as [u|e] eqn:Hv; [|apply Hend].
      intros h4 Hh4. apply Hok. exists header. split; [done|]. left.
      unfold verify_with_key, reject_symmetric_jwk in Hv.
      apply rbind_ok in Hv as ([] & Hs & Hv). apply reject_ok in Hs as [Hs _].
      apply rbind_ok in Hv as (key & Hkey%map_err_ok & Hv).
      apply rbind_ok in Hv as (claims & Hc%map_err_ok & Hu).
      exists kid, jwk, key, claims. split_and!; try done.
      destruct Hserved as (keys & ? & ?). exists keys. split; [|done]. by apply Hh4, Hh3.
    + intros e h2 Hh2 h3 Hh3. apply Hend.
  - intros e h1 Hh1 h2 Hh2. apply Hend.
Qed.

(** ** Verified sessions *)

Context (projects : result VerifyError (list SupabaseConfig)).

Definition session_request (jwt : string) : io (string * result VerifyError UserCtx) :=
  ibind (verify_session_inner projects jwt) (fun r => IRet (jwt, r)).
Definition session_client (p : io (string * result VerifyError UserCtx)) : Prop :=
  exists jwt, p = session_request jwt.

Definition session_post (a : string * result VerifyError UserCtx) (h : history) : Prop :=
  forall u, a.2 = Ok u ->
  exists ps config, projects = Ok ps /\ select ps a.1 = Ok config /\ verified a.1 config u h.

Lemma session_client_iwp p h : session_client p -> iwp p session_post h.
Proof.
  intros [jwt ->]. apply iwp_bind. unfold verify_session_inner.
  destruct (str_is_empty _); [by intros h1 _ h2 _|].
  match goal with |- iwp (match ?r with _ => _ end) _ _ => destruct r as [config|e] eqn:Hr end.
  2:{ by intros h1 _ h2 _. }
  apply rbind_ok in Hr as (ps & Hps & Hsel). apply iwp_verify_session_with.
  - intros h1 u Hv h2 Hh2 u' [= <-]. exists ps, config. cbn.
    do 2 (split; [done|]). by eapply verified_grows.
  - by intros e h1 h2 _.
Qed.

(** C16: a session is accepted only on the word of its project: in every
    interleaving of requests, whatever the replies and however late, an
    accepted session's user was built from claims that the JWT library
    accepted under that project's issuer and audience, with an asymmetric
    algorithm and a key, not a symmetric one, which that project's key URL
    served under the token's key id; or, only where the project allows the
    fallback, from what its user endpoint answered for this very token. The
    shared cache only ever holds non-empty sets its URLs served. *)
Theorem session_verified_by_project s s' jwt u :
  s.(ss_cache) = ∅ -> s.(ss_requests) = [] -> rtc (session_step session_client) s s' ->
  cache_served s'.(ss_cache) s'.(ss_history)
  /\ (IRet (jwt, Ok u) ∈ s'.(ss_requests) ->
      exists ps config, projects = Ok ps /\ select ps jwt = Ok config
      /\ verified jwt config u s'.(ss_history)).
Proof.
  intros Hm Hps Hs.
  destruct (session_safe session_client session_post session_client_iwp _ _ Hm Hps Hs) as [Hc Hans].
  split; [done|]. intros Hin. by apply (Hans (jwt, Ok u)).
Qed.
End sessions.
Arguments ss_now {_ A} _.
Arguments ss_cache {_ A} _.
Arguments ss_requests {_ A} _.
Arguments ss_history {_ A} _.
