(* ===== verification/SessionTraffic.v ===== *)
(** * Outgoing requests of a verification

    The traces of one verification against an arbitrary environment: at every
    critical section it may find any cache at any time, and any reply at every
    request, so the traces cover every interleaving with other requests. *)
From Stdlib Require Import Ascii String.
From S2P Require Import Prelude Text Wire Samples Json Kv Model Store Net ProtectedState.
From S2P Require Import SupabasePolicy Supabase.

Section traffic.
Context `{Crypto, !FromSlice Value, !JsonWebToken}.
Notation cache := (gmap string CachedJwks).

Inductive event :=
  | E_lock (now : N) (m m' : cache)
  | E_keys (url : string) (reply : http_reply (list Jwk))
  | E_user (url key jwt : string) (reply : http_reply SupabaseUser)
  | E_count (metric : Metric).

(** [exec p tr a]: [p] may return [a] after the events [tr]. *)
Fixpoint exec {A} (p : io A) (tr : list event) (a : A) : Prop :=
  match p with
  | IRet b => tr = [] /\ a = b
  | Lock f k => exists now m rest, tr = E_lock now m (f now m) :: rest /\ exec (k now m) rest a
  | Fetch_keys url k => exists reply rest, tr = E_keys url reply :: rest /\ exec (k reply) rest a
  | Fetch_user url key jwt k =>
      exists reply rest, tr = E_user url key jwt reply :: rest /\ exec (k reply) rest a
  | Count metric k => exists rest, tr = E_count metric :: rest /\ exec k rest a
  end.

Lemma exec_bind {A B} (p : io A) (k : A -> io B) tr b :
  exec (ibind p k) tr b <->
  exists tr1 tr2 a, tr = tr1 ++ tr2 /\ exec p tr1 a /\ exec (k a) tr2 b.
Proof.
  revert tr. induction p as [x|f c IH|url c IH|url key jwt c IH|metric c IH]; intros tr; cbn.
  - split; [|naive_solver]. intros He. exists [], tr, x. done.
  - setoid_rewrite IH. split.
    + intros (now & m & rest & -> & tr1 & tr2 & a & -> & ? & ?).
      exists (E_lock now m (f now m) :: tr1), tr2, a. split_and!; [done| |done]. eauto 10.
    + intros (tr1 & tr2 & a & -> & (now & m & rest & -> & ?) & ?).
      exists now, m, (rest ++ tr2). split; [done|]. eauto 10.
  - setoid_rewrite IH. split.
    + intros (reply & rest & -> & tr1 & tr2 & a & -> & ? & ?).
      exists (E_keys url reply :: tr1), tr2, a. split_and!; [done| |done]. eauto.
    + intros (tr1 & tr2 & a & -> & (reply & rest & -> & ?) & ?).
      exists reply, (rest ++ tr2). split; [done|]. eauto 10.
  - setoid_rewrite IH. split.
    + intros (reply & rest & -> & tr1 & tr2 & a & -> & ? & ?).
      exists (E_user url key jwt reply :: tr1), tr2, a. split_and!; [done| |done]. eauto.
    + intros (tr1 & tr2 & a & -> & (reply & rest & -> & ?) & ?).
      exists reply, (rest ++ tr2). split; [done|]. eauto 10.
  - setoid_rewrite IH. split.
    + intros (rest & -> & tr1 & tr2 & a & -> & ? & ?).
      exists (E_count metric :: tr1), tr2, a. split_and!; [done| |done]. eauto.
    + intros (tr1 & tr2 & a & -> & (rest & -> & ?) & ?).
      exists (rest ++ tr2). split; [done|]. eauto 10.
Qed.

(** The cache shows no set for the project, or one that is older than its time
    to live or than the floor. *)
Definition old_set (config : SupabaseConfig) (now : N) (m : cache) : Prop :=
  forall cached, m !! config.(sb_jwks_url) = Some cached ->
  N.min config.(sb_jwks_ttl) (from_secs MIN_FORCED_JWKS_REFRESH_SECS)
    <= now - cached.(cj_fetched_at).

(** Every request for keys goes to the project's URL, right after a read of
    the cache that shows an old set, metrics apart; [may] says whether the
    event before is one. *)
Fixpoint justified (config : SupabaseConfig) (may : Prop) (tr : list event) : Prop :=
  match tr with
  | [] => True
  | E_lock now m m' :: rest => justified config (m' = m /\ old_set config now m) rest
  | E_keys url _ :: rest => may /\ url = config.(sb_jwks_url) /\ justified config False rest
  | E_user _ _ _ _ :: rest => justified config False rest
  | E_count _ :: rest => justified config may rest
  end.
Definition is_keys (e : event) : bool :=
  match e with
  | E_keys _ _ => true
  | _ => false
  end.
Definition key_fetches (tr : list event) : nat := length (List.filter is_keys tr).

Lemma fresh_or_old config now m : fresh_jwks config now m = None -> old_set config now m.
Proof.
  unfold fresh_jwks, old_set, saturating_sub. intros Hf cached Hc. rewrite Hc in Hf.
  destruct (N.ltb_spec (now - cj_fetched_at cached) (sb_jwks_ttl config)); [done|lia].
Qed.
Lemma allowed_old config now m : refresh_allowed config now m = true -> old_set config now m.
Proof.
  unfold refresh_allowed, forced_refresh_cooldown_elapsed, old_set, saturating_sub.
  intros Hf cached Hc. rewrite Hc in Hf. reflect_bools. lia.
Qed.

(** What a refresh does: one request, and at most a write of the cache. *)
Lemma exec_refresh config tr r :
  exec (refresh_jwks config) tr r ->
  exists reply rest, tr = E_keys config.(sb_jwks_url) reply :: rest
  /\ (rest = [] \/ exists now m m', rest = [E_lock now m m']).
Proof.
  cbn. intros (reply & rest & -> & Hr). exists reply, rest. split; [done|].
  match type of Hr with exec (match ?r with _ => _ end) _ _ => destruct r end; cbn in Hr.
  - destruct Hr as (now & m & rest' & -> & -> & _). right. eauto.
  - destruct Hr as [-> _]. by left.
Qed.

(** The tail of a trace whose first event is a read of the cache. *)
Definition read_first (config : SupabaseConfig) (tr : list event) (fetches : nat) : Prop :=
  (key_fetches tr <= fetches)%nat /\ forall may, justified config may tr.

(** The first fetch may follow metrics of its attempt. *)
Lemma refresh_read_first config now m metrics tr r :
  old_set config now m -> exec (refresh_jwks config) tr r ->
  read_first config (E_lock now m m :: (E_count <$> metrics) ++ tr) 1.
Proof.
  intros Ho (reply & rest & -> & Hrest)%exec_refresh.
  assert (Hm : forall may tr', justified config may ((E_count <$> metrics) ++ tr') <-> justified config may tr')
    by (intros may tr'; by induction metrics).
  assert (Hc : key_fetches ((E_count <$> metrics) ++ E_keys (sb_jwks_url config) reply :: rest)
               = key_fetches (E_keys (sb_jwks_url config) reply :: rest))
    by (clear Hm; unfold key_fetches; by induction metrics).
  split.
  - unfold key_fetches in *. cbn [List.filter is_keys]. rewrite Hc.
    destruct Hrest as [-> |(now' & m1 & m2 & ->)]; cbn; lia.
  - intros may. cbn [justified]. apply Hm. destruct Hrest as [-> |(now' & m1 & m2 & ->)]; cbn; done.
Qed.
Lemma count_read_first config metric : read_first config [E_count metric] 0.
Proof. by split. Qed.

Lemma read_first_app config tr1 tr2 n1 n2 :
  read_first config tr1 n1 -> read_first config tr2 n2 -> read_first config (tr1 ++ tr2) (n1 + n2).
Proof.
  intros [Hc1 Hj1] [Hc2 Hj2]. split.
  - unfold key_fetches in *. rewrite List.filter_app, List.length_app. lia.
  - intros may. specialize (Hj1 may). revert may Hj1. clear Hc1 Hc2.
    induction tr1 as [|[now m m'|url reply|url key jwt reply|metric] tr1 IH]; cbn; intros may Hj; auto.
    destruct Hj as (? & ? & ?). auto.
Qed.

Lemma cached_jwks_read_first config tr r :
  exec (cached_jwks config) tr r -> read_first config tr 1.
Proof.
  cbn. intros (now & m & rest & -> & Hr).
  destruct (fresh_jwks config now m) eqn:Hf; cbn in Hr.
  - destruct Hr as [-> _]. split; [cbn; lia|done].
  - by apply (refresh_read_first config now m [] rest r); [apply fresh_or_old|].
Qed.

Lemma key_for_read_first config kid jwks tr r :
  exec (key_for config kid jwks) tr r -> read_first config tr 1.
Proof.
  unfold key_for, forced_refresh_allowed, read_lock.
  destruct (find_key jwks kid); cbn [ibind exec].
  { intros [-> _]. split; [cbn; lia|done]. }
  intros (rest0 & -> & now & m & rest & -> & Hr).
  destruct (refresh_allowed config now m) eqn:Ha; cbn [negb] in Hr.
  2:{ destruct Hr as (rest' & -> & -> & _). split; [cbn; lia|done]. }
  destruct Hr as (rest' & -> & Hr).
  apply exec_bind in Hr as (tr1 & tr2 & keys & -> & Hr & Hend).
  assert (exists metric, tr2 = [E_count metric]) as [metric ->].
  { destruct keys as [keys|e]; [destruct (find_key keys kid)|];
      destruct Hend as (? & -> & -> & _); by eexists. }
  apply (read_first_app config [_] _ 0 1); [apply count_read_first|].
  apply (read_first_app config (_ :: _ :: tr1) [_] 1 0); [|apply count_read_first].
  apply (refresh_read_first config now m [forced_refresh_metric Forced_Attempted] tr1 keys);
    [by apply allowed_old|exact Hr].
Qed.

(** Every read of the cache in the trace shows a recent set of the project. *)
Definition reads_recent (config : SupabaseConfig) (tr : list event) : Prop :=
  Forall (fun e => match e with
                   | E_lock now m _ => ~ old_set config now m
                   | _ => True
                   end) tr.
Lemma recent_no_fetch config may tr :
  justified config may tr -> ~ may -> reads_recent config tr -> key_fetches tr = 0%nat.
Proof.
  intros Hj Hm Hr. revert may Hj Hm.
  induction Hr as [|[now m m'|url reply|url key jwt reply|metric] tr Hl _ IH]; cbn; intros may Hj Hm;
    [done|..]; try (by eapply IH; eauto).
  - eapply IH; [exact Hj|]. by intros [_ Ho].
  - by destruct Hj.
Qed.

(** C29: a verification's requests for keys are limited: whatever other
    requests do, it asks for keys at most twice, at the project's URL, and only
    right after (metrics apart) it found the project's cached set missing, or
    older than the smaller of its time to live and thirty seconds; so while
    the set it reads is younger than that, it sends none, whatever key id the
    token names. The age is that of the last successful request: a key endpoint
    that keeps failing is not covered, as [failing_endpoint_amplifies] shows. *)
Theorem key_fetches_limited jwt config alg kid tr r :
  exec (verify_with_jwks jwt config alg kid) tr r ->
  (key_fetches tr <= 2)%nat /\ justified config False tr
  /\ (reads_recent config tr -> key_fetches tr = 0%nat).
Proof.
  intros He. apply exec_bind in He as (tr1 & tr2 & keys & -> & Hc & Hr).
  apply cached_jwks_read_first in Hc.
  assert (Hall : read_first config (tr1 ++ tr2) (1 + 1)).
  { apply read_first_app; [done|]. destruct keys as [keys|e]; cbn [exec] in Hr.
    - apply exec_bind in Hr as (tr3 & tr4 & key & -> & Hk & Hend).
      assert (tr4 = []) as -> by (destruct key; cbn in Hend; by destruct Hend).
      rewrite app_nil_r. by eapply key_for_read_first.
    - destruct Hr as [-> _]. split; [cbn; lia|done]. }
  split; [apply Hall|]. split; [apply Hall|].
  apply (recent_no_fetch config False); [apply Hall|tauto].
Qed.

(** The floor only counts successful refreshes: while the endpoint fails and
    the cached set is between thirty seconds and its time to live old, every
    token with an unknown key id causes a request, which leaves the cache as
    it was. *)
Lemma failing_endpoint_amplifies jwt config alg kid now m cached error :
  m !! config.(sb_jwks_url) = Some cached ->
  from_secs MIN_FORCED_JWKS_REFRESH_SECS <= now - cached.(cj_fetched_at) ->
  now - cached.(cj_fetched_at) < config.(sb_jwks_ttl) ->
  find_key cached.(cj_jwks) kid = None ->
  exec (verify_with_jwks jwt config alg kid)
    [E_lock now m m; E_count (unknown_kid_metric Observed); E_lock now m m;
     E_count (forced_refresh_metric Forced_Attempted);
     E_keys config.(sb_jwks_url) (Http_error error);
     E_count (forced_refresh_metric Forced_Failed)]
    (Err (VE_Http error)).
Proof.
  intros Hm Hold Hfresh Hkid. cbn. exists now, m. eexists. split; [reflexivity|].
  unfold fresh_jwks, saturating_sub. rewrite Hm, (proj2 (N.ltb_lt _ _) Hfresh). cbn.
  unfold key_for. rewrite Hkid. cbn. eexists. split; [reflexivity|].
  exists now, m. eexists. split; [reflexivity|].
  unfold refresh_allowed, forced_refresh_cooldown_elapsed, saturating_sub.
  rewrite Hm, (proj2 (N.leb_le _ _) Hold). cbn. eexists. split; [reflexivity|].
  eexists _, _. split; [reflexivity|]. by eexists.
Qed.
End traffic.
