(* ===== verification/Telemetry.v ===== *)
(** * What a verification counts

    The metrics of [src/src/supabase.rs] on the traces of [SessionTraffic.v]:
    whatever the token and the environment, only fixed labels are counted, and
    the counters account for the requests that were sent. *)
From Stdlib Require Import Ascii String.
From S2P Require Import Prelude Text Wire Samples Json Kv Model Store Net ProtectedState.
From S2P Require Import SupabasePolicy Supabase SessionTraffic.

(** Every label there is. *)
Definition known_metrics : list Metric :=
  (unknown_kid_metric <$> [Observed; RefreshBlocked])
  ++ (forced_refresh_metric <$>
        [Forced_Attempted; Forced_Succeeded; Forced_Failed; Forced_MissingAfterRefresh])
  ++ (remote_userinfo_metric <$>
        [Remote_Attempted; Remote_Accepted; Remote_ClaimRejected; Remote_Rejected;
         Remote_TransportError; Remote_InvalidResponse; Remote_UpstreamStatus]).

Section telemetry.
Context `{Crypto, !FromSlice Value, !JsonWebToken}.
Implicit Types (tr : list event).

Definition counts (metric : Metric) (e : event) : bool :=
  match e with
  | E_count m => bool_decide (m = metric)
  | _ => false
  end.
Definition counted (metric : Metric) tr : nat := length (List.filter (counts metric) tr).
Notation unknown_kid stage tr := (counted (unknown_kid_metric stage) tr).
Notation forced outcome tr := (counted (forced_refresh_metric outcome) tr).
Notation remote outcome tr := (counted (remote_userinfo_metric outcome) tr).
Definition is_user (e : event) : bool :=
  match e with
  | E_user _ _ _ _ => true
  | _ => false
  end.
Definition user_fetches tr : nat := length (List.filter is_user tr).
Definition known_event (e : event) : Prop :=
  match e with
  | E_count m => m ∈ known_metrics
  | _ => True
  end.

(** The counters of a trace, with at most [n] requests for keys besides the
    forced ones, and [k] attempts of the fallback. *)
Record accounted (n k : nat) tr : Prop := {
  acc_known : Forall known_event tr;
  acc_unknown : unknown_kid Observed tr = (unknown_kid RefreshBlocked tr + forced Forced_Attempted tr)%nat;
  acc_forced : forced Forced_Attempted tr
    = (forced Forced_Succeeded tr + forced Forced_Failed tr + forced Forced_MissingAfterRefresh tr)%nat;
  acc_keys : (forced Forced_Attempted tr <= key_fetches tr <= n + forced Forced_Attempted tr)%nat;
  acc_user : user_fetches tr
    = (remote Remote_Accepted tr + remote Remote_ClaimRejected tr + remote Remote_Rejected tr
       + remote Remote_TransportError tr + remote Remote_InvalidResponse tr
       + remote Remote_UpstreamStatus tr)%nat;
  acc_attempted : remote Remote_Attempted tr = k;
  acc_fallback : (user_fetches tr <= k)%nat
}.

Lemma counted_app metric tr1 tr2 :
  counted metric (tr1 ++ tr2) = (counted metric tr1 + counted metric tr2)%nat.
Proof. unfold counted. by rewrite List.filter_app, List.length_app. Qed.
Lemma key_fetches_app tr1 tr2 : key_fetches (tr1 ++ tr2) = (key_fetches tr1 + key_fetches tr2)%nat.
Proof. unfold key_fetches. by rewrite List.filter_app, List.length_app. Qed.
Lemma user_fetches_app tr1 tr2 : user_fetches (tr1 ++ tr2) = (user_fetches tr1 + user_fetches tr2)%nat.
Proof. unfold user_fetches. by rewrite List.filter_app, List.length_app. Qed.

Lemma accounted_app n1 n2 k1 k2 tr1 tr2 :
  accounted n1 k1 tr1 -> accounted n2 k2 tr2 -> accounted (n1 + n2) (k1 + k2) (tr1 ++ tr2).
Proof.
  intros [K1 A1 B1 C1 D1 E1 F1] [K2 A2 B2 C2 D2 E2 F2].
  constructor; [by apply Forall_app|rewrite ?counted_app, ?key_fetches_app, ?user_fetches_app; lia..].
Qed.

(** A concrete shape of trace: its labels and sums are evaluated. *)
Ltac account :=
  constructor;
  [repeat (apply List.Forall_cons; [first [exact I|apply (bool_decide_unpack _); vm_compute; exact I]|]);
   apply List.Forall_nil
  |vm_compute; lia..].

Lemma cached_accounted config tr r : exec (cached_jwks config) tr r -> accounted 1 0 tr.
Proof.
  cbn -[refresh_jwks]. intros (now & m & rest & -> & Hr).
  destruct (fresh_jwks config now m); cbn -[refresh_jwks] in Hr.
  - destruct Hr as [-> _]. account.
  - apply exec_refresh in Hr as (reply & rest' & -> & [-> |(now' & m1 & m2 & ->)]); account.
Qed.

Lemma key_for_accounted config kid jwks tr r : exec (key_for config kid jwks) tr r -> accounted 0 0 tr.
Proof.
  unfold key_for, forced_refresh_allowed, read_lock. destruct (find_key jwks kid); cbn [ibind exec].
  { intros [-> _]. account. }
  intros (rest0 & -> & now & m & rest & -> & Hr).
  destruct (refresh_allowed config now m); cbn [negb] in Hr.
  2:{ destruct Hr as (rest' & -> & -> & _). account. }
  destruct Hr as (rest' & -> & (tr1 & tr2 & keys & -> & Hr & Hend)%exec_bind).
  apply exec_refresh in Hr as (reply & rest & -> & Hrest).
  destruct keys as [keys|e]; [destruct (find_key keys kid)|]; destruct Hend as (? & -> & -> & _);
    destruct Hrest as [-> |(now' & m1 & m2 & ->)]; account.
Qed.

Lemma jwks_accounted jwt config alg kid tr r :
  exec (verify_with_jwks jwt config alg kid) tr r -> accounted 1 0 tr.
Proof.
  intros (tr1 & tr2 & keys & -> & Hc%cached_accounted & Hr)%exec_bind.
  apply (accounted_app 1 0 0 0); [done|]. destruct keys as [keys|e]; [|destruct Hr as [-> _]; account].
  apply exec_bind in Hr as (tr3 & tr4 & key & -> & Hk%key_for_accounted & Hend).
  apply (accounted_app 0 0 0 0); [done|]. destruct key; destruct Hend as [-> _]; account.
Qed.

(** A user is counted as accepted exactly when the endpoint was asked and its
    answer is the result. *)
Definition accepted_there tr (r : result VerifyError UserCtx) : Prop :=
  remote Remote_Accepted tr <> 0%nat <-> user_fetches tr <> 0%nat /\ exists user, r = Ok user.
Ltac accepts :=
  unfold accepted_there; vm_compute;
  first [by split; [intros []|intros [_ [? [=]]]]
        |split; intros _; [split; [discriminate|by eexists]|discriminate]].

(** The fallback: one request, when there is a key to send it with, and the
    outcome that says how it ended. *)
Lemma endpoint_accounted jwt config tr r :
  exec (record_remote_userinfo Remote_Attempted (verify_with_user_endpoint jwt config)) tr r ->
  accounted 0 1 tr /\ accepted_there tr r.
Proof.
  cbn -[verify_with_user_endpoint]. intros (rest & -> & Hr). unfold verify_with_user_endpoint in Hr.
  destruct (sb_publishable_key config) as [key|].
  2:{ destruct Hr as [-> ->]. split; [account|accepts]. }
  destruct Hr as (reply & rest' & -> & Hr).
  destruct reply as [error|status body];
    [|destruct (status =? OK); [destruct body as [user|error]|destruct (_ || _)]];
    destruct Hr as (rest & -> & Hr);
    [..|destruct (user_ctx_from_remote_user user config)| | |];
    destruct Hr as [-> ->]; (split; [account|accepts]).
Qed.

(** What a verification's trace shows. *)
Definition settled (config : SupabaseConfig) tr (r : result VerifyError UserCtx) : Prop :=
  exists n k, (n <= 1)%nat /\ (k <= 1)%nat /\ accounted n k tr
  /\ (k <> 0%nat -> config.(sb_allow_remote_userinfo) = true)
  /\ accepted_there tr r.

Lemma accepted_after n tr1 tr2 r :
  accounted n 0 tr1 -> accepted_there tr2 r -> accepted_there (tr1 ++ tr2) r.
Proof.
  intros [_ _ _ _ D E F] H2. unfold accepted_there. rewrite counted_app, user_fetches_app.
  replace (remote Remote_Accepted tr1) with 0%nat by lia.
  by replace (user_fetches tr1) with 0%nat by lia.
Qed.

Lemma settled_without config n tr r : (n <= 1)%nat -> accounted n 0 tr -> settled config tr r.
Proof.
  intros Hn Hacc. exists n, 0%nat. split; [done|]. split; [lia|]. split; [done|]. split; [done|].
  rewrite <- (app_nil_r tr). apply (accepted_after n); [done|].
  by split; [intros []|intros [[] _]].
Qed.
(** The end of a verification that did not find a user under a key. *)
Lemma settled_fallback jwt config e n tr1 tr2 r :
  (n <= 1)%nat -> accounted n 0 tr1 ->
  exec (if negb config.(sb_allow_remote_userinfo) then IRet (Err e)
        else record_remote_userinfo Remote_Attempted (verify_with_user_endpoint jwt config)) tr2 r ->
  settled config (tr1 ++ tr2) r.
Proof.
  intros Hn Hacc He. destruct (sb_allow_remote_userinfo config) eqn:Ha; cbn [negb] in He.
  2:{ destruct He as [-> _]. rewrite app_nil_r. by eapply settled_without. }
  apply endpoint_accounted in He as [He Hok]. exists (n + 0)%nat, (0 + 1)%nat.
  split; [lia|]. split; [done|]. split; [by apply accounted_app|]. split; [done|].
  by apply (accepted_after n).
Qed.

Lemma verification_settled jwt config tr r :
  exec (verify_session_with jwt config) tr r -> settled config tr r.
Proof.
  intros He. assert (Hnil : accounted 0 0 []) by account.
  unfold verify_session_with in He.
  destruct (decode_header jwt) as [header|e]; cbn [map_err] in He.
  2:{ destruct He as [-> _]. by apply (settled_without config 0); [lia|]. }
  destruct (is_asymmetric_algorithm (h_alg header)); 
    [|exact (settled_fallback jwt config _ 0 [] tr r (Nat.le_0_l 1) Hnil He)].
  destruct (h_kid header) as [kid|]; 
    [|exact (settled_fallback jwt config _ 0 [] tr r (Nat.le_0_l 1) Hnil He)].
  apply exec_bind in He as (tr1 & tr2 & verified & -> & Hj%jwks_accounted & He).
  destruct verified as [user|e].
  - destruct He as [-> _]. rewrite app_nil_r. by apply (settled_without config 1); [lia|].
  - exact (settled_fallback jwt config _ 1 tr1 tr2 r (le_n 1) Hj He).
Qed.

(** C30: Counters account for what a verification did: in every run of one, with
    any token and any environment, only the thirteen fixed labels are
    counted, never anything of the token; unknown key ids were blocked or
    forced one request for keys, and every such request is counted with
    one outcome; every request to the user endpoint is counted as attempted
    and with one outcome; and a user is counted as accepted there exactly
    when that answer is the result. *)
Theorem metrics_account_for_requests jwt config tr r :
  exec (verify_session_with jwt config) tr r ->
  Forall known_event tr
  /\ unknown_kid Observed tr = (unknown_kid RefreshBlocked tr + forced Forced_Attempted tr)%nat
  /\ forced Forced_Attempted tr
     = (forced Forced_Succeeded tr + forced Forced_Failed tr + forced Forced_MissingAfterRefresh tr)%nat
  /\ (forced Forced_Attempted tr <= key_fetches tr <= 1 + forced Forced_Attempted tr)%nat
  /\ user_fetches tr
     = (remote Remote_Accepted tr + remote Remote_ClaimRejected tr + remote Remote_Rejected tr
        + remote Remote_TransportError tr + remote Remote_InvalidResponse tr
        + remote Remote_UpstreamStatus tr)%nat
  /\ (user_fetches tr <= remote Remote_Attempted tr <= 1)%nat
  /\ (remote Remote_Attempted tr <> 0%nat -> config.(sb_allow_remote_userinfo) = true)
  /\ (remote Remote_Accepted tr <> 0%nat
      <-> user_fetches tr <> 0%nat /\ exists user, r = Ok user).
Proof.
  intros (n & k & Hn & Hk & [K A B C D E F] & Hallow & Hok)%verification_settled.
  split_and!; [done|lia..|intros; apply Hallow; lia|done].
Qed.

(** The user endpoint is asked only for projects that may fall back to it. *)
Lemma asks_user_endpoint projects jwt tr answer :
  exec (verify_session projects jwt) tr answer ->
  user_fetches tr <> 0%nat ->
  exists ps p, projects = Ok ps /\ select ps jwt = Ok p /\ p.(sb_allow_remote_userinfo) = true.
Proof.
  intros (tr1 & tr2 & r & -> & He & Hend)%exec_bind Hn.
  assert (tr2 = []) as -> by apply Hend. rewrite app_nil_r in Hn.
  unfold verify_session_inner in He. destruct (str_is_empty _); [by destruct He as [-> _]|].
  destruct projects as [ps|e]; cbn [rbind] in He; [|by destruct He as [-> _]].
  destruct (select ps jwt) as [p|e] eqn:Hs; [|by destruct He as [-> _]].
  exists ps, p. split; [done|]. split; [done|].
  apply verification_settled in He as (n & k & _ & _ & Hacc & Hallow & _).
  apply Hallow. destruct Hacc as [_ _ _ _ _ _ F]. lia.
Qed.
End telemetry.
