(* ===== verification/SupabaseRun.v ===== *)
(** * Sessions: concrete runs

    A registry of two projects, tokens written [kid.issuer.signature] with the
    issuer in hexadecimal, and key sets given by their ids: the theorems on
    Supabase sessions evaluated on one login. *)
From Stdlib Require Import Ascii String.
From S2P Require Import Prelude Text Wire Samples Json Kv Model Store Net ProtectedState.
From S2P Require Import SupabasePolicy Supabase SupabaseFacts SessionSafety SessionTraffic Telemetry.

Definition spec_of (name surface project : string) : SupabaseProjectSpec :=
  {| sp_name := name; sp_surfaces := [surface]; sp_url := None; sp_project_ref := Some project;
     sp_issuer := None; sp_jwks_url := None; sp_user_url := None; sp_audience := None;
     sp_publishable_key_env := None |}.
(** The same, with keys fetched from one explicit URL. *)
Definition with_keys (s : SupabaseProjectSpec) : SupabaseProjectSpec :=
  {| sp_name := s.(sp_name); sp_surfaces := s.(sp_surfaces); sp_url := s.(sp_url);
     sp_project_ref := s.(sp_project_ref); sp_issuer := s.(sp_issuer);
     sp_jwks_url := Some "https://keys"%string; sp_user_url := s.(sp_user_url);
     sp_audience := s.(sp_audience); sp_publishable_key_env := s.(sp_publishable_key_env) |}.
#[export] Instance two_specs : SpecsJson := fun s =>
  if (s =? "two")%string
  then Some [spec_of "customer" "fiducia-customer" "cust"; spec_of "admin" "fiducia-admin" "adm"]
  else if (s =? "shared")%string
  then Some [with_keys (spec_of "customer" "fiducia-customer" "cust");
             with_keys (spec_of "admin" "fiducia-admin" "adm")]
  else None.
Definition two_env (name : string) : option string :=
  if (name =? PROJECTS_ENV)%string then Some "two"%string else None.
Definition two_projects : list SupabaseConfig :=
  match registry_from_env two_env with
  | Ok projects => projects
  | Err _ => []
  end.
Lemma two_projects_ok : registry_from_env two_env = Ok two_projects.
Proof. vm_compute. reflexivity. Qed.

Lemma registry_separates_witness : two_projects <> [] /\ isolated two_projects.
Proof.
  destruct (proj1 (registry_separates two_env two_projects two_projects_ok)) as [(only & Ho & _)|Hi].
  - exfalso. apply (f_equal length) in Ho. vm_compute in Ho. discriminate.
  - exact Hi.
Defined.

(** A payload is the issuer. *)
#[export] Instance issuer_payload : FromSlice Value := fun s => Some (Object [("iss"%string, Str s)]).
Definition admin_project : SupabaseConfig :=
  match List.nth_error two_projects 1 with
  | Some p => p
  | None => {| sb_name := ""; sb_surfaces := []; sb_audience := ""; sb_issuer := ""; sb_jwks_ttl := 0;
               sb_jwks_url := ""; sb_publishable_key := None; sb_user_url := "";
               sb_allow_remote_userinfo := false |}
  end.
Definition admin_jwt : string := "k1." +:+ hex_lower (sb_issuer admin_project) +:+ ".sig".

Lemma admin_selected : select two_projects admin_jwt = Ok admin_project.
Proof. vm_compute. reflexivity. Qed.
Lemma token_routed_witness : unverified_issuer admin_jwt = Some (sb_issuer admin_project).
Proof.
  destruct (token_routed two_env two_projects admin_jwt admin_project two_projects_ok
              admin_selected) as [[Ho _]|[Hi _]].
  - exfalso. apply (f_equal length) in Ho. vm_compute in Ho. discriminate.
  - exact Hi.
Defined.

Definition admin_claims : SupabaseClaims :=
  {| sc_sub := "user-1"; sc_email := None; sc_role := Some "authenticated"%string;
     sc_aal := Some "aal2"%string;
     sc_app_metadata := Some (Object [("orgs", Array [Str " acme "; Str "acme"; Array [Str "beta"]]);
                                      ("role", Str "Admin")])%string;
     sc_user_metadata := Some (Object [("orgs", Str "victim")])%string |}.
#[export] Instance toy_jwt : JsonWebToken := {
  Jwk := string * bool;
  DecodingKey := string;
  jwk_key_id jwk := Some (fst jwk);
  jwk_octet_key := snd;
  decode_header jwt :=
    match split_once "." jwt with
    | Some (kid, _) => Ok {| h_alg := ES256; h_kid := Some kid |}
    | None => Err "malformed"%string
    end;
  from_jwk jwk := Ok (fst jwk);
  jwt_decode jwt key v :=
    match unverified_issuer jwt with
    | Some iss => if bool_decide (iss ∈ va_issuer v) then Ok admin_claims else Err "issuer"%string
    | None => Err "malformed"%string
    end
}.

Definition admin_user : UserCtx :=
  {| u_user_id := "user-1"; u_email := None; u_orgs := ["acme"; "beta"]; u_roles := ["admin"];
     u_aal := Aal2; u_project_surfaces := Some ["fiducia-admin"] |}%string.
Lemma admin_context : user_ctx_from_claims admin_claims admin_project = Ok admin_user.
Proof. vm_compute. reflexivity. Qed.
Lemma user_context_exact_witness : "victim"%string ∉ admin_user.(u_orgs) /\ admin_user.(u_aal) = Aal2.
Proof.
  destruct (user_context_exact _ _ _ admin_context) as (_ & _ & _ & _ & _ & _ & _ & Haal & _).
  split; [|exact (proj2 Haal eq_refl)].
  apply (bool_decide_unpack _). vm_compute. exact I.
Defined.

(** The login: the cache is read, the keys are fetched and stored. *)
Notation login := (session_request (Ok two_projects) admin_jwt).
Definition admin_keys : http_reply (list (string * bool)) :=
  Http_reply 200 (Ok [("k0"%string, false); ("k1"%string, false)]).
Definition start : session_system (string * result VerifyError UserCtx) :=
  {| ss_now := 5; ss_cache := ∅; ss_requests := []; ss_history := [] |}.


(** A request that runs alone, against endpoints given as functions. *)
Section alone.
Context (keys_of : string -> http_reply (list Jwk)).
Context (user_of : string -> http_reply SupabaseUser).

Fixpoint irun {A} (p : io A) (now : N) (m : gmap string CachedJwks) (h : list served)
  : A * gmap string CachedJwks * list served :=
  match p with
  | IRet a => (a, m, h)
  | Lock f k => irun (k now m) now (f now m) h
  | Fetch_keys url k => irun (k (keys_of url)) now m (h ++ keys_event url (keys_of url))
  | Fetch_user url key jwt k =>
      irun (k (user_of url)) now m (h ++ user_event url key jwt (user_of url))
  | Count metric k => irun k now m h
  end.

Lemma irun_steps {A} (admissible : io A -> Prop) (p : io A) now m h a m' h' :
  irun p now m h = (a, m', h') ->
  rtc (session_step admissible)
    {| ss_now := now; ss_cache := m; ss_requests := [p]; ss_history := h |}
    {| ss_now := now; ss_cache := m'; ss_requests := [IRet a]; ss_history := h' |}.
Proof.
  revert m h. induction p as [x|f k IH|url k IH|url key jwt k IH|metric k IH]; cbn; intros m h Hr.
  - by injection Hr as <- <- <-.
  - eapply rtc_l; [by apply (session_lock _ now m [Lock f k] h 0)|]. by apply IH.
  - eapply rtc_l; [by apply (session_keys _ now m [Fetch_keys url k] h 0 url k (keys_of url))|].
    by apply IH.
  - eapply rtc_l.
    { by apply (session_user _ now m [Fetch_user url key jwt k] h 0 url key jwt k (user_of url)). }
    by apply IH.
  - eapply rtc_l; [by apply (session_count _ now m [Count metric k] h 0 metric k)|]. by apply IH.
Qed.
End alone.

Definition login_result : (string * result VerifyError UserCtx) * gmap string CachedJwks * list served :=
  irun (fun _ => admin_keys) (fun _ => Http_error "none") login 5 ∅ [].
Lemma login_steps :
  rtc (session_step (session_client (Ok two_projects))) start
    {| ss_now := 5; ss_cache := snd (fst login_result);
       ss_requests := [IRet (admin_jwt, Ok admin_user)]; ss_history := snd login_result |}.
Proof.
  assert (Hfst : fst (fst login_result) = (admin_jwt, Ok admin_user)) by (vm_compute; reflexivity).
  eapply rtc_l; [apply (session_arrive _ 5 ∅ [] [] login); by exists admin_jwt|].
  apply (irun_steps (fun _ => admin_keys) (fun _ => Http_error "none")). fold login_result.
  rewrite <- Hfst, <- !surjective_pairing. reflexivity.
Qed.
Lemma session_verified_by_project_witness :
  exists config, select two_projects admin_jwt = Ok config
  /\ verified admin_jwt config admin_user (snd login_result).
Proof.
  destruct (session_verified_by_project (Ok two_projects) start _ admin_jwt admin_user eq_refl eq_refl
              login_steps) as [_ Hin].
  destruct (Hin (list_elem_of_here _ _)) as (ps & config & Hps & Hsel & Hv).
  assert (ps = two_projects) as -> by congruence. exists config. split; [exact Hsel|exact Hv].
Defined.

(** An unknown key id against a set that is more than thirty seconds old and
    still within its time to live, while the key endpoint fails: one request. *)
Definition cached_set : CachedJwks := {| cj_fetched_at := 3; cj_jwks := [("k1"%string, false)] |}.
Definition cached_keys : gmap string CachedJwks := {[ sb_jwks_url admin_project := cached_set ]}.
Definition asked_at : N := from_secs 31.
Definition asked_trace : list event :=
  [E_lock asked_at cached_keys cached_keys; E_count (unknown_kid_metric Observed);
   E_lock asked_at cached_keys cached_keys; E_count (forced_refresh_metric Forced_Attempted);
   E_keys admin_project.(sb_jwks_url) (Http_error "down");
   E_count (forced_refresh_metric Forced_Failed)].
Lemma asked_exec :
  exec (verify_with_jwks admin_jwt admin_project ES256 "k9") asked_trace (Err (VE_Http "down")).
Proof.
  apply (failing_endpoint_amplifies admin_jwt admin_project ES256 "k9" asked_at cached_keys
           cached_set); by vm_compute.
Qed.
(** The same token against the set two seconds old: none. *)
Definition refused_trace : list event :=
  [E_lock 5 cached_keys cached_keys; E_count (unknown_kid_metric Observed);
   E_lock 5 cached_keys cached_keys; E_count (unknown_kid_metric RefreshBlocked)].
Lemma refused_exec :
  exec (verify_with_jwks admin_jwt admin_project ES256 "k9") refused_trace (Err VE_MissingJwk).
Proof.
  exists 5, cached_keys. eexists. split; [reflexivity|].
  assert (Hf : fresh_jwks admin_project 5 cached_keys = Some [("k1"%string, false)])
    by (vm_compute; reflexivity).
  rewrite Hf. eexists. split; [reflexivity|]. exists 5, cached_keys. eexists. split; [reflexivity|].
  assert (Ha : refresh_allowed admin_project 5 cached_keys = false) by (vm_compute; reflexivity).
  rewrite Ha. eexists. split; [reflexivity|]. split; reflexivity.
Qed.
Lemma cached_keys_recent : ~ old_set admin_project 5 cached_keys.
Proof.
  intros Ho. specialize (Ho cached_set ltac:(vm_compute; reflexivity)).
  vm_compute in Ho. exact (Ho eq_refl).
Qed.
Lemma key_fetches_limited_witness :
  key_fetches asked_trace = 1%nat /\ (key_fetches asked_trace <= 2)%nat
  /\ justified admin_project False asked_trace /\ key_fetches refused_trace = 0%nat.
Proof.
  destruct (key_fetches_limited _ _ _ _ _ _ asked_exec) as (Hle & Hj & _).
  split; [reflexivity|]. split; [exact Hle|]. split; [exact Hj|].
  apply (key_fetches_limited _ _ _ _ _ _ refused_exec).
  repeat constructor; exact cached_keys_recent.
Defined.

(** A token with an unknown key id, two seconds after the last fetch: nothing
    is sent, and both counters say so. *)
Definition unknown_jwt : string := "k9." +:+ hex_lower (sb_issuer admin_project) +:+ ".sig".
Definition blocked_trace : list event :=
  [E_lock 5 cached_keys cached_keys; E_count (unknown_kid_metric Observed);
   E_lock 5 cached_keys cached_keys; E_count (unknown_kid_metric RefreshBlocked)].
Lemma blocked_exec :
  exec (verify_session_with unknown_jwt admin_project) blocked_trace (Err VE_MissingJwk).
Proof.
  assert (Hh : decode_header unknown_jwt = Ok {| h_alg := ES256; h_kid := Some "k9"%string |})
    by (vm_compute; reflexivity).
  unfold verify_session_with. rewrite Hh. cbn [map_err h_alg h_kid is_asymmetric_algorithm].
  exists 5, cached_keys. eexists. split; [reflexivity|].
  assert (Hf : fresh_jwks admin_project 5 cached_keys = Some [("k1"%string, false)])
    by (vm_compute; reflexivity).
  rewrite Hf. eexists. split; [reflexivity|]. exists 5, cached_keys. eexists. split; [reflexivity|].
  assert (Ha : refresh_allowed admin_project 5 cached_keys = false) by (vm_compute; reflexivity).
  rewrite Ha. eexists. split; [reflexivity|]. split; reflexivity.
Qed.
Lemma metrics_account_for_requests_witness :
  counted (unknown_kid_metric Observed) blocked_trace = 1%nat
  /\ counted (unknown_kid_metric Observed) blocked_trace
     = (counted (unknown_kid_metric RefreshBlocked) blocked_trace
        + counted (forced_refresh_metric Forced_Attempted) blocked_trace)%nat.
Proof.
  split; [vm_compute; reflexivity|].
  exact (proj1 (proj2 (metrics_account_for_requests _ _ _ _ blocked_exec))).
Defined.

(** Two projects may name one key URL: the registry is accepted, and the keys
    that the customer project's traffic fetched are the admin project's too,
    with the cooldown of its forced refreshes. *)
Definition shared_env (name : string) : option string :=
  if (name =? PROJECTS_ENV)%string then Some "shared"%string else None.
Definition shared_projects : list SupabaseConfig :=
  match registry_from_env shared_env with
  | Ok projects => projects
  | Err _ => []
  end.
Definition customer_refresh (config : SupabaseConfig) : gmap string CachedJwks :=
  snd (fst (irun (fun _ => admin_keys) (fun _ => Http_error "none") (refresh_jwks config) 5 ∅ [])).
Lemma shared_keys_accepted :
  exists customer admin,
    registry_from_env shared_env = Ok [customer; admin]
    /\ customer.(sb_issuer) <> admin.(sb_issuer)
    /\ refresh_allowed admin 6 ∅ = true
    /\ refresh_allowed admin 6 (customer_refresh customer) = false
    /\ fresh_jwks admin 6 (customer_refresh customer) = Some [("k0", false); ("k1", false)]%string.
Proof.
  destruct shared_projects as [|customer [|admin l]] eqn:Hp; [by vm_compute in Hp..|].
  exists customer, admin. vm_compute in Hp. injection Hp as <- <- <-.
  split_and!; [vm_compute; reflexivity|discriminate|vm_compute; reflexivity..].
Qed.
