(* ===== verification/GovernanceConfig.v ===== *)
(** * Governance configuration ([src/src/governance_ceremony/config.inc.rs])

    Reading and validating the environment of the ceremony service.  [var]
    stands for [std::env::var], [debug] for [cfg!(debug_assertions)]. *)
From Stdlib Require Import Ascii String.
From S2P Require Import Prelude Text Wire Samples Json Kv Net CeremonyModel ProtectedState.

Record GovernanceConfig := {
  gc_enabled : bool;
  gc_rp_id : option string;
  gc_origin : option string;
  gc_allowed_tenants : gset string;
  gc_ttl_ms : N;
  gc_ceremony_secret : option string;
  gc_verifier_secret : option string;
  gc_protected_state_codec : option ProtectedStateCodec
}.

(** [serde_json::from_str::<BTreeMap<String, String>>], as the entries of the
    map in key order. *)
Class KeysJson := keys_from_json : string -> option (list (string * string)).

(** ** [Debug]

    The fields the formatter prints, each with the value it is given. *)
Inductive DebugValue :=
  | Dbg_bool (b : bool)
  | Dbg_text (text : option string)
  | Dbg_texts (texts : gset string)
  | Dbg_number (n : option N).
Definition governance_debug (self : GovernanceConfig) : string * list (string * DebugValue) :=
  ("GovernanceConfig",
   [("enabled", Dbg_bool self.(gc_enabled));
    ("rp_id", Dbg_text self.(gc_rp_id));
    ("origin", Dbg_text self.(gc_origin));
    ("allowed_tenants", Dbg_texts self.(gc_allowed_tenants));
    ("ttl_ms", Dbg_number (Some self.(gc_ttl_ms)));
    ("protected_state_active_key_id",
     Dbg_text (pc_active_key_id <$> self.(gc_protected_state_codec)));
    ("protected_state_keyring_version",
     Dbg_number (pc_keyring_version <$> self.(gc_protected_state_codec)))])%string.

(** A configuration with other secrets and other keys. *)
Definition with_secrets (config : GovernanceConfig) (ceremony verifier : option string)
    (keys : gmap string string) : GovernanceConfig :=
  {| gc_enabled := config.(gc_enabled); gc_rp_id := config.(gc_rp_id);
     gc_origin := config.(gc_origin); gc_allowed_tenants := config.(gc_allowed_tenants);
     gc_ttl_ms := config.(gc_ttl_ms);
     gc_ceremony_secret := ceremony; gc_verifier_secret := verifier;
     gc_protected_state_codec :=
       (fun codec => {| pc_active_key_id := codec.(pc_active_key_id);
                        pc_keyring_version := codec.(pc_keyring_version);
                        pc_keys := keys |}) <$> config.(gc_protected_state_codec) |}.
(** What is printed does not depend on a secret or a key. *)
Lemma debug_redacts config ceremony verifier keys :
  governance_debug (with_secrets config ceremony verifier keys) = governance_debug config.
Proof. unfold governance_debug, with_secrets. by destruct (gc_protected_state_codec config). Qed.

(** ** Accessors *)

Definition config_ceremony_secret (self : GovernanceConfig) : result CeremonyError string :=
  ok_or self.(gc_ceremony_secret) CE_Disabled.
Definition config_verifier_secret (self : GovernanceConfig) : result CeremonyError string :=
  ok_or self.(gc_verifier_secret) CE_Disabled.
Definition config_rp_id (self : GovernanceConfig) : result CeremonyError string :=
  ok_or self.(gc_rp_id) CE_Disabled.
Definition config_origin (self : GovernanceConfig) : result CeremonyError string :=
  ok_or self.(gc_origin) CE_Disabled.
Definition config_protected_state_codec (self : GovernanceConfig)
  : result CeremonyError ProtectedStateCodec :=
  ok_or self.(gc_protected_state_codec) CE_Disabled.

(** ** Parsing *)

Definition parse_strict_bool (value : option string) : result CeremonyError bool :=
  match trim <$> value with
  | None => Ok false
  | Some text =>
      if (text =? "")%string || (text =? "false")%string || (text =? "0")%string then Ok false
      else if (text =? "true")%string || (text =? "1")%string then Ok true
      else Err (CE_InvalidConfig
                  "FIDUCIA_GOVERNANCE_WEBAUTHN_ENABLED must be true, false, 1, or 0")
  end.

(** [value.filter(|value| !value.is_empty())]. *)
Definition non_empty (value : option string) : option string :=
  match value with
  | Some text => if str_is_empty text then None else Some text
  | None => None
  end.

Definition parse_ttl_secs (value : option string) : result CeremonyError N :=
  let? ttl :=
    match non_empty (trim <$> value) with
    | None => Ok DEFAULT_TTL_SECS
    | Some value =>
        ok_or (parse_unsigned u64_max value)
          (CE_InvalidConfig "FIDUCIA_GOVERNANCE_CEREMONY_TTL_SECS must be an integer")
    end in
  reject negb ((MIN_TTL_SECS <=? ttl) && (ttl <=? MAX_TTL_SECS))
    with CE_InvalidConfig "FIDUCIA_GOVERNANCE_CEREMONY_TTL_SECS must be between 60 and 900" ;;
  Ok ttl.

Definition parse_keyring_version (value : string) : result CeremonyError N :=
  let bad := CE_InvalidConfig
    "FIDUCIA_GOVERNANCE_STATE_KEYRING_VERSION must be a positive integer" in
  let? version := ok_or (parse_unsigned u64_max (trim value)) bad in
  reject version =? 0 with bad ;;
  Ok version.

Definition validate_config_identifier (value field : string) : result CeremonyError unit :=
  reject str_is_empty value || (128 <? str_len value)
         || (any_whitespace value || any_control value)
    with CE_InvalidConfig "protected-state identifiers must be non-empty and contain no whitespace or control characters" ;;
  Ok tt.

Definition validate_secret (name value : string) : result CeremonyError string :=
  reject (str_len value <? 32) || (any_whitespace value || any_control value)
    with CE_WeakSecret name ;;
  Ok value.

(** The loop of [parse_tenants]. *)
Fixpoint collect_tenants (parts : list string) (tenants : gset string)
  : result CeremonyError (gset string) :=
  match parts with
  | [] => Ok tenants
  | tenant :: rest =>
      let? _ := validate_identifier tenant "tenant_id" in
      collect_tenants rest ({[ tenant ]} ∪ tenants)
  end.
Definition parse_tenants (value : string) : result CeremonyError (gset string) :=
  let? tenants := collect_tenants
    (List.filter (fun tenant => negb (str_is_empty tenant)) (trim <$> split_on "," value)) ∅ in
  reject bool_decide (tenants = ∅)
    with CE_InvalidConfig "FIDUCIA_GOVERNANCE_TENANTS must contain at least one tenant" ;;
  Ok tenants.

Section config.
Context `{Crypto, KeysJson, UrlParse} (debug : bool) (var : string -> option string).

Definition parse_protected_state_codec (active_key_id keyring_version keys_json : string)
  : result CeremonyError ProtectedStateCodec :=
  let? _ := validate_config_identifier active_key_id "FIDUCIA_GOVERNANCE_STATE_ACTIVE_KEY_ID" in
  let? version := parse_keyring_version keyring_version in
  let? encoded_keys := ok_or (keys_from_json keys_json)
    (CE_InvalidConfig "FIDUCIA_GOVERNANCE_STATE_KEYS_JSON must be a JSON object of key IDs to base64url keys") in
  reject match encoded_keys with [] => true | _ => false end
    with CE_InvalidConfig "FIDUCIA_GOVERNANCE_STATE_KEYS_JSON must contain at least one key" ;;
  let? _ := try_each (fun key_id => validate_config_identifier key_id "protected-state key ID")
              (fst <$> encoded_keys) in
  from_base64_keys active_key_id version encoded_keys.

Definition required_env (name : string) : result CeremonyError string :=
  ok_or (non_empty (trim <$> var name)) (CE_MissingConfig name).

Definition validate_rp_origin (rp_id origin : string) : result CeremonyError unit :=
  let? _ := validate_identifier rp_id "rp_id" in
  let? parsed := ok_or (url_parse origin)
                   (CE_InvalidConfig "FIDUCIA_GOVERNANCE_ORIGIN is invalid") in
  reject negb (str_is_empty parsed.(url_username))
         || bool_decide (is_Some parsed.(url_password))
         || negb (parsed.(url_path) =? "/")%string
         || bool_decide (is_Some parsed.(url_query))
         || bool_decide (is_Some parsed.(url_fragment))
    with CE_InvalidConfig "FIDUCIA_GOVERNANCE_ORIGIN must contain only scheme, host, and optional port" ;;
  let? host := ok_or parsed.(url_host_str)
                 (CE_InvalidConfig "FIDUCIA_GOVERNANCE_ORIGIN needs a host") in
  let rp_matches := (host =? rp_id)%string || ends_with host ("." +:+ rp_id) in
  reject negb rp_matches
    with CE_InvalidConfig "FIDUCIA_GOVERNANCE_RP_ID must equal or be a registrable suffix of the origin host" ;;
  let loopback := (host =? "localhost")%string || (host =? "127.0.0.1")%string
                  || (host =? "::1")%string in
  reject negb (parsed.(url_scheme) =? "https")%string
         && negb (debug && (parsed.(url_scheme) =? "http")%string && loopback)
    with CE_InvalidConfig "FIDUCIA_GOVERNANCE_ORIGIN must use HTTPS outside loopback debug builds" ;;
  Ok tt.

(** [GovernanceConfig::from_env]. *)
Definition governance_from_env : result CeremonyError GovernanceConfig :=
  let? enabled := parse_strict_bool (var "FIDUCIA_GOVERNANCE_WEBAUTHN_ENABLED") in
  let? ttl_secs := parse_ttl_secs (var "FIDUCIA_GOVERNANCE_CEREMONY_TTL_SECS") in
  if negb enabled then
    Ok {| gc_enabled := enabled; gc_rp_id := None; gc_origin := None; gc_allowed_tenants := ∅;
          gc_ttl_ms := ttl_secs * 1000; gc_ceremony_secret := None; gc_verifier_secret := None;
          gc_protected_state_codec := None |}
  else
    let? rp_id := required_env "FIDUCIA_GOVERNANCE_RP_ID" in
    let? origin := required_env "FIDUCIA_GOVERNANCE_ORIGIN" in
    let? _ := validate_rp_origin rp_id origin in
    let? tenants := required_env "FIDUCIA_GOVERNANCE_TENANTS" in
    let? allowed_tenants := parse_tenants tenants in
    let? secret := required_env "FIDUCIA_GOVERNANCE_CEREMONY_SECRET" in
    let? ceremony_secret := validate_secret "FIDUCIA_GOVERNANCE_CEREMONY_SECRET" secret in
    let? secret := required_env "FIDUCIA_GOVERNANCE_VERIFIER_SECRET" in
    let? verifier_secret := validate_secret "FIDUCIA_GOVERNANCE_VERIFIER_SECRET" secret in
    let? active := required_env "FIDUCIA_GOVERNANCE_STATE_ACTIVE_KEY_ID" in
    let? version := required_env "FIDUCIA_GOVERNANCE_STATE_KEYRING_VERSION" in
    let? keys := required_env "FIDUCIA_GOVERNANCE_STATE_KEYS_JSON" in
    let? protected_state_codec := parse_protected_state_codec active version keys in
    Ok {| gc_enabled := enabled; gc_rp_id := Some rp_id; gc_origin := Some origin;
          gc_allowed_tenants := allowed_tenants; gc_ttl_ms := ttl_secs * 1000;
          gc_ceremony_secret := Some ceremony_secret;
          gc_verifier_secret := Some verifier_secret;
          gc_protected_state_codec := Some protected_state_codec |}.

(** ** What an accepted configuration guarantees *)

Definition clean (value : string) : Prop :=
  any_whitespace value = false /\ any_control value = false.

Lemma ttl_bounds value ttl :
  parse_ttl_secs value = Ok ttl -> MIN_TTL_SECS <= ttl <= MAX_TTL_SECS.
Proof. unfold parse_ttl_secs. intros Ht. inv_ok. done. Qed.

Lemma secret_strong name value secret :
  validate_secret name value = Ok secret -> secret = value /\ 32 <= str_len value /\ clean value.
Proof. unfold validate_secret, clean. intros Hs. inv_ok. done. Qed.

Lemma collect_tenants_ok parts tenants0 tenants :
  collect_tenants parts tenants0 = Ok tenants ->
  forall t, t ∈ tenants <-> t ∈ tenants0 \/ (t ∈ parts /\ validate_identifier t "tenant_id" = Ok tt).
Proof.
  revert tenants0. induction parts as [|p parts IH]; cbn [collect_tenants]; intros tenants0 Hc t.
  - injection Hc as ->. split; [by left|]. intros [?|[Hin _]]; [done|]. by apply not_elem_of_nil in Hin.
  - apply rbind_ok in Hc as ([] & Hp & Hc). rewrite (IH _ Hc), elem_of_union, elem_of_singleton.
    rewrite list.elem_of_cons. naive_solver.
Qed.

Lemma parse_tenants_ok value tenants :
  parse_tenants value = Ok tenants ->
  tenants <> ∅ /\ forall t, t ∈ tenants -> 0 < str_len t <= 160 /\ clean t.
Proof.
  unfold parse_tenants. intros Hp. apply rbind_ok in Hp as (ts & Hc & Hp).
  apply reject_ok in Hp as [Hne [= <-]]. apply bool_decide_eq_false in Hne.
  split; [done|]. intros t Ht. eapply collect_tenants_ok in Ht; [|exact Hc].
  destruct Ht as [Ht|[_ Ht%validate_identifier_ok]]; [by apply not_elem_of_empty in Ht|done].
Qed.

Lemma codec_usable active version keys codec :
  parse_protected_state_codec active version keys = Ok codec ->
  is_Some (codec.(pc_keys) !! codec.(pc_active_key_id)) /\ codec.(pc_keyring_version) <> 0.
Proof.
  unfold parse_protected_state_codec, from_base64_keys. intros Hc.
  do 3 (apply rbind_ok in Hc as (? & _ & Hc)). apply reject_ok in Hc as [_ Hc].
  do 2 (apply rbind_ok in Hc as (? & _ & Hc)).
  by apply codec_new_ok in Hc as (-> & Hv & _ & Ha & _).
Qed.

(** What [validate_rp_origin] accepts. *)
Definition safe_origin (rp origin : string) : Prop :=
  exists url host, url_parse origin = Some url /\ url.(url_host_str) = Some host
  /\ (host = rp \/ ends_with host ("." +:+ rp) = true)
  /\ (url.(url_scheme) = "https"
      \/ (debug = true /\ url.(url_scheme) = "http"
          /\ (host = "localhost" \/ host = "127.0.0.1" \/ host = "::1")))
  /\ url.(url_username) = "" /\ url.(url_password) = None /\ url.(url_path) = "/"
  /\ url.(url_query) = None /\ url.(url_fragment) = None.

Lemma not_some_none {A} (o : option A) : ~ is_Some o <-> o = None.
Proof. symmetry. apply eq_None_not_Some. Qed.

Lemma rp_origin_ok rp origin : validate_rp_origin rp origin = Ok tt -> safe_origin rp origin.
Proof.
  unfold validate_rp_origin. intros Hv.
  apply rbind_ok in Hv as (_ & _ & Hv). apply rbind_ok in Hv as (url & Hurl%ok_or_ok & Hv).
  apply reject_ok in Hv as [Hparts Hv]. apply rbind_ok in Hv as (host & Hhost%ok_or_ok & Hv).
  apply reject_ok in Hv as [Hrp Hv]. apply reject_ok in Hv as [Hscheme _].
  apply negb_false_iff, orb_true_iff in Hrp. rewrite String.eqb_eq in Hrp.
  apply andb_false_iff in Hscheme. rewrite !negb_false_iff in Hscheme.
  rewrite !andb_true_iff, !orb_true_iff, !String.eqb_eq in Hscheme.
  reflect_bools. rewrite !not_some_none in *.
  exists url, host. split_and!; try done; [tauto|by destruct (url_username url)].
Qed.

(** An accepted governance configuration is safe: ceremonies live between
    one and fifteen minutes; a disabled one carries no secret, no tenant and
    no key; an enabled one has two secrets of at least 32 bytes without
    whitespace, at least one tenant and only well-formed ones, a usable
    keyring, and an origin that is HTTPS (plain HTTP only on loopback in a
    debug build), is nothing but scheme, host and port, and whose host is the
    relying party or one of its subdomains. *)
Theorem governance_config_safe config :
  governance_from_env = Ok config ->
  60000 <= config.(gc_ttl_ms) <= 900000
  /\ (config.(gc_enabled) = false ->
        config.(gc_allowed_tenants) = ∅ /\ config.(gc_ceremony_secret) = None
        /\ config.(gc_verifier_secret) = None /\ config.(gc_protected_state_codec) = None)
  /\ (config.(gc_enabled) = true ->
        (exists secret verifier,
           config.(gc_ceremony_secret) = Some secret /\ config.(gc_verifier_secret) = Some verifier
           /\ 32 <= str_len secret /\ clean secret /\ 32 <= str_len verifier /\ clean verifier)
        /\ config.(gc_allowed_tenants) <> ∅
        /\ (forall t, t ∈ config.(gc_allowed_tenants) -> 0 < str_len t <= 160 /\ clean t)
        /\ (exists codec, config.(gc_protected_state_codec) = Some codec
            /\ is_Some (codec.(pc_keys) !! codec.(pc_active_key_id))
            /\ codec.(pc_keyring_version) <> 0)
        /\ exists rp origin, config.(gc_rp_id) = Some rp /\ config.(gc_origin) = Some origin
            /\ safe_origin rp origin).
Proof.
  unfold governance_from_env. intros Hf.
  apply rbind_ok in Hf as (enabled & _ & Hf). apply rbind_ok in Hf as (ttl & Httl%ttl_bounds & Hf).
  unfold MIN_TTL_SECS, MAX_TTL_SECS in Httl.
  destruct enabled; cbn [negb] in Hf.
  2:{ injection Hf as <-. cbn. split; [lia|]. by split. }
  apply rbind_ok in Hf as (rp & _ & Hf). apply rbind_ok in Hf as (origin & _ & Hf).
  apply rbind_ok in Hf as ([] & Horigin%rp_origin_ok & Hf).
  apply rbind_ok in Hf as (? & _ & Hf).
  apply rbind_ok in Hf as (tenants & [Hne Htenants]%parse_tenants_ok & Hf).
  apply rbind_ok in Hf as (? & _ & Hf).
  apply rbind_ok in Hf as (secret & (-> & Hs & Hcs)%secret_strong & Hf).
  apply rbind_ok in Hf as (? & _ & Hf).
  apply rbind_ok in Hf as (verifier & (-> & Hv & Hcv)%secret_strong & Hf).
  do 3 (apply rbind_ok in Hf as (? & _ & Hf)).
  apply rbind_ok in Hf as (codec & Hcodec%codec_usable & [= <-]). cbn.
  split; [lia|]. split; [done|]. intros _.
  split; [by do 2 eexists|]. split; [done|]. split; [done|].
  split; [by exists codec|]. by exists rp, origin.
Qed.
End config.
