(* ===== verification/Ceremony.v ===== *)
(** * Governance ceremonies: integrity, transitions and the durable store

    [src/src/governance_ceremony/integrity.inc.rs], [persistence.inc.rs] and
    the handlers of [routes.inc.rs].  The store keeps nothing in the process,
    so its programs run over the local state [unit]. *)
From Stdlib Require Import Ascii String.
From S2P Require Import Prelude Text Wire Samples Json Kv Model Store Keys KeyFacts.
From S2P Require Import Net CeremonyModel ProtectedState GovernanceConfig.

Notation ceremony_prog A := (prog unit (result CeremonyError A)).

Section ceremony.
Context `{Crypto, !ToVec ApprovalBinding, !ToVec Value, !Serde CeremonyRecord}.

(** ** Integrity of a stored record *)

Definition completed_evidence (self : CeremonyRecord) (credential_id : string)
    (credential_generation : N) (assertion_receipt_hash : string) (completed_at_ms : N) : Value :=
  Object
    [("contract_version", Str CONTRACT_VERSION);
     ("object_kind", Str "verified_governance_webauthn_assertion");
     ("ceremony_id", Str self.(cr_ceremony_id));
     ("tenant_id", Str self.(cr_binding).(b_tenant_id));
     ("participant_id", Str self.(cr_binding).(b_participant_id));
     ("proposal_id", Str self.(cr_binding).(b_proposal_id));
     ("canonical_proposal_hash", Str self.(cr_binding).(b_canonical_proposal_hash));
     ("policy_id", Str self.(cr_binding).(b_policy_id));
     ("policy_version", Num (PosInt self.(cr_binding).(b_policy_version)));
     ("policy_hash", Str self.(cr_binding).(b_policy_hash));
     ("continuity_generation", Num (PosInt self.(cr_binding).(b_continuity_generation)));
     ("credential_id", Str credential_id);
     ("credential_generation", Num (PosInt credential_generation));
     ("assertion_receipt_hash", Str assertion_receipt_hash);
     ("user_verified", Bool true);
     ("completed_at_ms", Num (PosInt completed_at_ms))]%string.
Definition completed_result_hash (self : CeremonyRecord) (credential_id : string)
    (credential_generation : N) (assertion_receipt_hash : string) (completed_at_ms : N)
  : result CeremonyError string :=
  sha256_json (completed_evidence self credential_id credential_generation
                 assertion_receipt_hash completed_at_ms).

Definition validate_claim_metadata (self : CeremonyRecord) : result CeremonyError unit :=
  let? claim_id := ok_or self.(cr_claim_id) (corrupt "claimed ceremony is missing claim id") in
  let? _ := stored_ok (validate_identifier claim_id "claim_id")
              "stored ceremony claim id is invalid" in
  reject self.(cr_fencing_token) =? 0
    with corrupt "claimed ceremony has a zero fencing token" ;;
  let? claimed_at_ms := ok_or self.(cr_claimed_at_ms)
                          (corrupt "claimed ceremony is missing claim time") in
  reject (claimed_at_ms <? self.(cr_binding).(b_created_at_ms))
         || (self.(cr_binding).(b_expires_at_ms) <=? claimed_at_ms)
    with corrupt "claimed ceremony timestamp is outside its lifetime" ;;
  Ok tt.

Definition validate_completed (self : CeremonyRecord) : result CeremonyError unit :=
  let? _ := validate_claim_metadata self in
  let? terminal := ok_or self.(cr_terminal)
                     (corrupt "completed ceremony is missing terminal state") in
  reject negb (bool_decide (terminal.(t_outcome) = St_Completed))
         || negb (terminal.(t_reason) =? "verified")%string
    with corrupt "completed ceremony has an invalid outcome" ;;
  let? receipt_hash := ok_or terminal.(t_assertion_receipt_hash)
                         (corrupt "completed ceremony is missing receipt evidence") in
  let? credential_id := ok_or terminal.(t_credential_id)
                          (corrupt "completed ceremony is missing credential evidence") in
  let? credential_generation := ok_or terminal.(t_credential_generation)
                          (corrupt "completed ceremony is missing credential generation") in
  let? _ := stored_ok (validate_identifier credential_id "credential_id")
              "completed ceremony credential id is invalid" in
  let? _ := stored_ok (validate_canonical_sha256_urn receipt_hash "assertion_receipt_hash")
              "completed ceremony receipt hash is not canonical" in
  let? _ := stored_ok (validate_canonical_sha256_urn terminal.(t_result_hash) "result_hash")
              "completed ceremony result hash is not canonical" in
  reject bool_decide (self.(cr_binding).(b_activation_credential_id) = Some credential_id)
    with corrupt "completed ceremony used the credential being activated" ;;
  reject negb (credential_generation =? self.(cr_binding).(b_credential_generation))
    with corrupt "completed ceremony credential generation changed" ;;
  let? claimed_at_ms := ok_or self.(cr_claimed_at_ms)
                          (corrupt "completed ceremony is missing claim time") in
  reject (terminal.(t_completed_at_ms) <? claimed_at_ms)
         || (self.(cr_binding).(b_expires_at_ms) <=? terminal.(t_completed_at_ms))
    with corrupt "completed ceremony timestamp is outside its claim lifetime" ;;
  let? expected := completed_result_hash self credential_id credential_generation receipt_hash
                     terminal.(t_completed_at_ms) in
  reject negb (terminal.(t_result_hash) =? expected)%string
    with corrupt "completed ceremony result hash does not match its evidence" ;;
  Ok tt.

Definition validate_status (self : CeremonyRecord) : result CeremonyError unit :=
  match self.(cr_status) with
  | St_Pending =>
      reject bool_decide (is_Some self.(cr_claim_id)) || negb (self.(cr_fencing_token) =? 0)
             || bool_decide (is_Some self.(cr_claimed_at_ms))
             || bool_decide (is_Some self.(cr_terminal))
        with corrupt "pending ceremony contains mutable state" ;;
      Ok tt
  | St_Claimed =>
      let? _ := validate_claim_metadata self in
      reject bool_decide (is_Some self.(cr_terminal))
        with corrupt "claimed ceremony contains terminal state" ;;
      Ok tt
  | St_Completed => validate_completed self
  | St_Rejected | St_Expired =>
      Err (corrupt "stored ceremony uses an unsupported terminal state")
  end.

Definition validate_integrity (self : CeremonyRecord) (expected_id : string)
  : result CeremonyError unit :=
  let? _ := stored_ok (validate_ceremony_id expected_id) "stored ceremony key is invalid" in
  let? _ := stored_ok (validate_ceremony_id self.(cr_ceremony_id))
              "stored ceremony id is invalid" in
  reject negb (self.(cr_ceremony_id) =? expected_id)%string
    with corrupt "stored ceremony id does not match its key" ;;
  reject negb (self.(cr_contract_version) =? CONTRACT_VERSION)%string
         || negb (self.(cr_object_kind) =? OBJECT_KIND)%string
    with corrupt "stored ceremony contract metadata is unsupported" ;;
  let? _ := stored_ok (binding_validate self.(cr_binding)) "stored ceremony binding is invalid" in
  let? _ := try_each (fun '(hash, field, reason) =>
                        stored_ok (validate_canonical_sha256_urn hash field) reason)
    [(self.(cr_binding).(b_canonical_proposal_hash), "canonical_proposal_hash",
      "stored proposal hash is not canonical");
     (self.(cr_binding).(b_policy_hash), "policy_hash", "stored policy hash is not canonical");
     (self.(cr_binding_hash), "binding_hash", "stored binding hash is not canonical");
     (self.(cr_challenge_hash), "challenge_hash",
      "stored challenge hash is not canonical")]%string in
  let? ttl_ms := ok_or (checked_sub self.(cr_binding).(b_expires_at_ms)
                          self.(cr_binding).(b_created_at_ms))
                   (corrupt "stored ceremony expiry is invalid") in
  reject (self.(cr_binding).(b_created_at_ms) =? 0)
         || negb ((MIN_TTL_SECS * 1000 <=? ttl_ms) && (ttl_ms <=? MAX_TTL_SECS * 1000))
    with corrupt "stored ceremony lifetime is outside the configured safety bounds" ;;
  let? expected_binding_hash := stored_ok (binding_hash self.(cr_binding))
                                  "stored ceremony binding cannot be hashed" in
  reject negb (self.(cr_binding_hash) =? expected_binding_hash)%string
    with corrupt "stored ceremony binding hash does not match the binding" ;;
  validate_status self.

Definition validate_record_against_config (record : CeremonyRecord) (config : GovernanceConfig)
    (expected_id : string) : result CeremonyError unit :=
  let? _ := validate_integrity record expected_id in
  let? rp_id := stored_ok (config_rp_id config) "governance RP ID is unavailable" in
  let? origin := stored_ok (config_origin config) "governance origin is unavailable" in
  reject negb config.(gc_enabled)
         || negb (bool_decide (record.(cr_binding).(b_tenant_id) ∈ config.(gc_allowed_tenants)))
         || negb (record.(cr_binding).(b_rp_id) =? rp_id)%string
         || negb (record.(cr_binding).(b_origin) =? origin)%string
    with corrupt "stored ceremony is outside the active governance configuration" ;;
  let? secret := stored_ok (config_ceremony_secret config)
                   "governance ceremony secret is unavailable" in
  let? challenge := stored_ok (derive_challenge secret expected_id record.(cr_binding_hash))
                      "stored ceremony challenge cannot be derived" in
  reject negb (record.(cr_challenge_hash) =? sha256_bytes challenge)%string
    with corrupt "stored ceremony challenge hash does not match its binding" ;;
  Ok tt.

(** ** Transitions *)

Definition claimed_record (record : CeremonyRecord) (claim_id : string) (fencing_token now_ms : N)
  : CeremonyRecord :=
  {| cr_contract_version := record.(cr_contract_version);
     cr_object_kind := record.(cr_object_kind);
     cr_ceremony_id := record.(cr_ceremony_id);
     cr_binding := record.(cr_binding);
     cr_binding_hash := record.(cr_binding_hash);
     cr_challenge_hash := record.(cr_challenge_hash);
     cr_status := St_Claimed;
     cr_claim_id := Some claim_id;
     cr_fencing_token := fencing_token;
     cr_claimed_at_ms := Some now_ms;
     cr_terminal := record.(cr_terminal) |}.

(** The second and third component: replayed, taken over. *)
Definition claim_record (record : CeremonyRecord) (claim_id : string) (fencing_token now_ms : N)
  : result CeremonyError (CeremonyRecord * bool * bool) :=
  match record.(cr_status) with
  | St_Pending => Ok (claimed_record record claim_id fencing_token now_ms, false, false)
  | St_Claimed =>
      reject fencing_token <? record.(cr_fencing_token) with CE_StaleFencing ;;
      if fencing_token =? record.(cr_fencing_token) then
        if bool_decide (record.(cr_claim_id) = Some claim_id) then Ok (record, true, false)
        else Err CE_AlreadyClaimed
      else Ok (claimed_record record claim_id fencing_token now_ms, false, true)
  | St_Completed | St_Rejected | St_Expired => Err CE_Conflict
  end.

Definition completed_record (record : CeremonyRecord) (request : CompleteVerifiedRequest)
    (now_ms : N) (result_hash : string) : CeremonyRecord :=
  {| cr_contract_version := record.(cr_contract_version);
     cr_object_kind := record.(cr_object_kind);
     cr_ceremony_id := record.(cr_ceremony_id);
     cr_binding := record.(cr_binding);
     cr_binding_hash := record.(cr_binding_hash);
     cr_challenge_hash := record.(cr_challenge_hash);
     cr_status := St_Completed;
     cr_claim_id := record.(cr_claim_id);
     cr_fencing_token := record.(cr_fencing_token);
     cr_claimed_at_ms := record.(cr_claimed_at_ms);
     cr_terminal := Some {|
       t_outcome := St_Completed;
       t_reason := "verified";
       t_assertion_receipt_hash := Some request.(cv_assertion_receipt_hash);
       t_credential_id := Some request.(cv_credential_id);
       t_credential_generation := Some request.(cv_credential_generation);
       t_completed_at_ms := now_ms;
       t_result_hash := result_hash |} |}.

Definition complete_record (record : CeremonyRecord) (request : CompleteVerifiedRequest)
    (now_ms : N) : result CeremonyError CeremonyRecord :=
  reject negb (bool_decide (record.(cr_status) = St_Claimed)) with CE_NotClaimed ;;
  reject request.(cv_fencing_token) <? record.(cr_fencing_token) with CE_StaleFencing ;;
  reject negb (request.(cv_fencing_token) =? record.(cr_fencing_token))
         || negb (bool_decide (record.(cr_claim_id) = Some request.(cv_claim_id)))
    with CE_ClaimMismatch ;;
  reject negb (record.(cr_binding_hash) =? request.(cv_binding_hash))%string
         || negb (record.(cr_challenge_hash) =? request.(cv_challenge_hash))%string
         || negb (record.(cr_binding).(b_credential_generation)
                  =? request.(cv_credential_generation))
    with CE_Conflict ;;
  reject bool_decide (record.(cr_binding).(b_activation_credential_id)
                      = Some request.(cv_credential_id))
    with CE_Unauthorized ;;
  let? result_hash := completed_result_hash record request.(cv_credential_id)
    request.(cv_credential_generation) request.(cv_assertion_receipt_hash) now_ms in
  Ok (completed_record record request now_ms result_hash).

(** ** The durable store

    [CeremonyStore] is its configuration; the key-value client is the service
    the programs run against. *)
Definition ceremony_load (self : GovernanceConfig) (ceremony_id : string)
  : ceremony_prog CeremonyRecord :=
  let!? _ := pure (validate_ceremony_id ceremony_id) in
  let!? value := prog_map_err CE_Store (kv_get (ceremony_path ceremony_id)) in
  pure (let? value := ok_or value CE_NotFound in
        let? record := ok_or (from_value value) CE_Json in
        let? _ := validate_record_against_config record self ceremony_id in
        Ok record).

(** The record [begin] writes, with its challenge: everything before the
    compare-and-set. *)
Definition begun_record (self : GovernanceConfig)
    (proposal_id participant_id tenant_id idempotency_key : string)
    (request : BeginApprovalRequest) (now_ms : N)
  : result CeremonyError (CeremonyRecord * string) :=
  reject negb self.(gc_enabled) with CE_Disabled ;;
  let? _ := validate_identifier proposal_id "proposal_id" in
  let? _ := validate_identifier participant_id "participant_id" in
  let? _ := validate_identifier tenant_id "tenant_id" in
  let? _ := validate_idempotency_key idempotency_key in
  let? _ := validate_canonical_sha256_urn request.(br_canonical_proposal_hash)
              "canonical_proposal_hash" in
  let? _ := validate_canonical_sha256_urn request.(br_policy_hash) "policy_hash" in
  reject negb (request.(br_org_id) =? tenant_id)%string
         || negb (request.(br_participant_id) =? participant_id)%string
    with CE_Unauthorized ;;
  reject negb (bool_decide (tenant_id ∈ self.(gc_allowed_tenants))) with CE_Unauthorized ;;
  let? expires_at_ms := ok_or (checked_add now_ms self.(gc_ttl_ms))
                          (CE_InvalidRequest "ceremony expiry overflow") in
  let? rp_id := config_rp_id self in
  let? origin := config_origin self in
  let binding := {|
    b_tenant_id := tenant_id;
    b_participant_id := participant_id;
    b_proposal_id := proposal_id;
    b_canonical_proposal_hash := request.(br_canonical_proposal_hash);
    b_policy_id := request.(br_policy_id);
    b_policy_version := request.(br_policy_version);
    b_policy_hash := request.(br_policy_hash);
    b_continuity_state := request.(br_continuity_state);
    b_continuity_generation := request.(br_continuity_generation);
    b_rp_id := rp_id;
    b_origin := origin;
    b_credential_generation := request.(br_credential_generation);
    b_activation_credential_id := request.(br_activation_credential_id);
    b_created_at_ms := now_ms;
    b_expires_at_ms := expires_at_ms
  |} in
  let? binding_hash := binding_hash binding in
  let id := ceremony_id tenant_id participant_id proposal_id idempotency_key in
  let? secret := config_ceremony_secret self in
  let? challenge := derive_challenge secret id binding_hash in
  let challenge_hash := sha256_bytes challenge in
  let record := {|
    cr_contract_version := CONTRACT_VERSION;
    cr_object_kind := OBJECT_KIND;
    cr_ceremony_id := id;
    cr_binding := binding;
    cr_binding_hash := binding_hash;
    cr_challenge_hash := challenge_hash;
    cr_status := St_Pending;
    cr_claim_id := None;
    cr_fencing_token := 0;
    cr_claimed_at_ms := None;
    cr_terminal := None
  |} in
  let? _ := validate_record_against_config record self id in
  Ok (record, challenge).

Definition begin_response (record : CeremonyRecord) (challenge : string) (replayed : bool)
  : BeginApprovalResponse :=
  {| ba_ceremony_id := record.(cr_ceremony_id);
     ba_binding_hash := record.(cr_binding_hash);
     ba_challenge := challenge;
     ba_challenge_hash := record.(cr_challenge_hash);
     ba_rp_id := record.(cr_binding).(b_rp_id);
     ba_origin := record.(cr_binding).(b_origin);
     ba_expires_at_ms := record.(cr_binding).(b_expires_at_ms);
     ba_replayed := replayed |}.

(** What [begin] makes of the ceremony it found under its id.  The hashes in
    the response are the request's, which the first test compared. *)
Definition begin_replay (existing record : CeremonyRecord) (challenge tenant_id participant_id
    : string) (now_ms : N) : result CeremonyError BeginApprovalResponse :=
  reject negb (existing.(cr_binding_hash) =? record.(cr_binding_hash))%string
         || negb (existing.(cr_challenge_hash) =? record.(cr_challenge_hash))%string
         || negb (existing.(cr_binding).(b_tenant_id) =? tenant_id)%string
         || negb (existing.(cr_binding).(b_participant_id) =? participant_id)%string
    with CE_Conflict ;;
  reject existing.(cr_binding).(b_expires_at_ms) <=? now_ms with CE_Expired ;;
  reject bool_decide (existing.(cr_status) ∈ [St_Completed; St_Rejected; St_Expired])
    with CE_Conflict ;;
  Ok {| ba_ceremony_id := record.(cr_ceremony_id);
        ba_binding_hash := record.(cr_binding_hash);
        ba_challenge := challenge;
        ba_challenge_hash := record.(cr_challenge_hash);
        ba_rp_id := existing.(cr_binding).(b_rp_id);
        ba_origin := existing.(cr_binding).(b_origin);
        ba_expires_at_ms := existing.(cr_binding).(b_expires_at_ms);
        ba_replayed := true |}.

(** [CeremonyStore::begin]. *)
Definition store_begin (self : GovernanceConfig)
    (proposal_id participant_id tenant_id idempotency_key : string)
    (request : BeginApprovalRequest) (now_ms : N) : ceremony_prog BeginApprovalResponse :=
  let!? (record, challenge) :=
    pure (begun_record self proposal_id participant_id tenant_id idempotency_key request now_ms) in
  let!? value := pure (ok_or (to_value record) CE_Json) in
  let!? outcome := prog_map_err CE_Store
    (put_if_revision (ceremony_path record.(cr_ceremony_id)) value 0) in
  match outcome with
  | Applied => pure (Ok (begin_response record challenge false))
  | Mismatch =>
      let!? existing := ceremony_load self record.(cr_ceremony_id) in
      pure (begin_replay existing record challenge tenant_id participant_id now_ms)
  end.

Definition claim_response (id : string) (status : CeremonyStatus) (fencing_token : N)
    (replayed taken_over : bool) : ClaimResponse :=
  {| ca_ceremony_id := id; ca_status := status; ca_fencing_token := fencing_token;
     ca_replayed := replayed; ca_taken_over := taken_over |}.

(** The record under a ceremony's key, decoded and validated, with its
    revision: the start of every round of [claim] and [complete_verified]. *)
Definition load_for_update (self : GovernanceConfig) (id tenant_id participant_id : string)
  : ceremony_prog (CeremonyRecord * N) :=
  let!? versioned := prog_map_err CE_Store (get_versioned (ceremony_path id)) in
  pure (let? versioned := ok_or versioned CE_NotFound in
        let? record := ok_or (from_value versioned.(vv_value)) CE_Json in
        let? _ := validate_record_against_config record self id in
        let? _ := validate_identity record tenant_id participant_id in
        Ok (record, versioned.(vv_mod_revision))).

Fixpoint claim_loop (retries : nat) (self : GovernanceConfig) (id : string)
    (request : ClaimRequest) (now_ms : N) : ceremony_prog ClaimResponse :=
  match retries with
  | O => pure (Err CE_CasRetriesExhausted)
  | S retries =>
      let!? (record, mod_revision) :=
        load_for_update self id request.(cl_tenant_id) request.(cl_participant_id) in
      if record.(cr_binding).(b_expires_at_ms) <=? now_ms then pure (Err CE_Expired)
      else
        match record.(cr_terminal) with
        | Some terminal =>
            pure (Ok (claim_response id terminal.(t_outcome) record.(cr_fencing_token) true false))
        | None =>
            let!? (candidate, replayed, taken_over) :=
              pure (claim_record record request.(cl_claim_id) request.(cl_fencing_token) now_ms) in
            let!? _ := pure (validate_record_against_config candidate self id) in
            let answer replayed := claim_response id candidate.(cr_status)
                                     candidate.(cr_fencing_token) replayed taken_over in
            if replayed : bool then pure (Ok (answer true))
            else
              let!? value := pure (ok_or (to_value candidate) CE_Json) in
              let!? outcome := prog_map_err CE_Store
                (put_if_revision (ceremony_path id) value mod_revision) in
              match outcome with
              | Applied => pure (Ok (answer false))
              | Mismatch => claim_loop retries self id request now_ms
              end
        end
  end.

(** [CeremonyStore::claim]. *)
Definition store_claim (self : GovernanceConfig) (id : string) (request : ClaimRequest)
    (now_ms : N) : ceremony_prog ClaimResponse :=
  let!? _ := pure (validate_ceremony_id id) in
  let!? _ := pure (validate_identifier request.(cl_claim_id) "claim_id") in
  if request.(cl_fencing_token) =? 0
  then pure (Err (CE_InvalidRequest "fencing_token must be positive"))
  else claim_loop MAX_CAS_ATTEMPTS self id request now_ms.

(** An answer that the ceremony was already completed with this receipt. *)
Definition complete_replay (id : string) (terminal : TerminalVerification)
    (request : CompleteVerifiedRequest) : result CeremonyError CompleteVerifiedResponse :=
  if bool_decide (terminal.(t_outcome) = St_Completed)
     && bool_decide (terminal.(t_assertion_receipt_hash)
                     = Some request.(cv_assertion_receipt_hash))
  then Ok {| co_ceremony_id := id; co_status := St_Completed; co_terminal := terminal;
             co_replayed := true |}
  else Err CE_Conflict.

Fixpoint complete_loop (retries : nat) (self : GovernanceConfig) (id : string)
    (request : CompleteVerifiedRequest) (now_ms : N) : ceremony_prog CompleteVerifiedResponse :=
  match retries with
  | O => pure (Err CE_CasRetriesExhausted)
  | S retries =>
      let!? (record, mod_revision) :=
        load_for_update self id request.(cv_tenant_id) request.(cv_participant_id) in
      match record.(cr_terminal) with
      | Some terminal => pure (complete_replay id terminal request)
      | None =>
          if record.(cr_binding).(b_expires_at_ms) <=? now_ms then pure (Err CE_Expired)
          else
            let!? candidate := pure (complete_record record request now_ms) in
            let!? _ := pure (validate_record_against_config candidate self id) in
            let!? terminal := pure (ok_or candidate.(cr_terminal)
                                      (CE_InvalidRequest "terminal result missing")) in
            let!? value := pure (ok_or (to_value candidate) CE_Json) in
            let!? outcome := prog_map_err CE_Store
              (put_if_revision (ceremony_path id) value mod_revision) in
            match outcome with
            | Applied =>
                pure (Ok {| co_ceremony_id := id; co_status := St_Completed;
                            co_terminal := terminal; co_replayed := false |})
            | Mismatch => complete_loop retries self id request now_ms
            end
      end
  end.

(** [CeremonyStore::complete_verified]. *)
Definition store_complete (self : GovernanceConfig) (id : string)
    (request : CompleteVerifiedRequest) (now_ms : N) : ceremony_prog CompleteVerifiedResponse :=
  let!? _ := pure (validate_ceremony_id id) in
  let!? _ := pure (validate_identifier request.(cv_claim_id) "claim_id") in
  let!? _ := pure (validate_identifier request.(cv_credential_id) "credential_id") in
  let!? _ := pure (validate_canonical_sha256_urn request.(cv_binding_hash) "binding_hash") in
  let!? _ := pure (validate_canonical_sha256_urn request.(cv_challenge_hash) "challenge_hash") in
  let!? _ := pure (validate_canonical_sha256_urn request.(cv_assertion_receipt_hash)
                     "assertion_receipt_hash") in
  if negb request.(cv_user_verified) then pure (Err CE_Unauthorized)
  else complete_loop MAX_CAS_ATTEMPTS self id request now_ms.
End ceremony.
