(* ===== verification/CeremonySafety.v ===== *)
(** * Concurrent safety of the ceremony store

    What a stored ceremony can become, and what [begin], [claim] and
    [complete_verified] guarantee against the contract of the key-value
    service while other replicas and other components use it. *)
From Stdlib Require Import Ascii String.
From S2P Require Import Prelude Text Wire Samples Json Kv Model Store Keys KeyFacts.
From S2P Require Import Net CeremonyModel ProtectedState GovernanceConfig Ceremony.

(** ** The life of a record *)

(** What no write changes. *)
Definition same_ceremony (r r' : CeremonyRecord) : Prop :=
  r'.(cr_contract_version) = r.(cr_contract_version)
  /\ r'.(cr_object_kind) = r.(cr_object_kind)
  /\ r'.(cr_ceremony_id) = r.(cr_ceremony_id)
  /\ r'.(cr_binding) = r.(cr_binding)
  /\ r'.(cr_binding_hash) = r.(cr_binding_hash)
  /\ r'.(cr_challenge_hash) = r.(cr_challenge_hash).

(** A later state of a ceremony: the same; or, if it had no outcome yet, one
    of the same ceremony with a higher fencing token, or with the same token,
    held by the same claim, and an outcome. *)
Definition ceremony_le (r r' : CeremonyRecord) : Prop :=
  r' = r
  \/ (r.(cr_terminal) = None /\ same_ceremony r r'
      /\ r.(cr_fencing_token) <= r'.(cr_fencing_token)
      /\ (r.(cr_fencing_token) = r'.(cr_fencing_token) ->
            r.(cr_claim_id) = r'.(cr_claim_id) /\ is_Some r'.(cr_terminal))).

Lemma ceremony_le_trans r1 r2 r3 : ceremony_le r1 r2 -> ceremony_le r2 r3 -> ceremony_le r1 r3.
Proof.
  intros [->|(H1 & S1 & F1 & E1)] [->|(H2 & S2 & F2 & E2)]; [by left|by right|by right|]. right.
  split; [done|]. split; [|split; [lia|]].
  - unfold same_ceremony in *. destruct_and!. split_and!; congruence.
  - intros He. destruct E1 as [_ [t Ht]]; [lia|]. congruence.
Qed.

Section rely.
Context `{Crypto, !ToVec ApprovalBinding, !ToVec Value, !Serde CeremonyRecord,
          !SerdeLaws CeremonyRecord}.
Context (config : GovernanceConfig).
Implicit Types (m : kv) (r : CeremonyRecord) (id : string).

Definition record_ok id r : Prop := validate_record_against_config r config id = Ok tt.

(** The outcome a completed record carries. *)
Definition completed_terminal r (t : TerminalVerification) : Prop :=
  r.(cr_terminal) = Some t /\ t.(t_outcome) = St_Completed /\ t.(t_reason) = "verified"%string
  /\ exists receipt credential,
       t.(t_assertion_receipt_hash) = Some receipt /\ t.(t_credential_id) = Some credential
       /\ t.(t_credential_generation) = Some r.(cr_binding).(b_credential_generation)
       /\ r.(cr_binding).(b_activation_credential_id) <> Some credential
       /\ t.(t_completed_at_ms) < r.(cr_binding).(b_expires_at_ms)
       /\ completed_result_hash r credential r.(cr_binding).(b_credential_generation) receipt
            t.(t_completed_at_ms) = Ok t.(t_result_hash).

Definition status_ok r : Prop :=
  match r.(cr_status) with
  | St_Pending =>
      r.(cr_claim_id) = None /\ r.(cr_fencing_token) = 0 /\ r.(cr_claimed_at_ms) = None
      /\ r.(cr_terminal) = None
  | St_Claimed =>
      is_Some r.(cr_claim_id) /\ r.(cr_fencing_token) <> 0 /\ is_Some r.(cr_claimed_at_ms)
      /\ r.(cr_terminal) = None
  | St_Completed =>
      is_Some r.(cr_claim_id) /\ r.(cr_fencing_token) <> 0
      /\ exists t, completed_terminal r t
  | St_Rejected | St_Expired => False
  end.

Lemma claim_metadata_ok r :
  validate_claim_metadata r = Ok tt ->
  is_Some r.(cr_claim_id) /\ r.(cr_fencing_token) <> 0 /\ is_Some r.(cr_claimed_at_ms).
Proof. unfold validate_claim_metadata. intros Hm. inv_ok. split_and!; try done; by eexists. Qed.

Lemma completed_ok r :
  validate_completed r = Ok tt ->
  is_Some r.(cr_claim_id) /\ r.(cr_fencing_token) <> 0 /\ exists t, completed_terminal r t.
Proof.
  unfold validate_completed. intros Hc. apply rbind_ok in Hc as ([] & Hm%claim_metadata_ok & Hc).
  destruct Hm as (? & ? & _). do 2 (split; [done|]).
  unfold stored_ok in Hc. inv_ok. eexists. split; [eassumption|].
  do 2 (split; [done|]). do 2 eexists. do 2 (split; [eassumption|]). split_and!; try done.
Qed.

Lemma record_ok_parts id r :
  record_ok id r -> r.(cr_ceremony_id) = id /\ validate_status r = Ok tt.
Proof.
  unfold record_ok, validate_record_against_config, validate_integrity. intros Hr.
  apply rbind_ok in Hr as ([] & Hi & _).
  do 2 (apply rbind_ok in Hi as (? & _ & Hi)).
  apply reject_ok in Hi as [Hid Hi]. apply reject_ok in Hi as [_ Hi].
  do 3 (apply rbind_ok in Hi as (? & _ & Hi)). apply reject_ok in Hi as [_ Hi].
  apply rbind_ok in Hi as (? & _ & Hi). apply reject_ok in Hi as [_ Hs].
  split; [by reflect_bools|exact Hs].
Qed.
Lemma record_ok_status id r : record_ok id r -> r.(cr_ceremony_id) = id /\ status_ok r.
Proof.
  intros [Hid Hs]%record_ok_parts. split; [done|]. unfold validate_status in Hs. unfold status_ok.
  destruct (cr_status r).
  - apply reject_ok in Hs as [Hs _]. reflect_bools. rewrite !not_some_none in *. done.
  - apply rbind_ok in Hs as ([] & (? & ? & ?)%claim_metadata_ok & Hs).
    apply reject_ok in Hs as [Hs _]. reflect_bools. by rewrite not_some_none in *.
  - by apply completed_ok.
  - done.
  - done.
Qed.

(** The hashes of a valid record are those of its binding. *)
Lemma record_ok_binding id r :
  record_ok id r ->
  binding_hash r.(cr_binding) = Ok r.(cr_binding_hash)
  /\ exists challenge secret, config_ceremony_secret config = Ok secret
     /\ derive_challenge secret id r.(cr_binding_hash) = Ok challenge
     /\ r.(cr_challenge_hash) = sha256_bytes challenge.
Proof.
  unfold record_ok, validate_record_against_config, validate_integrity. intros Hr.
  apply rbind_ok in Hr as ([] & Hi & Hr).
  do 2 (apply rbind_ok in Hi as (? & _ & Hi)). do 2 (apply reject_ok in Hi as [_ Hi]).
  do 3 (apply rbind_ok in Hi as (? & _ & Hi)). apply reject_ok in Hi as [_ Hi].
  apply rbind_ok in Hi as (hash & Hh%map_err_ok & Hi). apply reject_ok in Hi as [Heq _].
  do 2 (apply rbind_ok in Hr as (? & _ & Hr)). apply reject_ok in Hr as [_ Hr].
  apply rbind_ok in Hr as (secret & Hs%map_err_ok & Hr).
  apply rbind_ok in Hr as (challenge & Hc%map_err_ok & Hr). apply reject_ok in Hr as [Hch _].
  reflect_bools. split; [congruence|]. by exists challenge, secret.
Qed.

(** One write of a stored ceremony. *)
Definition ceremony_succ r r' : Prop :=
  r.(cr_terminal) = None
  /\ ((exists claim fence now, r.(cr_fencing_token) < fence
         /\ r' = claimed_record r claim fence now)
      \/ exists request now, complete_record r request now = Ok r').

Lemma complete_record_ok r request now r' :
  complete_record r request now = Ok r' ->
  r.(cr_status) = St_Claimed
  /\ request.(cv_fencing_token) = r.(cr_fencing_token)
  /\ r.(cr_claim_id) = Some request.(cv_claim_id)
  /\ r.(cr_binding_hash) = request.(cv_binding_hash)
  /\ r.(cr_challenge_hash) = request.(cv_challenge_hash)
  /\ r.(cr_binding).(b_credential_generation) = request.(cv_credential_generation)
  /\ exists hash, r' = completed_record r request now hash.
Proof. unfold complete_record. intros Hc. inv_ok. split_and!; try done. by eexists. Qed.

Lemma ceremony_succ_le r r' : ceremony_succ r r' -> ceremony_le r r'.
Proof.
  intros [Ht [(claim & fence & now & Hf & ->)|(request & now & Hc)]]; right; (split; [done|]).
  - split; [done|]. cbn. split; lia.
  - apply complete_record_ok in Hc as (_ & _ & _ & _ & _ & _ & hash & ->).
    split; [done|]. cbn. split; [lia|]. intros _. split; [done|by eexists].
Qed.

(** Who may write: which ceremonies may begin, and whether one that exists
    may move. *)
Context (may_begin : ApprovalBinding -> Prop) (may_move : Prop).

Definition ceremony_write id (old : option Value) (new : Value) : Prop :=
  exists r', from_value new = Some r' /\ record_ok id r'
  /\ match old with
     | None => r'.(cr_status) = St_Pending /\ may_begin r'.(cr_binding)
     | Some v => may_move
         /\ exists r, from_value v = Some r /\ record_ok id r /\ ceremony_succ r r'
     end.

(** The interface to the other components. *)
Context (G : string -> option Value -> Value -> Prop).
Context (ceremony_rely : forall id old new, G (ceremony_path id) old new ->
                         ceremony_write id old new).
Context (ceremony_guarantee : forall id old new, ceremony_write id old new ->
                              G (ceremony_path id) old new).
Notation no_local_claim := (fun (_ : unit) (_ : kv) => True).
Notation evolves := (evolves G).
Notation wp := (wp G no_local_claim).

Definition ceremony_at m id r : Prop :=
  exists e, m !! ceremony_path id = Some e /\ from_value e.(vv_value) = Some r /\ record_ok id r.

Lemma ceremony_at_inj m id r r' : ceremony_at m id r -> ceremony_at m id r' -> r = r'.
Proof. intros (e & He & Hd & _) (e' & He' & Hd' & _). congruence. Qed.

Lemma ceremony_rtc id o o' e r :
  rtc (key_step G (ceremony_path id)) o o' -> o = Some e -> from_value e.(vv_value) = Some r ->
  record_ok id r ->
  exists e' r', o' = Some e' /\ from_value e'.(vv_value) = Some r' /\ record_ok id r'
  /\ ceremony_le r r'.
Proof.
  intros Hr. revert e r. induction Hr as [o|o1 o2 o3 (e2 & -> & _ & Hg) _ IH]; intros e r -> Hd Hok.
  - exists e, r. split_and!; [done..|by left].
  - apply ceremony_rely in Hg as (r2 & Hd2 & Hok2 & _ & r1 & Hd1 & _ & Hs). cbn in Hd1.
    rewrite Hd in Hd1. injection Hd1 as <-.
    destruct (IH e2 r2 eq_refl Hd2 Hok2) as (e' & r' & -> & Hd' & Hok' & Hle).
    exists e', r'. split_and!; [done..|]. eapply ceremony_le_trans; [|done].
    by apply ceremony_succ_le.
Qed.

Lemma ceremony_at_evolves m m' id r :
  evolves m m' -> ceremony_at m id r -> exists r', ceremony_at m' id r' /\ ceremony_le r r'.
Proof.
  intros He (e & Hm & Hd & Hok).
  destruct (ceremony_rtc id _ _ e r (He (ceremony_path id)) Hm Hd Hok)
    as (e' & r' & He' & Hd' & Hok' & Hle).
  exists r'. split; [by exists e'|done].
Qed.

Lemma ceremony_appears m m' id :
  evolves m m' -> m !! ceremony_path id = None ->
  m' !! ceremony_path id = None \/ exists r, ceremony_at m' id r.
Proof.
  intros He Hm. pose proof (He (ceremony_path id)) as Hr. rewrite Hm in Hr.
  inversion Hr as [|? o ? (e & -> & _ & Hg) Hr' Hx Hy]; subst; [by left|]. right.
  apply ceremony_rely in Hg as (r & Hd & Hok & _).
  destruct (ceremony_rtc id _ _ e r Hr' eq_refl Hd Hok) as (e' & r' & He' & Hd' & Hok' & _).
  exists r', e'. done.
Qed.

(** An outcome is final. *)
Lemma terminal_evolves m m' id r :
  evolves m m' -> ceremony_at m id r -> is_Some r.(cr_terminal) -> ceremony_at m' id r.
Proof.
  intros He Hr [t Ht]. destruct (ceremony_at_evolves _ _ _ _ He Hr) as (r' & Hr' & [->|[Hn _]]);
    [done|congruence].
Qed.

(** Stored at some instant, and in the state of [m] as it is now. *)
Definition was_at m id r : Prop := exists r', ceremony_at m id r' /\ ceremony_le r r'.

Lemma was_now m m' id r : evolves m m' -> ceremony_at m id r -> was_at m' id r.
Proof. apply ceremony_at_evolves. Qed.
Lemma was_evolves m m' id r : evolves m m' -> was_at m id r -> was_at m' id r.
Proof.
  intros He (r1 & H1 & L1). destruct (ceremony_at_evolves _ _ _ _ He H1) as (r2 & H2 & L2).
  exists r2. split; [done|]. by eapply ceremony_le_trans.
Qed.

(** ** The service calls *)

Lemma wp_load_for_update id tenant participant
    (Q : result CeremonyError (CeremonyRecord * N) -> kv -> Prop) m :
  (forall m0 m' r, evolves m m0 -> evolves m0 m' -> ceremony_at m0 id r ->
     validate_identity r tenant participant = Ok tt ->
     Q (Ok (r, rev_of (m0 !! ceremony_path id))) m') ->
  (forall e m', evolves m m' -> Q (Err e) m') ->
  wp (load_for_update config id tenant participant) Q m.
Proof.
  intros Hok Herr. apply wp_qbind, wp_map_err, wp_get_versioned.
  2:{ intros e m' He m2 He2 m3 He3. apply Herr. do 2 (etrans; [done|]). done. }
  intros m0 m1 He0 He1 m2 He2. cbn [map_err]. apply wp_pure. intros m3 He3.
  match goal with |- Q ?r m3 => destruct r as [o|e] eqn:Hr end.
  2:{ apply Herr. do 3 (etrans; [done|]). done. }
  apply rbind_ok in Hr as (e & Hm0%ok_or_ok & Hr). apply rbind_ok in Hr as (r & Hd%ok_or_ok & Hr).
  apply rbind_ok in Hr as ([] & Hv & Hr). apply rbind_ok in Hr as ([] & Hi & [= <-]).
  replace (vv_mod_revision e) with (rev_of (m0 !! ceremony_path id)) by (by rewrite Hm0).
  eapply (Hok m0); [done| |by exists e|done]. do 2 (etrans; [done|]). done.
Qed.

Lemma wp_ceremony_load id (Q : result CeremonyError CeremonyRecord -> kv -> Prop) m :
  (forall m0 m' r, evolves m m0 -> evolves m0 m' -> ceremony_at m0 id r -> Q (Ok r) m') ->
  (forall e m', evolves m m' -> Q (Err e) m') ->
  wp (ceremony_load config id) Q m.
Proof.
  intros Hok Herr. apply wp_pure_q; [|by auto]. intros _ _.
  apply wp_qbind, wp_map_err, wp_kv_get.
  2:{ intros e m' He m2 He2 m3 He3. apply Herr. do 2 (etrans; [done|]). done. }
  intros m0 m1 He0 He1 m2 He2. cbn [map_err]. apply wp_pure. intros m3 He3.
  match goal with |- Q ?r m3 => destruct r as [o|e] eqn:Hr end.
  2:{ apply Herr. do 3 (etrans; [done|]). done. }
  apply rbind_ok in Hr as (v & Hm0%ok_or_ok & Hr). apply rbind_ok in Hr as (r & Hd%ok_or_ok & Hr).
  apply rbind_ok in Hr as ([] & Hv & [= <-]).
  apply fmap_Some in Hm0 as (e & Hm0 & ->).
  eapply (Hok m0); [done| |by exists e]. do 2 (etrans; [done|]). done.
Qed.

(** A compare-and-set over the ceremony that was read at [m0]. *)
Lemma wp_write_ceremony id r r' value m0 m (Q : result CeremonyError CasOutcome -> kv -> Prop) :
  may_move -> evolves m0 m -> ceremony_at m0 id r -> ceremony_succ r r' -> record_ok id r' ->
  to_value r' = Some value ->
  (forall m', evolves m m' -> was_at m' id r' -> Q (Ok Applied) m') ->
  (forall m', evolves m m' -> Q (Ok Mismatch) m') ->
  (forall e m', evolves m m' -> Q (Err e) m') ->
  wp (prog_map_err CE_Store
        (put_if_revision (ceremony_path id) value (rev_of (m0 !! ceremony_path id)))) Q m.
Proof.
  intros Hmv He (e & Hm0 & Hd & Hok) Hs Hok' Hv Happ Hmis Herr.
  pose proof (serde_roundtrip _ _ Hv) as Hd'.
  apply wp_map_err, wp_put_over; [done| | | |].
  - apply ceremony_guarantee. rewrite Hm0. exists r'. do 3 (split; [done|]). by exists r.
  - intros e' m1 m' Hv' Hm Hm' m2 Hm2. apply Happ; [by etrans|].
    eapply (was_evolves m'); [done|]. apply (was_now (<[ceremony_path id := e']> m1)); [done|].
    exists e'. rewrite lookup_insert_eq, Hv'. done.
  - intros m' Hm' m2 Hm2. apply Hmis. by etrans.
  - intros e' m' Hm' m2 Hm2. apply Herr. by etrans.
Qed.

(** The first write of a ceremony. *)
Lemma wp_new_ceremony id r value m (Q : result CeremonyError CasOutcome -> kv -> Prop) :
  record_ok id r -> r.(cr_status) = St_Pending -> may_begin r.(cr_binding) ->
  to_value r = Some value ->
  (forall m', was_at m' id r -> Q (Ok Applied) m') ->
  (forall m', evolves m m' -> Q (Ok Mismatch) m') ->
  (forall e m', Q (Err e) m') ->
  wp (prog_map_err CE_Store (put_if_revision (ceremony_path id) value 0)) Q m.
Proof.
  intros Hok Hs Hmb Hv Happ Hmis Herr. pose proof (serde_roundtrip _ _ Hv) as Hd.
  apply wp_map_err, wp_put_if_revision.
  - intros m' _ ->%cas_absent. apply ceremony_guarantee. by exists r.
  - intros m1 rev m' _ _ _ Hm' m2 Hm2. apply Happ. eapply (was_evolves m'); [done|].
    eapply was_now; [exact Hm'|]. eexists. rewrite lookup_insert_eq. done.
  - intros m1 m' Hm1 _ Hm' m2 Hm2. apply Hmis. do 2 (etrans; [done|]). done.
  - intros. apply Herr.
Qed.

(** ** The operations *)

(** A begin that was answered: the ceremony that is stored is the one the
    request describes, or was found stored with the same hashes. *)
Definition begin_post (proposal participant tenant key : string) (request : BeginApprovalRequest)
    (now : N) (res : result CeremonyError BeginApprovalResponse) m : Prop :=
  forall response, res = Ok response ->
  exists record challenge r,
    begun_record config proposal participant tenant key request now = Ok (record, challenge)
    /\ was_at m record.(cr_ceremony_id) r
    /\ r.(cr_binding_hash) = record.(cr_binding_hash)
    /\ now < r.(cr_binding).(b_expires_at_ms)
    /\ response = begin_response r challenge response.(ba_replayed)
    /\ (response.(ba_replayed) = false -> r = record).

Lemma begun_ok proposal participant tenant key request now record challenge :
  begun_record config proposal participant tenant key request now = Ok (record, challenge) ->
  record_ok record.(cr_ceremony_id) record /\ record.(cr_status) = St_Pending
  /\ record.(cr_binding).(b_created_at_ms) = now
  /\ now < record.(cr_binding).(b_expires_at_ms)
  /\ binding_hash record.(cr_binding) = Ok record.(cr_binding_hash)
  /\ record.(cr_challenge_hash) = sha256_bytes challenge
  /\ (exists secret, config_ceremony_secret config = Ok secret
       /\ derive_challenge secret record.(cr_ceremony_id) record.(cr_binding_hash) = Ok challenge).
Proof.
  unfold begun_record. intros Hb.
  apply reject_ok in Hb as [_ Hb]. do 6 (apply rbind_ok in Hb as (? & _ & Hb)).
  do 2 (apply reject_ok in Hb as [_ Hb]).
  apply rbind_ok in Hb as (expires & _ & Hb). apply rbind_ok in Hb as (rp & _ & Hb).
  apply rbind_ok in Hb as (origin & _ & Hb). apply rbind_ok in Hb as (hash & Hh & Hb).
  apply rbind_ok in Hb as (secret & Hsec & Hb). apply rbind_ok in Hb as (chal & Hchal & Hb).
  apply rbind_ok in Hb as ([] & Hok & [= <- <-]). cbn -[binding_hash derive_challenge].
  split_and!; try done; [|by exists secret].
  unfold binding_hash, binding_validate in Hh. cbn -[sha256_json validate_identifier] in Hh.
  apply rbind_ok in Hh as ([] & Hv & _). do 3 (apply rbind_ok in Hv as (? & _ & Hv)).
  apply reject_ok in Hv as [_ Hv]. apply reject_ok in Hv as [Hv _]. by reflect_bools.
Qed.

Lemma begun_binding proposal participant tenant key request now record challenge :
  begun_record config proposal participant tenant key request now = Ok (record, challenge) ->
  record.(cr_binding).(b_tenant_id) = tenant
  /\ record.(cr_binding).(b_participant_id) = participant.
Proof. unfold begun_record. intros Hb. inv_ok. done. Qed.

Lemma wp_begin proposal participant tenant key request now m :
  (forall binding, binding.(b_tenant_id) = tenant -> binding.(b_participant_id) = participant ->
     may_begin binding) ->
  wp (store_begin config proposal participant tenant key request now)
     (begin_post proposal participant tenant key request now) m.
Proof.
  intros Hmb. apply wp_pure_q; [|by intros]. intros [record challenge] Hb.
  pose proof (begun_binding _ _ _ _ _ _ _ _ Hb) as [Htenant Hpart].
  pose proof (begun_ok _ _ _ _ _ _ _ _ Hb) as (Hok & Hs & _ & Hexp & _).
  apply wp_pure_q; [|by intros]. intros value Hv%ok_or_ok.
  apply wp_qbind, (wp_new_ceremony _ record); [done|done|by apply Hmb|done| | |by intros].
  - intros m1 Hw. apply wp_pure. intros m2 Hm2 response [= <-].
    exists record, challenge, record. split_and!; try done. by eapply was_evolves.
  - intros m1 Hm1. apply wp_qbind, wp_ceremony_load; [|by intros].
    intros m0 m2 r Hm0 Hm2 Hr. apply wp_pure. intros m3 Hm3 response Hres.
    unfold begin_replay in Hres. apply reject_ok in Hres as [Hsame Hres].
    apply reject_ok in Hres as [Hlive Hres]. apply reject_ok in Hres as [_ [= <-]].
    reflect_bools.
    exists record, challenge, r. split; [done|].
    split; [eapply was_now; [|done]; by etrans|]. split_and!; try done.
    pose proof Hr as (? & _ & _ & [Hid _]%record_ok_status).
    unfold begin_response. cbn. congruence.
Qed.

(** A claim that was answered, when it started in state [mi]: the ceremony
    had its outcome, which is reported, or the claim held it at the token
    reported, and in both cases in a state not before the one it started in. *)
Definition claim_post mi id (request : ClaimRequest) (res : result CeremonyError ClaimResponse) m
  : Prop :=
  forall response, res = Ok response ->
  exists r, was_at m id r /\ (forall r0, ceremony_at mi id r0 -> ceremony_le r0 r)
  /\ validate_identity r request.(cl_tenant_id) request.(cl_participant_id) = Ok tt
  /\ response.(ca_fencing_token) = r.(cr_fencing_token)
  /\ ((exists t, completed_terminal r t /\ response.(ca_status) = St_Completed)
      \/ (r.(cr_terminal) = None /\ response.(ca_status) = St_Claimed
          /\ r.(cr_claim_id) = Some request.(cl_claim_id)
          /\ r.(cr_fencing_token) = request.(cl_fencing_token))).

Lemma terminal_completed id r t :
  record_ok id r -> r.(cr_terminal) = Some t -> completed_terminal r t.
Proof.
  intros [_ Hs]%record_ok_status Ht. unfold status_ok in Hs.
  destruct (cr_status r); [| |destruct Hs as (_ & _ & t' & Hc)|done..].
  - destruct Hs as (_ & _ & _ & Hn). congruence.
  - destruct Hs as (_ & _ & _ & Hn). congruence.
  - pose proof (proj1 Hc) as Ht'. rewrite Ht in Ht'. by injection Ht' as ->.
Qed.

(** What [claim_record] makes of a record without an outcome. *)
Lemma claim_record_ok id r claim fence now candidate replayed taken :
  record_ok id r -> r.(cr_terminal) = None -> fence <> 0 ->
  claim_record r claim fence now = Ok (candidate, replayed, taken) ->
  candidate.(cr_status) = St_Claimed /\ candidate.(cr_claim_id) = Some claim
  /\ candidate.(cr_fencing_token) = fence /\ candidate.(cr_terminal) = None
  /\ if replayed : bool then candidate = r
     else ceremony_succ r candidate /\ candidate = claimed_record r claim fence now
          /\ r.(cr_fencing_token) < fence.
Proof.
  intros [_ Hs]%record_ok_status Ht Hf Hc. unfold status_ok, claim_record in *.
  destruct (cr_status r) eqn:Hst; try done.
  - destruct Hs as (_ & H0 & _). injection Hc as <- <- <-. cbn. split_and!; try done; [|lia].
    split; [done|]. left. exists claim, fence, now. split; [lia|done].
  - apply reject_ok in Hc as [Hlt Hc]. reflect_bools.
    destruct (N.eqb_spec fence (cr_fencing_token r)) as [->|Hne].
    + case_bool_decide; [|done]. by injection Hc as <- <- <-.
    + injection Hc as <- <- <-. cbn. split_and!; try done; [|lia].
      split; [done|]. left. exists claim, fence, now. split; [lia|done].
Qed.

Lemma since_start mi m id r0 r :
  evolves mi m -> ceremony_at mi id r0 -> ceremony_at m id r -> ceremony_le r0 r.
Proof.
  intros He H0 Hr. destruct (ceremony_at_evolves _ _ _ _ He H0) as (r' & Hr' & Hle).
  by rewrite (ceremony_at_inj _ _ _ _ Hr Hr').
Qed.

Lemma wp_claim_loop mi retries id request now m :
  may_move -> evolves mi m -> request.(cl_fencing_token) <> 0 ->
  wp (claim_loop retries config id request now) (claim_post mi id request) m.
Proof.
  intros Hmv Hmi Hf. revert m Hmi.
  induction retries as [|retries IH]; intros m Hmi; cbn [claim_loop]; [by apply wp_pure|].
  apply wp_qbind, wp_load_for_update; [|by intros].
  intros m0 m1 r Hm0 Hm1 Hr Hid. pose proof Hr as (_ & _ & _ & Hok).
  assert (Hstart : forall r0, ceremony_at mi id r0 -> ceremony_le r0 r).
  { intros r0 H0. eapply since_start; [|done|done]. by etrans. }
  destruct (_ <=? _); [by apply wp_pure|].
  destruct (cr_terminal r) as [t|] eqn:Ht.
  - apply wp_pure. intros m2 Hm2 response [= <-]. exists r.
    split; [eapply was_now; [|done]; by etrans|]. do 3 (split; [done|]).
    left. exists t. pose proof (terminal_completed _ _ _ Hok Ht) as Hc.
    split; [done|]. apply Hc.
  - apply wp_pure_q; [|by intros]. intros [[candidate replayed] taken] Hc.
    apply (claim_record_ok id) in Hc as (Hst & Hcl & Hfence & Hnt & Hcand); [|done..].
    apply wp_pure_q; [|by intros]. intros [] Hok'.
    destruct replayed.
    + subst candidate. apply wp_pure. intros m2 Hm2 response [= <-]. exists r.
      split; [eapply was_now; [|done]; by etrans|]. cbn. do 3 (split; [done|]). by right.
    + destruct Hcand as (Hs & Hcand & _). apply wp_pure_q; [|by intros].
      intros value Hv%ok_or_ok. eapply wp_qbind, wp_write_ceremony; [done..| | |].
      * intros m2 Hm2 Hw. apply wp_pure. intros m3 Hm3 response [= <-]. exists candidate.
        split; [by eapply was_evolves|]. split; [|split; [|split; [done|by right]]].
        -- intros r0 H0. eapply ceremony_le_trans; [by apply Hstart|by apply ceremony_succ_le].
        -- rewrite Hcand. exact Hid.
      * intros m2 Hm2. apply IH. do 3 (etrans; [done|]). done.
      * by intros.
Qed.

Lemma wp_claim mi id request now m :
  may_move -> evolves mi m -> wp (store_claim config id request now) (claim_post mi id request) m.
Proof.
  intros Hmv Hmi. unfold store_claim. do 2 (apply wp_pure_q; [|by intros]; intros _ _).
  destruct (N.eqb_spec (cl_fencing_token request) 0); [by apply wp_pure|]. by apply wp_claim_loop.
Qed.

(** A completion that was answered: the stored outcome is the one reported;
    it was recorded for this receipt and, unless it is a replay, by the claim
    and token of the request, which are then those stored. *)
Definition complete_post id (request : CompleteVerifiedRequest) (now : N)
    (res : result CeremonyError CompleteVerifiedResponse) m : Prop :=
  forall response, res = Ok response ->
  exists r, ceremony_at m id r /\ completed_terminal r response.(co_terminal)
  /\ validate_identity r request.(cv_tenant_id) request.(cv_participant_id) = Ok tt
  /\ response.(co_status) = St_Completed
  /\ response.(co_terminal).(t_assertion_receipt_hash) = Some request.(cv_assertion_receipt_hash)
  /\ request.(cv_user_verified) = true
  /\ (response.(co_replayed) = false ->
        r.(cr_fencing_token) = request.(cv_fencing_token)
        /\ r.(cr_claim_id) = Some request.(cv_claim_id)
        /\ r.(cr_binding_hash) = request.(cv_binding_hash)
        /\ r.(cr_challenge_hash) = request.(cv_challenge_hash)
        /\ response.(co_terminal).(t_credential_id) = Some request.(cv_credential_id)
        /\ response.(co_terminal).(t_completed_at_ms) = now).

Lemma was_terminal m id r : was_at m id r -> is_Some r.(cr_terminal) -> ceremony_at m id r.
Proof. intros (r' & Hr & [->|[Hn _]]) [t Ht]; [done|congruence]. Qed.

Lemma wp_complete_loop retries id request now m :
  may_move -> request.(cv_user_verified) = true ->
  wp (complete_loop retries config id request now) (complete_post id request now) m.
Proof.
  intros Hmv Huv. revert m. induction retries as [|retries IH]; intros m; cbn [complete_loop].
  { by apply wp_pure. }
  apply wp_qbind, wp_load_for_update; [|by intros].
  intros m0 m1 r Hm0 Hm1 Hr Hid. pose proof Hr as (_ & _ & _ & Hok).
  destruct (cr_terminal r) as [t|] eqn:Ht.
  - apply wp_pure. intros m2 Hm2 response Hres. unfold complete_replay in Hres.
    destruct (bool_decide (t_outcome t = _)) eqn:Hout; [|done].
    case_bool_decide; [|done]. injection Hres as <-. exists r.
    split; [eapply terminal_evolves; [|done|by eexists]; by etrans|].
    split; [by eapply terminal_completed|]. by split_and!.
  - destruct (_ <=? _); [by apply wp_pure|].
    apply wp_pure_q; [|by intros]. intros candidate Hc.
    apply wp_pure_q; [|by intros]. intros [] Hok'.
    apply wp_pure_q; [|by intros]. intros terminal Hterm%ok_or_ok.
    apply wp_pure_q; [|by intros]. intros value Hv%ok_or_ok.
    assert (Hs : ceremony_succ r candidate) by (split; [done|]; right; by eexists _, _).
    apply complete_record_ok in Hc as (_ & Hfence & Hcl & Hbh & Hch & _ & hash & Hcand).
    eapply wp_qbind, wp_write_ceremony; [done..| | |].
    + intros m2 Hm2 Hw. apply wp_pure. intros m3 Hm3 response [= <-]. cbn.
      exists candidate. split; [apply was_terminal; [by eapply was_evolves|by eexists]|].
      split; [by eapply terminal_completed|]. subst candidate. cbn in Hterm.
      injection Hterm as <-. by split_and!.
    + intros m2 Hm2. apply IH.
    + by intros.
Qed.

Lemma wp_complete id request now m :
  may_move -> wp (store_complete config id request now) (complete_post id request now) m.
Proof.
  intros Hmv. unfold store_complete. do 6 (apply wp_pure_q; [|by intros]; intros _ _).
  destruct (cv_user_verified request) eqn:Huv; [|by apply wp_pure]. by apply wp_complete_loop.
Qed.
End rely.
