(* ===== verification/CeremonySystem.v ===== *)
(** * The governance ceremony service as a whole

    Any number of replicas serve begin, claim and complete requests
    concurrently against one key-value service, next to clients that write
    other keys, with dropped requests and failing service calls. *)
From Stdlib Require Import Ascii String.
From S2P Require Import Prelude Text Wire Samples Json Kv Interleave Model Store Keys KeyFacts.
From S2P Require Import Net CeremonyModel ProtectedState GovernanceConfig Ceremony.
From S2P Require Import CeremonySafety.

Inductive ceremony_request :=
  | Cer_begin (proposal participant tenant key : string) (request : BeginApprovalRequest)
      (now_ms : N)
  | Cer_claim (id : string) (request : ClaimRequest) (now_ms : N)
  | Cer_complete (id : string) (request : CompleteVerifiedRequest) (now_ms : N).
Inductive ceremony_answer :=
  | Ans_begun (r : result CeremonyError BeginApprovalResponse)
  | Ans_claimed (r : result CeremonyError ClaimResponse)
  | Ans_completed (r : result CeremonyError CompleteVerifiedResponse).

Section system.
Context `{Crypto, !ToVec ApprovalBinding, !ToVecLaws ApprovalBinding, !ToVec Value,
          !Serde CeremonyRecord, !SerdeLaws CeremonyRecord}.
Context {W : Type} `{!Service W, !ServiceLaws W}.
Context (settings : GovernanceConfig).
Notation client := (prog unit (option (ceremony_request * ceremony_answer))).
Notation state c := (entries c.(cf_service)).
Notation no_local_claim := (fun (_ : unit) (_ : kv) => True).

Definition serve (request : ceremony_request) : client :=
  match request with
  | Cer_begin proposal participant tenant key body now =>
      let! answer := store_begin settings proposal participant tenant key body now in
      Ret (Some (request, Ans_begun answer))
  | Cer_claim id body now =>
      let! answer := store_claim settings id body now in Ret (Some (request, Ans_claimed answer))
  | Cer_complete id body now =>
      let! answer := store_complete settings id body now in
      Ret (Some (request, Ans_completed answer))
  end.

(** A client that never writes a ceremony. *)
Fixpoint foreign {A} (p : prog unit (option A)) : Prop :=
  match p with
  | Ret a => a = None
  | Local f k => forall s, foreign (k s)
  | Get _ k => forall r, foreign (k r)
  | Put path _ _ k => (forall id, path <> ceremony_path id) /\ forall r, foreign (k r)
  end.
Definition ceremony_client (p : client) : Prop :=
  (exists request, p = serve request) \/ foreign p.
Definition reaches
    (c c' : config (S:=unit) (A:=option (ceremony_request * ceremony_answer)) (W:=W)) : Prop :=
  c.(cf_requests) = [] /\ rtc (config_step ceremony_client) c c'.

(** The change the clients keep to, when only certain ceremonies may begin,
    and those that exist move only if [may_move]. *)
Definition ceremony_rule_of (may_begin : ApprovalBinding -> Prop) (may_move : Prop)
    (path : string) (old : option Value) (new : Value) : Prop :=
  forall id, path = ceremony_path id -> ceremony_write settings may_begin may_move id old new.
Notation ceremony_rule := (ceremony_rule_of (fun _ => True) True).

Definition permitted (may_begin : ApprovalBinding -> Prop) (may_move : Prop)
    (request : ceremony_request) : Prop :=
  match request with
  | Cer_begin _ participant tenant _ _ _ =>
      forall binding, binding.(b_tenant_id) = tenant ->
      binding.(b_participant_id) = participant -> may_begin binding
  | Cer_claim _ _ _ | Cer_complete _ _ _ => may_move
  end.

Lemma ceremony_path_inj id id' : ceremony_path id = ceremony_path id' -> id = id'.
Proof. apply str_app_inj_l. Qed.

Section rule.
Context {may_begin : ApprovalBinding -> Prop} {may_move : Prop}.
Notation rule := (ceremony_rule_of may_begin may_move).

Lemma ceremony_rule_rely id old new :
  rule (ceremony_path id) old new -> ceremony_write settings may_begin may_move id old new.
Proof. intros Hr. by apply Hr. Qed.
Lemma ceremony_rule_guarantee id old new :
  ceremony_write settings may_begin may_move id old new -> rule (ceremony_path id) old new.
Proof. by intros Hw ? <-%ceremony_path_inj. Qed.

Definition answered mi (a : option (ceremony_request * ceremony_answer)) (m : kv) : Prop :=
  match a with
  | Some (Cer_begin proposal participant tenant key body now, Ans_begun r) =>
      begin_post settings proposal participant tenant key body now r m
  | Some (Cer_claim id body now, Ans_claimed r) => claim_post settings mi id body r m
  | Some (Cer_complete id body now, Ans_completed r) => complete_post settings id body now r m
  | _ => True
  end.

(** Answers stay justified while other requests run. *)
Lemma ceremony_answered_evolves mi a m m' :
  evolves rule m m' -> answered mi a m -> answered mi a m'.
Proof.
  intros He. destruct a as [[[proposal participant tenant key body now|id body now|id body now]
                             [r|r|r]]|]; cbn [answered]; try done.
  - intros Hp response Hr. destruct (Hp response Hr) as (record & chal & r0 & Hb & Hw & Hrest).
    exists record, chal, r0. split; [done|]. split; [|done].
    by eapply (was_evolves _ _ _ _ ceremony_rule_rely).
  - intros Hp response Hr. destruct (Hp response Hr) as (r0 & Hw & Hrest). exists r0.
    split; [|done]. by eapply (was_evolves _ _ _ _ ceremony_rule_rely).
  - intros Hp response Hr. destruct (Hp response Hr) as (r0 & Hw & Hc & Hrest). exists r0.
    split; [|done]. eapply (terminal_evolves _ _ _ _ ceremony_rule_rely); [done..|].
    eexists. apply Hc.
Qed.

Lemma ceremony_serve_wp mi m request :
  evolves rule mi m -> permitted may_begin may_move request ->
  wp rule no_local_claim (serve request) (answered mi) m.
Proof.
  intros He Hper.
  assert (Hret : forall (A : Type) (q : prog unit A) (tag : A -> ceremony_answer),
    wp rule no_local_claim q (fun r m' => answered mi (Some (request, tag r)) m') m ->
    wp rule no_local_claim (let! r := q in Ret (Some (request, tag r))) (answered mi) m).
  { intros A q tag Hq. apply wp_bind. eapply wp_frame; [|exact Hq].
    intros a m1 _ Ha m2 Hm2. by eapply ceremony_answered_evolves. }
  pose proof (@ceremony_rule_rely) as Hrely. pose proof (@ceremony_rule_guarantee) as Hguar.
  destruct request as [proposal participant tenant key body now|id body now|id body now];
    cbn [serve]; apply Hret.
  - by apply (wp_begin _ _ _ _ Hrely Hguar).
  - by apply (wp_claim _ _ _ _ Hrely Hguar).
  - by apply (wp_complete _ _ _ _ Hrely Hguar).
Qed.

Lemma ceremony_foreign_wp {A} (Q : option A -> kv -> Prop) m p :
  (forall m', Q None m') -> foreign p -> wp rule no_local_claim p Q m.
Proof.
  intros HQ. revert m. induction p as [a|f k IH|path k IH|path v prev k IH]; cbn; intros m Hf.
  - intros ? _; subst. apply HQ.
  - intros. split; [done|]. by apply IH.
  - intros. by apply IH.
  - destruct Hf as (Hk & Hf). intros. split; [|intros; by apply IH].
    intros _ id ->. by destruct (Hk id).
Qed.

(** A ceremony that may not have begun was there before. *)
Lemma begun_before m m' id r :
  evolves rule m m' -> ceremony_at settings m' id r -> ~ may_begin r.(cr_binding) ->
  exists r0, ceremony_at settings m id r0 /\ ceremony_le r0 r.
Proof.
  intros He Hr Hn. assert (Hsame : forall r1 r2, ceremony_le r1 r2 -> r2.(cr_binding) = r1.(cr_binding)).
  { by intros r1 r2 [->|(_ & (_ & _ & _ & Hb & _) & _)]. }
  pose proof (He (ceremony_path id)) as Hrtc.
  inversion Hrtc as [|o o1 o2 (e & -> & _ & Hg) Hr' Ho Ho']; subst.
  { exists r. split; [|by left]. destruct Hr as (e & He' & Hrest). exists e. by split; [congruence|]. }
  apply ceremony_rule_rely in Hg as (r1 & Hd & Hok & Hold).
  destruct (ceremony_rtc _ _ _ _ ceremony_rule_rely id _ _ e r1 Hr' eq_refl Hd Hok)
    as (e' & r' & He' & Hd' & Hok' & Hle).
  assert (r' = r) as -> by (eapply ceremony_at_inj; [by exists e'|done]).
  destruct (m !! ceremony_path id) as [e0|] eqn:Hm0; cbn in Hold.
  - destruct Hold as (_ & r0 & Hd0 & Hok0 & Hs). exists r0. split; [by exists e0|].
    eapply ceremony_le_trans; [by apply ceremony_succ_le|done].
  - destruct Hold as [_ Hb]. destruct Hn. by rewrite (Hsame _ _ Hle).
Qed.
(** A stored ceremony stays as it is, or something may move. *)
Lemma unmoved m m' id r :
  evolves rule m m' -> ceremony_at settings m id r -> ceremony_at settings m' id r \/ may_move.
Proof.
  intros He (e & Hm & Hrest). pose proof (He (ceremony_path id)) as Hrtc.
  inversion Hrtc as [|o o1 o2 (e1 & -> & _ & Hg) Hr' Ho Ho']; subst.
  - left. exists e. split; [congruence|done].
  - right. apply ceremony_rule_rely in Hg as (r1 & _ & _ & Hold). rewrite Hm in Hold. apply Hold.
Qed.
End rule.

Lemma ceremony_client_wp mi m p :
  evolves ceremony_rule mi m -> ceremony_client p ->
  wp ceremony_rule no_local_claim p (answered mi) m.
Proof.
  intros He [[request ->]|Hf]; [|by apply ceremony_foreign_wp].
  apply ceremony_serve_wp; [done|]. by destruct request.
Qed.

Lemma ceremony_answers c c' :
  reaches c c' ->
  evolves ceremony_rule (state c) (state c')
  /\ forall n a, (n, Ret a) ∈ c'.(cf_requests) -> answered (state c) a (state c').
Proof.
  intros [Hr Hs].
  eapply (system_safe ceremony_rule no_local_claim ceremony_client); eauto using ceremony_client_wp.
  apply list.Forall_true. auto.
Qed.

Lemma ceremony_reaches_evolves c0 c c' :
  reaches c0 c -> rtc (config_step ceremony_client) c c' ->
  evolves ceremony_rule (state c) (state c').
Proof.
  intros [Hr Hs] Hs'.
  eapply (system_evolves ceremony_rule no_local_claim ceremony_client (answered (state c0))
            (state c0)); eauto using ceremony_client_wp.
  apply list.Forall_true. auto.
Qed.


(** C13: a ceremony is completed at most once, and by a verified assertion of
    the bound credential generation: all completions of it that were ever
    answered with success, on whichever replicas, report the one outcome that
    is stored, and presented the same receipt; the credential is not the one
    being activated; and a request without user verification never succeeds,
    neither as the first completion nor as a replay of the outcome. *)
Theorem ceremony_completed_once c c' n1 n2 id q1 q2 t1 t2 a1 a2 :
  reaches c c' ->
  (n1, Ret (Some (Cer_complete id q1 t1, Ans_completed (Ok a1)))) ∈ c'.(cf_requests) ->
  (n2, Ret (Some (Cer_complete id q2 t2, Ans_completed (Ok a2)))) ∈ c'.(cf_requests) ->
  a1.(co_terminal) = a2.(co_terminal)
  /\ q1.(cv_assertion_receipt_hash) = q2.(cv_assertion_receipt_hash)
  /\ q1.(cv_user_verified) = true /\ q2.(cv_user_verified) = true
  /\ exists r, ceremony_at settings (state c') id r /\ completed_terminal r a1.(co_terminal).
Proof.
  intros [_ Hans]%ceremony_answers H1 H2.
  destruct (Hans _ _ H1 a1 eq_refl) as (r1 & Hr1 & Hc1 & _ & _ & Hq1 & Huv1 & _).
  destruct (Hans _ _ H2 a2 eq_refl) as (r2 & Hr2 & Hc2 & _ & _ & Hq2 & Huv2 & _).
  pose proof (ceremony_at_inj _ _ _ _ _ Hr1 Hr2) as <-.
  assert (Ht : co_terminal a1 = co_terminal a2).
  { pose proof (proj1 Hc1) as E1. rewrite (proj1 Hc2) in E1. by injection E1 as ->. }
  split; [done|]. split; [congruence|]. do 2 (split; [done|]). by exists r1.
Qed.

(** C15: fencing works: if at some instant of a run a ceremony is stored with
    a fencing token, then from that instant on no worker with a smaller token
    completes it, not even with a completion that was already in flight when
    that token was stored, and no claim admitted later with a smaller token
    gets it; a completion, or a later claim, at that very token is by the
    claim stored with it. Only the outcome that was recorded is still reported
    to such workers. *)
Theorem stale_worker_refused
    (c0 c c' : config (S:=unit) (A:=bool * option (ceremony_request * ceremony_answer)) (W:=W))
    id r :
  through ceremony_client c0 c c' -> ceremony_at settings (state c) id r ->
  (forall n late q now a,
     (n, Ret (late, Some (Cer_complete id q now, Ans_completed (Ok a)))) ∈ c'.(cf_requests) ->
     a.(co_replayed) = false ->
     r.(cr_fencing_token) <= q.(cv_fencing_token)
     /\ (r.(cr_fencing_token) = q.(cv_fencing_token) -> r.(cr_claim_id) = Some q.(cv_claim_id)))
  /\ (forall n q now a,
     (n, Ret (true, Some (Cer_claim id q now, Ans_claimed (Ok a)))) ∈ c'.(cf_requests) ->
     a.(ca_status) = St_Claimed ->
     r.(cr_fencing_token) <= q.(cl_fencing_token) /\ a.(ca_fencing_token) = q.(cl_fencing_token)
     /\ (r.(cr_fencing_token) = q.(cl_fencing_token) -> r.(cr_claim_id) = Some q.(cl_claim_id))).
Proof.
  intros Ht Hr.
  destruct (phases_safe ceremony_rule no_local_claim ceremony_client answered)
    with (c0:=c0) (c:=c) (c':=c') as (_ & He & Hans); [done|exact ceremony_client_wp|done| |].
  { by apply list.Forall_true. }
  split.
  - intros n late q now a Ha Hrep. destruct (Hans _ _ Ha) as [Hstart _].
    destruct (Hstart a eq_refl) as (r1 & Hr1 & _ & _ & _ & _ & _ & Hf).
    destruct (Hf Hrep) as (Hfence & Hcl & _).
    pose proof (since_start _ _ _ _ ceremony_rule_rely _ _ _ _ _ He Hr Hr1) as [->|(_ & _ & Hle & Heq)].
    + split; [lia|done].
    + split; [lia|]. intros Hf'. destruct Heq as [-> _]; [congruence|done].
  - intros n q now a Ha Hst. destruct (Hans _ _ Ha) as [_ Hlate].
    destruct (Hlate eq_refl a eq_refl)
      as (r1 & _ & Hle & _ & Hfa & [(t & _ & Hc)|(Hn & _ & Hcl & Hfence)]); [congruence|].
    destruct (Hle _ Hr) as [->|(_ & _ & Hf & Heq)].
    + split; [lia|]. split; [congruence|done].
    + split; [lia|]. split; [congruence|]. intros Hf'.
      destruct Heq as [_ [t Hterm]]; [congruence|]. congruence.
Qed.

(** What an approval binds when it was asked for at [now]. *)
Record binds_request (proposal participant tenant : string) (body : BeginApprovalRequest)
    (now : N) (binding : ApprovalBinding) : Prop := {
  binds_who : binding.(b_tenant_id) = tenant /\ binding.(b_participant_id) = participant
              /\ body.(br_org_id) = tenant /\ body.(br_participant_id) = participant
              /\ tenant ∈ settings.(gc_allowed_tenants);
  binds_proposal : binding.(b_proposal_id) = proposal
                   /\ binding.(b_canonical_proposal_hash) = body.(br_canonical_proposal_hash);
  binds_policy : binding.(b_policy_id) = body.(br_policy_id)
                 /\ binding.(b_policy_version) = body.(br_policy_version)
                 /\ binding.(b_policy_hash) = body.(br_policy_hash);
  binds_continuity : binding.(b_continuity_state) = body.(br_continuity_state)
                     /\ binding.(b_continuity_generation) = body.(br_continuity_generation);
  binds_relying_party : config_rp_id settings = Ok binding.(b_rp_id)
                        /\ config_origin settings = Ok binding.(b_origin);
  binds_credential :
    binding.(b_credential_generation) = body.(br_credential_generation)
    /\ binding.(b_activation_credential_id) = body.(br_activation_credential_id);
  binds_time : binding.(b_created_at_ms) = now
               /\ binding.(b_expires_at_ms) = now + settings.(gc_ttl_ms)
}.

Lemma begun_fields proposal participant tenant key body now record challenge :
  begun_record settings proposal participant tenant key body now = Ok (record, challenge) ->
  record.(cr_ceremony_id) = ceremony_id tenant participant proposal key
  /\ binds_request proposal participant tenant body now record.(cr_binding).
Proof.
  unfold begun_record. intros Hb. apply reject_ok in Hb as [_ Hb].
  do 6 (apply rbind_ok in Hb as (? & _ & Hb)).
  apply reject_ok in Hb as [Hwho Hb]. apply reject_ok in Hb as [Htenant Hb].
  apply rbind_ok in Hb as (expires & Hexp%ok_or_ok & Hb).
  apply rbind_ok in Hb as (rp & Hrp & Hb). apply rbind_ok in Hb as (origin & Horigin & Hb).
  apply rbind_ok in Hb as (hash & _ & Hb). apply rbind_ok in Hb as (secret & _ & Hb).
  apply rbind_ok in Hb as (chal & _ & Hb). apply rbind_ok in Hb as ([] & _ & [= <- _]).
  cbn [cr_ceremony_id cr_binding]. split; [done|]. reflect_bools.
  apply checked_add_some in Hexp as [-> _]. by constructor; cbn; split_and!.
Qed.

(** C24: an approval is bound to exactly what was asked: when begin was
    answered, the ceremony stored under the id made of the tenant, the
    participant, the proposal and the idempotency key, then and in every later
    state, whatever is in flight, binds the tenant, participant, proposal and
    proposal hash, policy, continuity state, credential generation and
    activation credential of this very request, the configured relying party
    and origin, and an expiry one ceremony lifetime after the request, unless
    SHA-256 collides; and the challenge handed out is the one derived from the
    service's secret, the ceremony and the hash of what it binds. *)
Theorem begin_binds_request c0 c c' n proposal participant tenant key body now a :
  reaches c0 c -> rtc (config_step ceremony_client) c c' ->
  (n, Ret (Some (Cer_begin proposal participant tenant key body now, Ans_begun (Ok a))))
    ∈ c.(cf_requests) ->
  exists secret r,
    a.(ba_ceremony_id) = ceremony_id tenant participant proposal key
    /\ ceremony_at settings (state c') a.(ba_ceremony_id) r
    /\ (binds_request proposal participant tenant body now r.(cr_binding) \/ sha256_collision)
    /\ config_ceremony_secret settings = Ok secret
    /\ binding_hash r.(cr_binding) = Ok r.(cr_binding_hash)
    /\ derive_challenge secret a.(ba_ceremony_id) r.(cr_binding_hash) = Ok a.(ba_challenge)
    /\ a.(ba_binding_hash) = r.(cr_binding_hash)
    /\ a.(ba_challenge_hash) = sha256_bytes a.(ba_challenge).
Proof.
  intros Hr Hs Ha. pose proof (ceremony_reaches_evolves _ _ _ Hr Hs) as He.
  destruct (ceremony_answers _ _ Hr) as [_ Hans].
  pose proof (ceremony_answered_evolves _ _ _ _ He (Hans _ _ Ha)) as Hpost.
  destruct (Hpost a eq_refl) as (record & challenge & r & Hb & (r' & Hr' & Hle) & Hh & _ & Hres & _).
  pose proof (begun_ok _ _ _ _ _ _ _ _ _ Hb)
    as (_ & _ & _ & _ & Hbh & Hch & secret & Hsec & Hchal).
  destruct (begun_fields _ _ _ _ _ _ _ _ Hb) as [Hid Hbinds].
  assert (Hsame : cr_binding_hash r' = cr_binding_hash r
                  /\ cr_challenge_hash r' = cr_challenge_hash r
                  /\ cr_ceremony_id r' = cr_ceremony_id r).
  { destruct Hle as [->|(_ & (_ & _ & Hi & Hbi & Hbh' & Hc) & _)]; done. }
  destruct Hsame as (Hsh & Hsc & Hsi).
  pose proof Hr' as (_ & _ & _ & Hok).
  pose proof (record_ok_status _ _ _ Hok) as [Hid' _].
  pose proof (record_ok_binding _ _ _ Hok) as (Hb' & chal' & secret' & Hsec' & Hd' & Hch').
  assert (secret' = secret) as -> by congruence.
  rewrite Hsh, Hh in Hd'. assert (chal' = challenge) as -> by congruence.
  rewrite Hsi in Hid'.
  exists secret, r'. rewrite Hres. cbn -[sha256_bytes ceremony_id].
  split; [congruence|]. split; [congruence|]. split.
  { unfold binding_hash in Hb', Hbh. apply rbind_ok in Hb' as (_ & _ & Hb').
    apply rbind_ok in Hbh as (_ & _ & Hbh). rewrite Hsh, Hh in Hb'.
    destruct (sha256_json_inj _ _ _ Hb' Hbh) as [->|Hcol]; [by left|by right]. }
  do 2 (split; [done|]). split; [congruence|]. split; [congruence|]. congruence.
Qed.
End system.
