(* ===== verification/CeremonyProgress.v ===== *)
(** * Ceremonies run to completion

    The functional behaviour of [begin], [claim] and [complete_verified]
    against a service that answers every request: what each transition makes
    of a valid record is valid, a matching request within the lifetime
    succeeds and is recorded, and its retry is answered with the same outcome. *)
From Stdlib Require Import Ascii String.
From S2P Require Import Prelude Text Wire Samples Json Kv Model Store Keys KeyFacts.
From S2P Require Import Net CeremonyModel ProtectedState GovernanceConfig Ceremony.
From S2P Require Import CeremonySafety.

Section transitions.
Context `{Crypto, !ToVec ApprovalBinding, !ToVec Value, !Serde CeremonyRecord}.
Context (settings : GovernanceConfig).
Implicit Types (r : CeremonyRecord) (id : string).

(** Everything but the status is checked of what no transition changes. *)
Lemma record_ok_same id r r' :
  record_ok settings id r -> same_ceremony r r' -> validate_status r' = Ok tt ->
  record_ok settings id r'.
Proof.
  unfold record_ok, validate_record_against_config, validate_integrity.
  intros Hok (Hv & Hk & Hid & Hb & Hh & Hc) Hs. rewrite Hv, Hk, Hid, Hb, Hh, Hc.
  apply rbind_ok in Hok as ([] & Hi & Hrest). rewrite rbind_ok. exists tt. split; [|exact Hrest].
  do 2 (apply rbind_ok in Hi as (? & -> & Hi); cbn [rbind]).
  do 2 (apply reject_ok in Hi as [-> Hi]).
  do 3 (apply rbind_ok in Hi as (? & -> & Hi); cbn [rbind]).
  apply reject_ok in Hi as [-> Hi]. apply rbind_ok in Hi as (? & -> & Hi); cbn [rbind].
  by apply reject_ok in Hi as [-> Hi].
Qed.

Definition within_life r (now : N) : Prop :=
  r.(cr_binding).(b_created_at_ms) <= now < r.(cr_binding).(b_expires_at_ms).

(** The claim a record carries was made by a valid identifier in its life. *)
Lemma claim_metadata_valid r claim fence claimed :
  r.(cr_claim_id) = Some claim -> r.(cr_fencing_token) = fence ->
  r.(cr_claimed_at_ms) = Some claimed ->
  validate_identifier claim "claim_id" = Ok tt -> fence <> 0 -> within_life r claimed ->
  validate_claim_metadata r = Ok tt.
Proof.
  intros Hc Hf Ht Hv Hpos [Hlo Hhi]. unfold validate_claim_metadata.
  rewrite Hc, Hf, Ht. cbn [ok_or rbind]. rewrite Hv. cbn [stored_ok map_err rbind].
  rewrite (proj2 (N.eqb_neq _ _) Hpos), (proj2 (N.ltb_ge _ _) Hlo), (proj2 (N.leb_gt _ _) Hhi).
  done.
Qed.

Lemma claimed_record_valid id r claim fence now :
  record_ok settings id r -> r.(cr_terminal) = None ->
  validate_identifier claim "claim_id" = Ok tt -> fence <> 0 -> within_life r now ->
  record_ok settings id (claimed_record r claim fence now).
Proof.
  intros Hok Ht Hv Hf Hlife. apply (record_ok_same id r); [done|done|].
  unfold validate_status. cbn [cr_status claimed_record].
  rewrite (claim_metadata_valid _ claim fence now) by done. cbn [rbind cr_terminal claimed_record].
  rewrite Ht. done.
Qed.

(** The metadata of a claimed record. *)
Lemma claimed_metadata id r :
  record_ok settings id r -> r.(cr_status) = St_Claimed ->
  validate_claim_metadata r = Ok tt /\ r.(cr_terminal) = None
  /\ exists claimed, r.(cr_claimed_at_ms) = Some claimed /\ within_life r claimed.
Proof.
  intros Hok Hst.
  pose proof (record_ok_parts _ _ _ Hok) as [_ Hs].
  unfold validate_status in Hs. rewrite Hst in Hs. apply rbind_ok in Hs as ([] & Hm & Hs).
  apply reject_ok in Hs as [Hn _]. reflect_bools. rewrite not_some_none in Hn.
  split; [done|]. split; [done|]. unfold validate_claim_metadata in Hm. inv_ok.
  eexists. split; [eassumption|]. by split.
Qed.

(** A completion request that fits a claimed record. *)
Record completion_fits r (request : CompleteVerifiedRequest) (now : N) : Prop := {
  cf_identity : validate_identity r request.(cv_tenant_id) request.(cv_participant_id) = Ok tt;
  cf_claimed : r.(cr_status) = St_Claimed;
  cf_fence : r.(cr_fencing_token) = request.(cv_fencing_token);
  cf_claim : r.(cr_claim_id) = Some request.(cv_claim_id);
  cf_claim_valid : validate_identifier request.(cv_claim_id) "claim_id" = Ok tt;
  cf_binding : r.(cr_binding_hash) = request.(cv_binding_hash);
  cf_binding_valid :
    validate_canonical_sha256_urn request.(cv_binding_hash) "binding_hash" = Ok tt;
  cf_challenge : r.(cr_challenge_hash) = request.(cv_challenge_hash);
  cf_challenge_valid :
    validate_canonical_sha256_urn request.(cv_challenge_hash) "challenge_hash" = Ok tt;
  cf_generation : r.(cr_binding).(b_credential_generation) = request.(cv_credential_generation);
  cf_credential : r.(cr_binding).(b_activation_credential_id) <> Some request.(cv_credential_id);
  cf_credential_valid : validate_identifier request.(cv_credential_id) "credential_id" = Ok tt;
  cf_receipt :
    validate_canonical_sha256_urn request.(cv_assertion_receipt_hash) "assertion_receipt_hash"
    = Ok tt;
  cf_verified : request.(cv_user_verified) = true;
  cf_after_claim : exists claimed, r.(cr_claimed_at_ms) = Some claimed /\ claimed <= now;
  cf_live : now < r.(cr_binding).(b_expires_at_ms)
}.

Lemma sha256_bytes_canonical `{!CryptoLaws} value field :
  validate_canonical_sha256_urn (sha256_bytes value) field = Ok tt.
Proof.
  unfold validate_canonical_sha256_urn, sha256_bytes.
  rewrite (proj2 (strip_prefix_app SHA256_URN_PREFIX _ _) eq_refl).
  destruct (hex_sha256_shape value) as [-> Hall]. cbn [Nat.eqb andb].
  assert (all_bytes is_lower_hex (hex_lower (sha256 value)) = true) as ->; [|done].
  eapply all_bytes_impl; [|exact Hall]. intros b Hb. unfold is_lower_hex, ascii_hexdigit.
  rewrite Hb. cbn [orb andb]. unfold lower_hex_byte in Hb.
  rewrite orb_true_iff, !andb_true_iff, !N.leb_le in Hb.
  apply negb_true_iff, andb_false_iff. rewrite !N.leb_gt. lia.
Qed.

Lemma completed_record_valid `{!CryptoLaws} id r request now hash :
  record_ok settings id r -> completion_fits r request now ->
  completed_result_hash r request.(cv_credential_id) request.(cv_credential_generation)
    request.(cv_assertion_receipt_hash) now = Ok hash ->
  complete_record r request now = Ok (completed_record r request now hash)
  /\ record_ok settings id (completed_record r request now hash).
Proof.
  intros Hok Hfit Hh. destruct Hfit.
  destruct (claimed_metadata id r) as (Hm & Ht & _); [done..|]. split.
  - unfold complete_record. rewrite cf_claimed0, cf_fence0, cf_claim0, cf_binding0, cf_challenge0,
      cf_generation0, N.ltb_irrefl, !N.eqb_refl, !String.eqb_refl, !bool_decide_true by done.
    rewrite bool_decide_false by done. cbn [negb orb]. by rewrite Hh.
  - apply (record_ok_same id r); [done|done|]. unfold validate_status, validate_completed.
    cbn [cr_status completed_record].
    assert (validate_claim_metadata (completed_record r request now hash) = Ok tt) as ->
      by exact Hm.
    cbn [rbind cr_terminal completed_record ok_or t_outcome t_reason t_assertion_receipt_hash
         t_credential_id t_credential_generation t_completed_at_ms t_result_hash cr_binding
         cr_claimed_at_ms].
    rewrite cf_credential_valid0, cf_receipt0. unfold completed_result_hash in Hh.
    destruct cf_after_claim0 as (claimed & Hc & Hle).
    assert (Hhash : validate_canonical_sha256_urn hash "result_hash" = Ok tt).
    { unfold sha256_json in Hh. apply rbind_ok in Hh as (bytes & _ & Hh).
      assert (hash = sha256_bytes bytes) as -> by congruence. apply sha256_bytes_canonical. }
    rewrite Hhash. cbn [stored_ok map_err rbind].
    rewrite (bool_decide_false _ cf_credential0), cf_generation0, N.eqb_refl, Hc.
    cbn [negb orb ok_or rbind].
    rewrite (proj2 (N.ltb_ge _ _) Hle), (proj2 (N.leb_gt _ _) cf_live0). cbn [orb].
    unfold completed_result_hash.
    change (completed_evidence (completed_record r request now hash)) with (completed_evidence r).
    rewrite Hh. cbn [rbind]. by rewrite !String.eqb_refl, bool_decide_true.
Qed.
End transitions.

(** ** Requests that run alone *)

Section solo.
Context `{CryptoLaws, !ToVec ApprovalBinding, !ToVecLaws ApprovalBinding, !ToVec Value,
          !Serde CeremonyRecord, !SerdeLaws CeremonyRecord}.
Context (settings : GovernanceConfig).
(** Serialization does not fail. *)
Context (record_serializes : forall r : CeremonyRecord, is_Some (to_value r)).
Implicit Types (w : mapkv) (r : CeremonyRecord) (id : string).
Notation stored w id r := (ceremony_at settings (mk_entries w) id r).

Lemma record_ok_id id r : record_ok settings id r -> validate_ceremony_id id = Ok tt.
Proof.
  unfold record_ok, validate_record_against_config, validate_integrity. intros Hr.
  apply rbind_ok in Hr as ([] & Hi & _). apply rbind_ok in Hi as ([] & Hid & _).
  by apply map_err_ok in Hid.
Qed.

Lemma run_load_for_update w id r tenant participant :
  stored w id r -> validate_identity r tenant participant = Ok tt ->
  run (load_for_update settings id tenant participant) w tt
  = (Ok (r, rev_of (mk_entries w !! ceremony_path id)), w, tt).
Proof.
  intros (e & He & Hd & Hok) Hid. unfold load_for_update, prog_map_err, get_versioned.
  rewrite run_qbind, run_pbind. cbn -[ceremony_path]. unfold mapkv_get. rewrite He.
  cbn -[validate_record_against_config validate_identity]. rewrite Hd.
  cbn -[validate_record_against_config validate_identity]. unfold record_ok in Hok.
  rewrite Hok. cbn [rbind]. by rewrite Hid.
Qed.


Lemma run_ceremony_put w path value prev :
  revisions_positive w -> prev = rev_of (mk_entries w !! path) ->
  run (prog_map_err CE_Store (put_if_revision path value prev)) w tt
  = (Ok Applied, written w path value, tt).
Proof. intros Hp ->. unfold prog_map_err. by rewrite run_pbind, run_put. Qed.

Lemma stored_written w id r value :
  record_ok settings id r -> to_value r = Some value ->
  stored (written w (ceremony_path id) value) id r.
Proof.
  intros Hok Hv. eexists. cbn. rewrite lookup_insert_eq. split; [done|].
  split; [by apply serde_roundtrip|done].
Qed.

(** [begin] with a new identity stores the record and hands out its challenge. *)
Lemma run_begin_new proposal participant tenant key request now w record challenge :
  begun_record settings proposal participant tenant key request now = Ok (record, challenge) ->
  mk_entries w !! ceremony_path record.(cr_ceremony_id) = None -> revisions_positive w ->
  exists w',
    run (store_begin settings proposal participant tenant key request now) w tt
    = (Ok (begin_response record challenge false), w', tt)
    /\ stored w' record.(cr_ceremony_id) record
    /\ (mk_next w <> 0 -> mk_next w' <> 0 /\ revisions_positive w').
Proof.
  intros Hb Hn Hp. pose proof (begun_ok _ _ _ _ _ _ _ _ _ Hb) as (Hok & _).
  destruct (record_serializes record) as [value Hv].
  exists (written w (ceremony_path (cr_ceremony_id record)) value).
  split; [|split; [by apply stored_written|]].
  - unfold store_begin. rewrite run_pure_q, Hb, run_pure_q, Hv. cbn [ok_or].
    rewrite run_qbind, run_ceremony_put; [done|done|]. by rewrite Hn.
  - intros Hnext. split; [cbn; lia|by apply written_positive].
Qed.



Context (evidence_serializes : forall v : Value, is_Some (to_vec v)).

(** [claim] with a token above the one stored takes the ceremony. *)
Lemma run_claim_new w id r request now :
  stored w id r -> r.(cr_terminal) = None -> within_life r now ->
  validate_identity r request.(cl_tenant_id) request.(cl_participant_id) = Ok tt ->
  validate_identifier request.(cl_claim_id) "claim_id" = Ok tt ->
  r.(cr_fencing_token) < request.(cl_fencing_token) -> revisions_positive w ->
  exists w',
    run (store_claim settings id request now) w tt
    = (Ok (claim_response id St_Claimed request.(cl_fencing_token) false
             (bool_decide (r.(cr_status) = St_Claimed))), w', tt)
    /\ stored w' id (claimed_record r request.(cl_claim_id) request.(cl_fencing_token) now)
    /\ (mk_next w <> 0 -> mk_next w' <> 0 /\ revisions_positive w').
Proof.
  intros Hr Ht Hlife Hid Hcl Hlt Hp. pose proof Hr as (_ & _ & _ & Hok).
  set (r' := claimed_record r (cl_claim_id request) (cl_fencing_token request) now).
  assert (Hf : cl_fencing_token request <> 0) by lia.
  assert (Hok' : record_ok settings id r') by (by apply claimed_record_valid).
  destruct (record_serializes r') as [value Hv]. exists (written w (ceremony_path id) value).
  split; [|split; [by apply stored_written|]].
  2:{ intros Hnext. split; [cbn; lia|by apply written_positive]. }
  assert (Hclaim : claim_record r (cl_claim_id request) (cl_fencing_token request) now
                   = Ok (r', false, bool_decide (cr_status r = St_Claimed))).
  { unfold claim_record. apply record_ok_status in Hok as [_ Hs]. unfold status_ok in Hs.
    destruct (cr_status r); [done| | |done..].
    - rewrite (proj2 (N.ltb_ge _ _)), (proj2 (N.eqb_neq _ _)) by lia. done.
    - destruct Hs as (_ & _ & t & Hc & _). congruence. }
  unfold store_claim. rewrite run_pure_q, (record_ok_id _ _ Hok), run_pure_q, Hcl.
  rewrite (proj2 (N.eqb_neq _ _) Hf). unfold MAX_CAS_ATTEMPTS. cbn [claim_loop].
  rewrite run_qbind, (run_load_for_update _ _ r) by done.
  rewrite (proj2 (N.leb_gt _ _) (proj2 Hlife)), Ht, run_pure_q, Hclaim, run_pure_q.
  unfold record_ok in Hok'. rewrite Hok', run_pure_q, Hv. cbn [ok_or].
  by rewrite run_qbind, run_ceremony_put.
Qed.

(** [complete_verified] on the claim's own token records the outcome. *)
Lemma run_complete_new w id r request now :
  stored w id r -> completion_fits r request now -> revisions_positive w ->
  exists terminal w' r',
    run (store_complete settings id request now) w tt
    = (Ok {| co_ceremony_id := id; co_status := St_Completed; co_terminal := terminal;
             co_replayed := false |}, w', tt)
    /\ stored w' id r' /\ completed_terminal r' terminal /\ same_ceremony r r'
    /\ terminal.(t_assertion_receipt_hash) = Some request.(cv_assertion_receipt_hash).
Proof.
  intros Hr Hfit Hp. pose proof Hr as (_ & _ & _ & Hok).
  destruct (evidence_serializes (completed_evidence r (cv_credential_id request)
    (cv_credential_generation request) (cv_assertion_receipt_hash request) now)) as [bytes Hbytes].
  destruct (completed_record_valid settings id r request now (sha256_bytes bytes)) as [Hc Hok'];
    [done|done| |].
  { unfold completed_result_hash, sha256_json. by rewrite Hbytes. }
  set (r' := completed_record r request now (sha256_bytes bytes)) in *.
  destruct (record_serializes r') as [value Hv].
  destruct (cr_terminal r') as [terminal|] eqn:Ht; [|done].
  exists terminal, (written w (ceremony_path id) value), r'.
  destruct (claimed_metadata settings id r) as (_ & Hn & _); [done|apply Hfit|].
  split; [|split; [by apply stored_written|split; [by eapply terminal_completed|split; [done|]]]].
  2:{ by injection Ht as <-. }
  destruct Hfit. unfold store_complete.
  rewrite run_pure_q, (record_ok_id _ _ Hok), run_pure_q, cf_claim_valid0, run_pure_q,
    cf_credential_valid0, run_pure_q, cf_binding_valid0, run_pure_q, cf_challenge_valid0,
    run_pure_q, cf_receipt0, cf_verified0.
  cbn [negb]. unfold MAX_CAS_ATTEMPTS. cbn [complete_loop].
  rewrite run_qbind, (run_load_for_update _ _ r) by done.
  rewrite Hn, (proj2 (N.leb_gt _ _) cf_live0), run_pure_q, Hc, run_pure_q.
  unfold record_ok in Hok'. rewrite Hok', run_pure_q, Ht. cbn [ok_or].
  rewrite run_pure_q, Hv. cbn [ok_or]. by rewrite run_qbind, run_ceremony_put.
Qed.

(** A retry of the completion, at any time, is answered with the outcome. *)
Lemma run_complete_again w id r terminal request now :
  stored w id r -> completed_terminal r terminal ->
  validate_identity r request.(cv_tenant_id) request.(cv_participant_id) = Ok tt ->
  validate_identifier request.(cv_claim_id) "claim_id" = Ok tt ->
  validate_identifier request.(cv_credential_id) "credential_id" = Ok tt ->
  validate_canonical_sha256_urn request.(cv_binding_hash) "binding_hash" = Ok tt ->
  validate_canonical_sha256_urn request.(cv_challenge_hash) "challenge_hash" = Ok tt ->
  validate_canonical_sha256_urn request.(cv_assertion_receipt_hash) "assertion_receipt_hash"
  = Ok tt ->
  request.(cv_user_verified) = true ->
  terminal.(t_assertion_receipt_hash) = Some request.(cv_assertion_receipt_hash) ->
  run (store_complete settings id request now) w tt
  = (Ok {| co_ceremony_id := id; co_status := St_Completed; co_terminal := terminal;
           co_replayed := true |}, w, tt).
Proof.
  intros Hr (Ht & Hout & _) Hid Hcl Hcr Hb Hch Hre Huv Hsame. pose proof Hr as (_ & _ & _ & Hok).
  unfold store_complete.
  rewrite run_pure_q, (record_ok_id _ _ Hok), run_pure_q, Hcl, run_pure_q, Hcr, run_pure_q, Hb,
    run_pure_q, Hch, run_pure_q, Hre, Huv.
  cbn [negb]. unfold MAX_CAS_ATTEMPTS. cbn [complete_loop].
  rewrite run_qbind, (run_load_for_update _ _ r) by done. rewrite Ht.
  unfold complete_replay. by rewrite Hout, Hsame, !bool_decide_true.
Qed.
(** C26: an approval can be carried through: a begin whose inputs pass, against
    a service that answers, is answered with its challenge; a claim made by
    the bound participant within the lifetime takes the ceremony at its token;
    a completion that fits that claim is recorded; and the same completion
    sent again, at any later time, is answered with the recorded outcome. *)
Theorem approval_completes proposal participant tenant key request now0 record challenge
    claim now1 complete now2 w :
  begun_record settings proposal participant tenant key request now0 = Ok (record, challenge) ->
  mk_entries w !! ceremony_path record.(cr_ceremony_id) = None ->
  revisions_positive w -> mk_next w <> 0 ->
  validate_identity record claim.(cl_tenant_id) claim.(cl_participant_id) = Ok tt ->
  validate_identifier claim.(cl_claim_id) "claim_id" = Ok tt ->
  claim.(cl_fencing_token) <> 0 -> within_life record now1 ->
  completion_fits (claimed_record record claim.(cl_claim_id) claim.(cl_fencing_token) now1)
    complete now2 ->
  let id := record.(cr_ceremony_id) in
  let outcome terminal replayed :=
    Ok {| co_ceremony_id := id; co_status := St_Completed; co_terminal := terminal;
          co_replayed := replayed |} in
  exists w1 w2 w3 terminal,
    run (store_begin settings proposal participant tenant key request now0) w tt
      = (Ok (begin_response record challenge false), w1, tt)
    /\ run (store_claim settings id claim now1) w1 tt
      = (Ok (claim_response id St_Claimed claim.(cl_fencing_token) false false), w2, tt)
    /\ run (store_complete settings id complete now2) w2 tt = (outcome terminal false, w3, tt)
    /\ terminal.(t_assertion_receipt_hash) = Some complete.(cv_assertion_receipt_hash)
    /\ forall later,
        run (store_complete settings id complete later) w3 tt = (outcome terminal true, w3, tt).
Proof.
  intros Hb Hn Hp Hnext Hid Hcl Hf Hlife Hfit id outcome.
  pose proof (begun_ok _ _ _ _ _ _ _ _ _ Hb) as (Hok & Hst & _).
  pose proof (record_ok_status _ _ _ Hok) as [_ Hs]. unfold status_ok in Hs. rewrite Hst in Hs.
  destruct Hs as (_ & Hfence & _ & Hterm).
  destruct (run_begin_new _ _ _ _ _ _ _ _ _ Hb Hn Hp) as (w1 & Hrun1 & Hr1 & Hw1).
  destruct Hw1 as [Hnext1 Hp1]; [done|].
  destruct (run_claim_new w1 id record claim now1) as (w2 & Hrun2 & Hr2 & Hw2); try done; [lia|].
  destruct Hw2 as [Hnext2 Hp2]; [done|]. rewrite Hst in Hrun2.
  destruct (run_complete_new w2 id _ complete now2 Hr2 Hfit Hp2)
    as (terminal & w3 & r3 & Hrun3 & Hr3 & Hc3 & (_ & _ & _ & Hbind & _) & Hreceipt).
  exists w1, w2, w3, terminal. do 4 (split; [done|]). intros later. destruct Hfit.
  apply (run_complete_again _ _ r3); try done.
  unfold validate_identity in *. by rewrite Hbind.
Qed.

End solo.
