(* ===== verification/CeremonyRun.v ===== *)
(** * Ceremonies: concrete runs

    JSON renderings of the ceremony's records, a parser of key lists and of
    one URL, and an environment that is accepted: the theorems of the
    ceremony evaluated on an approval from its begin to its completion. *)
From Stdlib Require Import Ascii String.
From S2P Require Import Prelude Text Wire Samples Json Token Kv Interleave Ledger SampleCodecs Model Store.
From S2P Require Import Keys KeyFacts KeyRun Net CeremonyModel ProtectedState ProtectedRun.
From S2P Require Import GovernanceConfig Ceremony CeremonySafety CeremonySystem CeremonyProgress.

(** ** Serializers *)

Definition option_parts (o : option string) : list string :=
  match o with
  | Some s => ["1"; s]
  | None => ["0"; ""]
  end.
#[export] Instance binding_to_vec : ToVec ApprovalBinding := fun b =>
  render ([b.(b_tenant_id); b.(b_participant_id); b.(b_proposal_id);
           b.(b_canonical_proposal_hash); b.(b_policy_id); decimal b.(b_policy_version);
           b.(b_policy_hash); b.(b_continuity_state); decimal b.(b_continuity_generation);
           b.(b_rp_id); b.(b_origin); decimal b.(b_credential_generation);
           decimal b.(b_created_at_ms); decimal b.(b_expires_at_ms)]
          ++ option_parts b.(b_activation_credential_id)).
#[export] Instance binding_to_vec_laws : ToVecLaws ApprovalBinding.
Proof.
  split.
  - intros a b v Ha Hb. pose proof (render_inj _ _ _ Ha Hb) as Heq.
    destruct a as [? ? ? ? ? ? ? ? ? ? ? ? o1 ? ?], b as [? ? ? ? ? ? ? ? ? ? ? ? o2 ? ?].
    cbn in Heq. injection Heq as -> -> -> -> -> ->%decimal_inj -> -> ->%decimal_inj -> ->
      ->%decimal_inj ->%decimal_inj ->%decimal_inj Ho.
    by destruct o1, o2; cbn in Ho; simplify_eq.
  - intros a v. apply render_fits.
Qed.

(** A text for flat objects, enough to tell completed ceremonies apart. *)
Definition member_text (v : Value) : string :=
  match v with
  | Str s => s
  | Num (PosInt n) => decimal n
  | Bool true => "true"
  | _ => ""
  end.
#[export] Instance value_to_vec : ToVec Value := fun v =>
  match v with
  | Object members => Some (framed (member_text <$> (snd <$> members)))
  | _ => Some ""%string
  end.

Definition status_text (s : CeremonyStatus) : string :=
  match s with
  | St_Pending => "pending"
  | St_Claimed => "claimed"
  | St_Completed => "completed"
  | St_Rejected => "rejected"
  | St_Expired => "expired"
  end.
Definition status_of_text (s : string) : option CeremonyStatus :=
  if (s =? "pending")%string then Some St_Pending
  else if (s =? "claimed")%string then Some St_Claimed
  else if (s =? "completed")%string then Some St_Completed
  else if (s =? "rejected")%string then Some St_Rejected
  else if (s =? "expired")%string then Some St_Expired
  else None.

Definition binding_value (b : ApprovalBinding) : Value :=
  Object [("tenant_id", Str b.(b_tenant_id)); ("participant_id", Str b.(b_participant_id));
          ("proposal_id", Str b.(b_proposal_id));
          ("canonical_proposal_hash", Str b.(b_canonical_proposal_hash));
          ("policy_id", Str b.(b_policy_id)); ("policy_version", num b.(b_policy_version));
          ("policy_hash", Str b.(b_policy_hash)); ("continuity_state", Str b.(b_continuity_state));
          ("continuity_generation", num b.(b_continuity_generation)); ("rp_id", Str b.(b_rp_id));
          ("origin", Str b.(b_origin)); ("credential_generation", num b.(b_credential_generation));
          ("activation_credential_id", opt_value Str b.(b_activation_credential_id));
          ("created_at_ms", num b.(b_created_at_ms)); ("expires_at_ms", num b.(b_expires_at_ms))].
Definition binding_of (v : Value) : option ApprovalBinding :=
  tenant ← get_str v "tenant_id"; participant ← get_str v "participant_id";
  proposal ← get_str v "proposal_id"; hash ← get_str v "canonical_proposal_hash";
  policy ← get_str v "policy_id"; version ← get_u64 v "policy_version";
  policy_hash ← get_str v "policy_hash"; continuity ← get_str v "continuity_state";
  generation ← get_u64 v "continuity_generation"; rp ← get_str v "rp_id";
  origin ← get_str v "origin"; credential ← get_u64 v "credential_generation";
  activation ← get_opt v "activation_credential_id" as_str;
  created ← get_u64 v "created_at_ms"; expires ← get_u64 v "expires_at_ms";
  Some {| b_tenant_id := tenant; b_participant_id := participant; b_proposal_id := proposal;
          b_canonical_proposal_hash := hash; b_policy_id := policy; b_policy_version := version;
          b_policy_hash := policy_hash; b_continuity_state := continuity;
          b_continuity_generation := generation; b_rp_id := rp; b_origin := origin;
          b_credential_generation := credential; b_activation_credential_id := activation;
          b_created_at_ms := created; b_expires_at_ms := expires |}.

Definition terminal_value (t : TerminalVerification) : Value :=
  Object [("outcome", Str (status_text t.(t_outcome))); ("reason", Str t.(t_reason));
          ("assertion_receipt_hash", opt_value Str t.(t_assertion_receipt_hash));
          ("credential_id", opt_value Str t.(t_credential_id));
          ("credential_generation", opt_value num t.(t_credential_generation));
          ("completed_at_ms", num t.(t_completed_at_ms)); ("result_hash", Str t.(t_result_hash))].
Definition terminal_of (v : Value) : option TerminalVerification :=
  outcome ← get_str v "outcome" ≫= status_of_text; reason ← get_str v "reason";
  receipt ← get_opt v "assertion_receipt_hash" as_str;
  credential ← get_opt v "credential_id" as_str;
  generation ← get_opt v "credential_generation" as_u64;
  completed ← get_u64 v "completed_at_ms"; hash ← get_str v "result_hash";
  Some {| t_outcome := outcome; t_reason := reason; t_assertion_receipt_hash := receipt;
          t_credential_id := credential; t_credential_generation := generation;
          t_completed_at_ms := completed; t_result_hash := hash |}.

Definition record_json (r : CeremonyRecord) : Value :=
  Object [("contract_version", Str r.(cr_contract_version)); ("object_kind", Str r.(cr_object_kind));
          ("ceremony_id", Str r.(cr_ceremony_id)); ("binding", binding_value r.(cr_binding));
          ("binding_hash", Str r.(cr_binding_hash)); ("challenge_hash", Str r.(cr_challenge_hash));
          ("status", Str (status_text r.(cr_status))); ("claim_id", opt_value Str r.(cr_claim_id));
          ("fencing_token", num r.(cr_fencing_token));
          ("claimed_at_ms", opt_value num r.(cr_claimed_at_ms));
          ("terminal", opt_value terminal_value r.(cr_terminal))].
Definition record_of_json (v : Value) : option CeremonyRecord :=
  version ← get_str v "contract_version"; kind ← get_str v "object_kind";
  id ← get_str v "ceremony_id"; binding ← value_get v "binding" ≫= binding_of;
  binding_hash ← get_str v "binding_hash"; challenge_hash ← get_str v "challenge_hash";
  status ← get_str v "status" ≫= status_of_text; claim ← get_opt v "claim_id" as_str;
  fence ← get_u64 v "fencing_token"; claimed ← get_opt v "claimed_at_ms" as_u64;
  terminal ← get_opt v "terminal" terminal_of;
  Some {| cr_contract_version := version; cr_object_kind := kind; cr_ceremony_id := id;
          cr_binding := binding; cr_binding_hash := binding_hash;
          cr_challenge_hash := challenge_hash; cr_status := status; cr_claim_id := claim;
          cr_fencing_token := fence; cr_claimed_at_ms := claimed; cr_terminal := terminal |}.

Lemma status_roundtrip s : status_of_text (status_text s) = Some s.
Proof. by destruct s. Qed.
Lemma binding_roundtrip b : binding_of (binding_value b) = Some b.
Proof. by destruct b as [? ? ? ? ? ? ? ? ? ? ? ? [] ? ?]. Qed.
Lemma terminal_roundtrip t : terminal_of (terminal_value t) = Some t.
Proof. by destruct t as [[] ? [] [] [] ? ?]. Qed.

#[export] Instance record_serde : Serde CeremonyRecord := {
  to_value r := Some (record_json r);
  from_value := record_of_json
}.
#[export] Instance record_serde_laws : SerdeLaws CeremonyRecord.
Proof.
  split. intros [? ? ? b ? ? s c ? m t] ? [= <-]. unfold from_value, record_serde.
  unfold record_of_json, record_json, get_opt.
  cbn -[binding_of binding_value terminal_of terminal_value status_of_text status_text].
  rewrite binding_roundtrip. cbn -[terminal_of terminal_value status_of_text status_text].
  rewrite status_roundtrip. cbn -[terminal_of terminal_value].
  destruct t as [t|]; [|by destruct c, m].
  pose proof (terminal_roundtrip t) as Ht. unfold terminal_value in *. cbn -[terminal_of] in *.
  destruct c, m; cbn -[terminal_of]; by rewrite Ht.
Qed.

(** ** An accepted environment *)

(** Key lists written [id=key;id=key]. *)
#[export] Instance pair_list_keys : KeysJson := fun s =>
  mapM (M:=option) (fun part => split_once "=" part) (split_on ";" s).
(** One origin. *)
Definition sample_origin : string := "https://auth.example.org".
#[export] Instance sample_urls : UrlParse := fun s =>
  if (s =? sample_origin)%string
  then Some {| url_scheme := "https"; url_username := ""; url_password := None;
               url_host_str := Some "auth.example.org"%string; url_path := "/";
               url_query := None; url_fragment := None |}
  else None.

Definition sample_env (name : string) : option string :=
  let named (n : string) := (name =? n)%string in
  if named "FIDUCIA_GOVERNANCE_WEBAUTHN_ENABLED" then Some "true"
  else if named "FIDUCIA_GOVERNANCE_RP_ID" then Some "example.org"
  else if named "FIDUCIA_GOVERNANCE_ORIGIN" then Some sample_origin
  else if named "FIDUCIA_GOVERNANCE_TENANTS" then Some "tenant, acme"
  else if named "FIDUCIA_GOVERNANCE_CEREMONY_SECRET" then Some "ceremony-secret-of-at-least-32-bytes"
  else if named "FIDUCIA_GOVERNANCE_VERIFIER_SECRET" then Some "verifier-secret-of-at-least-32-bytes"
  else if named "FIDUCIA_GOVERNANCE_STATE_ACTIVE_KEY_ID" then Some "k1"
  else if named "FIDUCIA_GOVERNANCE_STATE_KEYRING_VERSION" then Some "1"
  else if named "FIDUCIA_GOVERNANCE_STATE_KEYS_JSON"
  then Some ("k1=" +:+ key_text "a" +:+ ";k2=" +:+ key_text "b")
  else None.
Definition disabled_config : GovernanceConfig :=
  {| gc_enabled := false; gc_rp_id := None; gc_origin := None; gc_allowed_tenants := ∅;
     gc_ttl_ms := 300000; gc_ceremony_secret := None; gc_verifier_secret := None;
     gc_protected_state_codec := None |}.
Definition sample_config : GovernanceConfig :=
  match governance_from_env false sample_env with
  | Ok config => config
  | Err _ => disabled_config
  end.
Lemma sample_config_ok : governance_from_env false sample_env = Ok sample_config.
Proof. vm_compute. reflexivity. Qed.

Lemma governance_config_safe_witness :
  sample_config.(gc_enabled) = true /\ sample_config.(gc_allowed_tenants) <> ∅.
Proof.
  assert (He : sample_config.(gc_enabled) = true) by (vm_compute; reflexivity).
  split; [exact He|].
  exact (proj1 (proj2 (proj2 (proj2 (governance_config_safe false sample_env sample_config
                                       sample_config_ok)) He))).
Defined.

(** ** An approval *)

Definition sample_begin : BeginApprovalRequest :=
  {| br_org_id := "tenant"; br_participant_id := "alice";
     br_canonical_proposal_hash := sha256_bytes "proposal"; br_policy_id := "policy";
     br_policy_version := 3; br_policy_hash := sha256_bytes "policy";
     br_continuity_state := "active"; br_continuity_generation := 0;
     br_credential_generation := 2; br_activation_credential_id := Some "new-passkey"%string |}.
Definition sample_begun (now : N) : result CeremonyError (CeremonyRecord * string) :=
  begun_record sample_config "proposal-1" "alice" "tenant" "idempotency-key-1" sample_begin now.
Definition begun_at (now : N) : CeremonyRecord * string :=
  match sample_begun now with
  | Ok begun => begun
  | Err _ =>
      ({| cr_contract_version := ""; cr_object_kind := ""; cr_ceremony_id := "";
          cr_binding := {| b_tenant_id := ""; b_participant_id := ""; b_proposal_id := "";
                           b_canonical_proposal_hash := ""; b_policy_id := "";
                           b_policy_version := 0; b_policy_hash := ""; b_continuity_state := "";
                           b_continuity_generation := 0; b_rp_id := ""; b_origin := "";
                           b_credential_generation := 0; b_activation_credential_id := None;
                           b_created_at_ms := 0; b_expires_at_ms := 0 |};
          cr_binding_hash := ""; cr_challenge_hash := ""; cr_status := St_Pending;
          cr_claim_id := None; cr_fencing_token := 0; cr_claimed_at_ms := None;
          cr_terminal := None |}, ""%string)
  end.
Definition ceremony1 : CeremonyRecord := fst (begun_at 1000).
Definition id1 : string := ceremony1.(cr_ceremony_id).
Definition sample_claim (claim : string) (fence : N) : ClaimRequest :=
  {| cl_tenant_id := "tenant"; cl_participant_id := "alice"; cl_claim_id := claim;
     cl_fencing_token := fence |}.
Definition sample_complete (claim : string) (fence : N) : CompleteVerifiedRequest :=
  {| cv_tenant_id := "tenant"; cv_participant_id := "alice"; cv_claim_id := claim;
     cv_fencing_token := fence; cv_binding_hash := ceremony1.(cr_binding_hash);
     cv_challenge_hash := ceremony1.(cr_challenge_hash); cv_credential_id := "old-passkey";
     cv_credential_generation := 2; cv_assertion_receipt_hash := sha256_bytes "receipt";
     cv_user_verified := true |}.

Definition begin_request (now : N) : ceremony_request :=
  Cer_begin "proposal-1" "alice" "tenant" "idempotency-key-1" sample_begin now.
Definition served (request : ceremony_request) (w : mapkv)
  : option (ceremony_request * ceremony_answer) * mapkv :=
  fst (run (serve sample_config request) w tt).
Definition cw1 : mapkv := snd (served (begin_request 1000) mapkv_empty).
Definition cw2 : mapkv := snd (served (Cer_claim id1 (sample_claim "worker-a" 1) 2000) cw1).
Definition cw3 : mapkv := snd (served (Cer_claim id1 (sample_claim "worker-b" 2) 3000) cw2).
Definition cw4 : mapkv := snd (served (Cer_complete id1 (sample_complete "worker-b" 2) 4000) cw3).

Definition completion_answer (a : option (ceremony_request * ceremony_answer))
  : option (result CeremonyError (bool * N)) :=
  match a with
  | Some (_, Ans_completed (Ok r)) =>
      Some (Ok (r.(co_replayed), r.(co_terminal).(t_completed_at_ms)))
  | Some (_, Ans_completed (Err e)) => Some (Err e)
  | _ => None
  end.

(** A worker that lost the ceremony to another is refused; the other
    completes it; its retry is answered with the recorded outcome, a
    different completion is a conflict, and a begin at another time too. *)
Example approval_run :
  completion_answer (fst (served (Cer_complete id1 (sample_complete "worker-a" 1) 3500) cw3))
    = Some (Err CE_StaleFencing)
  /\ completion_answer (fst (served (Cer_complete id1 (sample_complete "worker-b" 2) 4000) cw3))
    = Some (Ok (false, 4000))
  /\ completion_answer (fst (served (Cer_complete id1 (sample_complete "worker-b" 2) 900000) cw4))
    = Some (Ok (true, 4000))
  /\ fst (served (begin_request 1001) cw1)
    = Some (begin_request 1001, Ans_begun (Err CE_Conflict)).
Proof. vm_compute. split_and!; reflexivity. Qed.

Notation ceremony_config w rs := (@Build_config unit (option (ceremony_request * ceremony_answer))
                                    mapkv w [tt] rs).
Lemma served_reaches request w a :
  mapkv_wf w -> fst (served request w) = a ->
  mapkv_wf (snd (served request w))
  /\ reaches sample_config (ceremony_config w [])
       (ceremony_config (snd (served request w)) [(0%nat, Ret a)]).
Proof.
  unfold served. intros Hwf.
  destruct (run (serve sample_config request) w tt) as [[a' w'] []] eqn:Hrun.
  cbn [fst snd]. intros <-. split; [by eapply run_wf|]. split; [done|]. eapply rtc_l.
  - apply (config_arrive (ceremony_client sample_config) w [tt] [] 0 (serve sample_config request)).
    left. by exists request.
  - by apply run_steps.
Qed.
Lemma cw1_wf : mapkv_wf cw1.
Proof. apply (served_reaches _ _ _ mapkv_empty_wf eq_refl). Qed.
Lemma cw2_wf : mapkv_wf cw2.
Proof. apply (served_reaches _ _ _ cw1_wf eq_refl). Qed.
Lemma cw3_wf : mapkv_wf cw3.
Proof. apply (served_reaches _ _ _ cw2_wf eq_refl). Qed.

Definition ceremony_in (settings : GovernanceConfig) (id : string) (w : mapkv)
  : option CeremonyRecord :=
  match value_of (mk_entries w !! ceremony_path id) with
  | Some v =>
      match from_value v with
      | Some r => if is_ok (validate_record_against_config r settings id) then Some r else None
      | None => None
      end
  | None => None
  end.
Lemma ceremony_in_at settings id w r :
  ceremony_in settings id w = Some r -> ceremony_at settings (mk_entries w) id r.
Proof.
  unfold ceremony_in, ceremony_at, record_ok. destruct (mk_entries w !! _) as [e|]; [|done].
  cbn [value_of fmap option_fmap option_map]. intros Hr. exists e. split; [done|].
  destruct (from_value (vv_value e)) as [r'|]; [|done].
  destruct (validate_record_against_config r' settings id) as [[]|] eqn:Hv; cbn [is_ok] in Hr;
    [|done].
  apply (inj Some) in Hr as <-. done.
Qed.
Definition claimed_b : CeremonyRecord :=
  claimed_record (claimed_record ceremony1 "worker-a" 1 2000) "worker-b" 2 3000.
Lemma claimed_b_stored : ceremony_at sample_config (mk_entries cw3) id1 claimed_b.
Proof. apply ceremony_in_at. vm_compute. reflexivity. Qed.

(** Two workers claim at once: the first has loaded the pending ceremony when
    the second one's claim commits with a larger token, and is then refused. *)
Notation ceremony_replica :=
  (replica (S:=unit) (A:=option (ceremony_request * ceremony_answer))).
Definition claims : list ceremony_request :=
  [Cer_claim id1 (sample_claim "worker-a" 1) 2000; Cer_claim id1 (sample_claim "worker-b" 2) 2500].
Definition claim_won : ceremony_replica :=
  phase (serve sample_config <$> claims) ([0] ++ repeat 1 6)%nat (cw1, tt, []).
Definition claim_lost : ceremony_replica := turns (repeat 0%nat 6) claim_won.
Example slower_claim_refused :
  match claim_lost.2 !! 0%nat with
  | Some (Ret (Some (_, Ans_claimed (Err CE_StaleFencing)))) => True
  | _ => False
  end.
Proof. vm_compute. exact I. Qed.



Definition sample_outcome : TerminalVerification :=
  {| t_outcome := St_Completed; t_reason := "verified";
     t_assertion_receipt_hash := Some (sha256_bytes "receipt");
     t_credential_id := Some "old-passkey"%string; t_credential_generation := Some 2;
     t_completed_at_ms := 4000;
     t_result_hash :=
       match completed_result_hash ceremony1 "old-passkey" 2 (sha256_bytes "receipt") 4000 with
       | Ok hash => hash
       | Err _ => ""
       end |}.
Definition completed_answer : CompleteVerifiedResponse :=
  {| co_ceremony_id := id1; co_status := St_Completed; co_terminal := sample_outcome;
     co_replayed := false |}.
Lemma completion_served :
  fst (served (Cer_complete id1 (sample_complete "worker-b" 2) 4000) cw3)
  = Some (Cer_complete id1 (sample_complete "worker-b" 2) 4000, Ans_completed (Ok completed_answer)).
Proof. vm_compute. reflexivity. Qed.

Lemma ceremony_completed_once_witness :
  (sample_complete "worker-b" 2).(cv_user_verified) = true
  /\ exists r, ceremony_at sample_config (mk_entries cw4) id1 r
     /\ completed_terminal r sample_outcome.
Proof.
  destruct (served_reaches _ cw3 _ cw3_wf completion_served) as (_ & Hr).
  destruct (ceremony_completed_once sample_config _ _ 0%nat 0%nat id1 _ _ _ _ _ _ Hr
              (list_elem_of_here _ _) (list_elem_of_here _ _)) as (_ & _ & Huv & _ & Hc).
  split; [exact Huv|exact Hc].
Defined.

(** A completion by the worker that holds token 1 has loaded the ceremony when
    another worker takes it over with token 2.  It is refused; the second
    worker, admitted after the take-over, completes. *)
Notation tagged_replica :=
  (replica (S:=unit) (A:=bool * option (ceremony_request * ceremony_answer))).
Definition before_takeover : list ceremony_request :=
  [Cer_complete id1 (sample_complete "worker-a" 1) 2900;
   Cer_claim id1 (sample_claim "worker-b" 2) 3000].
Definition after_takeover : list ceremony_request :=
  [Cer_claim id1 (sample_claim "worker-b" 2) 3100;
   Cer_complete id1 (sample_complete "worker-b" 2) 4000].
Notation taken_over :=
  (phase (tag false <$> (serve sample_config <$> before_takeover)) ([0] ++ repeat 1 6)%nat
     (cw2, tt, []) : tagged_replica).
Notation finished_b :=
  (phase (tag true <$> (serve sample_config <$> after_takeover))
     (repeat 0 6 ++ repeat 2 6 ++ repeat 3 6)%nat taken_over : tagged_replica).

Lemma takeover_stored :
  ceremony_at sample_config (mk_entries (service_of taken_over)) id1 claimed_b.
Proof. apply ceremony_in_at. vm_compute. reflexivity. Qed.
Example stale_completion_in_flight :
  match taken_over.2 !! 0%nat, finished_b.2 !! 0%nat with
  | Some (Ret _), _ => False
  | Some _, Some (Ret (false, Some (_, Ans_completed (Err CE_StaleFencing)))) => True
  | _, _ => False
  end.
Proof. vm_compute. exact I. Qed.
Lemma takeover_completed :
  finished_b.2 !! 3%nat
  = Some (Ret (true, Some (Cer_complete id1 (sample_complete "worker-b" 2) 4000,
                           Ans_completed (Ok completed_answer)))).
Proof. vm_compute. reflexivity. Qed.

Lemma stale_worker_refused_witness :
  (forall n late now a,
     (n, Ret (late, Some (Cer_complete id1 (sample_complete "worker-a" 1) now,
                          Ans_completed (Ok a)))) ∈ (as_config finished_b).(cf_requests) ->
     a.(co_replayed) = true)
  /\ 2 <= 2 /\ claimed_b.(cr_claim_id) = Some "worker-b"%string.
Proof.
  assert (Hold : Forall (ceremony_client sample_config) (serve sample_config <$> before_takeover))
    by (repeat constructor; by eexists).
  assert (Hnew : Forall (ceremony_client sample_config) (serve sample_config <$> after_takeover))
    by (repeat constructor; by eexists).
  pose proof (race_through (s:=tt) (order1:=([0] ++ repeat 1 6)%nat)
                (order2:=(repeat 0 6 ++ repeat 2 6 ++ repeat 3 6)%nat) _ eq_refl eq_refl cw2_wf Hold Hnew) as Ht.
  pose proof (proj1 (stale_worker_refused sample_config _ _ _ id1 claimed_b Ht
                       (eq_ind_r (fun m => ceremony_at sample_config m id1 claimed_b)
                          takeover_stored (as_config_state taken_over)))) as Hfenced.
  split.
  - intros n late now a Ha. destruct (co_replayed a) eqn:Hrep; [reflexivity|].
    destruct (Hfenced _ _ _ _ _ Ha Hrep) as [Hle _]. cbn in Hle. lia.
  - destruct (Hfenced _ _ _ _ _ (in_config _ _ _ takeover_completed) eq_refl) as [Hle Heq].
    split; [exact Hle|exact (Heq eq_refl)].
Defined.

(** A ceremony is begun, and a claim of it commits afterwards. *)
Definition begun_replica : ceremony_replica :=
  phase [serve sample_config (begin_request 1000)] (repeat 0%nat 6) (mapkv_empty, tt, []).
Definition begun_claimed : ceremony_replica :=
  phase [serve sample_config (Cer_claim id1 (sample_claim "worker-a" 1) 2000)] (repeat 1%nat 6)
    begun_replica.
Lemma begin_served :
  begun_replica.2 !! 0%nat
  = Some (Ret (Some (begin_request 1000,
                     Ans_begun (Ok (begin_response ceremony1 (snd (begun_at 1000)) false))))).
Proof. vm_compute. reflexivity. Qed.
Lemma begun_steps :
  reaches sample_config (as_config (mapkv_empty, tt, [])) (as_config begun_replica)
  /\ rtc (config_step (ceremony_client sample_config)) (as_config begun_replica)
       (as_config begun_claimed).
Proof.
  destruct (phase_steps (ceremony_client sample_config) [serve sample_config (begin_request 1000)]
              (repeat 0%nat 6) (mapkv_empty, tt, []) mapkv_empty_wf) as [Hwf Hs].
  { repeat constructor; by eexists. }
  split; [by split|]. apply phase_steps; [done|]. repeat constructor; by eexists.
Qed.

Lemma begin_binds_request_witness :
  exists r, ceremony_at sample_config (mk_entries (service_of begun_claimed)) id1 r
  /\ (binds_request sample_config "proposal-1" "alice" "tenant" sample_begin 1000 r.(cr_binding)
      \/ sha256_collision).
Proof.
  destruct begun_steps as [Hr Hs].
  destruct (begin_binds_request sample_config _ _ _ 0%nat _ _ _ _ _ _ _ Hr Hs
              (in_config _ _ _ begin_served)) as (secret & r & _ & Hat & Hbinds & _).
  rewrite as_config_state in Hat. exists r. split; [exact Hat|exact Hbinds].
Defined.

Lemma record_total (r : CeremonyRecord) : is_Some (to_value r).
Proof. by eexists. Qed.
Lemma evidence_total (v : Value) : is_Some (to_vec v).
Proof. unfold to_vec, value_to_vec. by destruct v; eexists. Qed.
Lemma sample_begun_ok now :
  is_ok (sample_begun now) = true -> sample_begun now = Ok (fst (begun_at now), snd (begun_at now)).
Proof. unfold begun_at. by destruct (sample_begun now) as [[record challenge]|]. Qed.

Lemma completion_fits_sample :
  completion_fits (claimed_record ceremony1 "worker-a" 1 2000) (sample_complete "worker-a" 1) 2500.
Proof.
  constructor; try (vm_compute; done). exists 2000. split; [reflexivity|lia].
Qed.
Lemma approval_completes_witness :
  exists w1 w2 w3 terminal,
    run (store_complete sample_config id1 (sample_complete "worker-a" 1) 2500) w2 tt
      = (Ok {| co_ceremony_id := id1; co_status := St_Completed; co_terminal := terminal;
               co_replayed := false |}, w3, tt)
    /\ run (store_claim sample_config id1 (sample_claim "worker-a" 1) 2000) w1 tt
      = (Ok (claim_response id1 St_Claimed 1 false false), w2, tt).
Proof.
  destruct (approval_completes sample_config record_total evidence_total _ _ _ _ _ _ ceremony1
              (snd (begun_at 1000)) (sample_claim "worker-a" 1) 2000 (sample_complete "worker-a" 1)
              2500 mapkv_empty (sample_begun_ok 1000 eq_refl))
    as (w1 & w2 & w3 & terminal & _ & Hclaim & Hcomplete & _).
  - reflexivity.
  - apply bounded_revisions. reflexivity.
  - discriminate.
  - vm_compute. reflexivity.
  - vm_compute. reflexivity.
  - discriminate.
  - split; vm_compute; [discriminate|reflexivity].
  - exact completion_fits_sample.
  - exists w1, w2, w3, terminal. split; [exact Hcomplete|exact Hclaim].
Defined.

