(* ===== verification/CeremonyRoutes.v ===== *)
(** * Governance ceremonies: handlers
    ([src/src/governance_ceremony/routes.inc.rs])

    The state of the application, authentication of the two kinds of callers,
    the three handlers and the responses.  A handler takes the time as an
    argument and what [supabase::verify_session] answers through the interface
    [VerifySession], which [Supabase.v] implements. *)
From Stdlib Require Import Ascii String.
From S2P Require Import Prelude Text Wire Samples Json Kv Model Store Keys KeyFacts.
From S2P Require Import Net CeremonyModel ProtectedState GovernanceConfig Ceremony.
From S2P Require Import SupabasePolicy Supabase.

Record CeremonyAppState := {
  cs_config : GovernanceConfig;
  cs_store : option GovernanceConfig
}.

(** A header that is text, and what follows a prefix of it. *)
Definition bearer_of (headers : HeaderMap) : option string :=
  value ← header_str headers "authorization";
  strip_prefix "Bearer " value.

(** ** Responses *)

Definition ceremony_error_response {A} (error : CeremonyError) : Response A :=
  match error with
  | CE_Disabled => Refuse NOT_FOUND "governance_disabled"
  | CE_Unauthorized => Refuse UNAUTHORIZED "unauthorized"
  | CE_NotFound => Refuse NOT_FOUND "ceremony_not_found"
  | CE_Conflict | CE_AlreadyClaimed | CE_ClaimMismatch | CE_NotClaimed =>
      Refuse CONFLICT "ceremony_conflict"
  | CE_Expired => Refuse GONE "ceremony_expired"
  | CE_StaleFencing => Refuse CONFLICT "stale_fencing_token"
  | CE_InvalidRequest _ => Refuse BAD_REQUEST "invalid_request"
  | CE_Webauthn _ => Refuse BAD_REQUEST "webauthn_verification_failed"
  | CE_ProtectedState _ => Refuse SERVICE_UNAVAILABLE "protected_ceremony_state_unavailable"
  | CE_Store _ | CE_CasRetriesExhausted =>
      Refuse SERVICE_UNAVAILABLE "ceremony_store_unavailable"
  | CE_MissingConfig _ | CE_WeakSecret _ | CE_InvalidConfig _ | CE_Json =>
      Refuse INTERNAL_SERVER_ERROR "governance_configuration_error"
  end.
(** [match result { Ok(response) => respond, Err(error) => refuse }]. *)
Definition answer_with {A} (status : N) (r : result CeremonyError A) : Response A :=
  match r with
  | Ok response => Respond status response
  | Err error => ceremony_error_response error
  end.

Definition parse_idempotency_key (headers : HeaderMap) : result CeremonyError string :=
  let? value := ok_or (trim <$> header_str headers IDEMPOTENCY_HEADER)
                  (CE_InvalidRequest "idempotency_key_required") in
  reject (str_len value <? 16) || (128 <? str_len value)
         || (any_whitespace value || any_control value)
    with CE_InvalidRequest "invalid_idempotency_key" ;;
  Ok value.

(** [CeremonyAppState::store]. *)
Definition state_store (self : CeremonyAppState) : result CeremonyError GovernanceConfig :=
  ok_or self.(cs_store) CE_Disabled.

Section handlers.
Context `{Crypto, !ToVec ApprovalBinding, !ToVec Value, !Serde CeremonyRecord}.

(** [CeremonyAppState::from_env]. *)
Definition ceremony_state_from_env `{!KeysJson, !UrlParse, !SpecsJson, !WebauthnRs} (debug : bool)
    (var : string -> option string) : result CeremonyError CeremonyAppState :=
  let? config := governance_from_env debug var in
  if negb config.(gc_enabled) then Ok {| cs_config := config; cs_store := None |}
  else
    reject negb (validate_config var)
      with CE_InvalidConfig
        "Supabase verification must be configured when governance is enabled" ;;
    let? rp_id := config_rp_id config in
    let? origin := config_origin config in
    let? codec := config_protected_state_codec config in
    let? _ := governance_webauthn_new rp_id origin codec in
    let? _ := map_err CE_Store (kv_client_from_env var) in
    Ok {| cs_config := config; cs_store := Some config |}.

(** [router_from_env], the routes. *)
Inductive Handler := H_health | H_begin_approval | H_claim_ceremony | H_complete_verified.
Definition ceremony_router : Router Handler :=
  {| rt_routes :=
       [("/healthz", [(GET, H_health)]);
        ("/v1/governance/proposals/:proposal_id/approval/begin", [(POST, H_begin_approval)]);
        ("/internal/v1/governance/ceremonies/:ceremony_id/claim", [(POST, H_claim_ceremony)]);
        ("/internal/v1/governance/ceremonies/:ceremony_id/complete-verified",
         [(POST, H_complete_verified)])]%string;
     rt_layers := [] |}.
(** [main] of the ceremony service until it serves: what its router answers
    from, and the port on every interface it listens on. *)
Record CeremonyServer := {
  cn_state : CeremonyAppState;
  cn_router : Router Handler;
  cn_port : N
}.
Definition ceremony_main `{!KeysJson, !UrlParse, !SpecsJson, !WebauthnRs} (debug : bool)
    (var : string -> option string) : result CeremonyError CeremonyServer :=
  let? state := ceremony_state_from_env debug var in
  Ok {| cn_state := state; cn_router := ceremony_router;
        cn_port := port_or var "FIDUCIA_GOVERNANCE_PORT" 8102 |}.

(** [health]. *)
Definition ceremony_health (state : CeremonyAppState) : Value :=
  Object [("status", Str "ok"); ("service", Str "fiducia-governance-ceremony");
          ("governance_webauthn_enabled", Bool state.(cs_config).(gc_enabled))]%string.

Definition constant_time_secret_matches (expected supplied : string) : bool :=
  xor_diff 0 (sha256 expected) (sha256 supplied) =? 0.

Definition require_verifier (config : GovernanceConfig) (headers : HeaderMap)
  : result CeremonyError unit :=
  reject negb config.(gc_enabled) with CE_Disabled ;;
  let? supplied := ok_or (header_str headers VERIFIER_HEADER) CE_Unauthorized in
  let? verifier_secret := config_verifier_secret config in
  reject negb (constant_time_secret_matches verifier_secret supplied) with CE_Unauthorized ;;
  Ok tt.

Definition require_user `{Session : VerifySession} {A} (headers : HeaderMap)
  : result (Response A) UserCtx :=
  match bearer_of headers with
  | Some jwt => ok_or (verify_session_answer jwt) (Refuse UNAUTHORIZED "invalid_session")
  | None => Err (Refuse UNAUTHORIZED "missing_bearer_token")
  end.

Definition begin_approval `{Session : VerifySession} (state : CeremonyAppState) (proposal_id : string)
    (headers : HeaderMap) (body : BeginApprovalRequest) (now_ms : N)
  : prog unit (Response BeginApprovalResponse) :=
  match require_user headers with
  | Err response => Ret response
  | Ok user =>
      if negb (bool_decide (user.(u_aal) = Aal2)) then Ret (Refuse FORBIDDEN "aal2_required")
      else if negb (bool_decide (body.(br_org_id) ∈ user.(u_orgs)))
      then Ret (Refuse FORBIDDEN "forbidden_tenant")
      else if negb (body.(br_participant_id) =? user.(u_user_id))%string
      then Ret (Refuse FORBIDDEN "participant_binding_required")
      else
        match parse_idempotency_key headers with
        | Err error => Ret (ceremony_error_response error)
        | Ok idempotency_key =>
            match state_store state with
            | Err error => Ret (ceremony_error_response error)
            | Ok store =>
                let! begun := store_begin store proposal_id body.(br_participant_id)
                                body.(br_org_id) idempotency_key body now_ms in
                Ret (answer_with CREATED begun)
            end
        end
  end.

Definition claim_ceremony (state : CeremonyAppState) (ceremony_id : string) (headers : HeaderMap)
    (body : ClaimRequest) (now_ms : N) : prog unit (Response ClaimResponse) :=
  match require_verifier state.(cs_config) headers with
  | Err error => Ret (ceremony_error_response error)
  | Ok _ =>
      match state_store state with
      | Err error => Ret (ceremony_error_response error)
      | Ok store =>
          let! claimed := store_claim store ceremony_id body now_ms in
          Ret (answer_with OK claimed)
      end
  end.

Definition complete_verified (state : CeremonyAppState) (ceremony_id : string)
    (headers : HeaderMap) (body : CompleteVerifiedRequest) (now_ms : N)
  : prog unit (Response CompleteVerifiedResponse) :=
  match require_verifier state.(cs_config) headers with
  | Err error => Ret (ceremony_error_response error)
  | Ok _ =>
      match state_store state with
      | Err error => Ret (ceremony_error_response error)
      | Ok store =>
          let! completed := store_complete store ceremony_id body now_ms in
          Ret (answer_with OK completed)
      end
  end.

(** ** Who may do what *)

(** A refusal without any request to the key-value service. *)
Definition refused {A} (p : prog unit (Response A)) : Prop :=
  exists status code, p = Ret (Refuse status code) /\ 400 <= status.

Lemma error_refused {A} error : refused (Ret (ceremony_error_response (A:=A) error)).
Proof. by destruct error; do 2 eexists. Qed.

(** An approval begins only for its own participant: either the request is
    refused without touching the store, or its bearer token is a verified
    session with two-factor assurance, whose user is the participant and a
    member of the tenant, and the ceremony begins for exactly that user and
    tenant under the idempotency key of the request. *)
Theorem approval_authorized `{Session : VerifySession} state proposal headers body now :
  refused (begin_approval state proposal headers body now)
  \/ exists jwt user key store,
       bearer_of headers = Some jwt
       /\ header_get headers "authorization" = Some ("Bearer " +:+ jwt)
       /\ verify_session_answer jwt = Some user
       /\ user.(u_aal) = Aal2 /\ body.(br_org_id) ∈ user.(u_orgs)
       /\ body.(br_participant_id) = user.(u_user_id)
       /\ parse_idempotency_key headers = Ok key /\ state.(cs_store) = Some store
       /\ begin_approval state proposal headers body now
          = (let! begun := store_begin store proposal user.(u_user_id) body.(br_org_id) key body now in
             Ret (answer_with CREATED begun)).
Proof.
  unfold begin_approval, require_user, bearer_of.
  destruct (header_str headers "authorization") as [value|] eqn:Hh; cbn [mbind option_bind];
    [|left; by do 2 eexists].
  destruct (strip_prefix "Bearer " value) as [jwt|] eqn:Hp; [|left; by do 2 eexists].
  apply strip_prefix_app in Hp as ->.
  destruct (verify_session_answer jwt) as [user|] eqn:Hs; cbn [ok_or]; [|left; by do 2 eexists].
  case_bool_decide as Haal; cbn [negb]; [|left; by do 2 eexists].
  case_bool_decide as Horg; cbn [negb]; [|left; by do 2 eexists].
  destruct (String.eqb_spec (br_participant_id body) (u_user_id user)) as [Hpart|]; cbn [negb];
    [|left; by do 2 eexists].
  destruct (parse_idempotency_key headers) as [key|e] eqn:Hk; [|left; apply error_refused].
  unfold state_store. destruct (cs_store state) as [store|] eqn:Hst; cbn [ok_or];
    [|left; apply error_refused].
  right. exists jwt, user, key, store. rewrite Hpart. split_and!; try done.
  by apply header_str_get.
Qed.

Lemma secret_matches_iff `{!CryptoLaws} expected supplied :
  constant_time_secret_matches expected supplied = true ->
  supplied = expected \/ sha256_collision.
Proof.
  unfold constant_time_secret_matches. intros Hm%N.eqb_eq.
  apply xor_diff_zero in Hm as [_ Hd]; [|by rewrite !sha256_length].
  destruct (decide (supplied = expected)); [by left|]. right. by exists expected, supplied.
Qed.

(** The request carries the verifier's secret. *)
Definition from_verifier (config : GovernanceConfig) (headers : HeaderMap) : Prop :=
  config.(gc_enabled) = true
  /\ exists secret, config.(gc_verifier_secret) = Some secret
     /\ (header_get headers VERIFIER_HEADER = Some secret \/ sha256_collision).

Lemma require_verifier_ok `{!CryptoLaws} config headers :
  require_verifier config headers = Ok tt -> from_verifier config headers.
Proof.
  unfold require_verifier, config_verifier_secret. intros Hr.
  apply reject_ok in Hr as [He Hr]. apply rbind_ok in Hr as (supplied & Hs%ok_or_ok & Hr).
  apply rbind_ok in Hr as (secret & Hsec%ok_or_ok & Hr). apply reject_ok in Hr as [Hm _].
  reflect_bools. split; [done|]. exists secret. split; [done|].
  apply secret_matches_iff in Hm as [->|]; [left|by right].
  by apply header_str_get.
Qed.

(** Only the verifier moves ceremonies: a claim or a completion is refused
    without touching the store, or it carries the configured secret, compared
    in constant time and in full (up to a collision of SHA-256), and is passed
    to the store as it is. *)
Theorem verifier_authorized `{!CryptoLaws} state id headers claim complete now :
  (refused (claim_ceremony state id headers claim now)
   \/ exists store, from_verifier state.(cs_config) headers /\ state.(cs_store) = Some store
      /\ claim_ceremony state id headers claim now
         = (let! r := store_claim store id claim now in Ret (answer_with OK r)))
  /\ (refused (complete_verified state id headers complete now)
      \/ exists store, from_verifier state.(cs_config) headers /\ state.(cs_store) = Some store
         /\ complete_verified state id headers complete now
            = (let! r := store_complete store id complete now in Ret (answer_with OK r))).
Proof.
  unfold claim_ceremony, complete_verified, state_store.
  destruct (require_verifier (cs_config state) headers) as [[]|e] eqn:Hv.
  2:{ split; left; apply error_refused. }
  apply require_verifier_ok in Hv.
  destruct (cs_store state) as [store|] eqn:Hst; cbn [ok_or].
  - split; right; by exists store.
  - split; left; apply error_refused.
Qed.

(** The service only starts into a state it can serve: a disabled one has
    no store, so every handler refuses; an enabled one has its store, a
    Supabase registry that is accepted, an origin from which the WebAuthn
    adapter was built with the configured keyring, and a key-value client. *)
Theorem ceremony_startup `{!KeysJson, !UrlParse, !SpecsJson, !WebauthnRs} debug var server :
  ceremony_main debug var = Ok server ->
  let state := server.(cn_state) in
  server.(cn_port) <= 65535 /\ route_table_ok server.(cn_router)
  /\ governance_from_env debug var = Ok state.(cs_config)
  /\ (state.(cs_config).(gc_enabled) = false -> state.(cs_store) = None)
  /\ (state.(cs_config).(gc_enabled) = true ->
        state.(cs_store) = Some state.(cs_config)
        /\ (exists projects, registry_from_env var = Ok projects)
        /\ (exists client, kv_client_from_env var = Ok client)
        /\ exists rp origin codec adapter,
             state.(cs_config).(gc_rp_id) = Some rp /\ state.(cs_config).(gc_origin) = Some origin
             /\ state.(cs_config).(gc_protected_state_codec) = Some codec
             /\ governance_webauthn_new rp origin codec = Ok adapter).
Proof.
  unfold ceremony_main. intros (state & Hs & [= <-])%rbind_ok. cbn [cn_state cn_router cn_port].
  split; [by apply port_or_bound|].
  split; [by split; apply (bool_decide_unpack _); reflexivity|]. revert Hs.
  unfold ceremony_state_from_env. intros Hs. apply rbind_ok in Hs as (config & Hc & Hs).
  destruct (gc_enabled config) eqn:He; cbn [negb] in Hs.
  2:{ injection Hs as <-. cbn. rewrite He. done. }
  apply reject_ok in Hs as [Hv Hs]. apply negb_false_iff, is_ok_true in Hv.
  apply rbind_ok in Hs as (rp & Hrp%ok_or_ok & Hs). apply rbind_ok in Hs as (origin & Ho%ok_or_ok & Hs).
  apply rbind_ok in Hs as (codec & Hcodec%ok_or_ok & Hs).
  apply rbind_ok in Hs as (adapter & Ha & Hs). apply rbind_ok in Hs as (client & Hk%map_err_ok & Hs).
  injection Hs as <-. cbn. rewrite He. split_and!; try done. intros _.
  split_and!; try done; [by exists client|]. by exists rp, origin, codec, adapter.
Qed.
End handlers.
