(* ===== verification/CeremonyRoutesRun.v ===== *)
(** * Ceremony handlers: a concrete run

    The service started from an environment, and a verifier's claim served by
    its handler. *)
From Stdlib Require Import Ascii String.
From S2P Require Import Prelude Text Wire Samples Json Token Kv Ledger SampleCodecs Model Store.
From S2P Require Import Keys KeyFacts KeyRun Net CeremonyModel ProtectedState ProtectedRun.
From S2P Require Import SupabasePolicy Supabase SupabaseRun.
From S2P Require Import GovernanceConfig Ceremony CeremonySafety CeremonySystem CeremonyProgress.
From S2P Require Import CeremonyRun CeremonyRoutes.

Definition service_env (name : string) : option string :=
  if (name =? PROJECTS_ENV)%string then Some "two"%string
  else if (name =? "FIDUCIA_KV_URL")%string then Some "https://kv.example.org/"%string
  else if (name =? "FIDUCIA_INTERNAL_SECRET")%string then Some "internal"%string
  else sample_env name.
Definition service : CeremonyAppState :=
  match ceremony_state_from_env false service_env with
  | Ok state => state
  | Err _ => {| cs_config := disabled_config; cs_store := None |}
  end.
Lemma service_starts : ceremony_state_from_env false service_env = Ok service.
Proof. vm_compute. reflexivity. Qed.
Lemma service_listens :
  ceremony_main false service_env = Ok {| cn_state := service; cn_router := ceremony_router; cn_port := 8102 |}.
Proof. vm_compute. reflexivity. Qed.
Lemma ceremony_startup_witness :
  service.(cs_store) = Some service.(cs_config)
  /\ exists projects, registry_from_env service_env = Ok projects.
Proof.
  destruct (ceremony_startup false service_env _ service_listens) as (_ & _ & _ & _ & He).
  destruct He as (Hs & Hr & _); [vm_compute; reflexivity|]. split; [exact Hs|exact Hr].
Defined.

Definition verifier_headers (secret : string) : string -> list string := fun name =>
  if (name =? VERIFIER_HEADER)%string then [secret] else [].
Definition verifier_secret : string := "verifier-secret-of-at-least-32-bytes".

(** With the secret the claim goes to the store; with another it is refused. *)
Example verifier_run :
  fst (fst (run (claim_ceremony service id1 (verifier_headers verifier_secret)
                   (sample_claim "worker-a" 1) 2000) cw1 tt))
  = Respond OK (claim_response id1 St_Claimed 1 false false)
  /\ claim_ceremony service id1 (verifier_headers "another-secret-of-at-least-32-bytes-xx")
       (sample_claim "worker-a" 1) 2000 = Ret (Refuse UNAUTHORIZED "unauthorized").
Proof. split; vm_compute; reflexivity. Qed.
Lemma verifier_authorized_witness :
  from_verifier service.(cs_config) (verifier_headers verifier_secret).
Proof.
  destruct (proj1 (verifier_authorized service id1 (verifier_headers verifier_secret)
                     (sample_claim "worker-a" 1) (sample_complete "worker-a" 1) 2000))
    as [(status & code & Hr & _)|(store & Hf & _)].
  - exfalso. apply (f_equal (fun p => fst (fst (run p cw1 tt)))) in Hr.
    rewrite (proj1 verifier_run) in Hr. cbn [run fst] in Hr. discriminate Hr.
  - exact Hf.
Defined.
