(* ===== verification/Sync.v ===== *)
(** * Background sync of organizations ([src/src/sync.rs])

    The organization cache, its configuration, what one pull makes of a reply,
    and the cache over a sequence of pulls.  Readers and the one writer share a
    lock, so a reader sees the rows of exactly one pull. *)
From Stdlib Require Import Ascii String.
From S2P Require Import Prelude Text Wire Json Kv Model Store Supabase.

(** [OrgCache]: organization id to row, with [get] and [replace]. *)
Notation OrgCache := (gmap string Value).
Definition org_get (orgs : OrgCache) (org_id : string) : option Value := orgs !! org_id.
Definition org_replace (orgs rows : OrgCache) : OrgCache := rows.

Record SyncConfig := {
  sy_base : string;
  sy_service_key : string;
  sy_table : string;
  sy_id_column : string;
  sy_interval : N
}.

Definition env_or (var : string -> option string) (name fallback : string) : string :=
  match var name with
  | Some s => if str_is_empty s then fallback else s
  | None => fallback
  end.

(** [.filter(|v| !v.trim().is_empty())]. *)
Definition not_blank (o : option string) : option string :=
  match o with
  | Some v => if str_is_empty (trim v) then None else Some v
  | None => None
  end.

(** [SyncConfig::from_env]. *)
Definition sync_config_from_env (var : string -> option string) : result string SyncConfig :=
  let? service_key := ok_or (not_blank (var "SUPABASE_SERVICE_ROLE_KEY"))
                        "SUPABASE_SERVICE_ROLE_KEY must be configured"%string in
  let? base := ok_or (not_blank (var "SUPABASE_URL")) "SUPABASE_URL must be configured"%string in
  Ok {| sy_base := trim_slashes base;
        sy_service_key := service_key;
        sy_table := env_or var "SUPABASE_ORGS_TABLE" "organizations";
        sy_id_column := env_or var "SUPABASE_ORGS_ID_COLUMN" "id";
        sy_interval := from_secs (default 60 (var "SUPABASE_SYNC_INTERVAL_SECS"
                                              ≫= parse_unsigned u64_max)) |}.

(** The request of [pull]: its URL and its two headers. *)
Definition pull_url (config : SyncConfig) : string :=
  config.(sy_base) +:+ "/rest/v1/" +:+ config.(sy_table) +:+ "?select=*".
Definition pull_headers (config : SyncConfig) : list (string * string) :=
  [("apikey", config.(sy_service_key));
   ("authorization", "Bearer " +:+ config.(sy_service_key))]%string.

(** [Value::as_i64], printed. *)
Definition i64_max : N := 9223372036854775807.
Definition i64_text (v : Value) : option string :=
  match v with
  | Num (PosInt n) => if n <=? i64_max then Some (decimal n) else None
  | Num (NegInt p) => if N.pos p <=? i64_max + 1 then Some ("-" +:+ decimal (N.pos p)) else None
  | _ => None
  end.
Definition value_as_id (v : Value) : option string :=
  match as_str v with
  | Some s => Some s
  | None => i64_text v
  end.

(** The loop over the rows; a later row with the same id wins. *)
Definition insert_row (id_column : string) (out : OrgCache) (row : Value) : OrgCache :=
  match value_get row id_column ≫= value_as_id with
  | Some id => <[id := row]> out
  | None => out
  end.
Definition rows_by_id (id_column : string) (rows : list Value) : OrgCache :=
  List.fold_left (insert_row id_column) rows ∅.

(** [Display for StatusCode], of the [http] crate. *)
Class StatusDisplay := status_display : N -> string.

(** What [pull] makes of the reply. *)
Definition pull_reply `{StatusDisplay} (config : SyncConfig) (reply : http_reply (list Value))
  : result string OrgCache :=
  match reply with
  | Http_error error => Err error
  | Http_reply status body =>
      reject negb (is_success status) with ("HTTP " +:+ status_display status) ;;
      let? rows := body in
      Ok (rows_by_id config.(sy_id_column) rows)
  end.

(** One tick of the background loop. *)
Definition sync_tick `{StatusDisplay} (config : SyncConfig) (orgs : OrgCache) (reply : http_reply (list Value))
  : OrgCache :=
  match pull_reply config reply with
  | Ok rows => org_replace orgs rows
  | Err _ => orgs
  end.

(** [start]: configuration, the initial pull, and then the cache after any
    number of ticks. *)
Definition sync_start `{StatusDisplay} (var : string -> option string) (initial : http_reply (list Value))
  : result string (SyncConfig * OrgCache) :=
  let? config := sync_config_from_env var in
  let? rows := pull_reply config initial in
  Ok (config, org_replace ∅ rows).
(** The spawned task, over the replies to its pulls.  [tokio::time::interval]
    panics on a period of zero, which ends the task before its first pull. *)
Definition sync_run `{StatusDisplay} (config : SyncConfig) (orgs : OrgCache)
    (replies : list (http_reply (list Value))) : OrgCache :=
  if config.(sy_interval) =? 0 then orgs
  else List.fold_left (sync_tick config) replies orgs.

(** ** What the cache serves *)

Section facts.
Context `{StatusDisplay}.

(** The rows of a reply that was a good one. *)
Definition good_rows (config : SyncConfig) (reply : http_reply (list Value)) (rows : list Value)
  : Prop := exists status, reply = Http_reply status (Ok rows) /\ is_success status = true.

Lemma pull_reply_ok config reply orgs :
  pull_reply config reply = Ok orgs <->
  exists rows, good_rows config reply rows /\ orgs = rows_by_id config.(sy_id_column) rows.
Proof.
  unfold pull_reply, good_rows. split.
  - destruct reply as [e|status body]; [done|]. intros Hp. apply reject_ok in Hp as [Hs Hp].
    apply rbind_ok in Hp as (rows & -> & Hp). exists rows. apply negb_false_iff in Hs.
    split; [by exists status|congruence].
  - intros (rows & (status & -> & Hs) & ->). by rewrite Hs.
Qed.

Lemma rows_by_id_lookup id_column rows id :
  rows_by_id id_column rows !! id
  = list.last (List.filter (fun row => bool_decide (value_get row id_column ≫= value_as_id = Some id))
                 rows).
Proof.
  unfold rows_by_id. rewrite <- (rev_involutive rows). set (l := rev rows). clearbody l. clear rows.
  induction l as [|row l IH]; cbn [rev]; [apply lookup_empty|].
  rewrite List.fold_left_app, List.filter_app. cbn [List.fold_left List.filter].
  unfold insert_row at 1. destruct (value_get row id_column ≫= value_as_id) as [key|] eqn:Hk.
  - case_bool_decide as Heq.
    + injection Heq as ->. rewrite lookup_insert_eq. by rewrite list.last_snoc.
    + rewrite app_nil_r, <- IH. apply lookup_insert_ne. congruence.
  - rewrite bool_decide_false by done. by rewrite app_nil_r.
Qed.

Lemma sync_fold_last config initial replies orgs :
  pull_reply config initial = Ok orgs ->
  exists reply rows later earlier,
    initial :: replies = earlier ++ reply :: later /\ good_rows config reply rows
    /\ (forall r rows', r ∈ later -> ~ good_rows config r rows')
    /\ List.fold_left (sync_tick config) replies orgs = rows_by_id config.(sy_id_column) rows.
Proof.
  intros (rows0 & Hg0 & ->)%pull_reply_ok.
  rewrite <- (rev_involutive replies). set (l := rev replies). clearbody l. clear replies.
  induction l as [|r l IH]; cbn [rev].
  - exists initial, rows0, [], []. split_and!; [done|done| |done].
    intros r rows' Hr. by apply not_elem_of_nil in Hr.
  - rewrite List.fold_left_app. cbn [List.fold_left]. unfold sync_tick at 1, org_replace.
    destruct (pull_reply config r) as [orgs|e] eqn:Hr.
    + apply pull_reply_ok in Hr as (rows & Hg & ->).
      exists r, rows, [], (initial :: rev l). split_and!; [done|done| |done].
      intros q rows' Hq. by apply not_elem_of_nil in Hq.
    + destruct IH as (reply & rows & later & earlier & Heq & Hg & Hlater & ->).
      exists reply, rows, (later ++ [r]), earlier. split_and!; try done.
      * change (initial :: rev l ++ [r]) with ((initial :: rev l) ++ [r]).
        by rewrite Heq, <- app_assoc.
      * intros q rows'. rewrite list.elem_of_app, list_elem_of_singleton.
        intros [Hq|Hq]; [by apply Hlater|]. subst q. intros Hq.
        assert (pull_reply config r = Ok (rows_by_id (sy_id_column config) rows')) as Hok
          by (apply pull_reply_ok; by exists rows').
        congruence.
Qed.

(** C36: stale beats empty: after a start that succeeded with a positive
    interval, the cache always serves the rows of the latest pull that
    succeeded, all of them and nothing older, however many pulls fail in
    between; for an id it gives the last row of that pull with the id; a start
    whose first pull fails is refused.  With an interval of zero seconds, which
    the configuration accepts, the start succeeds too and the cache stays at
    its first pull for ever. *)
Theorem sync_serves_last_good var initial config orgs replies id :
  sync_start var initial = Ok (config, orgs) ->
  let served rows :=
    list.last (List.filter
      (fun row => bool_decide (value_get row config.(sy_id_column) ≫= value_as_id = Some id)) rows) in
  (config.(sy_interval) <> 0 ->
   exists reply rows later earlier,
     initial :: replies = earlier ++ reply :: later
     /\ good_rows config reply rows
     /\ (forall r rows', r ∈ later -> ~ good_rows config r rows')
     /\ org_get (sync_run config orgs replies) id = served rows)
  /\ (config.(sy_interval) = 0 ->
      exists rows, good_rows config initial rows
      /\ org_get (sync_run config orgs replies) id = served rows).
Proof.
  intros Hs served. unfold sync_start in Hs. apply rbind_ok in Hs as (c & _ & Hs).
  apply rbind_ok in Hs as (first & Hfirst & [= <- <-]). unfold org_replace, org_get, sync_run.
  split; intros Hi.
  - rewrite (proj2 (N.eqb_neq _ _) Hi).
    destruct (sync_fold_last _ _ replies _ Hfirst) as (reply & rows & later & earlier & ? & ? & ? & ->).
    exists reply, rows, later, earlier. split_and!; try done. apply rows_by_id_lookup.
  - rewrite Hi, N.eqb_refl. apply pull_reply_ok in Hfirst as (rows & Hg & ->). exists rows.
    split; [done|]. apply rows_by_id_lookup.
Qed.
End facts.

(** A pull, an outage, and a lookup. *)
Definition sync_env (name : string) : option string :=
  if (name =? "SUPABASE_SERVICE_ROLE_KEY")%string then Some "service"%string
  else if (name =? "SUPABASE_URL")%string then Some "https://db.example.org/"%string
  else None.
Definition org_row (plan : string) : Value :=
  Object [("id", Str "org_1"); ("plan", Str plan)]%string.
#[export] Instance plain_status : StatusDisplay := decimal.
Definition good_pull : http_reply (list Value) := Http_reply 200 (Ok [org_row "pro"]).
Lemma sync_serves_last_good_witness :
  exists config orgs, sync_start sync_env good_pull = Ok (config, orgs)
  /\ exists earlier reply later, [good_pull; Http_error "down"; Http_reply 500 (Err ""%string)]
       = earlier ++ reply :: later.
Proof.
  assert (Hs : exists config orgs, sync_start sync_env good_pull = Ok (config, orgs)
               /\ config.(sy_interval) <> 0) by (eexists _, _; split; [reflexivity|discriminate]).
  destruct Hs as (config & orgs & Hs & Hi). exists config, orgs. split; [exact Hs|].
  destruct (sync_serves_last_good sync_env good_pull config orgs
              [Http_error "down"; Http_reply 500 (Err ""%string)] "org_1" Hs) as [Hpos _].
  destruct (Hpos Hi) as (reply & rows & later & earlier & Heq & _).
  exists earlier, reply, later. exact Heq.
Defined.
