(* ===== verification/AuthServer.v ===== *)
(** * The authentication server ([src/src/main.rs])

    Configuration at start-up and every handler.  A handler that uses the key
    store is a program over its cache; responses carry the JSON they are
    written with.  Sockets, routing, body limits, timeouts and the CORS layer's
    enforcement are axum and tower-http. *)
From Stdlib Require Import Ascii String.
From S2P Require Import Prelude Text Wire Samples Json Token Kv Model Store Keys KeyFacts Net.
From S2P Require Import SupabasePolicy Supabase Sync.

Definition SERVICE : string := "fiducia-auth".
Definition DEFAULT_ROTATION_OVERLAP_SECONDS : N := 60.
Definition ALLOWED_API_KEY_SCOPES : list string :=
  ["requests:read"; "requests:write"; "locks:read"; "locks:write"; "kv:read"; "kv:write";
   "services:read"; "services:write"; "elections:read"; "elections:write"; "cron:read";
   "cron:write"; "rate-limit:read"; "rate-limit:write"]%string.
Definition MIN_INTROSPECT_SECRET_BYTES : N := 32.

(** ** Responses *)

(** With [Cache-Control: no-store]. *)
Definition no_store (body : Value) : HttpResponse :=
  {| hr_status := OK; hr_no_store := true; hr_body := body |}.

Definition unauthorized (msg : string) : HttpResponse :=
  json_response UNAUTHORIZED (Object [("error", Str "unauthorized"); ("detail", Str msg)]%string).
Definition bad_key_request (error : string) : HttpResponse :=
  json_response BAD_REQUEST (error_body error).
Definition storage_unavailable : HttpResponse :=
  json_response SERVICE_UNAVAILABLE (error_body "storage_unavailable").
Definition key_store_error (error : StoreError) : HttpResponse :=
  match error with
  | StoreIdempotencyConflict => json_response CONFLICT (error_body "idempotency_conflict")
  | _ => storage_unavailable
  end.
Definition forbidden_org (org_id : string) : HttpResponse :=
  json_response FORBIDDEN (Object [("error", Str "forbidden_org"); ("org_id", Str org_id)]%string).
(** [CatchPanicLayer] on a handler that panics. *)
Definition panicked : HttpResponse := json_response INTERNAL_SERVER_ERROR Null.

(** ** Configuration *)

Definition introspect_secret_from (value : option string) : result string string :=
  match value with
  | Some secret =>
      reject str_is_empty secret with "FIDUCIA_INTROSPECT_SECRET must be configured"%string ;;
      reject negb (trim secret =? secret)%string || (str_len secret <? MIN_INTROSPECT_SECRET_BYTES)
             || (any_control secret || any_whitespace secret || str_mem "," secret)
        with "FIDUCIA_INTROSPECT_SECRET must be at least 32 bytes and contain no whitespace, control characters, or commas"%string ;;
      Ok secret
  | None => Err "FIDUCIA_INTROSPECT_SECRET must be configured"%string
  end.
Definition introspect_secret_from_env (var : string -> result VarError string)
  : result string string :=
  match var "FIDUCIA_INTROSPECT_SECRET"%string with
  | Ok value => introspect_secret_from (Some value)
  | Err NotPresent => introspect_secret_from None
  | Err NotUnicode => Err "FIDUCIA_INTROSPECT_SECRET must be valid UTF-8"%string
  end.

Definition rotation_overlap_seconds_from (value : option string) : result string N :=
  match value with
  | None => Ok DEFAULT_ROTATION_OVERLAP_SECONDS
  | Some value =>
      let? seconds := ok_or (parse_unsigned u64_max (trim value))
                        "FIDUCIA_ROTATION_OVERLAP_SECONDS must be a positive integer"%string in
      reject seconds =? 0
        with "FIDUCIA_ROTATION_OVERLAP_SECONDS must be greater than zero"%string ;;
      Ok seconds
  end.
Definition rotation_overlap_seconds_from_env (var : string -> result VarError string)
  : result string N :=
  match var "FIDUCIA_ROTATION_OVERLAP_SECONDS"%string with
  | Ok value => rotation_overlap_seconds_from (Some value)
  | Err NotPresent => rotation_overlap_seconds_from None
  | Err NotUnicode => Err "FIDUCIA_ROTATION_OVERLAP_SECONDS must be valid UTF-8"%string
  end.

(** [Url::origin] with [ascii_serialization], of the [url] crate. *)
Class UrlOrigin := url_origin : Url -> string.

(** The result is a [HeaderValue], by its bytes. *)
Definition customer_origin_from `{UrlParse, UrlOrigin} (value : option string)
  : result string string :=
  let configured := trim (default "https://app.fiducia.cloud"%string value) in
  let? parsed := ok_or (url_parse configured)
                   "FIDUCIA_CUSTOMER_ORIGIN must be an absolute HTTP(S) origin"%string in
  reject negb ((parsed.(url_scheme) =? "http")%string || (parsed.(url_scheme) =? "https")%string)
         || bool_decide (parsed.(url_host_str) = None)
         || negb (str_is_empty parsed.(url_username))
         || bool_decide (is_Some parsed.(url_password))
         || negb (parsed.(url_path) =? "/")%string
         || bool_decide (is_Some parsed.(url_query))
         || bool_decide (is_Some parsed.(url_fragment))
    with "FIDUCIA_CUSTOMER_ORIGIN must contain only an HTTP(S) scheme, host, and optional port"%string ;;
  let origin := url_origin parsed in
  reject negb (all_bytes header_byte origin)
    with "FIDUCIA_CUSTOMER_ORIGIN is not a valid HTTP Origin header"%string ;;
  Ok origin.
Definition customer_origin_from_env `{UrlParse, UrlOrigin} (var : string -> option string)
  : result string string := customer_origin_from (var "FIDUCIA_CUSTOMER_ORIGIN"%string).

Definition customer_cors_layer (origin : string) : CorsLayer :=
  {| cors_origin := origin;
     cors_methods := [GET; POST; DELETE; OPTIONS];
     cors_headers := ["authorization"; "content-type"; "idempotency-key"; "x-fiducia-org-id"]%string
  |}.

Record AppState := {
  as_keys : KeyStore;
  as_introspect_secret : string;
  as_rotation_overlap_seconds : N
}.

(** ** Requests *)

(** One header value, the only one of its name, without a comma. *)
Definition single_header_str (headers : HeaderMap) (name : string) : option string :=
  match headers name with
  | [value] =>
      value ← trim <$> to_str value;
      if str_is_empty value || str_mem "," value then None else Some value
  | _ => None
  end.

Definition require_user `{Session : VerifySession} (headers : HeaderMap) : result HttpResponse UserCtx :=
  match
    jwt ← (single_header_str headers "authorization" ≫= strip_prefix "Bearer ");
    if str_is_empty jwt then None else Some jwt
  with
  | Some jwt => ok_or (verify_session_answer jwt) (unauthorized "invalid or expired session")
  | None => Err (unauthorized "missing bearer token")
  end.

Definition select_user_org (user : UserCtx) (requested : option string)
  : result HttpResponse string :=
  match
    org_id ← trim <$> requested;
    if str_is_empty org_id then None else Some org_id
  with
  | Some org_id =>
      if bool_decide (org_id ∈ user.(u_orgs)) then Ok org_id else Err (forbidden_org org_id)
  | None =>
      match user.(u_orgs) with
      | [] => Err (json_response FORBIDDEN (error_body "no_org"))
      | [org_id] => Ok org_id
      | _ => Err (json_response BAD_REQUEST (error_body "org_id_required"))
      end
  end.

Record KeyCreateInput := {
  ki_name : string;
  ki_scopes : list string;
  ki_env : string;
  ki_require_idempotency : bool
}.

(** The loop over the scopes. *)
Fixpoint collect_scopes (requested scopes : list string) : result string (list string) :=
  match requested with
  | [] => Ok scopes
  | text :: rest =>
      let scope := trim text in
      if str_is_empty scope then collect_scopes rest scopes
      else
        reject negb (bool_decide (scope ∈ ALLOWED_API_KEY_SCOPES)) with "invalid_scope"%string ;;
        collect_scopes rest (if bool_decide (scope ∈ scopes) then scopes else scopes ++ [scope])
  end.
Definition validated_key_create_input (body : CreateKeyBody) : result string KeyCreateInput :=
  let name := trim body.(b_name) in
  reject str_is_empty name with "name_required"%string ;;
  let env := trim (default "live"%string body.(b_env)) in
  reject negb ((env =? "live")%string || (env =? "test")%string)
    with "invalid_environment"%string ;;
  let? scopes := collect_scopes body.(b_scopes) [] in
  let scopes := match scopes with [] => ["requests:write"%string] | _ => scopes end in
  Ok {| ki_name := name; ki_scopes := scopes; ki_env := env;
        ki_require_idempotency := body.(b_require_idempotency) |}.

Definition require_idempotency_key (headers : HeaderMap) : result HttpResponse string :=
  match single_header_str headers "idempotency-key" with
  | None => Err (bad_key_request "idempotency_key_required")
  | Some value =>
      reject str_is_empty value || (128 <? str_len value)
             || (any_control value || any_whitespace value)
        with bad_key_request "invalid_idempotency_key" ;;
      Ok value
  end.

Definition internal_secret_authorized (headers : HeaderMap) (expected : string) : bool :=
  match single_header_str headers "x-server-auth" with
  | Some provided => constant_time_eq provided expected
  | None => false
  end.

(** [Serialize for UserCtx] and for the decision it includes. *)
Definition strings_value (l : list string) : Value := Array (Str <$> l).
Definition authorization_value (c : AuthorizationContext) : Value :=
  Object [("version", Num (PosInt c.(ac_version)));
          ("surface_audiences", strings_value c.(ac_surface_audiences));
          ("roles", strings_value c.(ac_roles));
          ("capabilities", strings_value c.(ac_capabilities))]%string.
Definition user_value (user : UserCtx) : Value :=
  Object [("user_id", Str user.(u_user_id));
          ("email", match user.(u_email) with Some email => Str email | None => Null end);
          ("orgs", strings_value user.(u_orgs)); ("roles", strings_value user.(u_roles));
          ("aal", Str (match user.(u_aal) with Aal1 => "aal1" | Aal2 => "aal2" end));
          ("authorization", authorization_value (authorization_context user))]%string.

(** ** Handlers *)

Section handlers.
Context `{Crypto, !Serde StoredKey, !IdsJson, !CacheValues, !ToJson ApiKeyMeta,
          !ToJson Introspection, Session : !VerifySession}.
Notation handler := (prog key_cache HttpResponse).

(** [match step { Ok(v) => v, Err(response) => return response }]. *)
Definition or_return {A} (r : result HttpResponse A) (k : A -> handler) : handler :=
  match r with
  | Ok a => k a
  | Err response => Ret response
  end.
Notation "'let^' x ':=' r 'in' k" := (or_return r (fun x => k))
  (at level 10, x pattern, r at level 100, k at level 200,
   format "'[v' 'let^'  x  ':='  r  'in' '/' k ']'") : fiducia_scope.

Definition health : HttpResponse :=
  json_response OK (Object [("status", Str "ok"); ("service", Str SERVICE)]%string).

Definition me (headers : HeaderMap) : handler :=
  let^ user := require_user headers in
  Ret (json_response OK (Object [("user"%string, user_value user)])).

(** [orgs] is what the synced cache holds when it is read. *)
Definition get_org (orgs : OrgCache) (headers : HeaderMap) (org_id : string) : handler :=
  let^ user := require_user headers in
  if negb (bool_decide (org_id ∈ user.(u_orgs))) then Ret (forbidden_org org_id)
  else
    Ret (match org_get orgs org_id with
         | Some org =>
             json_response OK (Object [("org_id", Str org_id); ("org", org);
                                       ("source", Str "synced-cache")]%string)
         | None =>
             json_response NOT_FOUND (Object [("error", Str "not_found");
                                              ("org_id", Str org_id)]%string)
         end).

Definition created_response (r : result StoreError (string * ApiKeyMeta)) : HttpResponse :=
  match r with
  | Ok (raw, meta) => no_store (Object [("api_key", Str raw); ("key", to_json meta)]%string)
  | Err error => key_store_error error
  end.
Definition create_key (s : AppState) (headers : HeaderMap) (body : CreateKeyBody) (now_ms : N)
  : handler :=
  let^ user := require_user headers in
  let^ idempotency_key := require_idempotency_key headers in
  let^ org := select_user_org user body.(b_org_id) in
  let^ input := map_err bad_key_request (validated_key_create_input body) in
  let! created := create s.(as_keys)
    {| actor_id := user.(u_user_id); Keys.idempotency_key := idempotency_key |} org
    input.(ki_name) input.(ki_scopes) input.(ki_env) input.(ki_require_idempotency) now_ms in
  Ret (created_response created).

Definition rotated_response (s : AppState) (r : result StoreError (option (string * ApiKeyMeta)))
  : HttpResponse :=
  match r with
  | Ok (Some (raw, meta)) =>
      no_store (Object [("ok", Bool true); ("api_key", Str raw); ("key", to_json meta);
                        ("secret_once", Bool true);
                        ("overlap_seconds", Num (PosInt s.(as_rotation_overlap_seconds)))]%string)
  | Ok None =>
      json_response NOT_FOUND (Object [("ok", Bool false); ("error", Str "key_not_found")]%string)
  | Err error => key_store_error error
  end.
Definition rotate_key (s : AppState) (headers : HeaderMap) (key_id : string)
    (query_org : option string) : handler :=
  let^ user := require_user headers in
  let^ idempotency_key := require_idempotency_key headers in
  let^ org := select_user_org user query_org in
  let! rotated := rotate s.(as_keys) user.(u_user_id) idempotency_key org key_id in
  Ret (rotated_response s rotated).

Definition listed_response (r : result StoreError (list ApiKeyMeta)) : HttpResponse :=
  match r with
  | Ok keys => json_response OK (Object [("keys"%string, Array (to_json <$> keys))])
  | Err _ => storage_unavailable
  end.
(** [list_keys]. *)
Definition list_keys_handler (s : AppState) (headers : HeaderMap) (query_org : option string)
  : handler :=
  let^ user := require_user headers in
  let^ org := select_user_org user query_org in
  let! keys := list_keys s.(as_keys) org in
  Ret (listed_response keys).

Definition revoked_response (r : result StoreError bool) : HttpResponse :=
  match r with
  | Ok revoked => json_response OK (Object [("revoked"%string, Bool revoked)])
  | Err _ => storage_unavailable
  end.
Definition revoke_key (s : AppState) (headers : HeaderMap) (key_id : string)
    (query_org : option string) : handler :=
  let^ user := require_user headers in
  let^ org := select_user_org user query_org in
  let! revoked := Keys.revoke s.(as_keys) org key_id in
  Ret (revoked_response revoked).

Definition introspected_response (r : result StoreError Introspection) : HttpResponse :=
  match r with
  | Ok result => json_response OK (to_json result)
  | Err _ => storage_unavailable
  end.
(** [introspect]. *)
Definition introspect_handler (s : AppState) (headers : HeaderMap) (api_key : string) : handler :=
  if negb (internal_secret_authorized headers s.(as_introspect_secret))
  then Ret (unauthorized "missing or invalid internal auth")
  else
    let! introspection := introspect s.(as_keys) api_key in
    Ret (introspected_response introspection).

(** [token::mint_token] panics where [try_mint_token], given as [mint], fails. *)
Definition exchanged_response (mint : string -> list string -> N -> result MintError string)
    (r : result StoreError Introspection) : HttpResponse :=
  match r with
  | Err _ => storage_unavailable
  | Ok intro =>
      if negb intro.(in_valid) then unauthorized "invalid api key"
      else
        let org := default ""%string intro.(in_org_id) in
        match mint org intro.(in_scopes) 900 with
        | Ok jwt =>
            json_response OK (Object [("token", Str jwt); ("token_type", Str "Bearer");
                                      ("expires_in", Num (PosInt 900))]%string)
        | Err _ => panicked
        end
  end.
Definition exchange_token (s : AppState)
    (mint : string -> list string -> N -> result MintError string) (api_key : string) : handler :=
  let! intro := introspect s.(as_keys) api_key in
  Ret (exchanged_response mint intro).
End handlers.
