(* ===== verification/AuthServerFacts.v ===== *)
(** * The handlers of the authentication server refine the key service

    Who may call a handler and with what input, as relations; every handler
    that uses the key store is either refused without touching it or is exactly
    one request of the key service ([KeySystem.v]) on behalf of the caller. *)
From Stdlib Require Import Ascii String.
From S2P Require Import Prelude Text Wire Samples Json Token Kv Model Store Keys KeyFacts Net.
From S2P Require Import SupabasePolicy Supabase Sync KeySafety KeySystem AuthServer.

(** ** Requests *)

Lemma str_is_empty_false s : str_is_empty s = false <-> s <> ""%string.
Proof. by destruct s. Qed.

(** The only header of its name carries [value], blanks around it aside. *)
Record sole_header (headers : HeaderMap) (name value : string) : Prop := {
  sole_value : exists raw, headers name = [raw] /\ all_bytes header_byte raw = true
                           /\ value = trim raw;
  sole_nonempty : value <> ""%string;
  sole_single : str_mem "," value = false
}.

Lemma single_header_str_some headers name value :
  single_header_str headers name = Some value <-> sole_header headers name value.
Proof.
  unfold single_header_str. split.
  - destruct (headers name) as [|raw [|]] eqn:Hh; [done| |done].
    unfold to_str. destruct (all_bytes header_byte raw) eqn:Hb; [|done].
    change (trim <$> Some raw) with (Some (trim raw)). cbn [mbind option_bind].
    destruct (str_is_empty (trim raw)) eqn:He; [done|]. cbn [orb].
    destruct (str_mem "," (trim raw)) eqn:Hm; [done|]. intros [= <-].
    constructor; [by exists raw|by apply str_is_empty_false|done].
  - intros [(raw & -> & Hb & ->) He Hm]. unfold to_str. rewrite Hb.
    change (trim <$> Some raw) with (Some (trim raw)). cbn [mbind option_bind].
    apply str_is_empty_false in He. by rewrite He, Hm.
Qed.

(** The caller presented a session the provider vouches for. *)
Definition signed_in `{Session : VerifySession} (headers : HeaderMap) (user : UserCtx) : Prop :=
  exists jwt, sole_header headers "authorization" ("Bearer " +:+ jwt)
  /\ jwt <> ""%string /\ verify_session_answer jwt = Some user.

Lemma require_user_ok `{Session : VerifySession} headers user :
  AuthServer.require_user headers = Ok user <-> signed_in headers user.
Proof.
  unfold AuthServer.require_user, signed_in. split.
  - destruct (single_header_str headers "authorization") as [value|] eqn:Hh; [|done].
    apply single_header_str_some in Hh. cbn [mbind option_bind].
    destruct (strip_prefix "Bearer " value) as [jwt|] eqn:Hp; [|done]. cbn [mbind option_bind].
    destruct (str_is_empty jwt) eqn:He; [done|]. intros Hu%ok_or_ok.
    apply strip_prefix_app in Hp as ->. exists jwt.
    by rewrite str_is_empty_false in He.
  - intros (jwt & Hh & He & Hv). apply single_header_str_some in Hh as ->.
    cbn [mbind option_bind]. assert (strip_prefix "Bearer " ("Bearer " +:+ jwt) = Some jwt) as ->
      by by apply strip_prefix_app.
    cbn [mbind option_bind]. apply str_is_empty_false in He as ->. by apply ok_or_ok.
Qed.

(** The organization a request is for: the one it names, which must be one of
    the user's, or the user's only one. *)
Inductive chosen_org (user : UserCtx) (requested : option string) (org : string) : Prop :=
  | org_named raw :
      requested = Some raw -> trim raw = org -> org <> ""%string -> org ∈ user.(u_orgs) ->
      chosen_org user requested org
  | org_only :
      default ""%string (trim <$> requested) = ""%string -> user.(u_orgs) = [org] ->
      chosen_org user requested org.

Lemma chosen_org_member user requested org : chosen_org user requested org -> org ∈ user.(u_orgs).
Proof. destruct 1 as [|_ ->]; [done|apply list_elem_of_here]. Qed.

Lemma select_user_org_ok user requested org :
  select_user_org user requested = Ok org <-> chosen_org user requested org.
Proof.
  unfold select_user_org. split.
  - destruct (trim <$> requested) as [name|] eqn:Hr; cbn [mbind option_bind].
    + destruct (str_is_empty name) eqn:He.
      * intros Ho. apply org_only.
        { rewrite Hr. by destruct name. }
        by destruct (u_orgs user) as [|o [|]]; [..|done]; inversion Ho.
      * case_bool_decide; [|done]. intros [= <-].
        destruct requested as [raw|]; [|done]. injection Hr as Hr.
        apply (org_named _ _ _ raw); [done..| |done]. by apply str_is_empty_false.
    + intros Ho. apply org_only; [by rewrite Hr|].
      by destruct (u_orgs user) as [|o [|]]; [..|done]; inversion Ho.
  - intros [raw -> <- He Hin|Hb Ho].
    + change (trim <$> Some raw) with (Some (trim raw)). cbn [mbind option_bind].
      apply str_is_empty_false in He as ->. by rewrite bool_decide_true.
    + rewrite Ho. destruct (trim <$> requested) as [name|]; cbn [mbind option_bind]; [|done].
      cbn in Hb. by subst name.
Qed.

(** An idempotency key: one header of at most 128 visible bytes. *)
Record idempotent (headers : HeaderMap) (key : string) : Prop := {
  idem_header : sole_header headers "idempotency-key" key;
  idem_bounded : str_len key <= 128;
  idem_plain : any_control key = false /\ any_whitespace key = false
}.
Lemma require_idempotency_key_ok headers key :
  AuthServer.require_idempotency_key headers = Ok key <-> idempotent headers key.
Proof.
  unfold AuthServer.require_idempotency_key. split.
  - destruct (single_header_str headers "idempotency-key") as [value|] eqn:Hh; [|done].
    intros [Hc [= <-]]%reject_ok. apply single_header_str_some in Hh.
    rewrite !orb_false_iff, N.ltb_ge in Hc. destruct Hc as ((_ & Hl) & Hp).
    by constructor.
  - intros [Hh Hl [Hc Hw]]. pose proof (sole_nonempty _ _ _ Hh) as He.
    apply single_header_str_some in Hh as ->. apply reject_ok. split; [|done].
    apply str_is_empty_false in He. rewrite He, Hc, Hw. cbn.
    by apply orb_false_iff; split; [|done]; apply N.ltb_ge.
Qed.

(** ** The input of a new key *)

Definition first_occurrences (l : list string) : list string := rev (remove_dups (rev l)).
Definition named_scopes (requested : list string) : list string :=
  List.filter (fun scope => negb (str_is_empty scope)) (trim <$> requested).

Lemma first_occurrences_snoc l x :
  first_occurrences (l ++ [x])
  = if bool_decide (x ∈ first_occurrences l) then first_occurrences l
    else first_occurrences l ++ [x].
Proof.
  unfold first_occurrences. rewrite rev_app_distr. cbn [rev app remove_dups].
  assert (Hin : x ∈ rev (remove_dups (rev l)) <-> x ∈ rev l).
  { by rewrite list_elem_of_In, <- in_rev, <- list_elem_of_In, elem_of_remove_dups. }
  destruct (decide_rel elem_of x (rev l)) as [Hx|Hx].
  - by rewrite bool_decide_true by by apply Hin.
  - rewrite bool_decide_false; [done|]. by rewrite Hin.
Qed.
Lemma first_occurrences_spec l :
  NoDup (first_occurrences l) /\ forall x, x ∈ first_occurrences l <-> x ∈ l.
Proof.
  unfold first_occurrences. split.
  - apply NoDup_ListNoDup, NoDup_rev, NoDup_ListNoDup, NoDup_remove_dups.
  - intros x. by rewrite list_elem_of_In, <- in_rev, <- list_elem_of_In, elem_of_remove_dups,
      list_elem_of_In, <- in_rev, <- list_elem_of_In.
Qed.

Lemma collect_scopes_go requested seen :
  collect_scopes requested (first_occurrences seen)
  = if forallb (fun scope => bool_decide (scope ∈ ALLOWED_API_KEY_SCOPES)) (named_scopes requested)
    then Ok (first_occurrences (seen ++ named_scopes requested))
    else Err "invalid_scope"%string.
Proof.
  revert seen. induction requested as [|text rest IH]; intros seen; [by rewrite app_nil_r|].
  cbn [collect_scopes]. unfold named_scopes. rewrite fmap_cons. cbn [List.filter].
  destruct (str_is_empty (trim text)); cbn [negb]; [apply IH|]. cbn [forallb].
  destruct (bool_decide (trim text ∈ ALLOWED_API_KEY_SCOPES)); cbn [negb andb]; [|done].
  rewrite <- first_occurrences_snoc, IH. fold (named_scopes rest).
  by rewrite <- app_assoc.
Qed.
Lemma collect_scopes_eq requested :
  collect_scopes requested []
  = if forallb (fun scope => bool_decide (scope ∈ ALLOWED_API_KEY_SCOPES)) (named_scopes requested)
    then Ok (first_occurrences (named_scopes requested)) else Err "invalid_scope"%string.
Proof. apply (collect_scopes_go requested []). Qed.

(** What a request body asks for. *)
Record key_input (body : CreateKeyBody) (input : KeyCreateInput) : Prop := {
  input_name : input.(ki_name) = trim body.(b_name) /\ input.(ki_name) <> ""%string;
  input_env : input.(ki_env) = trim (default "live"%string body.(b_env))
              /\ (input.(ki_env) = "live"%string \/ input.(ki_env) = "test"%string);
  input_allowed : Forall (fun scope => scope ∈ ALLOWED_API_KEY_SCOPES) (named_scopes body.(b_scopes));
  input_scopes : input.(ki_scopes)
                 = match first_occurrences (named_scopes body.(b_scopes)) with
                   | [] => ["requests:write"%string]
                   | scopes => scopes
                   end;
  input_flag : input.(ki_require_idempotency) = body.(b_require_idempotency)
}.

Lemma validated_key_create_input_ok body input :
  validated_key_create_input body = Ok input <-> key_input body input.
Proof.
  unfold validated_key_create_input. rewrite collect_scopes_eq.
  assert (Hall : forallb (fun scope => bool_decide (scope ∈ ALLOWED_API_KEY_SCOPES))
                   (named_scopes (b_scopes body)) = true
                 <-> Forall (fun scope => scope ∈ ALLOWED_API_KEY_SCOPES)
                       (named_scopes (b_scopes body))).
  { rewrite forallb_forall, List.Forall_forall. setoid_rewrite bool_decide_eq_true. done. }
  split.
  - intros [Hn%str_is_empty_false [He (scopes & Hs & [= <-])%rbind_ok]%reject_ok]%reject_ok.
    rewrite negb_false_iff, orb_true_iff, !String.eqb_eq in He.
    destruct (forallb _ _) eqn:Hf; [|done].
    injection Hs as <-. constructor; cbn; try done; [by apply Hall|].
    by destruct (first_occurrences _).
  - intros [[Hn Hn'] [He He'] Ha Hs Hf]. apply reject_ok. rewrite str_is_empty_false, <- Hn, <- He.
    split; [done|]. apply reject_ok. rewrite negb_false_iff, orb_true_iff, !String.eqb_eq.
    split; [done|]. apply rbind_ok.
    exists (first_occurrences (named_scopes (b_scopes body))).
    apply Hall in Ha as ->. split; [done|]. f_equal.
    destruct input; cbn in *; subst. by destruct (first_occurrences _).
Qed.

(** ** Requests of the HTTP interface *)

(** Each request carries what its session provider, clock and signer answer
    while it is served. *)
Inductive http_request :=
  | Http_create (session : string -> option UserCtx) (headers : HeaderMap)
      (body : CreateKeyBody) (now_ms : N)
  | Http_list (session : string -> option UserCtx) (headers : HeaderMap)
      (query_org : option string)
  | Http_revoke (session : string -> option UserCtx) (headers : HeaderMap) (key_id : string)
      (query_org : option string)
  | Http_rotate (session : string -> option UserCtx) (headers : HeaderMap) (key_id : string)
      (query_org : option string)
  | Http_introspect (headers : HeaderMap) (api_key : string)
  | Http_exchange (mint : string -> list string -> N -> result MintError string)
      (api_key : string).

Section refines.
Context `{Crypto, !Serde StoredKey, !IdsJson, !CacheValues, !ToJson ApiKeyMeta,
          !ToJson Introspection}.
Context (s : AppState).
Notation self := s.(as_keys).
Implicit Types (session : VerifySession).

Definition handle (req : http_request) : prog key_cache HttpResponse :=
  match req with
  | Http_create session headers body now_ms => create_key (Session:=session) s headers body now_ms
  | Http_list session headers query_org => list_keys_handler (Session:=session) s headers query_org
  | Http_revoke session headers key_id query_org =>
      AuthServer.revoke_key (Session:=session) s headers key_id query_org
  | Http_rotate session headers key_id query_org =>
      rotate_key (Session:=session) s headers key_id query_org
  | Http_introspect headers api_key => introspect_handler s headers api_key
  | Http_exchange mint api_key => exchange_token s mint api_key
  end.

(** Which request of the key service an HTTP request is entitled to. *)
Inductive authorizes : http_request -> key_request -> Prop :=
  | auth_create session headers body now_ms user idem org input :
      signed_in (Session:=session) headers user -> idempotent headers idem ->
      chosen_org user body.(b_org_id) org -> key_input body input ->
      authorizes (Http_create session headers body now_ms)
        (Req_create {| actor_id := user.(u_user_id); Keys.idempotency_key := idem |} org
           input.(ki_name) input.(ki_scopes) input.(ki_env) input.(ki_require_idempotency) now_ms)
  | auth_list session headers query_org user org :
      signed_in (Session:=session) headers user -> chosen_org user query_org org ->
      authorizes (Http_list session headers query_org) (Req_list org)
  | auth_revoke session headers key_id query_org user org :
      signed_in (Session:=session) headers user -> chosen_org user query_org org ->
      authorizes (Http_revoke session headers key_id query_org) (Req_revoke org key_id)
  | auth_rotate session headers key_id query_org user idem org :
      signed_in (Session:=session) headers user -> idempotent headers idem ->
      chosen_org user query_org org ->
      authorizes (Http_rotate session headers key_id query_org)
        (Req_rotate user.(u_user_id) idem org key_id)
  | auth_introspect headers api_key :
      sole_header headers "x-server-auth" s.(as_introspect_secret) ->
      authorizes (Http_introspect headers api_key) (Req_introspect api_key)
  | auth_exchange mint api_key :
      authorizes (Http_exchange mint api_key) (Req_introspect api_key).

(** The response to the answer of the key service. *)
Definition rendered (req : http_request) (answer : key_answer) : HttpResponse :=
  match req, answer with
  | Http_create _ _ _ _, Ans_key r => created_response r
  | Http_list _ _ _, Ans_list r => listed_response r
  | Http_revoke _ _ _ _, Ans_revoked r => revoked_response r
  | Http_rotate _ _ _ _, Ans_rotated r => rotated_response s r
  | Http_introspect _ _, Ans_introspection r => introspected_response r
  | Http_exchange mint _, Ans_introspection r => exchanged_response mint r
  | _, _ => storage_unavailable
  end.

(** One request of the key service, with its answer rendered. *)
Definition served (req : http_request) (kreq : key_request) : prog key_cache HttpResponse :=
  match kreq with
  | Req_create mutation org name scopes env require_idempotency now_ms =>
      let! r := create self mutation org name scopes env require_idempotency now_ms in
      Ret (rendered req (Ans_key r))
  | Req_list org => let! r := list_keys self org in Ret (rendered req (Ans_list r))
  | Req_revoke org id => let! r := Keys.revoke self org id in Ret (rendered req (Ans_revoked r))
  | Req_rotate actor idem org id =>
      let! r := rotate self actor idem org id in Ret (rendered req (Ans_rotated r))
  | Req_introspect raw =>
      let! r := introspect self raw in Ret (rendered req (Ans_introspection r))
  end.
Definition refused (p : prog key_cache HttpResponse) : Prop :=
  exists response, p = Ret response /\ 400 <= response.(hr_status).

Lemma require_user_refuses session headers response :
  AuthServer.require_user (Session:=session) headers = Err response -> 400 <= response.(hr_status).
Proof.
  unfold AuthServer.require_user. case_match; [|by intros [= <-]].
  unfold ok_or. case_match; [done|]. by intros [= <-].
Qed.
Lemma select_user_org_refuses user requested response :
  select_user_org user requested = Err response -> 400 <= response.(hr_status).
Proof. unfold select_user_org. repeat case_match; by intros [= <-]. Qed.
Lemma require_idempotency_key_refuses headers response :
  AuthServer.require_idempotency_key headers = Err response -> 400 <= response.(hr_status).
Proof.
  unfold AuthServer.require_idempotency_key. repeat case_match; by intros [= <-].
Qed.
Lemma bad_key_request_refuses {A} (r : result string A) response :
  map_err bad_key_request r = Err response -> 400 <= response.(hr_status).
Proof. destruct r; [done|]. by intros [= <-]. Qed.

(** One early-return step, going on. *)
Lemma or_return_ok {A} (r : result HttpResponse A) (k : A -> prog key_cache HttpResponse) a :
  r = Ok a -> or_return r k = k a.
Proof. by intros ->. Qed.
(** A chain of early returns that is not [C] all the way refuses. *)
Lemma or_return_refused {A} (r : result HttpResponse A) (k : A -> prog key_cache HttpResponse) :
  (forall e, r = Err e -> 400 <= e.(hr_status)) -> (forall a, r = Ok a -> refused (k a)) ->
  refused (or_return r k).
Proof. intros He Hk. destruct r as [a|e]; cbn; [by apply Hk|]. exists e. auto. Qed.

Lemma internal_secret_authorized_iff headers :
  internal_secret_authorized headers s.(as_introspect_secret) = true
  <-> sole_header headers "x-server-auth" s.(as_introspect_secret).
Proof.
  unfold internal_secret_authorized. rewrite <- single_header_str_some.
  destruct (single_header_str headers "x-server-auth") as [value|]; [|done].
  rewrite constant_time_eq_iff. split; [by intros ->|by intros [= ->]].
Qed.

Lemma handle_authorized req kreq : authorizes req kreq -> handle req = served req kreq.
Proof.
  destruct 1 as [? ? ? ? ? ? ? ? Hu%require_user_ok Hi%require_idempotency_key_ok
                    Ho%select_user_org_ok Hin%validated_key_create_input_ok
                |? ? ? ? ? Hu%require_user_ok Ho%select_user_org_ok
                |? ? ? ? ? ? Hu%require_user_ok Ho%select_user_org_ok
                |? ? ? ? ? ? ? Hu%require_user_ok Hi%require_idempotency_key_ok
                    Ho%select_user_org_ok
                |? ? Hs%internal_secret_authorized_iff|]; cbn [handle].
  - unfold create_key. rewrite (or_return_ok _ _ _ Hu), (or_return_ok _ _ _ Hi),
      (or_return_ok _ _ _ Ho), Hin. done.
  - unfold list_keys_handler. rewrite (or_return_ok _ _ _ Hu), (or_return_ok _ _ _ Ho). done.
  - unfold AuthServer.revoke_key. rewrite (or_return_ok _ _ _ Hu), (or_return_ok _ _ _ Ho). done.
  - unfold rotate_key. rewrite (or_return_ok _ _ _ Hu), (or_return_ok _ _ _ Hi),
      (or_return_ok _ _ _ Ho). done.
  - unfold introspect_handler. rewrite Hs. done.
  - done.
Qed.

Lemma handle_unauthorized req : (forall kreq, ~ authorizes req kreq) -> refused (handle req).
Proof.
  intros Hno.
  destruct req as [session headers body now_ms|session headers query_org
    |session headers key_id query_org|session headers key_id query_org|headers raw|mint raw];
    cbn [handle].
  - apply or_return_refused; [apply require_user_refuses|]. intros user Hu%require_user_ok.
    apply or_return_refused; [apply require_idempotency_key_refuses|].
    intros idem Hi%require_idempotency_key_ok.
    apply or_return_refused; [apply select_user_org_refuses|]. intros org Ho%select_user_org_ok.
    apply or_return_refused; [apply bad_key_request_refuses|].
    intros input Hin%map_err_ok%validated_key_create_input_ok.
    edestruct Hno. by eapply auth_create.
  - apply or_return_refused; [apply require_user_refuses|]. intros user Hu%require_user_ok.
    apply or_return_refused; [apply select_user_org_refuses|]. intros org Ho%select_user_org_ok.
    edestruct Hno. by eapply auth_list.
  - apply or_return_refused; [apply require_user_refuses|]. intros user Hu%require_user_ok.
    apply or_return_refused; [apply select_user_org_refuses|]. intros org Ho%select_user_org_ok.
    edestruct Hno. by eapply auth_revoke.
  - apply or_return_refused; [apply require_user_refuses|]. intros user Hu%require_user_ok.
    apply or_return_refused; [apply require_idempotency_key_refuses|].
    intros idem Hi%require_idempotency_key_ok.
    apply or_return_refused; [apply select_user_org_refuses|]. intros org Ho%select_user_org_ok.
    edestruct Hno. by eapply auth_rotate.
  - unfold introspect_handler. destruct (internal_secret_authorized _ _) eqn:Hs; cbn [negb].
    + edestruct Hno. by eapply auth_introspect, internal_secret_authorized_iff.
    + by eexists.
  - edestruct Hno. by apply auth_exchange.
Qed.

(** A step finds exactly one value, or none is possible. *)
Lemma step_decides {A} (r : result HttpResponse A) (P : A -> Prop) :
  (forall a, r = Ok a <-> P a) -> (exists a, P a /\ forall a', P a' -> a' = a) \/ forall a, ~ P a.
Proof.
  intros HP. destruct r as [a|e]; [left; exists a|right; intros a].
  - split; [by apply HP|]. intros a' Ha'%HP. congruence.
  - by intros ?%HP.
Qed.
Lemma input_decides body : (exists input, key_input body input) \/ forall input, ~ key_input body input.
Proof.
  destruct (validated_key_create_input body) as [i|e] eqn:Hi.
  - left. exists i. by apply validated_key_create_input_ok.
  - right. intros i Hi'%validated_key_create_input_ok. congruence.
Qed.

(** A caller is entitled to something or to nothing. *)
Lemma authorizes_dec req : (exists kreq, authorizes req kreq) \/ forall kreq, ~ authorizes req kreq.
Proof.
  assert (Horg : forall session headers user requested,
    signed_in (Session:=session) headers user ->
    (exists org, chosen_org user requested org)
    \/ forall user' org, signed_in (Session:=session) headers user' ->
         ~ chosen_org user' requested org).
  { intros session headers user requested Hu.
    destruct (step_decides _ _ (select_user_org_ok user requested)) as [(o & Ho & _)|Ho];
      [by left; exists o|right]. intros user' org Hu' Ho'.
    apply require_user_ok in Hu, Hu'. rewrite Hu in Hu'. injection Hu' as <-. by eapply Ho. }
  destruct req as [session headers body now_ms|session headers query_org
    |session headers key_id query_org|session headers key_id query_org|headers raw|mint raw].
  all: try (destruct (step_decides _ _ (require_user_ok (Session:=session) headers))
              as [(u & Hu & _)|Hu]; [|right; intros ? Ha; inversion Ha; by eapply Hu]).
  all: try (edestruct (Horg session headers u) as [[o Ho]|Ho];
              [done| |right; intros ? Ha; inversion Ha; by eapply Ho]).
  1, 4: destruct (step_decides _ _ (require_idempotency_key_ok headers)) as [(i & Hi & _)|Hi];
          [|right; intros ? Ha; inversion Ha; by eapply Hi].
  - destruct (input_decides body) as [[k Hk]|Hk];
      [left; eexists; by eapply auth_create|right; intros ? Ha; inversion Ha; by eapply Hk].
  - left. eexists. by eapply auth_rotate.
  - left. eexists. by eapply auth_list.
  - left. eexists. by eapply auth_revoke.
  - destruct (internal_secret_authorized headers (as_introspect_secret s)) eqn:Hs.
    + left. eexists. by apply auth_introspect, internal_secret_authorized_iff.
    + right. intros ? Ha. inversion Ha as [| | | |? ? Hh|]; subst.
      apply internal_secret_authorized_iff in Hh. congruence.
  - left. eexists. apply auth_exchange.
Qed.

(** C17: Every handler over the key store either serves exactly the one request of
    the key service its caller is entitled to, or is refused with an error
    status before the store is touched, and it is refused only when the caller
    is entitled to none: the session is verified, the organization is one of
    the user's and the only one meant, the idempotency key and the new key's
    input are well formed, the internal secret is the configured one. *)
Theorem handlers_refine_key_service req :
  (exists kreq, authorizes req kreq /\ handle req = served req kreq)
  \/ ((forall kreq, ~ authorizes req kreq)
      /\ exists response, handle req = Ret response /\ 400 <= response.(hr_status)).
Proof.
  destruct (authorizes_dec req) as [(kreq & Ha)|Hno].
  - left. exists kreq. split; [done|by apply handle_authorized].
  - right. split; [done|by apply handle_unauthorized].
Qed.
End refines.
