(* ===== verification/AuthSystem.v ===== *)
(** * The HTTP interface as a whole

    Any number of replicas serve key management, introspection and token
    exchange concurrently, each request with its own session provider, clock
    and signer, against one key-value service, next to clients that write
    other keys, with dropped requests and failing service calls. *)
From Stdlib Require Import Ascii String.
From S2P Require Import Prelude Text Wire Samples Json Token Kv Model Store Keys KeyFacts Net.
From S2P Require Import KeySafety KeySystem AuthServer AuthServerFacts.

Section system.
Context `{Crypto, !Serde StoredKey, !SerdeLaws StoredKey, !IdsJson, !IdsJsonLaws,
          !CacheValues, !ToJson ApiKeyMeta, !ToJson Introspection}.
Context {W : Type} `{!Service W, !ServiceLaws W}.
Context (s : AppState) (production : s.(as_keys).(ks_kv) = true).
Notation self := s.(as_keys).
Notation key_rule := (key_rule_of (fun _ => True)).
Notation no_local_claim := (fun (_ : key_cache) (_ : kv) => True).
(** A finished request with its response; [late] marks the requests that were
    admitted in the second of two phases. *)
Notation outcome := (option (bool * http_request * HttpResponse)).
Notation client := (prog key_cache outcome).
Notation system := (config (S:=key_cache) (A:=outcome) (W:=W)).
Notation state c := (entries c.(cf_service)).

Definition traffic (late : bool) (p : client) : Prop :=
  (exists req, p = let! response := handle s req in Ret (Some (late, req, response)))
  \/ foreign p.
Definition idle (c : system) : Prop := c.(cf_requests) = [].
(** Traffic from [c] to [c1], and traffic from [c1] to [c2] with requests of
    the first phase still in flight. *)
Definition first_phase (c c1 : system) : Prop :=
  idle c /\ rtc (config_step (traffic false)) c c1.
Definition second_phase (c1 c2 : system) : Prop :=
  rtc (config_step (traffic true)) c1 c2.

(** A response is an error or renders a justified answer to a request the
    caller was entitled to. *)
Definition response_ok m0 (req : http_request) (response : HttpResponse) (m : kv) : Prop :=
  400 <= response.(hr_status)
  \/ exists kreq answer,
       authorizes s req kreq /\ response = rendered s req answer
       /\ answered self m0 (Some (kreq, answer)) m.
Definition finished (marked : bool) m0 (a : outcome) (m : kv) : Prop :=
  match a with
  | Some (late, req, response) => late = marked -> response_ok m0 req response m
  | None => True
  end.
Definition finished_first m0 (a : outcome) (m : kv) : Prop :=
  match a with
  | Some (late, req, response) => late = false /\ response_ok m0 req response m
  | None => True
  end.

Lemma response_ok_evolves writable m0 req response m m' :
  evolves (key_rule_of writable) m m' -> response_ok m0 req response m ->
  response_ok m0 req response m'.
Proof.
  intros He [Hr|(kreq & answer & Ha & Hr & Hp)]; [by left|right]. exists kreq, answer.
  do 2 (split; [done|]). by eapply answered_evolves.
Qed.

Lemma served_wp writable m0 m req kreq :
  evolves (key_rule_of writable) m0 m -> authorizes s req kreq -> writes_only writable kreq ->
  wp (key_rule_of writable) no_local_claim (served s req kreq)
    (fun r m' => response_ok m0 req r m') m.
Proof.
  intros He Ha Hwr. pose proof (key_serve_wp self production writable m0 m kreq He Hwr) as Hw.
  assert (Hret : forall (A : Type) (p : prog key_cache A) (tag : A -> key_answer),
    wp (key_rule_of writable) no_local_claim
       (let! r := p in Ret (Some (kreq, tag r))) (answered self m0) m ->
    wp (key_rule_of writable) no_local_claim (let! r := p in Ret (rendered s req (tag r)))
       (fun r m' => response_ok m0 req r m') m).
  { intros A p tag Hp. apply wp_bind. eapply wp_mono; [|by eapply wp_unbind].
    intros a m1 Hq m2 Hm2. right. exists kreq, (tag a). split_and!; [done..|]. by apply Hq. }
  destruct kreq; cbn [served]; apply Hret; exact Hw.
Qed.

Lemma handle_wp writable m0 m req :
  evolves (key_rule_of writable) m0 m ->
  (forall kreq, authorizes s req kreq -> writes_only writable kreq) ->
  wp (key_rule_of writable) no_local_claim (handle s req)
    (fun r m' => response_ok m0 req r m') m.
Proof.
  intros He Hw. destruct (authorizes_dec s req) as [[kreq Ha]|Hno].
  - rewrite (handle_authorized _ _ _ Ha). apply served_wp; auto.
  - destruct (handle_unauthorized _ _ Hno) as (response & -> & Hr). intros m' _. by left.
Qed.

Lemma traffic_wp late (Q : outcome -> kv -> Prop) m0 m p :
  (forall m', Q None m') ->
  (forall req r m', response_ok m0 req r m' -> Q (Some (late, req, r)) m') ->
  evolves key_rule m0 m -> traffic late p -> wp key_rule no_local_claim p Q m.
Proof.
  intros Hn HQ He [[req ->]|Hf]; [|by apply key_foreign_wp].
  apply wp_bind. eapply wp_mono; [|by apply handle_wp].
  intros r m1 Hr m2 Hm2. apply HQ. by eapply response_ok_evolves.
Qed.

Lemma first_phase_ok c c1 :
  first_phase c c1 ->
  config_ok key_rule no_local_claim (finished_first (state c)) (state c) c1.
Proof.
  intros [Hi Hs]. eapply (config_steps_ok _ _ (traffic false)); [done| |exact Hs|].
  - intros m p He Ht. by eapply (traffic_wp false).
  - by apply config_start_ok; [|apply list.Forall_true|].
Qed.

Lemma second_phase_ok c c1 c2 :
  first_phase c c1 -> second_phase c1 c2 ->
  evolves key_rule (state c1) (state c2)
  /\ config_ok key_rule no_local_claim (finished true (state c1)) (state c1) c2.
Proof.
  intros Hf Hs. destruct (first_phase_ok _ _ Hf) as (_ & Hl & Hr).
  edestruct (config_steps_ok key_rule no_local_claim (traffic true) (finished true (state c1)))
    as [Hok He]; [done| |exact Hs| |by split].
  - intros m p He Ht. eapply (traffic_wp true); [done| |exact He|done]. by intros req r m' Hr' _.
  - split_and!; [done|done|]. eapply Forall_impl; [|exact Hr]. intros [n p].
    apply wp_mono. intros [[[late req] r]|] m'; [|done]. by intros [-> _].
Qed.

Lemma finished_ok Q m0 (c : system) n a :
  config_ok key_rule no_local_claim Q m0 c -> (n, Ret a) ∈ c.(cf_requests) -> Q a (state c).
Proof.
  intros (_ & _ & Hr) Hin. rewrite list.Forall_forall in Hr. specialize (Hr _ Hin).
  by apply Hr.
Qed.

(** What a request of the first phase was answered. *)
Lemma first_answer c c1 n late req response :
  first_phase c c1 -> (n, Ret (Some (late, req, response))) ∈ c1.(cf_requests) ->
  response_ok (state c) req response (state c1).
Proof. intros Hf%first_phase_ok Hin. by apply (finished_ok _ _ _ _ _ Hf Hin). Qed.
Lemma second_answer c c1 c2 n req response :
  first_phase c c1 -> second_phase c1 c2 ->
  (n, Ret (Some (true, req, response))) ∈ c2.(cf_requests) ->
  response_ok (state c1) req response (state c2).
Proof.
  intros Hf Hs Hin. destruct (second_phase_ok _ _ _ Hf Hs) as [_ Hok].
  by apply (finished_ok _ _ _ _ _ Hok Hin).
Qed.

(** A revocation that was answered [true] left the key stored revoked. *)
Lemma revoked_answer m0 m session headers id query_org response :
  response_ok m0 (Http_revoke session headers id query_org) response m ->
  response = revoked_response (Ok true) ->
  exists r user, key_at m id r /\ r.(revoked) = true
  /\ signed_in (Session:=session) headers user /\ r.(org_id) ∈ user.(u_orgs).
Proof.
  intros [Hr|(kreq & answer & Ha & Hr & Hp)] ->; [by destruct Hr|].
  inversion Ha as [| |? ? ? ? user org Hu Ho| | |]; subst.
  destruct answer as [r|r|r|r|r]; try done. destruct r as [b|e]; [|done]. cbn in Hr.
  destruct b; [|done].
  destruct (Hp eq_refl) as (r & Hk & Hrev & <-). exists r, user.
  do 3 (split; [done|]). by eapply chosen_org_member.
Qed.

(** C6: A key that is presented again after its revocation was acknowledged buys
    nothing: once the dashboard answered a revocation with [true], every token
    exchange admitted later, on any replica, with any secret of that key and
    with older requests still in flight, is answered with an error, and every
    introspection is an error or says invalid. *)
Theorem revoked_key_never_exchanged c c1 c2 n1 n2 late session headers id query_org
    env secret raw response :
  first_phase c c1 -> second_phase c1 c2 ->
  (n1, Ret (Some (late, Http_revoke session headers id query_org, revoked_response (Ok true))))
    ∈ c1.(cf_requests) ->
  parse_raw_key raw = Some (env, id, secret) ->
  (forall mint, (n2, Ret (Some (true, Http_exchange mint raw, response))) ∈ c2.(cf_requests) ->
     400 <= response.(hr_status))
  /\ (forall headers', (n2, Ret (Some (true, Http_introspect headers' raw, response)))
       ∈ c2.(cf_requests) ->
     400 <= response.(hr_status) \/ response = introspected_response (Ok introspection_invalid)).
Proof.
  intros Hf Hs Hrev Hp.
  destruct (revoked_answer _ _ _ _ _ _ _ (first_answer _ _ _ _ _ _ Hf Hrev) eq_refl)
    as (r & _ & Hk & Hr & _).
  assert (Hinvalid : forall m intro, introspect_post self (state c1) raw (Ok intro) m ->
            intro = introspection_invalid) by (intros m intro Hi; by eapply Hi).
  split.
  - intros mint Hin. destruct (second_answer _ _ _ _ _ _ Hf Hs Hin)
      as [|(kreq & answer & Ha & -> & Hq)]; [done|].
    inversion Ha; subst. destruct answer as [a|a|a|a|[intro|e]]; try done.
    by rewrite (Hinvalid _ _ Hq).
  - intros headers' Hin. destruct (second_answer _ _ _ _ _ _ Hf Hs Hin)
      as [|(kreq & answer & Ha & -> & Hq)]; [by left|].
    inversion Ha; subst. destruct answer as [a|a|a|a|[intro|e]]; try by left.
    right. by rewrite (Hinvalid _ _ Hq).
Qed.

(** A token is only ever given for a live key: under every interleaving, an
    exchange answered with success rests on a well-formed key of which a
    record was stored, not revoked, of the presented environment, listed in
    its organization's index, and whose hash is that of the presented secret;
    the response carries what the signer minted for that record's
    organization, for its scopes without the administrative ones, for 900
    seconds. *)
Theorem exchange_sound c c1 n late mint raw response :
  first_phase c c1 ->
  (n, Ret (Some (late, Http_exchange mint raw, response))) ∈ c1.(cf_requests) ->
  response.(hr_status) = OK ->
  exists env id secret r token,
    parse_raw_key raw = Some (env, id, secret)
    /\ seen_at (state c1) id r /\ r.(revoked) = false /\ r.(Model.env) = env
    /\ verify_secret_hash r.(secret_hash) secret self.(ks_api_key_pepper)
         self.(ks_allow_legacy_sha256) = true
    /\ (exists ids, ids_at (state c1) r.(org_id) ids /\ id ∈ ids)
    /\ mint r.(org_id) (List.filter (fun scope => negb (is_admin_scope scope)) r.(scopes)) 900
       = Ok token
    /\ response.(hr_body) = Object [("token", Str token); ("token_type", Str "Bearer");
                                    ("expires_in", Num (PosInt 900))]%string.
Proof.
  intros Hf Hin Hok.
  destruct (first_answer _ _ _ _ _ _ Hf Hin) as [Hr|(kreq & answer & Ha & -> & Hq)];
    [rewrite Hok in Hr; by destruct Hr|].
  inversion Ha; subst. destruct answer as [a|a|a|a|[intro|e]]; try done. cbn in Hok, Hq.
  destruct (in_valid intro) eqn:Hv; cbn [negb] in Hok; [|done].
  destruct (proj1 (Hq intro eq_refl) Hv)
    as (en & id & secret & r & Hp & Hs & Hrev & Hen & Hver & Hidx & ->).
  exists en, id, secret, r. cbn [in_org_id in_scopes default] in Hok. cbn in Hok.
  destruct (mint _ _ 900) as [token|e] eqn:Hm; [|done].
  exists token. do 7 (split; [done|]). cbn. by rewrite Hm.
Qed.
(** The successful answer behind a successful response. *)
Lemma success_rendered m0 m req response :
  response_ok m0 req response m -> response.(hr_status) = OK ->
  exists kreq answer, authorizes s req kreq /\ response = rendered s req answer
  /\ answered self m0 (Some (kreq, answer)) m.
Proof. intros [Hr|Hr] Hok; [rewrite Hok in Hr; by destruct Hr|done]. Qed.

Lemma created_success r : (created_response r).(hr_status) = OK -> exists raw meta, r = Ok (raw, meta).
Proof. destruct r as [[raw meta]|[]]; by eauto. Qed.
Lemma rotated_success r :
  (rotated_response s r).(hr_status) = OK -> exists raw meta, r = Ok (Some (raw, meta)).
Proof. destruct r as [[[raw meta]|]|[]]; by eauto. Qed.
Lemma listed_success r : (listed_response r).(hr_status) = OK -> exists metas, r = Ok metas.
Proof. destruct r; by eauto. Qed.

(** What the dashboard issued: a key of one of the user's organizations, with
    scopes a customer may hold. *)
Record issued_to (m : kv) (user : UserCtx) (meta : ApiKeyMeta) (r : ApiKeyRecord) : Prop := {
  issued_stored : seen_at m r.(key_id) r /\ meta = meta_of r;
  issued_org : r.(org_id) ∈ user.(u_orgs);
  issued_scopes : r.(scopes) <> [] /\ NoDup r.(scopes)
                  /\ Forall (fun scope => scope ∈ ALLOWED_API_KEY_SCOPES) r.(scopes);
  issued_listed : exists ids, ids_at m r.(org_id) ids /\ r.(key_id) ∈ ids
}.

Lemma key_input_scopes body input :
  key_input body input ->
  input.(ki_scopes) <> [] /\ NoDup input.(ki_scopes)
  /\ Forall (fun scope => scope ∈ ALLOWED_API_KEY_SCOPES) input.(ki_scopes).
Proof.
  intros [_ _ Ha Hs _]. rewrite Hs.
  destruct (first_occurrences_spec (named_scopes (b_scopes body))) as [Hnd Hin].
  destruct (first_occurrences (named_scopes (b_scopes body))) as [|x l].
  - split_and!; [done|apply NoDup_singleton|]. apply Forall_singleton.
    by apply (bool_decide_unpack _); vm_compute.
  - split_and!; [done..|]. rewrite list.Forall_forall in Ha |- *. intros y Hy. by apply Ha, Hin.
Qed.

Lemma same_create_request_spec r rec :
  r = rec \/ same_create_request r rec = true ->
  r.(key_id) = rec.(key_id) /\ r.(org_id) = rec.(org_id) /\ r.(scopes) = rec.(scopes).
Proof.
  intros [->|Hs]; [done|]. unfold same_create_request in Hs. reflect_bools. done.
Qed.

(** C9: Customers only reach their own organizations' keys, under every
    interleaving: a request that succeeded came with a verified session; a
    created key is stored and listed for one of that user's organizations and
    carries at least one scope, each of the customer scopes and none twice; a
    listing holds keys of one of the user's organizations only; a rotated or
    revoked key is one of such an organization. *)
Theorem tenants_isolated c c1 n late session headers response :
  first_phase c c1 ->
  (forall body now_ms,
     (n, Ret (Some (late, Http_create session headers body now_ms, response))) ∈ c1.(cf_requests) ->
     response.(hr_status) = OK ->
     exists user raw meta r, signed_in (Session:=session) headers user
     /\ response = created_response (Ok (raw, meta)) /\ issued_to (state c1) user meta r)
  /\ (forall query_org,
     (n, Ret (Some (late, Http_list session headers query_org, response))) ∈ c1.(cf_requests) ->
     response.(hr_status) = OK ->
     exists user org metas, signed_in (Session:=session) headers user /\ org ∈ user.(u_orgs)
     /\ response = listed_response (Ok metas)
     /\ Forall (fun meta => meta.(m_org_id) = org) metas)
  /\ (forall id query_org,
     (n, Ret (Some (late, Http_rotate session headers id query_org, response))) ∈ c1.(cf_requests) ->
     response.(hr_status) = OK ->
     exists user raw meta r, signed_in (Session:=session) headers user
     /\ response = rotated_response s (Ok (Some (raw, meta)))
     /\ seen_at (state c1) id r /\ meta = meta_of r /\ r.(org_id) ∈ user.(u_orgs))
  /\ (forall id query_org,
     (n, Ret (Some (late, Http_revoke session headers id query_org, response))) ∈ c1.(cf_requests) ->
     response = revoked_response (Ok true) ->
     exists user r, signed_in (Session:=session) headers user
     /\ key_at (state c1) id r /\ r.(revoked) = true /\ r.(org_id) ∈ user.(u_orgs)).
Proof.
  intros Hf. split; [|split; [|split]].
  - intros body now_ms Hin Hok.
    destruct (success_rendered _ _ _ _ (first_answer _ _ _ _ _ _ Hf Hin) Hok)
      as (kreq & answer & Ha & -> & Hq).
    inversion Ha as [? ? ? ? user idem org input Hu _ Ho Hi| | | | |]; subst.
    destruct answer as [a|a|a|a|a]; try done. cbn [rendered] in *.
    destruct (created_success _ Hok) as (raw & meta & ->).
    destruct (Hq raw meta eq_refl) as (_ & (r & Hs & Hm & Hsame%same_create_request_spec) & Hidx).
    destruct Hsame as (Hid & Horg & Hsc). exists user, raw, meta, r. do 2 (split; [done|]).
    constructor.
    + by rewrite Hid.
    + rewrite Horg. by eapply chosen_org_member.
    + rewrite Hsc. by eapply key_input_scopes.
    + by rewrite Horg, Hid.
  - intros query_org Hin Hok.
    destruct (success_rendered _ _ _ _ (first_answer _ _ _ _ _ _ Hf Hin) Hok)
      as (kreq & answer & Ha & -> & Hq).
    inversion Ha as [|? ? ? user org Hu Ho| | | |]; subst.
    destruct answer as [a|a|a|a|a]; try done. cbn [rendered] in *.
    destruct (listed_success _ Hok) as [metas ->]. exists user, org, metas.
    split; [done|]. split; [by eapply chosen_org_member|]. split; [done|].
    eapply Forall_impl; [|by apply (Hq metas)]. by intros meta (r & -> & ? & _).
  - intros id query_org Hin Hok.
    destruct (success_rendered _ _ _ _ (first_answer _ _ _ _ _ _ Hf Hin) Hok)
      as (kreq & answer & Ha & -> & Hq).
    inversion Ha as [| | |? ? ? ? user idem org Hu _ Ho| |]; subst.
    destruct answer as [a|a|a|a|a]; try done. cbn [rendered] in *.
    destruct (rotated_success _ Hok) as (raw & meta & ->).
    destruct (Hq raw meta eq_refl) as (r & Hs & <- & _ & _ & _ & Hm).
    exists user, raw, meta, r. do 4 (split; [done|]). by eapply chosen_org_member.
  - intros id query_org Hin Heq.
    destruct (revoked_answer _ _ _ _ _ _ _ (first_answer _ _ _ _ _ _ Hf Hin) Heq)
      as (r & user & ? & ? & ? & ?). by exists user, r.
Qed.

(** A request with a verified session of a member of [org]. *)
Definition by_member (org : string) (req : http_request) : Prop :=
  match req with
  | Http_create session headers _ _ | Http_list session headers _
  | Http_revoke session headers _ _ | Http_rotate session headers _ _ =>
      exists user, signed_in (Session:=session) headers user /\ org ∈ user.(u_orgs)
  | Http_introspect _ _ | Http_exchange _ _ => False
  end.
Definition traffic_without (org : string) (p : client) : Prop :=
  (exists req, ~ by_member org req
   /\ p = let! response := handle s req in Ret (Some (false, req, response)))
  \/ foreign p.

Lemma outsider_writes_only org req kreq :
  ~ by_member org req -> authorizes s req kreq -> writes_only (fun o => o <> org) kreq.
Proof.
  intros Hno Ha o Ho <-. apply Hno.
  destruct Ha; cbn in Ho; try done; injection Ho as <-; cbn; eexists;
    (split; [done|by eapply chosen_org_member]).
Qed.

Notation outsiders org := (key_rule_of (fun o => o <> org)).
Lemma traffic_without_wp org m0 m p :
  evolves (outsiders org) m0 m -> traffic_without org p ->
  wp (outsiders org) no_local_claim p (fun _ _ => True) m.
Proof.
  intros He [(req & Hno & ->)|Hf]; [|by apply key_foreign_wp].
  apply wp_bind. eapply wp_mono; [|apply (handle_wp _ _ _ _ He)].
  - by intros.
  - intros kreq. by apply outsider_writes_only.
Qed.
(** What outsiders leave as it is. *)
Lemma org_untouched org m m' :
  evolves (outsiders org) m m' ->
  (forall id r, key_at m id r \/ key_at m' id r -> r.(org_id) = org ->
     m' !! key_path id = m !! key_path id)
  /\ m' !! org_index_path org = m !! org_index_path org.
Proof.
  intros He. split.
  - intros id r Hr Ho. apply (key_unwritable _ _ (rule_key_rely _) _ _ _ He).
    exists r. split; [done|]. intros Hn. by destruct Hn.
  - apply (index_unwritable (fun o => o <> org)); [done|]. intros Hn. by destruct Hn.
Qed.

(** Nobody but its members changes an organization's keys: whatever requests
    run, in whatever interleaving, as long as none carries a verified session
    of a member of the organization, no key of it is created, rotated or
    revoked and its index stays as it was. *)
Theorem only_members_change_keys c c' org :
  idle c -> rtc (config_step (traffic_without org)) c c' ->
  (forall id r, key_at (state c) id r \/ key_at (state c') id r -> r.(org_id) = org ->
     state c' !! key_path id = state c !! key_path id)
  /\ state c' !! org_index_path org = state c !! org_index_path org.
Proof.
  intros Hi Hs. apply org_untouched.
  eapply (system_safe _ no_local_claim (traffic_without org) (fun _ _ => True));
    [done|apply traffic_without_wp|done|by apply list.Forall_true|done|exact Hs].
Qed.
End system.
