(* ===== verification/AuthServerRun.v ===== *)
(** * The authentication server on concrete requests

    A dashboard session that creates a key, exchanges it for a token and
    revokes it, and the witnesses of the theorems about the server. *)
From Stdlib Require Import Ascii String.
From S2P Require Import Prelude Text Wire Samples Json Token Kv Model Store Keys KeyFacts Net.
From S2P Require Import SampleCodecs KeySafety KeySystem KeyRun AuthServer AuthServerFacts AuthSystem.

Definition meta_value (m : ApiKeyMeta) : Value :=
  Object [("key_id", Str m.(m_key_id)); ("org_id", Str m.(m_org_id))]%string.
#[export] Instance meta_to_json : ToJson ApiKeyMeta := meta_value.
#[export] Instance introspection_to_json : ToJson Introspection :=
  fun i => Object [("valid"%string, Bool i.(in_valid))].

Definition app : AppState :=
  {| as_keys := sample_store; as_introspect_secret := "0123456789abcdef0123456789abcdef";
     as_rotation_overlap_seconds := 60 |}.
Definition alice : UserCtx :=
  {| u_user_id := "alice"; u_email := None; u_orgs := ["org"; "team"]; u_roles := [];
     u_aal := Aal1; u_project_surfaces := None |}.
Definition sessions (jwt : string) : option UserCtx :=
  if (jwt =? "alice-session")%string then Some alice else None.
Definition no_headers : HeaderMap := fun _ => [].
Definition headers1 : HeaderMap := fun name =>
  if (name =? "authorization")%string then [" Bearer alice-session"]
  else if (name =? "idempotency-key")%string then ["c1"]
  else [].
Definition body1 (org : option string) (scopes : list string) : CreateKeyBody :=
  {| b_name := " ci "; b_org_id := org; b_scopes := scopes; b_env := None;
     b_require_idempotency := true |}.
Definition create1 : http_request :=
  Http_create sessions headers1 (body1 (Some "org") ["kv:read"; " "; " kv:read "; "cron:read"]) 5.

Definition respond (req : http_request) (w : mapkv) : HttpResponse * mapkv :=
  fst (run (handle app req) w ∅).

Definition aw1 : mapkv := snd (respond create1 mapkv_empty).
Definition key2 : ApiKeyRecord :=
  created_record sample_store {| actor_id := "alice"; idempotency_key := "c1" |} "org" "ci"
    ["kv:read"; "cron:read"] "live" true 5.
Definition raw2 : string :=
  raw_key "live" key2.(key_id)
    (create_secret sample_store {| actor_id := "alice"; idempotency_key := "c1" |} "org").
Definition revoke2 : http_request := Http_revoke sessions headers1 key2.(key_id) (Some "org"%string).
Definition aw2 : mapkv := snd (respond revoke2 aw1).
(** A signer that prints what it signs. *)
Definition sample_mint (org : string) (scopes : list string) (ttl : N) : result MintError string :=
  Ok (String.concat " " (org :: scopes)).
Definition exchange2 : http_request := Http_exchange sample_mint raw2.

(** Create, exchange, revoke, exchange again; the last request is another
    tenant's. *)
Example dashboard_session :
  fst (respond create1 mapkv_empty)
  = created_response (Ok (raw2, meta_of key2))
  /\ (fst (respond exchange2 aw1)).(hr_body)
     = Object [("token", Str "org kv:read cron:read"); ("token_type", Str "Bearer");
               ("expires_in", Num (PosInt 900))]%string
  /\ fst (respond revoke2 aw1) = revoked_response (Ok true)
  /\ fst (respond exchange2 aw2) = AuthServer.unauthorized "invalid api key"
  /\ fst (respond (Http_list sessions headers1 (Some "other"%string)) aw1) = forbidden_org "other".
Proof. vm_compute. split_and!; reflexivity. Qed.

Notation http_config w s rs :=
  (@Build_config key_cache (option (bool * http_request * HttpResponse)) mapkv w [s] rs).

Notation http_client late req :=
  (let! response := handle app req in Ret (Some (late, req, response))).
Lemma runs_next admissible late req rs w s :
  mapkv_wf w -> admissible (http_client late req) ->
  exists s', rtc (config_step admissible) (http_config w s rs)
    (http_config (snd (fst (run (handle app req) w s))) s'
       (rs ++ [(0%nat, Ret (Some (late, req, fst (fst (run (handle app req) w s)))))])).
Proof.
  intros Hwf Ha. destruct (run (handle app req) w s) as [[r w'] s'] eqn:Hrun. cbn [fst snd].
  exists s'. eapply rtc_l.
  - by apply (config_arrive admissible w [s] rs 0 (http_client late req)).
  - apply run_steps_after; [done|]. by rewrite run_pbind, Hrun.
Qed.
Lemma traffic_http late req : traffic app late (http_client late req).
Proof. left. by exists req. Qed.
Lemma respond_phase req w response :
  mapkv_wf w -> fst (respond req w) = response ->
  exists s, first_phase app (http_config w ∅ [])
              (http_config (snd (respond req w)) s [(0%nat, Ret (Some (false, req, response)))]).
Proof.
  intros Hwf <-. destruct (runs_next _ false req [] w ∅ Hwf (traffic_http false req)) as [s Hs].
  exists s. split; [done|]. exact Hs.
Qed.
Lemma respond_wf req w : mapkv_wf w -> mapkv_wf (snd (respond req w)).
Proof.
  intros Hwf. unfold respond. destruct (run (handle app req) w ∅) as [[r w'] s'] eqn:Hrun.
  by eapply run_wf.
Qed.
Lemma aw1_wf : mapkv_wf aw1.
Proof. apply respond_wf, mapkv_empty_wf. Qed.
Lemma aw2_wf : mapkv_wf aw2.
Proof. apply respond_wf, aw1_wf. Qed.
Lemma raw2_parses : exists secret, parse_raw_key raw2 = Some ("live"%string, key2.(key_id), secret).
Proof. eexists. vm_compute. reflexivity. Qed.

Lemma exchange_sound_witness :
  exists r, seen_at (mk_entries (snd (respond exchange2 aw1))) key2.(key_id) r
  /\ r.(revoked) = false.
Proof.
  destruct (respond_phase exchange2 aw1 _ aw1_wf eq_refl) as [s Hs].
  destruct (exchange_sound app eq_refl _ _ 0%nat false sample_mint raw2 _ Hs
              (list_elem_of_here _ _) ltac:(vm_compute; reflexivity))
    as (env & id & secret & r & token & Hp & Hseen & Hr & _).
  exists r. split; [|exact Hr].
  destruct raw2_parses as [secret' Hp']. rewrite Hp' in Hp.
  assert (key2.(key_id) = id) as -> by congruence. exact Hseen.
Defined.

Lemma revoked_key_never_exchanged_witness :
  exists s, 400 <= (fst (fst (run (handle app exchange2) aw2 s))).(hr_status).
Proof.
  destruct (respond_phase revoke2 aw1 (revoked_response (Ok true)) aw1_wf
              ltac:(vm_compute; reflexivity)) as [s Hs].
  fold aw2 in Hs. destruct raw2_parses as [secret Hp].
  destruct (runs_next _ true exchange2 [(0%nat, Ret (Some (false, revoke2, revoked_response (Ok true))))]
              aw2 s aw2_wf (traffic_http true exchange2)) as [s' Hs'].
  exists s.
  refine (proj1 (revoked_key_never_exchanged app eq_refl _ _ _ 0%nat 0%nat false sessions headers1
    key2.(key_id) (Some "org"%string) "live" secret raw2 _ Hs Hs' (list_elem_of_here _ _) Hp)
    sample_mint _).
  apply list_elem_of_further, list_elem_of_here.
Defined.

Lemma tenants_isolated_witness :
  exists user raw meta r, user.(u_orgs) <> []
  /\ fst (respond create1 mapkv_empty) = created_response (Ok (raw, meta))
  /\ issued_to (mk_entries aw1) user meta r.
Proof.
  destruct (respond_phase create1 mapkv_empty _ mapkv_empty_wf eq_refl) as [s Hs].
  destruct (tenants_isolated app eq_refl _ _ 0%nat false sessions headers1
    (fst (respond create1 mapkv_empty)) Hs) as [Hcreate _].
  destruct (Hcreate _ _ (list_elem_of_here _ _) ltac:(vm_compute; reflexivity))
    as (user & raw & meta & r & _ & Hr & Hi).
  exists user, raw, meta, r. split; [|split; [exact Hr|exact Hi]].
  intros Ho. pose proof (issued_org _ _ _ _ Hi) as Hin. rewrite Ho in Hin. inversion Hin.
Defined.

(** A user of another organization tries to delete the key. *)
Definition bob : UserCtx :=
  {| u_user_id := "bob"; u_email := None; u_orgs := ["other"]; u_roles := [];
     u_aal := Aal1; u_project_surfaces := None |}.
Definition bob_revoke : http_request :=
  Http_revoke (fun _ => Some bob) headers1 key2.(key_id) (Some "org"%string).
Lemma key2_stored : key_at (mk_entries aw1) key2.(key_id) key2.
Proof. unfold key_at. eexists. split; vm_compute; reflexivity. Qed.

Lemma only_members_change_keys_witness :
  mk_entries (snd (respond bob_revoke aw1)) !! key_path key2.(key_id)
  = mk_entries aw1 !! key_path key2.(key_id).
Proof.
  assert (Ha : traffic_without app "org" (http_client false bob_revoke)).
  { left. exists bob_revoke. split; [|reflexivity]. intros (user & (jwt & _ & _ & Hv) & Hin).
    assert (Hu : Some bob = Some user) by exact Hv. injection Hu as <-.
    apply list_elem_of_singleton in Hin. discriminate Hin. }
  destruct (runs_next (traffic_without app "org") false bob_revoke [] aw1 ∅ aw1_wf Ha) as [s Hs].
  exact (proj1 (only_members_change_keys app eq_refl (http_config aw1 ∅ []) _ "org" eq_refl Hs) key2.(key_id) key2
           (or_introl key2_stored) eq_refl).
Defined.
