(* ===== verification/Signer.v ===== *)
(** * The process-wide ES256 signer ([src/src/token.rs], [Signer])

    Loading the signing key, the published key set, and minting with it.  Keys
    and signatures are the [p256] and [jsonwebtoken] crates, as parameters with
    the one law an offline verifier relies on: a token signed with a key
    verifies under its public point. *)
From Stdlib Require Import Ascii String.
From S2P Require Import Prelude Text Wire Samples Json Token Net.

(** [p256::SecretKey], the affine coordinates of its public point, and
    [jsonwebtoken]'s ES256: [jwt_encode] takes the key, the header's [kid] and
    the claims, [jwt_decode] the coordinates and a token. *)
Class Es256 := {
  SecretKey : Type;
  from_pkcs8_pem : string -> option SecretKey;
  point_x : SecretKey -> string;
  point_y : SecretKey -> string;
  jwt_encode : SecretKey -> string -> Claims -> option string;
  jwt_decode : string * string -> string -> option (string * Claims)
}.
Class Es256Laws `{Es256} : Prop :=
  jwt_roundtrip key kid claims token :
    jwt_encode key kid claims = Some token ->
    jwt_decode (point_x key, point_y key) token = Some (kid, claims).

(** [hex16]: the first eight bytes. *)
Definition hex16 (bytes : string) : string := hex_lower (String.substring 0 8 bytes).

Section signer.
Context `{Crypto, Es256}.

Record Signer := {
  sg_encoding : SecretKey;
  sg_jwk : Value;
  sg_kid : string
}.

Definition from_secret (secret : SecretKey) : Signer :=
  let x := point_x secret in
  let y := point_y secret in
  let kid := hex16 (sha256 (x +:+ y)) in
  {| sg_encoding := secret;
     sg_jwk := Object [("kty", Str "EC"); ("crv", Str "P-256"); ("x", Str (b64url_encode x));
                       ("y", Str (b64url_encode y)); ("use", Str "sig"); ("alg", Str "ES256");
                       ("kid", Str kid)]%string;
     sg_kid := kid |}.

(** The configured key, where it is set to something that is not blank. *)
Definition signing_key_env (var : string -> option string) : option string :=
  match var "FIDUCIA_JWT_SIGNING_KEY"%string with
  | Some pem => if str_is_empty (trim pem) then None else Some pem
  | None => None
  end.
(** [Signer::load]; [None] where it panics. *)
Definition signer_load (var : string -> option string) : option Signer :=
  pem ← signing_key_env var;
  secret ← from_pkcs8_pem (trim pem);
  Some (from_secret secret).

Inductive TokenConfigError :=
  | SigningKeyMissing
  | SigningKeyInvalid
  | SignerPanicked
  | ContractBroken (e : ContractError).
(** [validate_config], which forces the signer: the signer every later mint
    uses. *)
Definition token_validate_config (var : string -> option string) : result TokenConfigError Signer :=
  let? pem := ok_or (signing_key_env var) SigningKeyMissing in
  let? _ := ok_or (from_pkcs8_pem (trim pem)) SigningKeyInvalid in
  let? signer := ok_or (signer_load var) SignerPanicked in
  let? _ := map_err ContractBroken validate_revocation_contract in
  Ok signer.

(** [try_mint_token]; [now] and [entropy] are what the clock and the system
    returned. *)
Definition try_mint_token (signer : Signer) (now : N) (entropy : option string)
    (org_id : string) (scopes : list string) (ttl_secs : N) : result MintError string :=
  mint_with (jwt_encode signer.(sg_encoding)) signer.(sg_kid) now entropy org_id scopes ttl_secs.
(** [mint_token]; [None] where it panics. *)
Definition mint_token (signer : Signer) (now : N) (entropy : option string)
    (org_id : string) (scopes : list string) (ttl_secs : N) : option string :=
  match try_mint_token signer now entropy org_id scopes ttl_secs with
  | Ok token => Some token
  | Err _ => None
  end.

Definition jwks (signer : Signer) : Value := Object [("keys"%string, Array [signer.(sg_jwk)])].
End signer.

(** ** Offline verification *)

Lemma prefix_length n s : (n <= String.length s)%nat -> String.length (String.substring 0 n s) = n.
Proof.
  revert n. induction s as [|a s IH]; intros [|n]; cbn; intros; try lia. f_equal. apply IH. lia.
Qed.

Section facts.
Context `{CryptoLaws, !Es256, !Es256Laws}.

(** A published key: its id and the point it encodes. *)
Definition published (keys : Value) (kid : string) (point : string * string) : Prop :=
  exists jwk x y, value_get keys "keys" = Some (Array [jwk])
  /\ value_get jwk "kid" = Some (Str kid)
  /\ value_get jwk "x" = Some (Str x) /\ b64url_decode x = Some point.1
  /\ value_get jwk "y" = Some (Str y) /\ b64url_decode y = Some point.2.

(** The claims a minted token decodes to. *)
Definition minted (now : N) (bytes org : string) (scopes : list string) (ttl : N) : Claims :=
  {| c_sub := org; c_org_id := org; c_scopes := scopes; c_iss := ISSUER; c_aud := AUDIENCE;
     c_iat := now; c_exp := saturating_add now ttl; c_jti := b64url_encode bytes |}.
(** The signer of a process is that of the configured key. *)
Lemma configured_signer var signer :
  token_validate_config var = Ok signer ->
  exists pem secret, var "FIDUCIA_JWT_SIGNING_KEY"%string = Some pem
  /\ from_pkcs8_pem (trim pem) = Some secret /\ signer = from_secret secret.
Proof.
  intros (pem & _ & (k & _ & (sg & Hl%ok_or_ok & (u & _ & [= <-])%rbind_ok)%rbind_ok)%rbind_ok)%rbind_ok.
  unfold signer_load in Hl. destruct (signing_key_env var) as [p|] eqn:Hp; [|done]. cbn in Hl.
  destruct (from_pkcs8_pem (trim p)) as [secret|] eqn:Hs; [|done]. exists p, secret.
  unfold signing_key_env in Hp. destruct (var _) as [q|]; [|done].
  destruct (str_is_empty (trim q)); [done|]. split; [done|]. split; [done|]. by injection Hl.
Qed.

Lemma mint_token_decodes var signer now entropy org scopes ttl token :
  token_validate_config var = Ok signer ->
  mint_token signer now entropy org scopes ttl = Some token ->
  exists point bytes,
    published (jwks signer) signer.(sg_kid) point /\ entropy = Some bytes
    /\ jwt_decode point token = Some (signer.(sg_kid), minted now bytes org scopes ttl)
    /\ String.length signer.(sg_kid) = 16%nat
    /\ all_bytes lower_hex_byte signer.(sg_kid) = true /\ 1 <= ttl <= 900.
Proof.
  intros Hcfg Hmint.
  destruct (configured_signer _ _ Hcfg) as (_ & secret & _ & _ & ->).
  unfold mint_token, try_mint_token in Hmint.
  destruct (mint_with _ _ _ _ _ _ _) as [t|e] eqn:Hm; [|done]. injection Hmint as ->.
  unfold mint_with in Hm. apply rbind_ok in Hm as (u & Httl & Hm).
  apply rbind_ok in Hm as (jti & Hj & Hm). apply ok_or_ok in Hm.
  apply rbind_ok in Hj as (bytes & Hb%ok_or_ok & [= <-]).
  unfold validate_ttl in Httl. apply reject_ok in Httl as [Httl _].
  exists (point_x secret, point_y secret), bytes. split; [|split; [done|split; [by apply jwt_roundtrip|]]].
  - exists (sg_jwk (from_secret secret)). eexists _, _. split_and!; try reflexivity;
      apply b64url_roundtrip.
  - assert (Hk : exists d, String.length d = 8%nat /\ sg_kid (from_secret secret) = hex_lower d).
    { eexists. split; [|reflexivity]. apply prefix_length. rewrite sha256_length. lia. }
    destruct Hk as (d & Hd & ->). rewrite hex_lower_length, Hd.
    split; [done|]. split; [apply hex_lower_all|].
    apply negb_false_iff in Httl. by rewrite andb_true_iff, !N.leb_le in Httl.
Qed.

(** A minted token verifies offline: the key set a replica serves holds one
    key, whose id is sixteen hex digits and stands in the header of every
    token the replica mints, and whose point, decoded from the set, verifies
    the token; what comes out are the claims of the exchange: the
    organization as tenant and subject, the scopes, the fixed issuer and
    audience, and an expiry at most fifteen minutes after the issue. *)
Theorem minted_token_verifies_offline var signer now entropy org scopes ttl token :
  token_validate_config var = Ok signer ->
  mint_token signer now entropy org scopes ttl = Some token ->
  exists point claims,
    published (jwks signer) signer.(sg_kid) point
    /\ jwt_decode point token = Some (signer.(sg_kid), claims)
    /\ String.length signer.(sg_kid) = 16%nat
    /\ all_bytes lower_hex_byte signer.(sg_kid) = true
    /\ claims.(c_sub) = org /\ claims.(c_org_id) = org /\ claims.(c_scopes) = scopes
    /\ claims.(c_iss) = ISSUER /\ claims.(c_aud) = AUDIENCE /\ claims.(c_iat) = now
    /\ claims.(c_exp) <= now + ttl /\ 1 <= ttl <= 900.
Proof.
  intros Hcfg Hmint.
  destruct (mint_token_decodes _ _ _ _ _ _ _ _ Hcfg Hmint)
    as (point & bytes & Hpub & _ & Hdec & Hlen & Hhex & Httl).
  exists point, (minted now bytes org scopes ttl). do 10 (split; [done|]).
  split; [apply N.le_min_l|done].
Qed.
End facts.
