(* ===== verification/SignerRun.v ===== *)
(** * The signer on concrete inputs

    A signature scheme whose tokens spell out what they sign, and the witness
    of offline verification. *)
From Stdlib Require Import Ascii String.
From stdpp Require Import countable.
From S2P Require Import Prelude Text Wire Samples Json Token Net Signer.

#[export] Instance Claims_eq_dec : EqDecision Claims.
Proof. solve_decision. Defined.
#[export] Instance Claims_countable : Countable Claims.
Proof.
  apply (inj_countable'
    (fun c => (c.(c_sub), c.(c_org_id), c.(c_scopes), c.(c_iss), c.(c_aud), c.(c_iat), c.(c_exp), c.(c_jti)))
    (fun t => match t with
              | (sub, org, scopes, iss, aud, iat, exp, jti) =>
                  {| c_sub := sub; c_org_id := org; c_scopes := scopes; c_iss := iss; c_aud := aud;
                     c_iat := iat; c_exp := exp; c_jti := jti |}
              end)).
  by intros [].
Defined.

(** Bit strings. *)
Fixpoint spell (p : positive) : string :=
  match p with
  | xH => "."%string
  | xO p => String "0" (spell p)
  | xI p => String "1" (spell p)
  end.
Fixpoint unspell (s : string) : option positive :=
  match s with
  | String a EmptyString => if Ascii.eqb a "." then Some xH else None
  | String a r => p ← unspell r; Some (if Ascii.eqb a "1" then xI p else xO p)
  | EmptyString => None
  end.
Lemma spell_unspell p : unspell (spell p) = Some p.
Proof.
  induction p as [p IH|p IH|]; [| |done]; cbn [spell unspell];
    (destruct (spell p); [done|]); by rewrite IH.
Qed.

(** The key is its own public point; a token is prefixed by it. *)
#[export] Instance spelled_es256 : Es256 := {
  SecretKey := string;
  from_pkcs8_pem pem := if str_is_empty pem then None else Some pem;
  point_x key := key;
  point_y key := key;
  jwt_encode key kid claims := Some (spell (encode (key, kid, claims)));
  jwt_decode point token :=
    p ← unspell token;
    '(key, kid, claims) ← decode (A:=string * string * Claims) p;
    if bool_decide (key = point.1) then Some (kid, claims) else None
}.
#[export] Instance spelled_es256_laws : Es256Laws.
Proof.
  intros key kid claims token [= <-]. unfold jwt_decode, spelled_es256.
  rewrite spell_unspell. cbn [mbind option_bind]. rewrite decode_encode. cbn [mbind option_bind].
  by rewrite bool_decide_true.
Qed.

Definition signer_env : string -> option string := fun name =>
  if (name =? "FIDUCIA_JWT_SIGNING_KEY")%string then Some " key "%string else None.
Definition sample_signer : Signer := from_secret ("key"%string : SecretKey).

Lemma minted_token_verifies_offline_witness :
  exists token point claims,
    mint_token sample_signer 1000 (Some "0123456789abcdef"%string) "org" ["kv:read"%string] 900 = Some token
    /\ published (jwks sample_signer) sample_signer.(sg_kid) point
    /\ jwt_decode point token = Some (sample_signer.(sg_kid), claims)
    /\ claims.(c_org_id) = "org"%string.
Proof.
  assert (Hcfg : token_validate_config signer_env = Ok sample_signer) by (vm_compute; reflexivity).
  assert (Hm : exists token,
    mint_token sample_signer 1000 (Some "0123456789abcdef"%string) "org" ["kv:read"%string] 900 = Some token)
    by (eexists; reflexivity).
  destruct Hm as [token Hm].
  destruct (minted_token_verifies_offline signer_env sample_signer _ _ _ _ _ _ Hcfg Hm)
    as (point & claims & Hp & Hd & _ & _ & _ & Ho & _).
  exists token, point, claims. split; [exact Hm|]. split; [exact Hp|]. split; [exact Hd|exact Ho].
Defined.
