(* ===== verification/Startup.v ===== *)
(** * Start-up

    [main] of [src/src/main.rs] up to the point where it serves, the container
    entry point [src/src/bin/fiducia-auth-production-entrypoint.rs], and the
    ports of the services.  Telemetry, sockets and [exec] are the system's. *)
From Stdlib Require Import Ascii String.
From S2P Require Import Prelude Text Wire Samples Json Token Kv Model Store Keys KeyFacts Net ProtectedState.
From S2P Require Import SupabasePolicy Supabase SupabaseFacts SessionTraffic Telemetry Sync Signer AuthServer.

(** ** The production entry point *)

(** [run]: the environment of the server it starts, or the refusal. *)
Definition production_run (var : string -> option string)
  : result RemoteUserinfoPolicyError (string -> option string) :=
  let? (mode, allow_remote_userinfo) := remote_userinfo_policy_from_env var in
  Ok (fun name =>
        if (name =? DEPLOYMENT_MODE_ENV)%string then Some (mode_as_str mode)
        else if (name =? REMOTE_USERINFO_ENV)%string
             then Some (if allow_remote_userinfo then "true" else "false")%string
        else var name).

Definition AUTH_BINARY : string := "/usr/local/bin/fiducia-auth".
(** What becomes of the guard's process: [exec] replaces it, or it exits. *)
Inductive Process :=
  | Replaced (binary : string) (env : string -> option string)
  | Exited (code : N).
(** [main]; [command_exec] only returns with an error. *)
Definition entrypoint_main (var : string -> option string)
    (command_exec : string -> (string -> option string) -> option string) : Process :=
  match production_run var with
  | Err _ => Exited 78
  | Ok env =>
      match command_exec AUTH_BINARY env with
      | None => Replaced AUTH_BINARY env
      | Some _ => Exited 78
      end
  end.

Lemma policy_preserved var child :
  production_run var = Ok child ->
  remote_userinfo_policy_from_env child = remote_userinfo_policy_from_env var
  /\ (exists mode allow, remote_userinfo_policy_from_env child = Ok (mode, allow)
      /\ (mode = Production -> allow = false))
  /\ forall name, name <> DEPLOYMENT_MODE_ENV -> name <> REMOTE_USERINFO_ENV -> child name = var name.
Proof.
  unfold production_run. intros Hr. apply rbind_ok in Hr as ([mode allow] & Hp & [= <-]).
  set (child := fun name : string => if (name =? DEPLOYMENT_MODE_ENV)%string then _ else _).
  assert (Hother : forall name, name <> DEPLOYMENT_MODE_ENV -> name <> REMOTE_USERINFO_ENV ->
            child name = var name).
  { intros name H1 H2. unfold child.
    by rewrite (proj2 (String.eqb_neq _ _) H1), (proj2 (String.eqb_neq _ _) H2). }
  assert (Hallow : mode = Production -> allow = false).
  { intros ->. destruct allow; [|done].
    by destruct (policy_allows _ _ _ _ Hp) as (Hm & _). }
  assert (Hchild : remote_userinfo_policy_from_env child = Ok (mode, allow)).
  { unfold remote_userinfo_policy_from_env.
    assert (env_value child PUBLISHABLE_KEY_ENV = env_value var PUBLISHABLE_KEY_ENV) as ->
      by (unfold env_value; by rewrite Hother).
    assert (env_value child DEPLOYMENT_MODE_ENV = Some (mode_as_str mode)) as -> by by destruct mode.
    assert (env_value child REMOTE_USERINFO_ENV = Some (if allow then "true" else "false")%string)
      as -> by by destruct allow.
    unfold remote_userinfo_policy_from_values. rewrite mode_roundtrip. cbn [rbind].
    destruct allow.
    - destruct (policy_allows _ _ _ _ Hp) as (Hm & _ & ->).
      change (parse_optional_bool REMOTE_USERINFO_ENV (Some "true"%string))
        with (Ok (E:=RemoteUserinfoPolicyError) (Some true)). cbn [rbind default].
      by rewrite bool_decide_false.
    - change (parse_optional_bool REMOTE_USERINFO_ENV (Some "false"%string))
        with (Ok (E:=RemoteUserinfoPolicyError) (Some false)). cbn [rbind default].
      by rewrite andb_false_r. }
  split; [by rewrite Hchild|]. split; [|exact Hother]. by exists mode, allow.
Qed.

(** C34: The guard and the server agree: when the guard starts the server, the
    environment it passes on parses to exactly the policy the guard decided,
    which is the one of its own environment, and every other variable is
    passed unchanged; so the server's own check cannot refuse or widen what
    the guard accepted.  The policy then holds of the server's traffic: a
    verification with the registry of that environment, whatever the token
    and the network, sends a session to the remote user endpoint only when
    the guard's environment asked for it outside production, with a
    publishable key. *)
Theorem entrypoint_policy_preserved `{!Crypto, !FromSlice Value, !JsonWebToken, !SpecsJson}
    var command_exec binary child :
  entrypoint_main var command_exec = Replaced binary child ->
  binary = AUTH_BINARY
  /\ remote_userinfo_policy_from_env child = remote_userinfo_policy_from_env var
  /\ (forall name, name <> DEPLOYMENT_MODE_ENV -> name <> REMOTE_USERINFO_ENV -> child name = var name)
  /\ forall jwt tr answer, exec (verify_session (registry_from_env child) jwt) tr answer ->
       user_fetches tr <> 0%nat -> remote_allowed var.
Proof.
  unfold entrypoint_main. destruct (production_run var) as [env|] eqn:Hr; [|done].
  destruct (command_exec _ _); [done|]. intros [= <- <-].
  apply policy_preserved in Hr as (Hpol & _ & Hother). split; [done|]. split; [done|]. split; [done|].
  intros jwt tr answer He Hn.
  apply (asks_user_endpoint _ _ _ _ He) in Hn as (projects & p & Hreg & Hsel & Ha).
  assert (Hin : p ∈ projects) by by (destruct (token_routed _ _ _ _ Hreg Hsel) as [[-> _]|(_ & _ & ? & _)];
    [apply list_elem_of_singleton|]).
  destruct (registry_remote _ _ _ Hreg Hin Ha) as [_ (mode & Hm & Hne & Hk)].
  exists mode. rewrite <- Hpol. split; [done|]. split; [done|].
  revert Hk. unfold env_value. by rewrite Hother.
Qed.

(** ** The server *)

Section server.
Context `{Crypto, !Es256, !SpecsJson, !UrlParse, !UrlOrigin, !StatusDisplay}.

Definition REQUEST_TIMEOUT_SECS : N := 15.
Definition MAX_BODY_BYTES : N := 64 * 1024.
Inductive Handler :=
  | H_health | H_jwks | H_me | H_create_key | H_list_keys | H_revoke_key | H_rotate_key
  | H_get_org | H_introspect | H_exchange_token.
Definition server_router (customer_origin : string) : Router Handler :=
  {| rt_routes :=
       [("/healthz", [(GET, H_health)]);
        ("/.well-known/jwks.json", [(GET, H_jwks)]);
        ("/v1/me", [(GET, H_me)]);
        ("/v1/keys", [(POST, H_create_key); (GET, H_list_keys)]);
        ("/v1/keys/:key_id", [(DELETE, H_revoke_key)]);
        ("/v1/keys/:key_id/rotate", [(POST, H_rotate_key)]);
        ("/v1/orgs/:org_id", [(GET, H_get_org)]);
        ("/v1/introspect", [(POST, H_introspect)]);
        ("/v1/token", [(POST, H_exchange_token)])]%string;
     rt_layers :=
       [TraceLayer; TimeoutLayer REQUEST_TIMEOUT_SECS; RequestBodyLimitLayer MAX_BODY_BYTES;
        CatchPanicLayer; Cors (customer_cors_layer customer_origin)] |}.

Inductive BootError :=
  | Boot_Token (e : TokenConfigError)
  | Boot_Supabase
  | Boot_Config (message : string)
  | Boot_Store (e : StoreError)
  | Boot_Sync (message : string).
Record Server := {
  sv_state : AppState;
  sv_signer : Signer;
  sv_router : Router Handler;
  sv_sync : SyncConfig;
  sv_orgs : OrgCache;
  sv_port : N
}.

(** [std::env::var(name).ok()]. *)
Definition env_ok (var : string -> result VarError string) (name : string) : option string :=
  match var name with
  | Ok value => Some value
  | Err _ => None
  end.

(** [main] until it serves; [initial] is the reply of the first pull. *)
Definition server_main (var : string -> result VarError string)
    (initial : http_reply (list Value)) : result BootError Server :=
  let? signer := map_err Boot_Token (token_validate_config (env_ok var)) in
  reject negb (validate_config (env_ok var)) with Boot_Supabase ;;
  let? introspect_secret := map_err Boot_Config (introspect_secret_from_env var) in
  let? rotation_overlap_seconds := map_err Boot_Config (rotation_overlap_seconds_from_env var) in
  let? (keys, _) := map_err Boot_Store (keystore_from_env (env_ok var)) in
  let? customer_origin := map_err Boot_Config (customer_origin_from_env (env_ok var)) in
  let? (config, orgs) := map_err Boot_Sync (sync_start (env_ok var) initial) in
  Ok {| sv_state := {| as_keys := keys; as_introspect_secret := introspect_secret;
                       as_rotation_overlap_seconds := rotation_overlap_seconds |};
        sv_signer := signer;
        sv_router := server_router customer_origin;
        sv_sync := config; sv_orgs := orgs;
        sv_port := port_or (env_ok var) "PORT" 8097 |}.

Lemma introspect_secret_ok var secret :
  introspect_secret_from_env var = Ok secret ->
  32 <= str_len secret /\ trim secret = secret /\ any_control secret = false
  /\ any_whitespace secret = false /\ str_mem "," secret = false.
Proof.
  unfold introspect_secret_from_env. destruct (var _) as [value|[]]; [|done..].
  intros [_ [Hs [= <-]]%reject_ok]%reject_ok.
  rewrite !orb_false_iff, negb_false_iff, String.eqb_eq, N.ltb_ge in Hs.
  unfold MIN_INTROSPECT_SECRET_BYTES in Hs. tauto.
Qed.
Lemma rotation_overlap_ok var seconds :
  rotation_overlap_seconds_from_env var = Ok seconds -> 1 <= seconds <= u64_max.
Proof.
  unfold rotation_overlap_seconds_from_env. destruct (var _) as [value|[]]; [|by intros [= <-]|done].
  intros (n & Hn%ok_or_ok%parse_unsigned_bound & [Hz%N.eqb_neq [= <-]]%reject_ok)%rbind_ok. lia.
Qed.
Lemma keystore_ok var keys client :
  keystore_from_env var = Ok (keys, client) ->
  keys.(ks_kv) = true
  /\ Forall (fun secret => 32 <= str_len secret /\ any_whitespace secret = false)
       [keys.(ks_idempotency_secret); keys.(ks_api_key_pepper)].
Proof.
  unfold keystore_from_env.
  intros (i & (i' & _ & [Hi [= ->]]%reject_ok)%rbind_ok
          & (p & (p' & _ & [Hp [= ->]]%reject_ok)%rbind_ok & [_ Hk]%reject_ok)%rbind_ok)%rbind_ok.
  apply rbind_ok in Hk as (kv & _ & [= <- <-]).
  rewrite orb_false_iff, N.ltb_ge in Hi, Hp.
  split; [done|]. apply List.Forall_forall. by intros x [<-|[<-|[]]].
Qed.
Lemma customer_origin_ok value origin :
  customer_origin_from value = Ok origin ->
  all_bytes header_byte origin = true
  /\ exists parsed, url_parse (trim (default "https://app.fiducia.cloud"%string value)) = Some parsed
     /\ origin = url_origin parsed /\ is_Some parsed.(url_host_str)
     /\ (parsed.(url_scheme) = "http"%string \/ parsed.(url_scheme) = "https"%string)
     /\ parsed.(url_username) = ""%string /\ parsed.(url_password) = None
     /\ parsed.(url_path) = "/"%string /\ parsed.(url_query) = None /\ parsed.(url_fragment) = None.
Proof.
  unfold customer_origin_from.
  intros (u & Hu%ok_or_ok & [Hs [Hb%negb_false_iff [= <-]]%reject_ok]%reject_ok)%rbind_ok.
  split; [done|]. exists u. split; [done|]. split; [done|].
  rewrite !orb_false_iff, !negb_false_iff, orb_true_iff, !String.eqb_eq, !bool_decide_eq_false in Hs.
  rewrite !eq_None_not_Some. destruct Hs as ((((((Hsch & Hh) & Hn) & Hpw) & Hp) & Hq) & Hf).
  split_and!; try done; [by rewrite <- not_eq_None_Some|]. by destruct (url_username u).
Qed.

Lemma router_ok origin : route_table_ok (server_router origin).
Proof. split; apply (bool_decide_unpack _); reflexivity. Qed.
Lemma router_methods origin :
  methods_of (server_router origin) ⊆ (customer_cors_layer origin).(cors_methods).
Proof. by intros []; repeat constructor. Qed.

(** C33: The server only starts in a safe configuration: the key it signs with
    is the configured one, parsed; the Supabase registry is one project without
    surface restrictions, or projects with pairwise distinct names and issuers
    that are each bound to known surfaces; the introspection secret has at
    least 32 bytes, no blank, no control character and no comma, so that one
    header can carry it; rotation, key and idempotency secrets are in range;
    keys live in the shared store, never in a replica's memory; browsers of
    exactly one origin are allowed in, without wildcard, for the methods its
    routes answer; no route is registered twice; and the organizations were
    pulled before the first request. *)
Theorem server_starts_configured var initial sv :
  server_main var initial = Ok sv ->
  let state := sv.(sv_state) in
  (exists pem key, env_ok var "FIDUCIA_JWT_SIGNING_KEY"%string = Some pem
     /\ from_pkcs8_pem (trim pem) = Some key /\ sv.(sv_signer).(sg_encoding) = key)
  /\ (exists projects, registry_from_env (env_ok var) = Ok projects /\ projects <> []
      /\ ((exists only, projects = [only] /\ only.(sb_surfaces) = []) \/ isolated projects))
  /\ 32 <= str_len state.(as_introspect_secret) /\ str_mem "," state.(as_introspect_secret) = false
  /\ any_whitespace state.(as_introspect_secret) = false
  /\ any_control state.(as_introspect_secret) = false
  /\ 1 <= state.(as_rotation_overlap_seconds) <= u64_max
  /\ state.(as_keys).(ks_kv) = true
  /\ Forall (fun secret => 32 <= str_len secret /\ any_whitespace secret = false)
       [state.(as_keys).(ks_idempotency_secret); state.(as_keys).(ks_api_key_pepper)]
  /\ route_table_ok sv.(sv_router)
  /\ (exists parsed cors, list.last sv.(sv_router).(rt_layers) = Some (Cors cors)
      /\ cors.(cors_origin) = url_origin parsed /\ methods_of sv.(sv_router) ⊆ cors.(cors_methods)
      /\ is_Some parsed.(url_host_str)
      /\ (parsed.(url_scheme) = "http"%string \/ parsed.(url_scheme) = "https"%string)
      /\ parsed.(url_path) = "/"%string)
  /\ (exists rows, good_rows sv.(sv_sync) initial rows
      /\ sv.(sv_orgs) = rows_by_id sv.(sv_sync).(sy_id_column) rows).
Proof.
  unfold server_main.
  intros (signer & Hsigner%map_err_ok & [Hreg (secret & Hsecret%map_err_ok & (overlap & Hover%map_err_ok &
    ([keys client] & Hkeys%map_err_ok & (origin & Horigin%map_err_ok &
    ([config orgs] & Hsync%map_err_ok & [= <-])%rbind_ok)%rbind_ok)%rbind_ok)%rbind_ok)%rbind_ok]
    %reject_ok)%rbind_ok.
  apply introspect_secret_ok in Hsecret as (Hlen & _ & Hctl & Hws & Hcomma).
  apply rotation_overlap_ok in Hover. apply keystore_ok in Hkeys as [Hkv Hks].
  apply customer_origin_ok in Horigin as (_ & parsed & _ & -> & Hh & Hsch & _ & _ & Hpath & _).
  unfold sync_start in Hsync. apply rbind_ok in Hsync as (c & _ & Hsync).
  apply rbind_ok in Hsync as (first & Hfirst%pull_reply_ok & [= <- <-]).
  cbn [sv_state sv_sync sv_orgs sv_router as_introspect_secret as_rotation_overlap_seconds as_keys].
  split.
  { destruct (configured_signer _ _ Hsigner) as (pem & key & Hpem & Hkey & ->). by exists pem, key. }
  split.
  { apply negb_false_iff, is_ok_true in Hreg as [projects Hp]. exists projects. split; [done|].
    destruct (registry_shape _ _ Hp) as [(only & -> & Hs)|[Hne Hiso]]; split; try done; [|by right].
    left. by exists only. }
  do 7 (split; [done|]). split; [by apply router_ok|].
  split; [|exact Hfirst]. exists parsed. eexists. split; [reflexivity|]. split; [done|].
  split; [by apply router_methods|done].
Qed.
End server.
