(* ===== verification/StartupRun.v ===== *)
(** * Start-up on a concrete environment *)
From Stdlib Require Import Ascii String.
From S2P Require Import Prelude Text Wire Samples Json Token Kv Model Store Keys KeyFacts Net ProtectedState.
From S2P Require Import SupabasePolicy Supabase SupabaseFacts SessionTraffic Telemetry SupabaseRun Sync Signer SignerRun.
From S2P Require Import AuthServer Startup.

(** The one URL the environment holds. *)
#[local] Instance app_url : UrlParse := fun s =>
  if (s =? "https://app.fiducia.cloud")%string then
    Some {| url_scheme := "https"; url_username := ""; url_password := None;
            url_host_str := Some "app.fiducia.cloud"; url_path := "/"; url_query := None;
            url_fragment := None |}%string
  else None.
#[local] Instance app_origin : UrlOrigin := fun url =>
  url.(url_scheme) +:+ "://" +:+ default ""%string url.(url_host_str).

Definition secret32 : string := "0123456789abcdef0123456789abcdef".
Definition server_env : string -> result VarError string := fun name =>
  if bool_decide (name ∈ ["FIDUCIA_INTROSPECT_SECRET"; "FIDUCIA_KEY_IDEMPOTENCY_SECRET";
                          "CUSTOMER_API_KEY_PEPPER"; "FIDUCIA_INTERNAL_SECRET"]%string)
  then Ok secret32
  else if (name =? "FIDUCIA_JWT_SIGNING_KEY")%string then Ok "key"%string
  else if (name =? "SUPABASE_URL")%string then Ok "https://db.example.org/"%string
  else if (name =? "SUPABASE_SERVICE_ROLE_KEY")%string then Ok "service"%string
  else if (name =? "FIDUCIA_KV_URL")%string then Ok "http://kv"%string
  else Err NotPresent.

Lemma server_starts_configured_witness :
  exists sv, server_main server_env good_pull = Ok sv /\ sv.(sv_port) = 8097
  /\ sv.(sv_state).(as_keys).(ks_kv) = true.
Proof.
  assert (Hs : exists sv, server_main server_env good_pull = Ok sv /\ sv.(sv_port) = 8097)
    by (eexists; split; vm_compute; reflexivity).
  destruct Hs as (sv & Hs & Hp). exists sv. split; [exact Hs|]. split; [exact Hp|].
  destruct (server_starts_configured server_env good_pull sv Hs) as (_ & _ & _ & _ & _ & _ & _ & Hkv & _).
  exact Hkv.
Defined.

Definition staging_env : string -> option string := fun name =>
  if (name =? DEPLOYMENT_MODE_ENV)%string then Some " Stage "%string
  else if (name =? REMOTE_USERINFO_ENV)%string then Some "yes"%string
  else if (name =? PUBLISHABLE_KEY_ENV)%string then Some "pk"%string
  else None.
Definition exec_succeeds (binary : string) (env : string -> option string) : option string := None.
Lemma entrypoint_policy_preserved_witness :
  exists child, entrypoint_main staging_env exec_succeeds = Replaced AUTH_BINARY child
  /\ remote_userinfo_policy_from_env child = Ok (Staging, true)
  /\ forall jwt tr answer, exec (verify_session (registry_from_env child) jwt) tr answer ->
       user_fetches tr <> 0%nat -> remote_allowed staging_env.
Proof.
  assert (Hr : exists child,
    entrypoint_main staging_env exec_succeeds = Replaced AUTH_BINARY child) by (eexists; reflexivity).
  destruct Hr as [child Hr]. exists child. split; [exact Hr|].
  destruct (entrypoint_policy_preserved staging_env exec_succeeds AUTH_BINARY child Hr)
    as (_ & Hp & _ & Ht).
  split; [rewrite Hp; reflexivity|exact Ht].
Defined.
(** An environment the guard refuses, and an [exec] that fails. *)
Example entrypoint_refuses :
  entrypoint_main (fun name => if (name =? REMOTE_USERINFO_ENV)%string then Some "true"%string else None)
    exec_succeeds = Exited 78
  /\ entrypoint_main staging_env (fun _ _ => Some "not found"%string) = Exited 78.
Proof. split; reflexivity. Qed.
