(* ===== verification/ErrorText.v ===== *)
(** * The text of errors

    The [Display] implementations the program writes itself, for the errors it
    logs: [src/src/supabase.rs], [src/src/supabase_policy.rs],
    [src/src/token.rs] and the container entry point (that of the revocation
    cache is in [RevocationCache.v]).  What the standard library prints for a quoted value or an enum
    ([{:?}]) and [http] for a status is a parameter. *)
From Stdlib Require Import Ascii String.
From S2P Require Import Prelude Text Wire Json Token ProtectedState.
From S2P Require Import SupabasePolicy Supabase Sync Startup.

(** [{:?}] of a string, an optional string and an algorithm. *)
Class DebugText := {
  debug_text : string -> string;
  debug_option : option string -> string;
  debug_algorithm : Algorithm -> string
}.

(** ** [token.rs] *)

Definition mint_error_text (self : MintError) : string :=
  match self with
  | InvalidTtl requested maximum =>
      "access-token TTL " +:+ decimal requested +:+ "s is outside the allowed 1..="
      +:+ decimal maximum +:+ "s range"
  | EntropyUnavailable => "operating-system entropy is unavailable"
  end.
Definition record_error_text (self : RevocationRecordError) : string :=
  match self with
  | UnsupportedVersion => "unsupported revocation record version"
  | WrongIssuer => "revocation issuer is outside this token class"
  | WrongAudience => "revocation audience is outside this token class"
  | InvalidField field => "invalid revocation field " +:+ field
  | InvalidWindow => "invalid revocation time window"
  | WindowTooLong => "revocation time window exceeds policy"
  end.

(** ** Supabase *)

Section text.
Context `{DebugText, !StatusDisplay}.

Definition policy_error_text (self : RemoteUserinfoPolicyError) : string :=
  match self with
  | InvalidDeploymentMode value =>
      DEPLOYMENT_MODE_ENV +:+ " must be production, staging, development, or test; got "
      +:+ debug_text value
  | InvalidBoolean name value => name +:+ " has invalid boolean value " +:+ debug_text value
  | ForbiddenInProduction =>
      REMOTE_USERINFO_ENV +:+ "=true is forbidden when " +:+ DEPLOYMENT_MODE_ENV
      +:+ "=production; migrate to asymmetric JWKS signing or use a non-production migration environment"
  | PolicyMissingPublishableKey =>
      PUBLISHABLE_KEY_ENV +:+ " is required when remote userinfo compatibility is explicitly enabled"
  end.
Definition verify_error_text (self : VerifyError) : string :=
  match self with
  | VE_EmptyJwks => "supabase jwks endpoint returned no keys"
  | VE_Http error => "supabase http error: " +:+ error
  | VE_InvalidToken reason => "invalid token: " +:+ reason
  | VE_Jwt error => "jwt verification error: " +:+ error
  | VE_MissingJwk => "jwks key not found"
  | VE_MissingPublishableKey =>
      "SUPABASE_PUBLISHABLE_KEY is required for remote auth verification"
  | VE_MissingConfiguration message => message
  | VE_RemoteUserinfoPolicy error => policy_error_text error
  | VE_RejectedBySupabase => "supabase rejected bearer token"
  | VE_SupabaseStatus status =>
      "supabase auth returned unexpected status " +:+ status_display status
  | VE_SymmetricJwk => "refusing to verify JWT with symmetric jwk"
  | VE_UnexpectedAudience aud => "unexpected audience " +:+ debug_option aud
  | VE_UnexpectedAssurance aal =>
      "unexpected authenticator assurance level " +:+ debug_text aal
  | VE_UnexpectedRole role => "unexpected role " +:+ debug_option role
  | VE_UnknownIssuer => "token issuer is not a configured project"
  | VE_UnsupportedAlgorithm alg => "unsupported jwt signing algorithm " +:+ debug_algorithm alg
  end.

(** ** The entry point *)

(** [StartupPolicyError] on Unix; an [std::io::Error] by its own text. *)
Inductive StartupPolicyError :=
  | Startup_Policy (error : RemoteUserinfoPolicyError)
  | Startup_Exec (error : string).
Definition startup_error_text (self : StartupPolicyError) : string :=
  match self with
  | Startup_Policy error => policy_error_text error
  | Startup_Exec error => "could not execute " +:+ AUTH_BINARY +:+ ": " +:+ error
  end.

(** A token that is turned away before its signature is looked at is logged
    with one of three texts, whatever it claims: nothing of it is echoed. *)
Theorem routing_echoes_nothing `{!Crypto, !FromSlice Value} projects jwt e :
  (str_is_empty (trim jwt) = true /\ e = VE_InvalidToken "empty bearer token")
  \/ select projects jwt = Err e ->
  verify_error_text e ∈ ["invalid token: empty bearer token"; "invalid token: missing issuer claim";
                         "token issuer is not a configured project"]%string.
Proof.
  assert (Hby : forall issuer : result VerifyError string,
    (issuer = Err (VE_InvalidToken "missing issuer claim") \/ exists i, issuer = Ok i) ->
    (let? i := issuer in
     ok_or (List.find (fun project => (project.(sb_issuer) =? i)%string) projects) VE_UnknownIssuer)
    = Err e ->
    e = VE_InvalidToken "missing issuer claim" \/ e = VE_UnknownIssuer).
  { intros issuer [->|[i ->]]; cbn [rbind]; [intros [= <-]; by left|].
    destruct (List.find _ _); cbn [ok_or]; [done|]. intros [= <-]. by right. }
  intros [[_ ->]|Hs]; [apply list_elem_of_here|].
  assert (He : e = VE_InvalidToken "missing issuer claim" \/ e = VE_UnknownIssuer).
  { apply (Hby (ok_or (unverified_issuer jwt) (VE_InvalidToken "missing issuer claim"))).
    - destruct (unverified_issuer jwt) as [i|]; [right; by exists i|by left].
    - unfold select in Hs. destruct projects as [|only [|]]; [done| |done].
      by destruct (sb_surfaces only). }
  destruct He as [->| ->]; cbn; set_solver.
Qed.
End text.
