(* ===== verification/RevocationAdmin.v ===== *)
(** * The revocation admin service
    ([src/src/bin/fiducia-revocation-admin.rs])

    Start-up, the request guards and the three handlers, each a program over
    the revocation store.  Sockets, routing, body limits and time limits are
    axum and tower-http. *)
From Stdlib Require Import Ascii String.
From S2P Require Import Prelude Text Wire Samples Json Token Kv Model Store Keys Net.
From S2P Require Import Ledger RevocationStore.

Definition SERVICE : string := "fiducia-revocation-admin".
Definition DEFAULT_PORT : N := 8098.
Definition MIN_SECRET_BYTES : N := 32.
Definition ADMIN_AUTH_HEADER : string := "x-revocation-admin-auth".
Definition READER_AUTH_HEADER : string := "x-revocation-reader-auth".
Definition ACTOR_HEADER : string := "x-fiducia-actor".
Definition u16_max : N := 65535.

Record AppState := {
  st_revocations : RevocationStore;
  st_admin_secret : string;
  st_reader_secret : string
}.

(** ** Start-up *)

Definition validate_secret (name value : string) : result string string :=
  reject (str_len value <? MIN_SECRET_BYTES) || (any_control value || any_whitespace value)
    with (name +:+ " must contain at least " +:+ decimal MIN_SECRET_BYTES
          +:+ " non-whitespace bytes") ;;
  Ok value.
Definition required_secret (var : string -> result VarError string) (name : string)
  : result string string :=
  let? value := map_err (fun _ => name +:+ " must be configured") (var name) in
  validate_secret name value.

Definition port_from_env (var : string -> result VarError string) : result string N :=
  match var "FIDUCIA_REVOCATION_PORT"%string with
  | Err NotPresent => Ok DEFAULT_PORT
  | Err NotUnicode => Err "FIDUCIA_REVOCATION_PORT must be valid UTF-8"%string
  | Ok value =>
      let? port := ok_or (parse_unsigned u16_max (trim value))
                     "FIDUCIA_REVOCATION_PORT must be a valid non-zero TCP port"%string in
      reject port =? 0 with "FIDUCIA_REVOCATION_PORT must be a valid non-zero TCP port"%string ;;
      Ok port
  end.

(** [RevocationStore::from_env]: always with a [KvClient]. *)
Definition revocation_store_from_env (var : string -> result VarError string)
  : result StoreError RevocationStore :=
  let? _ := kv_client_from_env (fun name => match var name with
                                            | Ok value => Some value
                                            | Err _ => None
                                            end) in
  Ok {| rs_kv := true |}.

(** What [main] does before it serves: the state of the handlers, their routes and the port;
    a store failure keeps its [StoreError]. *)
Definition REQUEST_TIMEOUT_SECS : N := 10.
Definition MAX_BODY_BYTES : N := 32 * 1024.
Inductive Handler := H_health | H_revoke | H_lift | H_check.
Definition admin_router : Router Handler :=
  {| rt_routes :=
       [("/healthz", [(GET, H_health)]);
        ("/v1/revocations/revoke", [(POST, H_revoke)]);
        ("/v1/revocations/lift", [(POST, H_lift)]);
        ("/v1/revocations/check", [(POST, H_check)])]%string;
     rt_layers := [TraceLayer; TimeoutLayer REQUEST_TIMEOUT_SECS;
                   RequestBodyLimitLayer MAX_BODY_BYTES; CatchPanicLayer] |}.
Inductive StartError := Start_Config (message : string) | Start_Store (e : StoreError).
Definition admin_main (var : string -> result VarError string) : result StartError (AppState * Router Handler * N) :=
  let? admin_secret := map_err Start_Config (required_secret var "FIDUCIA_REVOCATION_ADMIN_SECRET") in
  let? reader_secret :=
    map_err Start_Config (required_secret var "FIDUCIA_REVOCATION_READER_SECRET") in
  reject constant_time_eq admin_secret reader_secret
    with Start_Config "revocation admin and reader secrets must be distinct" ;;
  let? revocations := map_err Start_Store (revocation_store_from_env var) in
  let? port := map_err Start_Config (port_from_env var) in
  Ok ({| st_revocations := revocations; st_admin_secret := admin_secret;
         st_reader_secret := reader_secret |}, admin_router, port).

(** ** Guards *)

Definition authorized (headers : HeaderMap) (name expected : string) : bool :=
  match header_str headers name with
  | Some provided => constant_time_eq provided expected
  | None => false
  end.
Definition required_actor (headers : HeaderMap) : result string string :=
  let? actor := ok_or (trim <$> header_str headers ACTOR_HEADER) "actor_required"%string in
  reject str_is_empty actor || (128 <? str_len actor) || any_control actor
    with "invalid_actor"%string ;;
  Ok actor.
Definition required_idempotency_key (headers : HeaderMap) : result string string :=
  let? key := ok_or (trim <$> header_str headers "idempotency-key") "idempotency_key_required"%string in
  reject str_is_empty key || (128 <? str_len key) || (any_control key || any_whitespace key)
    with "invalid_idempotency_key"%string ;;
  Ok key.

(** ** Responses *)

Definition no_store (value : Value) : HttpResponse :=
  {| hr_status := OK; hr_no_store := true; hr_body := value |}.
Definition unauthorized : HttpResponse := json_response UNAUTHORIZED (error_body "unauthorized").
Definition bad_request (code : string) : HttpResponse := json_response BAD_REQUEST (error_body code).
Definition revocation_error (error : RevocationError) : HttpResponse :=
  let (status, code) :=
    match error with
    | RE_InvalidMutation _ | RE_InvalidClaims | RE_Contract _ =>
        (BAD_REQUEST, "invalid_revocation_request"%string)
    | RE_IdempotencyConflict => (CONFLICT, "idempotency_conflict"%string)
    | RE_NotFound => (NOT_FOUND, "revocation_not_found"%string)
    | RE_NotActive => (CONFLICT, "revocation_not_active"%string)
    | RE_TransitionLimit => (CONFLICT, "revocation_transition_limit"%string)
    | RE_Store _ | RE_InvalidLedger | RE_CasRetriesExhausted =>
        (SERVICE_UNAVAILABLE, "storage_unavailable"%string)
    end in
  json_response status (error_body code).

(** ** Handlers *)

Section handlers.
Context `{Crypto, !ToVec RevocationAction, !Serde RevocationLedger,
          !ToJson RevocationSnapshot, !ToJson RevocationDecision}.
Notation handler := (prog memory HttpResponse).

Definition health : HttpResponse :=
  json_response OK (Object [("status", Str "ok"); ("service", Str SERVICE)]%string).

(** [match step { Ok(v) => v, Err(error) => return bad_request(error.0) }]. *)
Definition or_bad_request {A} (r : result string A) (k : A -> handler) : handler :=
  match r with
  | Ok a => k a
  | Err code => Ret (bad_request code)
  end.

Definition snapshot_response (r : result RevocationError RevocationSnapshot) : HttpResponse :=
  match r with
  | Ok snapshot => no_store (Object [("revocation"%string, to_json snapshot)])
  | Err error => revocation_error error
  end.
Definition decision_response (r : result RevocationError RevocationDecision) : HttpResponse :=
  match r with
  | Ok decision => no_store (Object [("decision"%string, to_json decision)])
  | Err error => revocation_error error
  end.

(** [revoke], [lift] and [check]; [now] is what [now_secs] returned. *)
Definition revoke_handler (s : AppState) (headers : HeaderMap) (request : RevokeRequest) (now : N)
  : handler :=
  if negb (authorized headers ADMIN_AUTH_HEADER s.(st_admin_secret)) then Ret unauthorized
  else
    or_bad_request (required_actor headers) (fun actor =>
    or_bad_request (required_idempotency_key headers) (fun idempotency_key =>
    let! r := RevocationStore.revoke s.(st_revocations) request
                {| mi_actor := actor; mi_idempotency_key := idempotency_key |} now in
    Ret (snapshot_response r))).
Definition lift_handler (s : AppState) (headers : HeaderMap) (request : LiftRequest) (now : N)
  : handler :=
  if negb (authorized headers ADMIN_AUTH_HEADER s.(st_admin_secret)) then Ret unauthorized
  else
    or_bad_request (required_actor headers) (fun actor =>
    or_bad_request (required_idempotency_key headers) (fun idempotency_key =>
    let! r := lift s.(st_revocations) request
                {| mi_actor := actor; mi_idempotency_key := idempotency_key |} now in
    Ret (snapshot_response r))).
Definition check_handler (s : AppState) (headers : HeaderMap) (claims : Claims) (now : N)
  : handler :=
  if negb (authorized headers READER_AUTH_HEADER s.(st_reader_secret)) then Ret unauthorized
  else
    let! r := check s.(st_revocations) claims now in
    Ret (decision_response r).
End handlers.
