(* ===== verification/AdminSystem.v ===== *)
(** * The revocation admin service as a whole

    Which request of the revocation store a caller is entitled to, the
    refinement of the handlers by those requests, and what holds of every
    interleaving of the service's traffic. *)
From Stdlib Require Import Ascii String.
From S2P Require Import Prelude Text Wire Samples Json Token Kv Model Store Keys KeyFacts Net.
From S2P Require Import Ledger LedgerFacts SampleCodecs LedgerHistory RevocationStore.
From S2P Require Import RevocationSafety RevocationSystem RevocationAdmin.

(** ** Guards *)

Lemma authorized_iff headers name expected :
  authorized headers name expected = true <-> header_str headers name = Some expected.
Proof.
  unfold authorized. destruct (header_str headers name) as [provided|]; [|done].
  rewrite constant_time_eq_iff. split; [by intros ->|by intros [= ->]].
Qed.

(** The audited identity of a mutation: who acts, and under which key it may
    be retried. *)
Record mutation_headers (headers : HeaderMap) (mutation : MutationIdentity) : Prop := {
  actor_header : exists raw, header_str headers ACTOR_HEADER = Some raw
                 /\ mutation.(mi_actor) = trim raw;
  actor_shape : mutation.(mi_actor) <> ""%string /\ str_len mutation.(mi_actor) <= 128
                /\ any_control mutation.(mi_actor) = false;
  key_header : exists raw, header_str headers "idempotency-key" = Some raw
               /\ mutation.(mi_idempotency_key) = trim raw;
  key_shape : mutation.(mi_idempotency_key) <> ""%string
              /\ str_len mutation.(mi_idempotency_key) <= 128
              /\ any_control mutation.(mi_idempotency_key) = false
              /\ any_whitespace mutation.(mi_idempotency_key) = false
}.

Lemma str_nonempty s : str_is_empty s = false <-> s <> ""%string.
Proof. by destruct s. Qed.

Lemma mutation_headers_iff headers mutation :
  (required_actor headers = Ok mutation.(mi_actor)
   /\ required_idempotency_key headers = Ok mutation.(mi_idempotency_key))
  <-> mutation_headers headers mutation.
Proof.
  unfold required_actor, required_idempotency_key. split.
  - intros [(a & Ha%ok_or_ok & [Hs [= Heq]]%reject_ok)%rbind_ok
            (k & Hk%ok_or_ok & [Hsk [= Hkeq]]%reject_ok)%rbind_ok].
    rewrite !orb_false_iff, N.ltb_ge in Hs. rewrite !orb_false_iff, N.ltb_ge in Hsk.
    destruct mutation as [actor key].
    cbn [mi_actor mi_idempotency_key] in *; subst actor key.
    apply fmap_Some in Ha as (ra & Ha & ->), Hk as (rk & Hk & ->).
    constructor; [by exists ra| |by exists rk|];
      cbn [mi_actor mi_idempotency_key]; rewrite <- str_nonempty; tauto.
  - intros [(ra & Ha & Hra) (Ha1 & Ha2 & Ha3) (rk & Hk & Hrk) (Hk1 & Hk2 & Hk3 & Hk4)].
    destruct mutation as [actor key]; cbn [mi_actor mi_idempotency_key] in *; subst actor key.
    rewrite <- str_nonempty in Ha1, Hk1. rewrite Ha, Hk. split.
    all: apply rbind_ok; eexists; (split; [done|]); apply reject_ok; (split; [|done]).
    all: rewrite !orb_false_iff, N.ltb_ge; tauto.
Qed.

Lemma port_range var port : port_from_env var = Ok port -> 1 <= port <= 65535.
Proof.
  unfold port_from_env. destruct (var _) as [value|[]]; [|by intros [= <-]|done].
  intros (n & Hn%ok_or_ok%parse_unsigned_bound & [Hz%N.eqb_neq [= <-]]%reject_ok)%rbind_ok.
  unfold u16_max in Hn. lia.
Qed.

(** The service only starts with two distinct secrets of at least 32 plain
    bytes, a key-value backend, a usable port and no route given twice: with the secrets distinct,
    no one header value opens both the mutating and the reading surface. *)
Theorem admin_start_safe var s router port :
  admin_main var = Ok (s, router, port) ->
  s.(st_admin_secret) <> s.(st_reader_secret)
  /\ Forall (fun secret => 32 <= str_len secret /\ any_control secret = false
                           /\ any_whitespace secret = false)
      [s.(st_admin_secret); s.(st_reader_secret)]
  /\ s.(st_revocations) = {| rs_kv := true |} /\ 1 <= port <= 65535 /\ route_table_ok router.
Proof.
  assert (Hsecret : forall name secret, required_secret var name = Ok secret ->
    32 <= str_len secret /\ any_control secret = false /\ any_whitespace secret = false).
  { intros name secret (v & _ & [Hs [= <-]]%reject_ok)%rbind_ok.
    rewrite !orb_false_iff, N.ltb_ge in Hs. tauto. }
  unfold admin_main.
  intros (a & Ha%map_err_ok & (r & Hr%map_err_ok & [Hne (st & Hst%map_err_ok &
    (p & Hp%map_err_ok & [= <- <- <-])%rbind_ok)%rbind_ok]%reject_ok)%rbind_ok)%rbind_ok.
  apply rbind_ok in Hst as (client & _ & [= <-]).
  split_and!; cbn [st_admin_secret st_reader_secret st_revocations].
  - intros Heq. by rewrite (proj2 (constant_time_eq_iff a r) Heq) in Hne.
  - repeat constructor; by eapply Hsecret.
  - done.
  - apply port_range in Hp. lia.
  - apply port_range in Hp. lia.
  - split; apply (bool_decide_unpack _); reflexivity.
Qed.

(** ** The handlers refine the revocation store *)

Inductive admin_request :=
  | Admin_revoke (headers : HeaderMap) (request : RevokeRequest) (now : N)
  | Admin_lift (headers : HeaderMap) (request : LiftRequest) (now : N)
  | Admin_check (headers : HeaderMap) (claims : Claims) (now : N).

Section refines.
Context `{Crypto, !ToVec RevocationAction, !Serde RevocationLedger,
          !ToJson RevocationSnapshot, !ToJson RevocationDecision}.
Context (s : AppState).

Definition admin_handle (req : admin_request) : prog memory HttpResponse :=
  match req with
  | Admin_revoke headers request now => revoke_handler s headers request now
  | Admin_lift headers request now => lift_handler s headers request now
  | Admin_check headers claims now => check_handler s headers claims now
  end.

Inductive admin_authorizes : admin_request -> store_request -> Prop :=
  | admin_may_revoke headers request now mutation :
      header_str headers ADMIN_AUTH_HEADER = Some s.(st_admin_secret) ->
      mutation_headers headers mutation ->
      admin_authorizes (Admin_revoke headers request now) (Request_Revoke request mutation now)
  | admin_may_lift headers request now mutation :
      header_str headers ADMIN_AUTH_HEADER = Some s.(st_admin_secret) ->
      mutation_headers headers mutation ->
      admin_authorizes (Admin_lift headers request now) (Request_Lift request mutation now)
  | reader_may_check headers claims now :
      header_str headers READER_AUTH_HEADER = Some s.(st_reader_secret) ->
      admin_authorizes (Admin_check headers claims now) (Request_Check claims now).

Definition admin_rendered (sreq : store_request) (answer : store_answer) : HttpResponse :=
  match sreq, answer with
  | Request_Revoke _ _ _, Answer_Snapshot r | Request_Lift _ _ _, Answer_Snapshot r =>
      snapshot_response r
  | Request_Check _ _, Answer_Decision r => decision_response r
  | _, _ => revocation_error RE_InvalidLedger
  end.
Definition admin_served (sreq : store_request) : prog memory HttpResponse :=
  match sreq with
  | Request_Revoke request mutation now =>
      let! r := revoke s.(st_revocations) request mutation now in
      Ret (admin_rendered sreq (Answer_Snapshot r))
  | Request_Lift request mutation now =>
      let! r := lift s.(st_revocations) request mutation now in
      Ret (admin_rendered sreq (Answer_Snapshot r))
  | Request_Check claims now =>
      let! r := check s.(st_revocations) claims now in
      Ret (admin_rendered sreq (Answer_Decision r))
  end.

(** The steps both mutations go through. *)
Definition guarded (headers : HeaderMap) (k : MutationIdentity -> prog memory HttpResponse)
  : prog memory HttpResponse :=
  if negb (authorized headers ADMIN_AUTH_HEADER s.(st_admin_secret)) then Ret unauthorized
  else
    or_bad_request (required_actor headers) (fun actor =>
    or_bad_request (required_idempotency_key headers) (fun key =>
    k {| mi_actor := actor; mi_idempotency_key := key |})).

Lemma guarded_cases headers k :
  (exists mutation, header_str headers ADMIN_AUTH_HEADER = Some s.(st_admin_secret)
     /\ mutation_headers headers mutation /\ guarded headers k = k mutation)
  \/ ((forall mutation, header_str headers ADMIN_AUTH_HEADER = Some s.(st_admin_secret) ->
         ~ mutation_headers headers mutation)
      /\ exists response, guarded headers k = Ret response /\ 400 <= response.(hr_status)).
Proof.
  unfold guarded.
  destruct (authorized headers ADMIN_AUTH_HEADER (st_admin_secret s)) eqn:Hauth; cbn [negb].
  2:{ right. split; [|by eexists]. intros mutation Hh%authorized_iff. congruence. }
  apply authorized_iff in Hauth.
  destruct (required_actor headers) as [actor|e] eqn:Ha; cbn [or_bad_request].
  2:{ right. split; [|by eexists]. intros mutation _ [Hm _]%mutation_headers_iff. congruence. }
  destruct (required_idempotency_key headers) as [key|e] eqn:Hk; cbn [or_bad_request].
  2:{ right. split; [|by eexists]. intros mutation _ [_ Hm]%mutation_headers_iff. congruence. }
  left. eexists. split; [done|]. split; [|done]. by apply mutation_headers_iff.
Qed.

Lemma admin_cases req :
  (exists sreq, admin_authorizes req sreq /\ admin_handle req = admin_served sreq)
  \/ ((forall sreq, ~ admin_authorizes req sreq)
      /\ exists response, admin_handle req = Ret response /\ 400 <= response.(hr_status)).
Proof.
  destruct req as [headers request now|headers request now|headers claims now]; cbn [admin_handle].
  - destruct (guarded_cases headers (fun mutation => admin_served (Request_Revoke request mutation now)))
      as [(mutation & Hh & Hm & Heq)|[Hno Hr]]; [left|right].
    + eexists. split; [by apply admin_may_revoke|exact Heq].
    + split; [|exact Hr]. intros sreq Ha. inversion Ha; subst. by eapply Hno.
  - destruct (guarded_cases headers (fun mutation => admin_served (Request_Lift request mutation now)))
      as [(mutation & Hh & Hm & Heq)|[Hno Hr]]; [left|right].
    + eexists. split; [by apply admin_may_lift|exact Heq].
    + split; [|exact Hr]. intros sreq Ha. inversion Ha; subst. by eapply Hno.
  - unfold check_handler.
    destruct (authorized headers READER_AUTH_HEADER (st_reader_secret s)) eqn:Hauth; cbn [negb].
    + left. eexists. split; [by apply reader_may_check, authorized_iff|done].
    + right. split; [|by eexists]. intros sreq Ha. inversion Ha as [| |? ? ? Hh]; subst.
      apply authorized_iff in Hh. congruence.
Qed.

(** C18: The admin service does for a caller exactly the one store request it is
    entitled to, or refuses with an error status before the store is touched:
    mutations take the admin secret and an audited actor with an idempotency
    key, checks take the reader secret, and nothing else is refused. *)
Theorem admin_handlers_refine_store req :
  (exists sreq, admin_authorizes req sreq /\ admin_handle req = admin_served sreq)
  \/ ((forall sreq, ~ admin_authorizes req sreq)
      /\ exists response, admin_handle req = Ret response /\ 400 <= response.(hr_status)).
Proof. apply admin_cases. Qed.
End refines.

(** ** Every interleaving *)

Section system.
Context `{CryptoLaws, !ToVec RevocationAction, !Serde RevocationLedger,
          !SerdeLaws RevocationLedger, !ToJson RevocationSnapshot, !ToJson RevocationDecision}.
Context {W : Type} `{!Service W, !ServiceLaws W}.
Context (s : AppState) (production : s.(st_revocations) = {| rs_kv := true |}).
Notation outcome := (option (admin_request * HttpResponse)).
Notation client := (prog memory outcome).
Notation system := (config (S:=memory) (A:=outcome) (W:=W)).
Notation state c := (entries c.(cf_service)).
Notation no_local_claim := (fun (_ : memory) (_ : kv) => True).

Definition admin_client (req : admin_request) : client :=
  let! response := admin_handle s req in Ret (Some (req, response)).
Definition admin_traffic (p : client) : Prop := (exists req, p = admin_client req) \/ foreign p.
Definition admin_reaches (c c' : system) : Prop :=
  c.(cf_requests) = [] /\ rtc (config_step admin_traffic) c c'.

(** A response is an error or renders a justified answer to a request the
    caller was entitled to. *)
Definition admin_response_ok m0 (req : admin_request) (response : HttpResponse) (m : kv) : Prop :=
  400 <= response.(hr_status)
  \/ exists sreq answer,
       admin_authorizes s req sreq /\ response = admin_rendered sreq answer
       /\ answered m0 (Some (sreq, answer)) m.
Definition admin_finished m0 (a : outcome) (m : kv) : Prop :=
  match a with
  | Some (req, response) => admin_response_ok m0 req response m
  | None => True
  end.

Lemma admin_served_wp m0 m req sreq :
  evolves revocation_rule m0 m -> admin_authorizes s req sreq ->
  wp revocation_rule no_local_claim (let! r := admin_served s sreq in Ret (Some (req, r)))
    (admin_finished m0) m.
Proof.
  intros He Ha. pose proof (serve_wp m0 m sreq He) as Hw.
  assert (Hret : forall (A : Type) (p : prog memory A) (tag : A -> store_answer),
    wp revocation_rule no_local_claim (let! r := p in Ret (Some (sreq, tag r))) (answered m0) m ->
    wp revocation_rule no_local_claim
       (let! r := (let! a := p in Ret (admin_rendered sreq (tag a))) in Ret (Some (req, r)))
       (admin_finished m0) m).
  { intros A p tag Hp. apply wp_bind, wp_bind. eapply wp_mono; [|by eapply wp_unbind].
    intros a m1 Hq m2 Hm2 m3 Hm3. right. exists sreq, (tag a). split_and!; [done..|].
    apply Hq. by etrans. }
  destruct sreq; cbn [admin_served]; rewrite production; apply Hret; exact Hw.
Qed.

Lemma admin_client_wp m0 m p :
  evolves revocation_rule m0 m -> admin_traffic p ->
  wp revocation_rule no_local_claim p (admin_finished m0) m.
Proof.
  intros He [[req ->]|Hf].
  - unfold admin_client. destruct (admin_cases s req) as [(sreq & Ha & ->)|[_ (r & -> & Hr)]].
    + by apply admin_served_wp.
    + intros m' _. by left.
  - apply foreign_wp; [|done..]. intros key old new Hn Hk. by destruct Hn.
Qed.

Lemma admin_answer c c' n req response :
  admin_reaches c c' -> (n, Ret (Some (req, response))) ∈ c'.(cf_requests) ->
  admin_response_ok (state c) req response (state c').
Proof.
  intros [Hr Hs] Hin.
  refine (proj2 (system_safe revocation_rule no_local_claim admin_traffic (admin_finished (state c))
    (state c) _ _ c c' eq_refl _ Hr Hs) n _ Hin); [done| |by apply list.Forall_true].
  intros m p He Hp. by apply admin_client_wp.
Qed.

(** The successful answer behind a successful response. *)
Lemma admin_success m0 m req response :
  admin_response_ok m0 req response m -> response.(hr_status) = OK ->
  exists sreq answer, admin_authorizes s req sreq /\ response = admin_rendered sreq answer
  /\ answered m0 (Some (sreq, answer)) m.
Proof. intros [Hr|Hr] Hok; [rewrite Hok in Hr; by destruct Hr|done]. Qed.
Lemma snapshot_success r : (snapshot_response r).(hr_status) = OK -> exists snap, r = Ok snap.
Proof. destruct r as [snap|[]]; by eauto. Qed.
Lemma decision_success r : (decision_response r).(hr_status) = OK -> exists d, r = Ok d.
Proof. destruct r as [d|[]]; by eauto. Qed.

(** C19: Every mutation is accountable: under every interleaving, a revocation or a
    lift that was answered with success came with the admin secret, an actor
    and an idempotency key, and the target's stored ledger holds the event
    with the hashes of exactly that actor, key and request, built from that
    actor, or found under that idempotency key. *)
Theorem admin_mutations_recorded c c' n headers now response :
  admin_reaches c c' -> response.(hr_status) = OK ->
  (forall request,
     (n, Ret (Some (Admin_revoke headers request now, response))) ∈ c'.(cf_requests) ->
     header_str headers ADMIN_AUTH_HEADER = Some s.(st_admin_secret)
     /\ exists mutation key record snap,
          mutation_headers headers mutation /\ response = snapshot_response (Ok snap)
          /\ selector_storage_key (request_selector request) = Ok key
          /\ request_record request mutation.(mi_actor) now = Ok record
          /\ accepted (Action_Revoke record) key
               (mutation_hash "revoke" key mutation.(mi_actor) mutation.(mi_idempotency_key))
               (request_hash request) now snap (state c'))
  /\ (forall request,
     (n, Ret (Some (Admin_lift headers request now, response))) ∈ c'.(cf_requests) ->
     header_str headers ADMIN_AUTH_HEADER = Some s.(st_admin_secret)
     /\ exists mutation key snap,
          mutation_headers headers mutation /\ response = snapshot_response (Ok snap)
          /\ selector_storage_key request.(lift_selector) = Ok key
          /\ accepted (Action_Lift (trim mutation.(mi_actor)) (trim request.(lift_reason)) now) key
               (mutation_hash "lift" key mutation.(mi_actor) mutation.(mi_idempotency_key))
               (lift_request_hash request) now snap (state c')).
Proof.
  intros Hr Hok. split; intros request Hin;
    destruct (admin_success _ _ _ _ (admin_answer _ _ _ _ _ Hr Hin) Hok)
      as (sreq & answer & Ha & -> & Hq);
    inversion Ha as [? ? ? mutation Hh Hm|? ? ? mutation Hh Hm|]; subst;
    (split; [done|]); destruct answer as [r|r]; try done; cbn [admin_rendered] in *.
  - destruct (snapshot_success _ Hok) as [snap ->].
    destruct Hq as (key & record & Hk & Hrec & _ & Hacc). by exists mutation, key, record, snap.
  - destruct (snapshot_success _ Hok) as [snap ->].
    destruct Hq as (key & Hk & Hacc). by exists mutation, key, snap.
Qed.

(** A caller without the admin secret. *)
Definition without_admin_secret (req : admin_request) : Prop :=
  match req with
  | Admin_revoke headers _ _ | Admin_lift headers _ _ =>
      header_str headers ADMIN_AUTH_HEADER <> Some s.(st_admin_secret)
  | Admin_check _ _ _ => True
  end.
Definition traffic_without_admin (p : client) : Prop :=
  (exists req, without_admin_secret req /\ p = admin_client req) \/ foreign p.

Lemma check_selectors_reads_only self sels claims now : reads_only (check_selectors self sels claims now).
Proof.
  induction sels as [|[sel target] sels IH]; cbn [check_selectors]; [done|].
  apply reads_only_qbind; [done|]. intros key.
  apply reads_only_qbind.
  - unfold read_ledger. destruct (rs_kv self); [|done].
    apply reads_only_qbind; [|done]. unfold load_ledger. apply reads_only_qbind; [done|].
    by intros [e|].
  - intros [l|]; [|done]. by destruct (ledger_decision _ _ _ _).
Qed.
Lemma admin_check_reads_only headers claims now :
  reads_only (admin_client (Admin_check headers claims now)).
Proof.
  apply reads_only_bind; [|done]. cbn [admin_handle]. unfold check_handler.
  case_match; [done|]. apply reads_only_bind; [|done]. unfold check.
  apply reads_only_qbind; [done|]. intros _. apply check_selectors_reads_only.
Qed.

(** C10: Only a holder of the admin secret changes revocations: whatever else the
    service is asked, including checks by readers, in whatever interleaving,
    every revocation key stays exactly as it was. *)
Theorem only_admins_change_revocations c c' key :
  c.(cf_requests) = [] -> rtc (config_step traffic_without_admin) c c' ->
  revocation_key key -> state c' !! key = state c !! key.
Proof.
  intros Hi Hs Hkey.
  assert (He : evolves (fun key _ _ => ~ revocation_key key) (state c) (state c')).
  { eapply (system_safe _ no_local_claim traffic_without_admin (fun _ _ => True));
      [done| |done|by apply list.Forall_true|done|exact Hs].
    intros m p _ [(req & Hno & ->)|Hf]; [|by apply foreign_wp].
    destruct (admin_cases s req) as [(sreq & Ha & _)|[_ (r & Hr & _)]].
    - destruct Ha; cbn in Hno; try done. apply wp_reads_only; [done|].
      apply admin_check_reads_only.
    - unfold admin_client. rewrite Hr. done. }
  specialize (He key).
  apply rtc_inv_r in He as [->|(o & _ & e & _ & _ & Hg)]; [done|]. by destruct Hg.
Qed.

(** A decision is only given to a reader, and is right: a successful check
    came with the reader secret; it says revoked only where a stored history
    revokes the token, and a token that a stored ledger revoked when the
    traffic began is reported revoked, unless that ledger changed since. *)
Theorem admin_checks_sound c c' n headers claims now response :
  admin_reaches c c' -> response.(hr_status) = OK ->
  (n, Ret (Some (Admin_check headers claims now, response))) ∈ c'.(cf_requests) ->
  header_str headers READER_AUTH_HEADER = Some s.(st_reader_secret)
  /\ exists d, response = decision_response (Ok d)
     /\ (d.(dc_revoked) = true -> justified (selectors claims) claims now d (state c'))
     /\ forall sel target key l,
          (sel, target) ∈ selectors claims -> selector_storage_key sel = Ok key ->
          stored (state c) key l -> revokes l claims now ->
          d.(dc_revoked) = true \/ exists l', stored (state c') key l' /\ extends l l' /\ l' <> l.
Proof.
  intros Hr Hok Hin.
  destruct (admin_success _ _ _ _ (admin_answer _ _ _ _ _ Hr Hin) Hok)
    as (sreq & answer & Ha & -> & Hq).
  inversion Ha; subst. split; [done|]. destruct answer as [r|r]; [done|].
  cbn [admin_rendered] in *. destruct (decision_success _ Hok) as [d ->]. exists d.
  split; [done|]. apply (Hq d eq_refl).
Qed.
End system.
