(* ===== verification/AdminRun.v ===== *)
(** * The revocation admin service on concrete requests

    An operator revokes a token, a reader checks it, a reader and a stranger
    try to lift it; and the witnesses of the theorems about the service. *)
From Stdlib Require Import Ascii String.
From S2P Require Import Prelude Text Wire Samples Json Token Kv Model Store Keys KeyFacts Net.
From S2P Require Import Ledger LedgerFacts SampleCodecs LedgerHistory RevocationStore.
From S2P Require Import RevocationSafety RevocationSystem RevocationRun RevocationAdmin AdminSystem.

#[export] Instance snapshot_to_json : ToJson RevocationSnapshot :=
  fun snap => Object [("generation"%string, Num (PosInt snap.(sn_generation)))].
#[export] Instance decision_to_json : ToJson RevocationDecision :=
  fun d => Object [("revoked"%string, Bool d.(dc_revoked))].

Definition admin_env : string -> result VarError string := fun name =>
  if (name =? "FIDUCIA_REVOCATION_ADMIN_SECRET")%string then Ok "admin-secret-0123456789abcdef012345"%string
  else if (name =? "FIDUCIA_REVOCATION_READER_SECRET")%string
       then Ok "reader-secret-0123456789abcdef01234"%string
  else if (name =? "FIDUCIA_KV_URL")%string then Ok "http://kv/"%string
  else if (name =? "FIDUCIA_INTERNAL_SECRET")%string then Ok "internal"%string
  else Err NotPresent.
Definition admin_app : AppState :=
  {| st_revocations := {| rs_kv := true |};
     st_admin_secret := "admin-secret-0123456789abcdef012345";
     st_reader_secret := "reader-secret-0123456789abcdef01234" |}.

Lemma admin_start_safe_witness :
  admin_main admin_env = Ok (admin_app, admin_router, 8098)
  /\ admin_app.(st_admin_secret) <> admin_app.(st_reader_secret).
Proof.
  assert (Hm : admin_main admin_env = Ok (admin_app, admin_router, 8098)) by (vm_compute; reflexivity).
  split; [exact Hm|]. exact (proj1 (admin_start_safe _ _ _ _ Hm)).
Defined.

Definition operator_headers : HeaderMap := fun name =>
  if (name =? ADMIN_AUTH_HEADER)%string then [admin_app.(st_admin_secret)]
  else if (name =? ACTOR_HEADER)%string then [" ops "]
  else if (name =? "idempotency-key")%string then ["k-1"]
  else [].
Definition reader_headers : HeaderMap := fun name =>
  if (name =? READER_AUTH_HEADER)%string then [admin_app.(st_reader_secret)]
  else if (name =? ADMIN_AUTH_HEADER)%string then [admin_app.(st_reader_secret)]
  else if (name =? ACTOR_HEADER)%string then ["ops"]
  else if (name =? "idempotency-key")%string then ["k-2"]
  else [].
Definition revoke_req : admin_request :=
  Admin_revoke operator_headers (Revoke_TokenId sample_claims "compromised") 150.
Definition check_req : admin_request := Admin_check reader_headers sample_claims 155.
Definition lift_req : admin_request :=
  Admin_lift reader_headers
    {| lift_selector := Selector_TokenId "org-a" "jti-1"; lift_reason := "false alarm" |} 160.

Definition admin_after (req : admin_request) (w : mapkv) : HttpResponse * mapkv :=
  fst (run (admin_handle admin_app req) w ∅).
Definition mw1 : mapkv := snd (admin_after revoke_req mapkv_empty).

Example admin_session :
  (fst (admin_after revoke_req mapkv_empty)).(hr_status) = OK
  /\ fst (admin_after check_req mw1)
     = RevocationAdmin.no_store (Object [("decision", Object [("revoked", Bool true)])])%string
  /\ fst (admin_after lift_req mw1) = RevocationAdmin.unauthorized
  /\ snd (admin_after lift_req mw1) = mw1.
Proof. vm_compute. split_and!; reflexivity. Qed.

Notation admin_config w s rs :=
  (@Build_config memory (option (admin_request * HttpResponse)) mapkv w [s] rs).

Lemma admin_runs admissible req w :
  mapkv_wf w -> admissible (admin_client admin_app req) ->
  exists s', rtc (config_step admissible) (admin_config w ∅ [])
    (admin_config (snd (admin_after req w)) s'
       [(0%nat, Ret (Some (req, fst (admin_after req w))))]).
Proof.
  intros Hwf Ha. unfold admin_after.
  destruct (run (admin_handle admin_app req) w ∅) as [[r w'] s'] eqn:Hrun. cbn [fst snd].
  exists s'. eapply rtc_l.
  - by apply (config_arrive admissible w [∅] [] 0 (admin_client admin_app req)).
  - apply run_steps; [done|]. unfold admin_client. by rewrite run_pbind, Hrun.
Qed.
Lemma admin_runs_traffic req w :
  mapkv_wf w ->
  exists s', admin_reaches admin_app (admin_config w ∅ [])
    (admin_config (snd (admin_after req w)) s'
       [(0%nat, Ret (Some (req, fst (admin_after req w))))]).
Proof.
  intros Hwf. destruct (admin_runs (admin_traffic admin_app) req w Hwf) as [s' Hs].
  { left. by exists req. }
  exists s'. by split.
Qed.
Lemma mw1_wf : mapkv_wf mw1.
Proof.
  unfold mw1, admin_after.
  destruct (run (admin_handle admin_app revoke_req) mapkv_empty ∅) as [[r w'] s'] eqn:Hrun.
  eapply run_wf; [apply mapkv_empty_wf|exact Hrun].
Qed.

Lemma admin_mutations_recorded_witness :
  exists mutation key record snap,
    mutation_headers operator_headers mutation
    /\ selector_storage_key (Selector_TokenId "org-a" "jti-1") = Ok key
    /\ accepted (Action_Revoke record) key
         (mutation_hash "revoke" key mutation.(mi_actor) mutation.(mi_idempotency_key))
         (request_hash (Revoke_TokenId sample_claims "compromised")) 150 snap (mk_entries mw1).
Proof.
  destruct (admin_runs_traffic revoke_req mapkv_empty mapkv_empty_wf) as [s Hs].
  destruct (admin_mutations_recorded admin_app eq_refl _ _ 0%nat operator_headers 150 _ Hs
              (proj1 admin_session)) as [Hrev _].
  destruct (Hrev _ (list_elem_of_here _ _)) as (_ & mutation & key & record & snap & Hm & _ & Hk & _ & Hacc).
  exists mutation, key, record, snap. split; [exact Hm|]. split; [exact Hk|exact Hacc].
Defined.

Lemma only_admins_change_revocations_witness :
  mk_entries (snd (admin_after lift_req mw1)) !! token_key sample_claims
  = mk_entries mw1 !! token_key sample_claims.
Proof.
  destruct (admin_runs (traffic_without_admin admin_app) lift_req mw1 mw1_wf) as [s Hs].
  { left. exists lift_req. split; [|reflexivity]. vm_compute. discriminate. }
  assert (Hk : revocation_key (token_key sample_claims)) by by_compute.
  exact (only_admins_change_revocations admin_app (admin_config mw1 ∅ []) _ _ eq_refl Hs Hk).
Defined.

Lemma admin_checks_sound_witness :
  exists d, justified (selectors sample_claims) sample_claims 155 d
              (mk_entries (snd (admin_after check_req mw1))).
Proof.
  destruct (admin_runs_traffic check_req mw1 mw1_wf) as [s Hs].
  assert (Hok : (fst (admin_after check_req mw1)).(hr_status) = OK) by (vm_compute; reflexivity).
  destruct (admin_checks_sound admin_app eq_refl _ _ 0%nat reader_headers sample_claims 155 _ Hs Hok
              (list_elem_of_here _ _)) as (_ & d & Hd & Hj & _).
  exists d. apply Hj.
  assert (Hb : fst (admin_after check_req mw1)
    = RevocationAdmin.no_store (Object [("decision", Object [("revoked", Bool true)])])%string)
    by (vm_compute; reflexivity).
  rewrite Hd in Hb. destruct d as [[] m g e]; [reflexivity|discriminate Hb].
Defined.
