(* ===== verification/ProofModel.v ===== *)
(** * The model of privileged authentication
    ([src/conformance/independent_proof_model.rs])

    The program's transition function, the search it runs and the assertions
    it makes; the search is proved exact for any transition function, so what
    the program prints is a fact about every reachable state. *)
From Stdlib Require Import String.
From S2P Require Import Prelude.

Record State := {
  identity_proof : bool;
  session_proof : bool;
  tenant_bound : bool;
  privileged : bool
}.
#[export] Instance State_eq_dec : EqDecision State.
Proof. solve_decision. Defined.

Definition initial : State :=
  {| identity_proof := false; session_proof := false; tenant_bound := false; privileged := false |}.

Definition next_states (state : State) : list State :=
  (if negb state.(identity_proof) then
     [{| identity_proof := true; session_proof := state.(session_proof);
         tenant_bound := state.(tenant_bound); privileged := false |}]
   else [])
  ++ (if negb state.(session_proof) then
        [{| identity_proof := state.(identity_proof); session_proof := true;
            tenant_bound := state.(tenant_bound); privileged := false |}]
      else [])
  ++ (if (state.(identity_proof) || state.(session_proof)) && negb state.(tenant_bound) then
        [{| identity_proof := state.(identity_proof); session_proof := state.(session_proof);
            tenant_bound := true; privileged := false |}]
      else [])
  ++ (if state.(identity_proof) && state.(session_proof) && state.(tenant_bound)
         && negb state.(privileged) then
        [{| identity_proof := true; session_proof := true; tenant_bound := true;
            privileged := true |}]
      else []).

(** [assert_safe] returns instead of panicking. *)
Definition assert_safe (state : State) : bool :=
  if state.(privileged)
  then state.(identity_proof) && state.(session_proof) && state.(tenant_bound)
  else true.

(** ** The search *)

Section search.
Context {A : Type} `{EqDecision A} (next : A -> list A) (safe : A -> bool).

(** The inner loop over the successors of one state. *)
Fixpoint visit (succs queue seen : list A) (edges : N) : option (list A * list A * N) :=
  match succs with
  | [] => Some (queue, seen, edges)
  | state :: rest =>
      if safe state then
        if bool_decide (state ∈ seen) then visit rest queue seen (edges + 1)
        else visit rest (queue ++ [state]) (seen ++ [state]) (edges + 1)
      else None
  end.
(** The outer loop; [None] where an assertion panics, and out of fuel. *)
Fixpoint search (fuel : nat) (queue seen : list A) (edges : N) : option (list A * N) :=
  match queue with
  | [] => Some (seen, edges)
  | state :: rest =>
      match fuel with
      | O => None
      | S fuel =>
          if safe state then
            '(queue, seen, edges) ← visit (next state) rest seen edges;
            search fuel queue seen edges
          else None
      end
  end.

Definition step (a b : A) : Prop := b ∈ next a.
#[export] Instance step_dec a b : Decision (step a b).
Proof. unfold step. apply _. Defined.

(** What the loops maintain: visited states are reachable and safe, waiting
    ones were visited, and the successors of the others were. *)
Record visited (start : A) (queue seen : list A) : Prop := {
  visited_start : start ∈ seen;
  visited_reachable : forall a, a ∈ seen -> rtc step start a /\ (a ∈ queue \/ safe a = true);
  visited_queue : forall a, a ∈ queue -> a ∈ seen;
  visited_closed : forall a b, a ∈ seen -> a ∉ queue -> step a b -> b ∈ seen
}.

Lemma visit_ok start succs : forall queue seen edges queue' seen' edges',
  (forall a, a ∈ succs -> rtc step start a) ->
  visit succs queue seen edges = Some (queue', seen', edges') ->
  (forall a, a ∈ seen' <-> a ∈ seen \/ a ∈ succs)
  /\ (forall a, a ∈ queue' <-> a ∈ queue \/ (a ∈ seen' /\ a ∉ seen))
  /\ Forall (fun a => safe a = true) succs.
Proof.
  induction succs as [|x succs IH]; intros queue seen edges queue' seen' edges' Hreach Hv; cbn in Hv.
  - injection Hv as <- <- <-. split_and!; [set_solver..|constructor].
  - destruct (safe x) eqn:Hx; [|done]. case_bool_decide as Hin.
    + destruct (IH _ _ _ _ _ _ ltac:(set_solver) Hv) as (Hs & Hq & Hf).
      split_and!; [set_solver|set_solver|by constructor].
    + destruct (IH _ _ _ _ _ _ ltac:(set_solver) Hv) as (Hs & Hq & Hf).
      split_and!; [set_solver| |by constructor]. intros a. rewrite Hq, Hs.
      destruct (decide (a = x)) as [->|]; set_solver.
Qed.

Lemma search_done start seen :
  visited start [] seen -> forall a, a ∈ seen <-> rtc step start a.
Proof.
  intros Hinv a. split; [by intros [Ha _]%(visited_reachable _ _ _ Hinv)|]. intros Ha.
  refine (rtc_ind_r (fun b => b ∈ seen) start _ _ a Ha); [apply Hinv|].
  intros b c _ Hbc Hb. eapply (visited_closed _ _ _ Hinv); [done|set_solver|done].
Qed.

Lemma search_ok start fuel : forall queue seen edges seen' edges',
  visited start queue seen -> search fuel queue seen edges = Some (seen', edges') ->
  visited start [] seen'.
Proof.
  induction fuel as [|fuel IH]; intros [|x queue] seen edges seen' edges' Hinv Hs; cbn in Hs;
    try done; try (by injection Hs as <- <-).
  - destruct (safe x) eqn:Hx; [|done].
    destruct (visit (next x) queue seen edges) as [[[queue1 seen1] edges1]|] eqn:Hv; [|done].
    cbn in Hs. eapply IH; [|exact Hs].
    assert (Hrx : rtc step start x) by (apply Hinv, Hinv, list_elem_of_here).
    destruct (visit_ok start _ _ _ _ _ _ _ (fun a Ha => rtc_r _ _ _ Hrx Ha) Hv) as (Hs1 & Hq1 & _).
    constructor.
    + apply Hs1. left. apply Hinv.
    + intros a Ha. destruct (proj1 (Hs1 a) Ha) as [Hold|Hnew].
      * destruct (visited_reachable _ _ _ Hinv a Hold) as [Hr [Hq|Hsafe]];
          (split; [done|]); [|by right].
        apply list.elem_of_cons in Hq as [->|Hq]; [by right|left; apply Hq1; by left].
      * split; [by eapply rtc_r|]. destruct (decide (a ∈ seen)) as [Hold|Hn].
        { destruct (visited_reachable _ _ _ Hinv a Hold) as [Hr [Hq|Hsafe]]; [|by right].
          apply list.elem_of_cons in Hq as [->|Hq]; [by right|left; apply Hq1; by left]. }
        left. apply Hq1. by right.
    + intros a [Hq|[Ha _]]%Hq1; [|done]. apply Hs1. left. apply Hinv. set_solver.
    + intros a b Ha Hnq Hab. apply Hs1. destruct (decide (a = x)) as [->|Hne]; [by right|left].
      destruct (decide (a ∈ seen)) as [Hold|Hn]; [|by destruct Hnq; apply Hq1; right].
      eapply (visited_closed _ _ _ Hinv); [done| |done]. intros [->|Hq]%list.elem_of_cons; [done|].
      apply Hnq, Hq1. by left.
Qed.

(** A search that ends visited exactly the reachable states, and all of them
    are safe. *)
Lemma search_exact start fuel seen edges :
  search fuel [start] [start] 0 = Some (seen, edges) ->
  (forall a, a ∈ seen <-> rtc step start a) /\ forall a, rtc step start a -> safe a = true.
Proof.
  intros Hs. assert (Hinv : visited start [] seen).
  { eapply search_ok; [|exact Hs]. constructor; [set_solver| |set_solver|set_solver].
    intros a ->%list_elem_of_singleton. split; [done|left; set_solver]. }
  pose proof (search_done _ _ Hinv) as Hseen. split; [done|]. intros a Ha%Hseen.
  destruct (visited_reachable _ _ _ Hinv a Ha) as [_ [Hq|]]; [by inversion Hq|done].
Qed.
End search.

(** ** [main] *)

Definition search_fuel : nat := 16.
(** The printed counts, or the assertion that fails. *)
Definition main : result string (N * N) :=
  match search next_states assert_safe search_fuel [initial] [initial] 0 with
  | None => Err "assert_safe"%string
  | Some (seen, edges) =>
      reject negb (existsb privileged seen) with "privileged state is unreachable"%string ;;
      reject negb (bool_decide
                ({| identity_proof := true; session_proof := false; tenant_bound := true;
                    privileged := false |} ∈ seen))
        with "identity-only proof state is unreachable"%string ;;
      reject negb (bool_decide
                ({| identity_proof := false; session_proof := true; tenant_bound := true;
                    privileged := false |} ∈ seen))
        with "session-only proof state is unreachable"%string ;;
      Ok (N.of_nat (length seen), edges)
  end.

(** How many of the three facts a state holds, and how far it is. *)
Definition held (state : State) : nat :=
  Nat.b2n state.(identity_proof) + Nat.b2n state.(session_proof) + Nat.b2n state.(tenant_bound).
Definition progress (state : State) : nat := held state + Nat.b2n state.(privileged).

(** A step establishes one of the three facts, keeping the others, and gives no
    privilege; or it gives privilege to a state that holds all three. *)
Inductive single_step (a b : State) : Prop :=
  | establishes :
      b.(privileged) = false -> held b = S (held a) ->
      (a.(identity_proof) = true -> b.(identity_proof) = true) ->
      (a.(session_proof) = true -> b.(session_proof) = true) ->
      (a.(tenant_bound) = true -> b.(tenant_bound) = true) -> single_step a b
  | elevates :
      held a = 3%nat -> held b = 3%nat -> a.(privileged) = false -> b.(privileged) = true ->
      single_step a b.

(** This holds of every state, also of the unreachable ones that are privileged
    without all facts, from which a step withdraws the privilege. *)
Lemma step_single a b : step next_states a b -> single_step a b.
Proof.
  unfold step, next_states. destruct a as [[] [] [] []]; cbn; intros Hin;
    repeat (apply list.elem_of_cons in Hin as [->|Hin]); try (by inversion Hin);
    first [by apply establishes | by apply elevates].
Qed.

Lemma held_all state :
  held state = 3%nat ->
  state.(identity_proof) = true /\ state.(session_proof) = true /\ state.(tenant_bound) = true.
Proof. by destruct state as [[] [] [] []]. Qed.

(** On the way from the initial state privilege only comes last. *)
Lemma nsteps_progress n state :
  nsteps (step next_states) n initial state ->
  n = progress state /\ (state.(privileged) = true -> held state = 3%nat).
Proof.
  revert state. induction n as [|n IH]; intros state Hn; [by inversion Hn|].
  apply nsteps_inv_r in Hn as (before & Hb & Hs). destruct (IH before Hb) as [-> Hp].
  unfold progress. destruct (step_single _ _ Hs) as [Hf Hh _ _ _|Ha Hb' Hpa Hpb].
  - split; [|congruence]. rewrite Hf, Hh. destruct (privileged before); [|cbn; lia].
    specialize (Hp eq_refl). assert (held state <= 3)%nat by (by destruct state as [[] [] [] []]; cbn; lia).
    lia.
  - rewrite Hpa, Hpb, Ha, Hb'. by split.
Qed.

(** C35: The model's guarantee, and that its search finds it: the search ends
    and no assertion fails, and the eight states it visited are exactly those
    reachable from the initial one. A single step, from any state, establishes
    at most one of the identity proof, the session proof and the tenant binding
    and loses none, or only gives privilege where all three hold; so every run
    to a privileged state has exactly four steps, the last of which is the
    elevation of the state that holds the three. *)
Theorem privilege_needs_independent_proofs :
  main = Ok (8, 10)
  /\ (exists seen, search next_states assert_safe search_fuel [initial] [initial] 0 = Some (seen, 10)
      /\ length seen = 8%nat
      /\ forall state, state ∈ seen <-> rtc (step next_states) initial state)
  /\ (forall a b, step next_states a b -> single_step a b)
  /\ (forall n state, nsteps (step next_states) n initial state -> state.(privileged) = true ->
      n = 4%nat
      /\ state.(identity_proof) = true /\ state.(session_proof) = true
      /\ state.(tenant_bound) = true
      /\ exists before, nsteps (step next_states) 3 initial before /\ step next_states before state
         /\ before = {| identity_proof := true; session_proof := true; tenant_bound := true;
                        privileged := false |}).
Proof.
  split; [vm_compute; reflexivity|]. split; [|split; [exact step_single|]].
  - destruct (search next_states assert_safe search_fuel [initial] [initial] 0)
      as [[seen edges]|] eqn:Hs; [|by vm_compute in Hs].
    exists seen. pose proof (proj1 (search_exact _ _ _ _ _ _ Hs)) as Hseen.
    vm_compute in Hs. injection Hs as <- <-. by split_and!.
  - intros n state Hn Hp. destruct (nsteps_progress _ _ Hn) as [Hlen Hall].
    specialize (Hall Hp). unfold progress in Hlen. rewrite Hall, Hp in Hlen. cbn in Hlen. subst n.
    split; [done|]. destruct (held_all _ Hall) as (Hi & Hse & Ht). do 3 (split; [done|]).
    apply nsteps_inv_r in Hn as (before & Hb & Hs). exists before. split; [done|]. split; [done|].
    destruct (step_single _ _ Hs) as [Hf _ _ _ _|Ha _ Hpa _]; [congruence|].
    destruct (held_all _ Ha) as (Hi' & Hse' & Ht'). destruct before; cbn in *. by subst.
Qed.

Lemma privilege_needs_independent_proofs_witness :
  let top := {| identity_proof := true; session_proof := true; tenant_bound := true;
                privileged := true |} in
  nsteps (step next_states) 4 initial top
  /\ exists before, nsteps (step next_states) 3 initial before /\ step next_states before top.
Proof.
  intros top. assert (Hr : nsteps (step next_states) 4 initial top).
  { apply (nsteps_l _ _ _ {| identity_proof := true; session_proof := false; tenant_bound := false;
                             privileged := false |}); [apply (bool_decide_unpack _); reflexivity|].
    apply (nsteps_l _ _ _ {| identity_proof := true; session_proof := true; tenant_bound := false;
                             privileged := false |}); [apply (bool_decide_unpack _); reflexivity|].
    apply (nsteps_l _ _ _ {| identity_proof := true; session_proof := true; tenant_bound := true;
                             privileged := false |}); [apply (bool_decide_unpack _); reflexivity|].
    apply nsteps_once. apply (bool_decide_unpack _). reflexivity. }
  split; [exact Hr|].
  destruct (proj2 (proj2 (proj2 privilege_needs_independent_proofs)) 4%nat top Hr eq_refl)
    as (_ & _ & _ & _ & before & Hb & Hs & _).
  exists before. split; [exact Hb|exact Hs].
Defined.
