(* ===== verification/Verifier.v ===== *)
(** * A verifier: the revocation gate over the durable ledger

    The production authority of [src/src/gate.rs] is the revocation store
    itself.  A verifier runs the gate's requests, the [check] each refresh
    awaits, and any other traffic against the key-value service, all
    interleaved; the theorem bounds how long a revoked token is still
    allowed. *)
From Stdlib Require Import Ascii String.
From S2P Require Import Prelude Text Wire Samples Json Token Kv Ledger LedgerFacts SampleCodecs.
From S2P Require Import LedgerHistory RevocationStore RevocationSafety RevocationSystem.
From S2P Require Import Cache Gate GateSafety.

(** What the gate asks for. *)
Class RevocationAuthority (Self : Type) := {
  check_revocation : Self -> Claims -> N -> prog memory (result RevocationError RevocationDecision)
}.

(** The check of a gate's request, tagged with the request. *)
Record checked := {
  ck_id : nat;
  ck_claims : Claims;
  ck_now : N;
  ck_result : result RevocationError RevocationDecision
}.
Notation pending := (prog memory (option checked)).

Section verifier.
Context `{CryptoLaws, !HashIter, !HashIterLaws, !ToVec RevocationAction,
          !Serde RevocationLedger, !SerdeLaws RevocationLedger}.
Context {W : Type} `{!Service W, !ServiceLaws W}.

(** The production authority: the durable revocation ledger. *)
Definition store_check_revocation (self : RevocationStore) (claims : Claims) (now : N)
  : prog memory (result RevocationError RevocationDecision) := check self claims now.
#[export] Instance store_authority : RevocationAuthority RevocationStore := {
  check_revocation := store_check_revocation
}.
Notation store := {| rs_kv := true |}.

Record verifier := {
  v_kv : config (S:=memory) (A:=option checked) (W:=W);
  v_gate : gate
}.
Notation state v := (Kv.entries v.(v_kv).(cf_service)).

Definition check_request (id : nat) (q : request) : pending :=
  let! answer := check_revocation store q.(q_claims) q.(q_now) in
  Ret (Some {| ck_id := id; ck_claims := q.(q_claims); ck_now := q.(q_now);
               ck_result := answer |}).

(** Everyone else who uses the service: the revocation API of any replica,
    and clients of other keys. *)
Definition traffic (p : pending) : Prop :=
  (exists request, p = (let! _ := serve request in Ret None)) \/ foreign p.

(** The refresh of a request that reached the authority awaits a new check,
    on the verifier's replica [n]. *)
Definition awaiting (n id : nat) (g : gate) (c : config (S:=memory) (A:=option checked) (W:=W))
  : config (S:=memory) (A:=option checked) (W:=W) :=
  match g.(g_requests) !! id with
  | Some q =>
      match q.(q_phase) with
      | Ph_authority _ =>
          {| cf_service := c.(cf_service); cf_locals := c.(cf_locals);
             cf_requests := c.(cf_requests) ++ [(n, check_request id q)] |}
      | _ => c
      end
  | None => c
  end.

(** What a request that awaits its check can see: the timeout, or the
    finished check. *)
Definition visible (c : config (S:=memory) (A:=option checked) (W:=W)) (id : nat) (q : request)
    (answer : AuthorityAnswer) : Prop :=
  match answer with
  | Elapsed => True
  | Answered r => exists n,
      (n, Ret (Some {| ck_id := id; ck_claims := q.(q_claims); ck_now := q.(q_now);
                       ck_result := r |})) ∈ c.(cf_requests)
  end.
Definition at_authority (q : request) : bool :=
  match q.(q_phase) with
  | Ph_authority _ => true
  | _ => false
  end.

Inductive verifier_step : verifier -> verifier -> Prop :=
  | verifier_traffic c c' g :
      config_step traffic c c' ->
      verifier_step {| v_kv := c; v_gate := g |} {| v_kv := c'; v_gate := g |}
  | verifier_arrive c g claims now :
      verifier_step {| v_kv := c; v_gate := g |}
        {| v_kv := c; v_gate := gate_admit g claims now |}
  | verifier_drop c g id q :
      g.(g_requests) !! id = Some q ->
      verifier_step {| v_kv := c; v_gate := g |}
        {| v_kv := c; v_gate := gate_abandon g id q |}
  | verifier_run n c g id q g' :
      g.(g_requests) !! id = Some q -> at_authority q = false ->
      authorize_step g id q Elapsed = Some g' ->
      verifier_step {| v_kv := c; v_gate := g |} {| v_kv := awaiting n id g' c; v_gate := g' |}
  | verifier_answer c g id q answer g' :
      g.(g_requests) !! id = Some q -> at_authority q = true -> visible c id q answer ->
      authorize_step g id q answer = Some g' ->
      verifier_step {| v_kv := c; v_gate := g |} {| v_kv := c; v_gate := g' |}.

Definition starts (v : verifier) (budget : N) (cap : nat) : Prop :=
  v.(v_kv).(cf_requests) = [] /\ v.(v_gate) = gate_new (new budget cap).

(** ** The two projections *)

Lemma verifier_gate_step v v' :
  verifier_step v v' -> rtc gate_step v.(v_gate) v'.(v_gate).
Proof.
  destruct 1; cbn; [done|..]; apply rtc_once;
    [by constructor|by constructor|by eapply gate_run|by eapply gate_run].
Qed.
Lemma verifier_gate_steps v v' :
  rtc verifier_step v v' -> rtc gate_step v.(v_gate) v'.(v_gate).
Proof. induction 1; [done|]. etrans; [by eapply verifier_gate_step|done]. Qed.

(** Requests are never renumbered: they keep their claims and their instant,
    and new ones come last. *)
Definition same_request (q q' : request) : Prop :=
  q'.(q_claims) = q.(q_claims) /\ q'.(q_now) = q.(q_now).
Definition continues (g g' : gate) : Prop :=
  (length g.(g_requests) <= length g'.(g_requests))%nat
  /\ (forall id q', g'.(g_requests) !! id = Some q' -> (id < length g.(g_requests))%nat ->
       exists q, g.(g_requests) !! id = Some q /\ same_request q q').

#[export] Instance continues_preorder : PreOrder continues.
Proof.
  split.
  - intros g. split; [done|]. intros id q Hq _. by exists q.
  - intros g1 g2 g3 [Hl1 Hs1] [Hl2 Hs2]. split; [lia|]. intros id q3 Hq3 Hid.
    destruct (Hs2 _ _ Hq3) as (q2 & Hq2 & [? ?]); [lia|].
    destruct (Hs1 _ _ Hq2 Hid) as (q1 & Hq1 & [? ?]).
    exists q1. split; [done|]. split; congruence.
Qed.

Lemma continues_set g g' id q p :
  g.(g_requests) !! id = Some q -> g'.(g_requests) = <[id := set_phase q p]> g.(g_requests) ->
  continues g g'.
Proof.
  intros Hq Hg. split; rewrite Hg; [by rewrite length_insert|].
  intros j q' [(<- & <- & _)|[_ Hj]]%list_lookup_insert_Some _; [by exists q|by exists q'].
Qed.

Lemma gate_step_continues g g' : gate_step g g' -> continues g g'.
Proof.
  destruct 1 as [g claims now|g id q answer g' Hq Hs|g id q Hq].
  - split; cbn; [rewrite length_app; lia|]. intros id q' Hq' Hid.
    rewrite lookup_app_l in Hq' by done. by exists q'.
  - destruct (authorize_step_moves _ _ _ _ _ Hs) as (p & Hr & _). by eapply continues_set.
  - by eapply (continues_set _ _ id q Ph_dropped).
Qed.

Lemma verifier_continues v v' : verifier_step v v' -> continues v.(v_gate) v'.(v_gate).
Proof.
  intros Hs%verifier_gate_step. induction Hs; [done|].
  etrans; [by eapply gate_step_continues|done].
Qed.

(** Every recorded decision was asked for by a request of the gate. *)
Definition asked (g : gate) : Prop :=
  forall claims t answer, (claims, t, answer) ∈ g.(g_answers) ->
  exists q, q ∈ g.(g_requests) /\ q.(q_claims) = claims /\ q.(q_now) = t.

Lemma set_phase_elem (l : list request) id q p q0 :
  l !! id = Some q -> q0 ∈ l -> exists q', q' ∈ <[id := set_phase q p]> l /\ same_request q0 q'.
Proof.
  intros Hq (j & Hj)%list_elem_of_lookup_1. destruct (decide (j = id)) as [->|Hne].
  - exists (set_phase q p). split; [|by simplify_eq].
    eapply (list_elem_of_lookup_2 _ id). apply list_lookup_insert_eq.
    by eapply lookup_lt_Some.
  - exists q0. split; [|done]. eapply (list_elem_of_lookup_2 _ j).
    by rewrite list_lookup_insert_ne.
Qed.

Lemma asked_move g g' id q p more :
  asked g -> g.(g_requests) !! id = Some q ->
  g'.(g_requests) = <[id := set_phase q p]> g.(g_requests) ->
  g'.(g_answers) = more ++ g.(g_answers) ->
  (forall c t a, (c, t, a) ∈ more -> c = q.(q_claims) /\ t = q.(q_now)) -> asked g'.
Proof.
  intros Hok Hq Hr Ha Hmore c t a. rewrite Hr, Ha.
  intros [[-> ->]%Hmore|(q0 & Hq0 & Hc & Ht)%Hok]%list.elem_of_app.
  - destruct (set_phase_elem _ _ _ p q Hq) as (q' & Hin & [? ?]);
      [by eapply list_elem_of_lookup_2|]. by exists q'.
  - destruct (set_phase_elem _ _ _ p q0 Hq Hq0) as (q' & Hin & [? ?]).
    exists q'. split_and!; [done|congruence..].
Qed.

Lemma decided_elem q answer c t a :
  (c, t, a) ∈ decided q answer -> c = q.(q_claims) /\ t = q.(q_now) /\ answer = Answered (Ok a).
Proof.
  destruct answer as [|[d|e]]; cbn; intros Hin; try by apply not_elem_of_nil in Hin.
  apply list_elem_of_singleton in Hin. by simplify_eq.
Qed.

Lemma gate_step_asked g g' : gate_step g g' -> asked g -> asked g'.
Proof.
  destruct 1 as [g claims now|g id q answer g' Hq Hs|g id q Hq]; intros Hok.
  - intros c t a (q & Hq & Hrest)%Hok. exists q. split; [|done]. apply list.elem_of_app. by left.
  - destruct (authorize_step_moves _ _ _ _ _ Hs) as (p & Hr & Ha).
    eapply asked_move; [done..|]. intros c t a Hin. destruct (q_phase q);
      try (by apply not_elem_of_nil in Hin). by apply decided_elem in Hin as (? & ? & _).
  - eapply (asked_move _ _ id q Ph_dropped []); [done..|]. by intros ? ? ? ?%not_elem_of_nil.
Qed.

Lemma gate_steps_asked g g' : rtc gate_step g g' -> asked g -> asked g'.
Proof. induction 1; eauto using gate_step_asked. Qed.

(** ** The store's side *)
Notation nothing_local := (fun (_ : memory) (_ : kv) => True).
Notation rule_wp := (wp revocation_rule nothing_local).
Implicit Types (Q : option checked -> kv -> Prop).

(** Programs that meet [Q] from any state the store evolves to. *)
Definition meets Q (m0 : kv) (p : pending) : Prop :=
  forall m, evolves revocation_rule m0 m -> rule_wp p Q m.
Notation kv_ok Q m0 v := (config_ok revocation_rule nothing_local Q m0 v.(v_kv)).

Lemma traffic_meets Q m0 p : (forall m, Q None m) -> traffic p -> meets Q m0 p.
Proof.
  intros HQ [[request ->]|Hf] m _.
  - apply wp_bind. eapply wp_mono; [|by apply (serve_wp m)]. intros a m' _ m'' _. apply HQ.
  - apply foreign_wp; [|done..]. intros key old new Hn Hk. by destruct Hn.
Qed.

(** A check answers for the state it started in. *)
Lemma check_request_meets Q m0 id q :
  (forall r m, check_answer m0 (selectors q.(q_claims)) q.(q_claims) q.(q_now) r m ->
     Q (Some {| ck_id := id; ck_claims := q.(q_claims); ck_now := q.(q_now); ck_result := r |}) m) ->
  meets Q m0 (check_request id q).
Proof.
  intros HQ m He. apply wp_bind. eapply wp_mono; [|by apply (wp_check _ rule_rely _ m0)].
  intros r m1 Ha m2 He2. apply HQ. by eapply (check_answer_evolves _ rule_rely).
Qed.

Lemma config_step_more (good bad : pending -> Prop) (c c' : config (W:=W)) :
  (forall p, bad p -> good p) -> config_step bad c c' -> config_step good c c'.
Proof. intros Hp. destruct 1; [by eapply config_request|apply config_arrive; auto|apply config_drop]. Qed.

Lemma kv_step Q m0 v v' :
  verifier_step v v' -> (forall m, Q None m) ->
  (forall id q, v'.(v_gate).(g_requests) !! id = Some q -> meets Q m0 (check_request id q)) ->
  kv_ok Q m0 v ->
  kv_ok Q m0 v' /\ evolves revocation_rule (state v) (state v').
Proof.
  intros Hs HQ Hck Hok.
  assert (Hstep : forall c', config_step (meets Q m0) v.(v_kv) c' ->
    config_ok revocation_rule nothing_local Q m0 c'
    /\ evolves revocation_rule (state v) (Kv.entries c'.(cf_service))).
  { intros c' Hc. refine (config_step_ok _ _ _ _ _ _ _ _ _ Hc Hok); [done|].
    intros m p He Hp. by apply Hp. }
  destruct Hs as [c c' g Hc|c g claims now|c g id q Hq|n c g id q g' Hq Ha Hs
                 |c g id q answer g' Hq Ha Hv Hs]; cbn in *; try done.
  - apply Hstep. eapply config_step_more; [|done]. intros p. by apply traffic_meets.
  - unfold awaiting. destruct (g_requests g' !! id) as [q'|] eqn:Hq'; [|done].
    destruct (q_phase q'); try done.
    apply Hstep. destruct c. apply config_arrive. by apply Hck.
Qed.

(** *** Until the ledger is stored: the checks of the requests so far *)
Definition known (bound : nat) (a : option checked) (m : kv) : Prop :=
  match a with
  | Some ck => (ck.(ck_id) < bound)%nat
  | None => True
  end.

Lemma kv_before m0 v v' :
  rtc verifier_step v v' ->
  kv_ok (known (length v.(v_gate).(g_requests))) m0 v ->
  kv_ok (known (length v'.(v_gate).(g_requests))) m0 v'.
Proof.
  induction 1 as [|v1 v2 v3 Hs _ IH]; [done|]. intros (He & Hl & Hr). apply IH.
  eapply kv_step; [exact Hs|done| |].
  - intros id q Hq. apply check_request_meets. intros r m _. cbn. by eapply lookup_lt_Some.
  - split_and!; [done..|]. eapply Forall_impl; [|exact Hr]. intros p.
    apply wp_mono. intros [ck|] m; cbn; [|done].
    destruct (verifier_continues _ _ Hs) as [Hlen _]. lia.
Qed.

(** *** From then on: the checks of later requests report it *)
Definition later (bound : nat) (m1 : kv) (a : option checked) (m : kv) : Prop :=
  match a with
  | Some ck => (bound <= ck.(ck_id))%nat ->
               check_answer m1 (selectors ck.(ck_claims)) ck.(ck_claims) ck.(ck_now) ck.(ck_result) m
  | None => True
  end.

(** [bound] requests had arrived when the store was in [m1], none of them at
    an instant after [T]. *)
Record after_commit (bound : nat) (m1 : kv) (T : N) (v : verifier) : Prop := {
  ac_kv : kv_ok (later bound m1) m1 v;
  ac_bound : (bound <= length v.(v_gate).(g_requests))%nat;
  ac_early id q : v.(v_gate).(g_requests) !! id = Some q -> (id < bound)%nat -> q.(q_now) <= T;
  ac_answers claims t answer : (claims, t, answer) ∈ v.(v_gate).(g_answers) -> T < t ->
    check_answer m1 (selectors claims) claims t (Ok answer) (state v)
}.

Lemma after_commit_start m0 T v :
  kv_ok (known (length v.(v_gate).(g_requests))) m0 v -> asked v.(v_gate) ->
  (forall q, q ∈ v.(v_gate).(g_requests) -> q.(q_now) <= T) ->
  after_commit (length v.(v_gate).(g_requests)) (state v) T v.
Proof.
  intros (_ & _ & Hr) Hasked HT. constructor.
  - split_and!; [done|by apply list.Forall_true|].
    eapply Forall_impl; [|exact Hr]. intros p. apply wp_mono.
    intros [ck|] m; cbn; [|done]. lia.
  - done.
  - intros id q Hq _. apply HT. by eapply list_elem_of_lookup_2.
  - intros claims t answer (q & Hq & _ & <-)%Hasked Ht. specialize (HT _ Hq). lia.
Qed.

(** A finished check the gate sees is one of a later request, or is early. *)
Lemma visible_answer bound m1 T v id q r :
  after_commit bound m1 T v -> v.(v_gate).(g_requests) !! id = Some q -> T < q.(q_now) ->
  visible v.(v_kv) id q (Answered r) ->
  check_answer m1 (selectors q.(q_claims)) q.(q_claims) q.(q_now) r (state v).
Proof.
  intros [(_ & _ & Hk) _ He _] Hq HT (n & Hin). rewrite list.Forall_forall in Hk.
  apply (Hk _ Hin (state v)); [done|]. cbn.
  destruct (Nat.le_gt_cases bound id) as [|Hlt]; [done|]. specialize (He _ _ Hq Hlt). lia.
Qed.

Lemma answers_recorded v v' claims t answer :
  verifier_step v v' -> (claims, t, answer) ∈ v'.(v_gate).(g_answers) ->
  (claims, t, answer) ∈ v.(v_gate).(g_answers)
  \/ exists id q, v.(v_gate).(g_requests) !! id = Some q /\ q.(q_claims) = claims
       /\ q.(q_now) = t /\ visible v.(v_kv) id q (Answered (Ok answer)).
Proof.
  destruct 1 as [c c' g Hc|c g claims0 now|c g id q Hq|n c g id q g' Hq Ha Hs
                |c g id q a g' Hq Ha Hv Hs]; cbn; intros Hin; try by left.
  all: destruct (authorize_step_moves _ _ _ _ _ Hs) as (p & _ & Hans); rewrite Hans in Hin;
    apply list.elem_of_app in Hin as [Hin|Hin]; [|by left]; unfold at_authority in Ha;
    destruct (q_phase q); try done; try by apply not_elem_of_nil in Hin.
  apply decided_elem in Hin as (-> & -> & ->). right. by exists id, q.
Qed.

Lemma after_commit_step bound m1 T v v' :
  verifier_step v v' -> after_commit bound m1 T v -> after_commit bound m1 T v'.
Proof.
  intros Hs Hok. pose proof Hok as [Hkv Hb He Ha].
  destruct (kv_step (later bound m1) m1 _ _ Hs) as [Hkv' Hev]; [done| |done|].
  { intros id q _. apply check_request_meets. intros r m Hr _. exact Hr. }
  destruct (verifier_continues _ _ Hs) as [Hlen Hsame]. constructor; [done|lia|..].
  - intros id q' Hq' Hid. destruct (Hsame _ _ Hq') as (q & Hq & _ & ->); [lia|].
    by eapply He.
  - intros claims t answer Hin HT. eapply (check_answer_evolves _ rule_rely); [exact Hev|].
    destruct (answers_recorded _ _ _ _ _ Hs Hin) as [Hold|(id & q & Hq & <- & <- & Hv)].
    + by eapply Ha.
    + by eapply visible_answer.
Qed.

Lemma after_commit_steps bound m1 T v v' :
  rtc verifier_step v v' -> after_commit bound m1 T v -> after_commit bound m1 T v'.
Proof. induction 1; eauto using after_commit_step. Qed.

(** Tokens of one identity are covered by the same records. *)
Lemma matches_identity r claims claims' now :
  identity_fields claims = identity_fields claims' ->
  record_matches r claims now = record_matches r claims' now.
Proof.
  intros [= Hi Ha Ho Hs Hj]. unfold record_matches. by rewrite Hi, Ha, Ho, Hs, Hj.
Qed.
Lemma selectors_identity claims claims' :
  identity_fields claims = identity_fields claims' -> selectors claims = selectors claims'.
Proof. intros [= _ _ Ho Hs Hj]. unfold selectors. by rewrite Ho, Hs, Hj. Qed.

(** An allowing answer given after the commit contradicts the ledger. *)
Lemma allowed_contradicts bound m1 T v claims t answer sel target key l record :
  after_commit bound m1 T v -> (claims, t, answer) ∈ v.(v_gate).(g_answers) ->
  (sel, target) ∈ selectors claims -> selector_storage_key sel = Ok key ->
  stored m1 key l -> stored (state v) key l -> current_record l = Some record ->
  record_matches record claims t = true -> T < t -> verdict answer = Decision_Deny.
Proof.
  intros Hac Hin Hsel Hk Hs1 Hs2 Hr Hm HT.
  destruct (ac_answers _ _ _ _ Hac _ _ _ Hin HT answer eq_refl) as [_ Hrev].
  unfold verdict. destruct (Hrev sel target key l) as [->|(l' & Hs' & _ & Hne)];
    [done|done|done|by exists record|done|].
  destruct Hne. by eapply stored_entry_inj.
Qed.

(** C1: A revocation reaches the verifier within the freshness budget: once
    the ledger of a token's id or subject is stored with a current record,
    at a moment when no request of the gate carries an instant after [T], no
    request of this token is answered [Allowed] with an instant more than
    the budget after [T], as long as that ledger stands and the record is in
    force.  This holds whatever the cache already held, whichever checks were
    in flight, with any other traffic against the service, and with requests
    dropped, checks that time out and service calls that fail, unless
    SHA-256 collides. *)
Theorem revocation_enforced_within_budget v0 v1 v2 budget cap T sel target key l record id q :
  starts v0 budget cap -> rtc verifier_step v0 v1 -> rtc verifier_step v1 v2 ->
  (forall q', q' ∈ v1.(v_gate).(g_requests) -> q'.(q_now) <= T) ->
  (sel, target) ∈ selectors q.(q_claims) -> selector_storage_key sel = Ok key ->
  stored (state v1) key l -> stored (state v2) key l ->
  current_record l = Some record -> record_matches record q.(q_claims) q.(q_now) = true ->
  record.(r_created_at) <= T ->
  v2.(v_gate).(g_requests) !! id = Some q -> q.(q_phase) = Ph_done Allowed ->
  (forall q', q' ∈ v2.(v_gate).(g_requests) -> Forall fits (identity_fields q'.(q_claims))) ->
  q.(q_now) <= T + N.max budget 1 \/ sha256_collision.
Proof.
  intros [Hr0 Hg0] H01 H12 HT Hsel Hk Hs1 Hs2 Hcur Hm Hat Hq Hdone Hfits.
  assert (Hasked0 : asked v0.(v_gate)) by (rewrite Hg0; intros c t a Hin; by apply not_elem_of_nil in Hin).
  assert (Hasked : forall v, rtc verifier_step v0 v -> asked v.(v_gate))
    by (intros v Hv%verifier_gate_steps; by eapply gate_steps_asked).
  assert (Hac : after_commit (length v1.(v_gate).(g_requests)) (state v1) T v2).
  { eapply after_commit_steps; [done|]. eapply (after_commit_start (state v0)); [|by apply Hasked|done].
    eapply kv_before; [done|]. apply config_start_ok; [done|by apply list.Forall_true|done]. }
  assert (H02 : rtc verifier_step v0 v2) by (by etrans).
  pose proof (verifier_gate_steps _ _ H02) as Hg. rewrite Hg0 in Hg.
  destruct (ok_outcome _ _ (reached_evidence _ _ _ Hg) q Allowed) with (d := Decision_Allow)
    as (claims & t & answer & Hin & Hkey & Hv & Ht);
    [by eapply list_elem_of_lookup_2|by rewrite Hdone|done|].
  destruct (N.le_gt_cases t T) as [|Hlt]; [left; lia|].
  destruct (Hasked _ H02 _ _ _ Hin) as (q' & Hq' & <- & _).
  apply framed_digest_inj in Hkey as [Hid|]; [|by right|by apply Hfits|].
  2:{ apply Hfits. by eapply list_elem_of_lookup_2. }
  exfalso. enough (verdict answer = Decision_Deny) by congruence.
  eapply allowed_contradicts; [exact Hac|exact Hin|..]; try done.
  - by rewrite (selectors_identity _ _ Hid).
  - rewrite (matches_identity _ _ _ _ Hid). apply record_matches_iff in Hm.
    apply record_matches_iff. intuition lia.
Qed.
End verifier.
