(* ===== verification/VerifierRun.v ===== *)
(** * Concrete runs of a verifier

    A request's way through the gate with the check of its refresh run against
    the key-value service, as a function; a revocation between two requests. *)
From Stdlib Require Import Ascii String.
From S2P Require Import Prelude Text Wire Samples Json Token Kv Ledger LedgerFacts SampleCodecs.
From S2P Require Import LedgerHistory RevocationStore RevocationSafety RevocationSystem RevocationRun.
From S2P Require Import Cache Gate GateSafety Verifier.

Section alone.
Context `{Crypto, !HashIter, !ToVec RevocationAction, !Serde RevocationLedger}.
Implicit Types (g : gate) (c : config (S:=memory) (A:=option checked) (W:=mapkv)).
Notation joint c g := {| v_kv := c; v_gate := g |}.

(** Request [id] up to the point where its next step asks the authority, or
    to its end. *)
Definition waits g (id : nat) : bool :=
  match g.(g_requests) !! id with
  | Some q => at_authority q
  | None => false
  end.
Fixpoint coast (fuel : nat) g (id : nat) : gate :=
  match fuel with
  | O => g
  | S fuel =>
      match g.(g_requests) !! id with
      | Some q =>
          match authorize_step g id q Elapsed with
          | Some g' => if at_authority q || waits g' id then g else coast fuel g' id
          | None => g
          end
      | None => g
      end
  end.

Lemma awaiting_none n id g c : waits g id = false -> awaiting n id g c = c.
Proof.
  unfold waits, awaiting, at_authority. destruct (g_requests g !! id) as [q|]; [|done].
  by destruct (q_phase q).
Qed.

Lemma coast_steps fuel g id c : rtc verifier_step (joint c g) (joint c (coast fuel g id)).
Proof.
  revert g. induction fuel as [|fuel IH]; intros g; cbn [coast]; [done|].
  destruct (g_requests g !! id) as [q|] eqn:Hq; [|done].
  destruct (authorize_step g id q Elapsed) as [g'|] eqn:Hs; [|done].
  destruct (at_authority q || waits g' id) eqn:Hw; [done|]. reflect_bools.
  eapply rtc_l; [|by apply IH].
  rewrite <- (awaiting_none 0 id g' c) at 2 by done. by eapply verifier_run.
Qed.

(** One client of the service run alone, next to the requests before it. *)
Lemma alone_steps g w s rs p a w' s' :
  mapkv_wf w -> run p w s = (a, w', s') ->
  rtc verifier_step
    (joint {| cf_service := w; cf_locals := [s]; cf_requests := rs ++ [(0%nat, p)] |} g)
    (joint {| cf_service := w'; cf_locals := [s']; cf_requests := rs ++ [(0%nat, Ret a)] |} g).
Proof.
  intros Hwf Hrun. pose proof (run_steps_after traffic rs p w s a w' s' Hwf Hrun) as Hs.
  revert Hs. generalize (rs ++ [(0%nat, p)]) (rs ++ [(0%nat, Ret a)]). intros rs1 rs2 Hs.
  eapply (rtc_congruence (fun c => joint c g)); [|exact Hs].
  intros c c'. by apply verifier_traffic.
Qed.

(** The refresh of request [id]: start it, run its check, hand it the answer. *)
Definition refresh_alone_step g (id : nat) (w : mapkv) (s : memory)
  : option (gate * option checked * mapkv * memory) :=
  match g.(g_requests) !! id with
  | Some q =>
      match authorize_step g id q Elapsed with
      | Some g1 =>
          match g1.(g_requests) !! id with
          | Some q1 =>
              match run (check_request id q1) w s with
              | (Some ck, w', s') =>
                  if at_authority q1 && negb (at_authority q) then
                    (fun g2 => (g2, Some ck, w', s'))
                      <$> authorize_step g1 id q1 (Answered ck.(ck_result))
                  else None
              | _ => None
              end
          | None => None
          end
      | None => None
      end
  | None => None
  end.

Lemma check_request_run id q w (s : memory) a w' s' :
  run (check_request id q) w s = (a, w', s') ->
  exists r, a = Some {| ck_id := id; ck_claims := q.(q_claims); ck_now := q.(q_now); ck_result := r |}.
Proof.
  unfold check_request. rewrite run_pbind.
  destruct (run (check_revocation _ _ _) w s) as [[r w1] s1]. cbn. intros [= <- _ _]. by exists r.
Qed.

Lemma refresh_steps g id w s rs g2 a w' s' :
  mapkv_wf w -> refresh_alone_step g id w s = Some (g2, a, w', s') ->
  rtc verifier_step
    (joint {| cf_service := w; cf_locals := [s]; cf_requests := rs |} g)
    (joint {| cf_service := w'; cf_locals := [s']; cf_requests := rs ++ [(0%nat, Ret a)] |} g2).
Proof.
  unfold refresh_alone_step. intros Hwf Hrun.
  destruct (g_requests g !! id) as [q|] eqn:Hq; [|done].
  destruct (authorize_step g id q Elapsed) as [g1|] eqn:Hs1; [|done].
  destruct (g_requests g1 !! id) as [q1|] eqn:Hq1; [|done].
  destruct (run (check_request id q1) w s) as [[a1 w1] s1] eqn:Hck.
  destruct (check_request_run _ _ _ _ _ _ _ Hck) as [r ->]. cbn [ck_result] in Hrun.
  destruct (at_authority q1) eqn:Ha1; [|done]. destruct (at_authority q) eqn:Ha; [done|].
  destruct (authorize_step g1 id q1 (Answered r)) as [g3|] eqn:Hs2; [|done].
  injection Hrun as <- <- <- <-.
  eapply rtc_l; [by eapply (verifier_run 0 _ g id q g1)|].
  unfold awaiting. rewrite Hq1. pose proof Ha1 as Hp. unfold at_authority in Hp.
  destruct (q_phase q1); try done.
  etrans; [by apply alone_steps|]. apply rtc_once.
  eapply verifier_answer; [exact Hq1|exact Ha1| |exact Hs2].
  exists 0%nat. apply list.elem_of_app. right. apply list_elem_of_here.
Qed.

(** A request that has to ask, from its arrival to its end. *)
Lemma request_steps n m g id w s rs g2 a w' s' :
  mapkv_wf w -> refresh_alone_step (coast n g id) id w s = Some (g2, a, w', s') ->
  rtc verifier_step
    (joint {| cf_service := w; cf_locals := [s]; cf_requests := rs |} g)
    (joint {| cf_service := w'; cf_locals := [s']; cf_requests := rs ++ [(0%nat, Ret a)] |}
           (coast m g2 id)).
Proof.
  intros Hwf Hr. etrans; [by apply (coast_steps n g id)|].
  etrans; [by eapply refresh_steps|]. apply coast_steps.
Qed.
End alone.

(** ** A revocation between two requests *)

Notation verifier_config w s rs := (@Build_config memory (option checked) mapkv w [s] rs).
Notation revoke_traffic := (let! _ := serve token_revoke in Ret None).
Definition refreshed (g : gate) (id : nat) (w : mapkv) : gate * option checked :=
  match refresh_alone_step g id w ∅ with
  | Some (g', a, _, _) => (g', a)
  | None => (g, None)
  end.

(** A token is presented at 150, checked and allowed; it is revoked; it is
    presented again at 155 and at 185. *)
Definition gate_idle : gate := gate_new (new 30 8).
Definition gate_asks : gate := coast 9 (gate_admit gate_idle sample_claims 150) 0.
Definition gate_told : gate * option checked := refreshed gate_asks 0 mapkv_empty.
Definition gate_first : gate := coast 9 (fst gate_told) 0.
Definition gate_second : gate := coast 9 (gate_admit gate_first sample_claims 155) 1.
Definition gate_stale : gate := coast 9 (gate_admit gate_second sample_claims 185) 2.
Definition gate_third : gate := coast 9 (fst (refreshed gate_stale 2 world1)) 2.

Definition allowed_at (now : N) : request :=
  {| q_claims := sample_claims; q_now := now; q_phase := Ph_done Allowed |}.
Definition outcomes (g : gate) : list phase := q_phase <$> g.(g_requests).
Example revocation_reaches_the_gate :
  outcomes gate_first = [Ph_done Allowed]
  /\ outcomes gate_second = [Ph_done Allowed; Ph_done Allowed]
  /\ outcomes gate_third = [Ph_done Allowed; Ph_done Allowed; Ph_done RevokedToken].
Proof. vm_compute. split_and!; reflexivity. Qed.

Definition idle_verifier : verifier :=
  {| v_kv := verifier_config mapkv_empty ∅ []; v_gate := gate_idle |}.
Definition checked_config (s : memory) (rest : list (nat * pending)) :=
  verifier_config mapkv_empty s ((0%nat, Ret (snd gate_told)) :: rest).

(** The first request, checked and allowed. *)
Lemma first_allowed :
  rtc verifier_step idle_verifier {| v_kv := checked_config ∅ []; v_gate := gate_first |}.
Proof.
  assert (Hr : refresh_alone_step gate_asks 0 mapkv_empty ∅
               = Some (fst gate_told, snd gate_told, mapkv_empty, ∅)) by by_compute.
  eapply rtc_l; [exact (verifier_arrive (verifier_config mapkv_empty ∅ []) gate_idle sample_claims 150)|].
  exact (request_steps 9 9 _ _ _ _ [] _ _ _ _ mapkv_empty_wf Hr).
Qed.

(** The revocation, next to it. *)
Lemma then_revoked :
  exists s, rtc verifier_step {| v_kv := checked_config ∅ []; v_gate := gate_first |}
    {| v_kv := verifier_config world1 s [(0%nat, Ret (snd gate_told)); (0%nat, Ret None)];
       v_gate := gate_first |}.
Proof.
  destruct (run (serve token_revoke) mapkv_empty ∅) as [[a w] s] eqn:Hrun.
  assert (Hw : w = world1) by (unfold world1, after; by rewrite Hrun). subst w.
  assert (Hb : run revoke_traffic mapkv_empty ∅ = (None (A:=checked), world1, s))
    by (by rewrite run_pbind, Hrun).
  assert (Ht : traffic revoke_traffic) by (left; by exists token_revoke).
  exists s. unfold checked_config.
  generalize (Ret (S:=memory) (snd gate_told)) gate_first. intros first g.
  eapply rtc_l; [exact (verifier_traffic _ _ g (config_arrive traffic mapkv_empty [∅] [(0%nat, first)]
                          0 revoke_traffic Ht))|].
  exact (alone_steps g mapkv_empty ∅ [(0%nat, first)] _ _ _ _ mapkv_empty_wf Hb).
Qed.

Lemma revocation_enforced_within_budget_witness :
  155 <= 150 + N.max 30 1 \/ sha256_collision.
Proof.
  destruct then_revoked as [s Hrev].
  set (v1 := {| v_kv := verifier_config world1 s [(0%nat, Ret (snd gate_told)); (0%nat, Ret None)];
                v_gate := gate_first |}) in *.
  set (v2 := {| v_kv := v1.(v_kv); v_gate := gate_second |}).
  assert (H12 : rtc verifier_step v1 v2).
  { eapply rtc_l; [apply (verifier_arrive _ gate_first sample_claims 155)|].
    apply (coast_steps 9 _ 1). }
  assert (Hfirst : gate_first.(g_requests) = [allowed_at 150]) by by_compute.
  assert (Hsecond : gate_second.(g_requests) = [allowed_at 150; allowed_at 155]) by by_compute.
  assert (Hclaims : Forall fits (identity_fields sample_claims))
    by (repeat constructor; by_compute).
  eapply (revocation_enforced_within_budget idle_verifier v1 v2 30 8 150
            (Selector_TokenId sample_claims.(c_org_id) sample_claims.(c_jti)) Matched_TokenId
            (token_key sample_claims) (token_ledger world1) _ 1 (allowed_at 155)).
  - split; reflexivity.
  - etrans; [exact first_allowed|exact Hrev].
  - exact H12.
  - unfold v1. cbn [v_gate]. rewrite Hfirst. intros q' ->%list_elem_of_singleton. cbn. lia.
  - apply list_elem_of_here.
  - by_compute.
  - apply token_ledger_stored.
  - apply token_ledger_stored.
  - vm_compute. reflexivity.
  - vm_compute. reflexivity.
  - cbn. lia.
  - unfold v2. cbn [v_gate]. by rewrite Hsecond.
  - reflexivity.
  - unfold v2. cbn [v_gate]. rewrite Hsecond.
    intros q' [Hq|Hq%list_elem_of_singleton]%list.elem_of_cons; subst q'; exact Hclaims.
Defined.
