(* ===== verification/Gateway.v ===== *)
(** * Services behind verified sessions

    The processes of [src/src/main.rs] and [src/src/governance_ceremony] each
    verify the bearer token of a request with [supabase::verify_session] before
    their handler touches the key-value service.  A gateway runs both sides:
    per process, the verifications over its shared key cache, and one
    key-value service with the handlers of all processes.  A handler is
    admitted with the answer its process's verification gave.  The theorem
    carries what a service guarantees without a certain kind of user over to
    the whole, unless a Supabase project vouched for such a user. *)
From Stdlib Require Import Ascii String.
From S2P Require Import Prelude Text Wire Json Kv Model Store Net ProtectedState.
From S2P Require Import SupabasePolicy Supabase SupabaseFacts SessionSafety.

Section gateway.
Context `{Crypto, !FromSlice Value, !JsonWebToken}.
Context (projects : result VerifyError (list SupabaseConfig)).
Context {S A W : Type} `{!Service W, !ServiceLaws W}.

(** A request of the service: its bearer token, what its handler learns from
    the verification, and the handler. *)
Context {R : Type} (bearer : R -> option string) (session_of : R -> VerifySession)
        (handler : R -> prog S A).
(** Other clients of the key-value service. *)
Context (others : prog S A -> Prop).

Notation process := (session_system (string * result VerifyError UserCtx)).
Record gateway := {
  gw_processes : list process;
  gw_store : config (S:=S) (A:=A) (W:=W)
}.
Notation state g := (entries g.(gw_store).(cf_service)).

Definition answer_of (verified : result VerifyError UserCtx) : option UserCtx :=
  match verified with
  | Ok user => Some user
  | Err _ => None
  end.
(** The session answer of [r] is one the process's verification gave. *)
Definition checked_by (p : process) (r : R) : Prop :=
  forall jwt, bearer r = Some jwt ->
  exists verified, IRet (jwt, verified) ∈ p.(ss_requests)
  /\ session_of r jwt = answer_of verified.

Definition take_in (c : config (S:=S) (A:=A) (W:=W)) (n : nat) (p : prog S A)
  : config (S:=S) (A:=A) (W:=W) :=
  {| cf_service := c.(cf_service); cf_locals := c.(cf_locals);
     cf_requests := c.(cf_requests) ++ [(n, p)] |}.

Inductive gateway_step : gateway -> gateway -> Prop :=
  | gateway_verify ps c i p p' :
      ps !! i = Some p -> session_step (session_client projects) p p' ->
      gateway_step {| gw_processes := ps; gw_store := c |}
                   {| gw_processes := <[i := p']> ps; gw_store := c |}
  | gateway_store ps c c' :
      config_step others c c' ->
      gateway_step {| gw_processes := ps; gw_store := c |}
                   {| gw_processes := ps; gw_store := c' |}
  | gateway_admit ps c i p r :
      ps !! i = Some p -> checked_by p r ->
      gateway_step {| gw_processes := ps; gw_store := c |}
                   {| gw_processes := ps; gw_store := take_in c i (handler r) |}.

Definition gateway_starts (g : gateway) : Prop :=
  Forall (fun p => p.(ss_cache) = ∅ /\ p.(ss_requests) = []) g.(gw_processes)
  /\ g.(gw_store).(cf_requests) = [].

(** A project vouched, to some process, for a user with the property. *)
Definition vouched (P : UserCtx -> Prop) (g : gateway) : Prop :=
  exists p jwt user ps config, p ∈ g.(gw_processes)
  /\ projects = Ok ps /\ select ps jwt = Ok config
  /\ verified jwt config user p.(ss_history) /\ P user.

(** ** The processes *)

Definition processes_ok (ps : list process) : Prop :=
  Forall (session_ok (session_post projects)) ps.

Lemma processes_step (ps : list process) i p p' :
  processes_ok ps -> ps !! i = Some p -> session_step (session_client projects) p p' ->
  processes_ok (<[i := p']> ps).
Proof.
  intros Hok Hp Hs. apply Forall_insert; [done|].
  eapply session_step_ok; [|exact Hs|exact (list.Forall_lookup_1 _ _ _ _ Hok Hp)].
  intros q h. apply session_client_iwp.
Qed.

Lemma vouched_insert P ps c i p p' :
  ps !! i = Some p -> session_step (session_client projects) p p' ->
  vouched P {| gw_processes := ps; gw_store := c |} ->
  vouched P {| gw_processes := <[i := p']> ps; gw_store := c |}.
Proof.
  intros Hp Hs (q & jwt & user & prs & config & Hq & Hprs & Hsel & Hv & HP). cbn in Hq.
  apply list_elem_of_lookup_1 in Hq as [j Hj]. destruct (decide (i = j)) as [<-|Hne].
  - assert (q = p) as -> by congruence. exists p', jwt, user, prs, config. cbn.
    split; [eapply list_elem_of_lookup_2, list_lookup_insert_eq, lookup_lt_Some, Hp|].
    split_and!; try done. by eapply verified_grows, Hv; apply session_step_history in Hs.
  - exists q, jwt, user, prs, config. split_and!; try done. cbn.
    apply (list_elem_of_lookup_2 _ j). by rewrite list_lookup_insert_ne.
Qed.

(** A handler either runs for a user a project vouched for, or for none of the
    kind. *)
Lemma checked_user (P : UserCtx -> Prop) `{!forall u, Decision (P u)} ps c i p r :
  processes_ok ps -> ps !! i = Some p -> checked_by p r ->
  vouched P {| gw_processes := ps; gw_store := c |}
  \/ forall jwt user, bearer r = Some jwt -> session_of r jwt = Some user -> ~ P user.
Proof.
  intros Hok Hp Hc. destruct (bearer r) as [jwt|] eqn:Hb; [|by right].
  destruct (Hc jwt Hb) as ([user|e] & Hin & Hans); cbn in Hans.
  2:{ right. intros jwt' user [= <-]. by rewrite Hans. }
  destruct (decide (P user)) as [HP|HP].
  2:{ right. intros jwt' user' [= <-]. rewrite Hans. by intros [= <-]. }
  left. pose proof (list.Forall_lookup_1 _ _ _ _ Hok Hp) as Hsok.
  destruct (session_ok_finished _ _ _ Hsok Hin user eq_refl) as (prs & config & Hprs & Hsel & Hv).
  exists p, jwt, user, prs, config. split_and!; try done. by eapply list_elem_of_lookup_2.
Qed.

(** ** The whole *)
Context (G : string -> option Value -> Value -> Prop) (J : S -> kv -> Prop)
        (Q : A -> kv -> Prop) (m0 : kv).
Context (J_stable : forall s m m', evolves G m m' -> J s m -> J s m').
Context (others_wp : forall m p, evolves G m0 m -> others p -> wp G J p Q m).
Context (P : UserCtx -> Prop) `{!forall u, Decision (P u)}.
(** What the service guarantees of a request without such a user. *)
Context (handler_wp : forall r m,
  (forall jwt user, bearer r = Some jwt -> session_of r jwt = Some user -> ~ P user) ->
  evolves G m0 m -> wp G J (handler r) Q m).

Definition gateway_ok (g : gateway) : Prop :=
  processes_ok g.(gw_processes) /\ (vouched P g \/ config_ok G J Q m0 g.(gw_store)).

Lemma config_admit c n p :
  config_ok G J Q m0 c -> wp G J p Q (entries c.(cf_service)) -> config_ok G J Q m0 (take_in c n p).
Proof.
  intros (He & Hl & Hr) Hp. split_and!; [done..|]. apply Forall_app. split; [done|].
  by apply Forall_singleton.
Qed.

Lemma gateway_step_ok g g' : gateway_step g g' -> gateway_ok g -> gateway_ok g'.
Proof.
  destruct 1 as [ps c i p p' Hp Hs|ps c c' Hs|ps c i p r Hp Hc]; intros [Hps Hc']; cbn in Hps.
  - split; [by eapply processes_step|]. destruct Hc' as [Hv|Hok]; [left|by right].
    by eapply vouched_insert.
  - split; [done|]. destruct Hc' as [Hv|Hok]; [by left|right].
    by eapply (config_step_ok G J others Q m0).
  - split; [done|]. destruct Hc' as [Hv|Hok]; [by left|].
    destruct (checked_user P ps c i p r Hps Hp Hc) as [Hv|Hno]; [by left|right].
    apply config_admit; [done|]. apply handler_wp; [exact Hno|]. apply Hok.
Qed.

Lemma gateway_safe g g' :
  gateway_starts g -> state g = m0 -> Forall (fun s => J s m0) g.(gw_store).(cf_locals) ->
  rtc gateway_step g g' ->
  vouched P g' \/ config_ok G J Q m0 g'.(gw_store).
Proof.
  intros [Hps Hr] Hm Hl Hs.
  assert (Hok : gateway_ok g).
  { split; [|right; by apply config_start_ok]. eapply Forall_impl; [|exact Hps].
    intros p [? ?]. by apply session_ok_start. }
  clear Hps Hr Hm Hl. revert Hok. induction Hs as [|g1 g2 g3 Hg _ IH]; intros Hok; [apply Hok|].
  apply IH. by eapply gateway_step_ok.
Qed.
End gateway.
