(* ===== verification/Accounts.v ===== *)
(** * Key management behind verified sessions

    The HTTP interface of [src/src/main.rs] composed with the session
    verification its handlers await: whose requests change an organization's
    keys, down to the keys a Supabase project serves. *)
From Stdlib Require Import Ascii String.
From S2P Require Import Prelude Text Wire Samples Json Token Kv Model Store Keys KeyFacts Net.
From S2P Require Import ProtectedState SupabasePolicy Supabase SupabaseFacts SessionSafety.
From S2P Require Import KeySafety KeySystem AuthServer AuthServerFacts AuthSystem Gateway.

(** The token [require_user] verifies. *)
Definition bearer_jwt (headers : HeaderMap) : option string :=
  jwt ← (single_header_str headers "authorization" ≫= strip_prefix "Bearer ");
  if str_is_empty jwt then None else Some jwt.

Definition http_bearer (req : http_request) : option string :=
  match req with
  | Http_create _ headers _ _ | Http_list _ headers _ | Http_revoke _ headers _ _
  | Http_rotate _ headers _ _ => bearer_jwt headers
  | Http_introspect _ _ | Http_exchange _ _ => None
  end.
Definition http_session (req : http_request) : VerifySession :=
  match req with
  | Http_create session _ _ _ | Http_list session _ _ | Http_revoke session _ _ _
  | Http_rotate session _ _ _ => session
  | Http_introspect _ _ | Http_exchange _ _ => fun _ => None
  end.

Lemma signed_in_bearer `{Session : VerifySession} headers user :
  signed_in headers user ->
  exists jwt, bearer_jwt headers = Some jwt /\ verify_session_answer jwt = Some user.
Proof.
  intros Hu%require_user_ok. revert Hu. unfold AuthServer.require_user.
  fold (bearer_jwt headers). destruct (bearer_jwt headers) as [jwt|]; [|done].
  intros Hu%ok_or_ok. by exists jwt.
Qed.

(** A request of a member carries a session that names the organization. *)
Lemma by_member_bearer org req :
  by_member org req ->
  exists jwt user, http_bearer req = Some jwt /\ http_session req jwt = Some user
  /\ org ∈ user.(u_orgs).
Proof.
  destruct req as [session headers body now_ms|session headers q|session headers id q
                  |session headers id q|headers key|mint key]; cbn; try done;
    intros (user & (jwt & Hb & Hv)%signed_in_bearer & Ho); by exists jwt, user.
Qed.

Section accounts.
Context `{Crypto, !FromSlice Value, !JsonWebToken}.
Context `{!Serde StoredKey, !SerdeLaws StoredKey, !IdsJson, !IdsJsonLaws, !CacheValues,
          !ToJson ApiKeyMeta, !ToJson Introspection}.
Context {W : Type} `{!Service W, !ServiceLaws W}.
Context (projects : result VerifyError (list SupabaseConfig)).
Context (s : AppState) (production : s.(as_keys).(ks_kv) = true).
Notation outcome := (option (bool * http_request * HttpResponse)).

Definition http_handler (req : http_request) : prog key_cache outcome :=
  let! response := handle s req in Ret (Some (false, req, response)).
Notation step :=
  (gateway_step (W:=W) projects http_bearer http_session http_handler foreign).
Notation state g := (entries g.(gw_store).(cf_service)).

(** C7: An organization's keys change only on the word of an identity project:
    in every run of the service, all replicas with their shared key caches,
    verifications and handlers interleaved, with any replies of Supabase and
    any requests, either some process saw a project vouch for a user that
    its administrator-controlled claims make a member of the organization
    (claims the JWT library accepted for that project under a key it served
    or, where the project allows it, the answer of its user endpoint), or no
    key of the organization was created, rotated or revoked and its index is
    what it was. *)
Theorem keys_change_only_for_vouched_members g g' org :
  gateway_starts g -> rtc step g g' ->
  vouched projects (fun user => org ∈ user.(u_orgs)) g'
  \/ ((forall id r, key_at (state g) id r \/ key_at (state g') id r -> r.(org_id) = org ->
         state g' !! key_path id = state g !! key_path id)
      /\ state g' !! org_index_path org = state g !! org_index_path org).
Proof.
  intros Hg Hs.
  destruct (gateway_safe projects http_bearer http_session http_handler foreign
              (key_rule_of (fun o => o <> org)) (fun _ _ => True) (fun _ _ => True) (state g))
    with (P := fun user => org ∈ user.(u_orgs)) (g := g) (g' := g') as [Hv|Hok];
    [done| |intros; apply _| |done|done|by apply list.Forall_true|done|by left|right].
  - intros m p He Hf. eapply (traffic_without_wp s production org); [exact He|by right].
  - intros req m Hno He. eapply (traffic_without_wp s production org); [exact He|]. left.
    exists req. split; [|done]. intros (jwt & user & Hb & Hu & Ho)%by_member_bearer.
    by eapply Hno.
  - apply org_untouched. apply Hok.
Qed.
End accounts.
