(* ===== verification/GatewayRun.v ===== *)
(** * Services behind verified sessions: concrete runs

    A login verified by a process, and the handler it admits, run to its end:
    the steps of a gateway, and the creation of an API key by a member. *)
From Stdlib Require Import Ascii String.
From S2P Require Import Prelude Text Wire Samples Json Token Kv Model Store Keys KeyFacts KeyRun Net.
From S2P Require Import SampleCodecs KeySafety KeySystem AuthServer AuthServerFacts AuthSystem.
From S2P Require Import AuthServerRun ProtectedState SupabasePolicy Supabase SupabaseFacts.
From S2P Require Import SessionSafety SupabaseRun Gateway Accounts.

Section alone.
Context `{Crypto, !FromSlice Value, !JsonWebToken}.
Context (projects : result VerifyError (list SupabaseConfig)).
Context {S A R : Type} (bearer : R -> option string) (session_of : R -> VerifySession)
        (handler : R -> prog S A) (others : prog S A -> Prop).
Notation process := (session_system (string * result VerifyError UserCtx)).
Notation step := (gateway_step (W:=mapkv) projects bearer session_of handler others).
Notation one p w s rs :=
  {| gw_processes := [p];
     gw_store := {| cf_service := w; cf_locals := [s]; cf_requests := rs |} |}.

Lemma verify_steps (p p' : process) w s rs :
  rtc (session_step (session_client projects)) p p' ->
  rtc step (one p w s rs) (one p' w s rs).
Proof.
  apply (rtc_congruence (fun p => one p w s rs)). intros q q' Hs.
  exact (gateway_verify projects bearer session_of handler others [q] _ 0 q q' eq_refl Hs).
Qed.

(** A request that was verified, served alone. *)
Lemma serve_steps (p : process) w s r a w' s' :
  mapkv_wf w -> checked_by bearer session_of p r -> run (handler r) w s = (a, w', s') ->
  rtc step (one p w s []) (one p w' s' [(0%nat, Ret a)]).
Proof.
  intros Hwf Hc Hrun.
  eapply rtc_l; [exact (gateway_admit projects bearer session_of handler others [p] _ 0 p r eq_refl Hc)|].
  unfold take_in. cbn [cf_service cf_locals cf_requests app].
  pose proof (run_steps others _ _ _ _ _ _ Hwf Hrun) as Hs. revert Hs.
  generalize [(0%nat, handler r)] [(0%nat, @Ret S A a)]. intros rs rs' Hs.
  eapply (rtc_congruence (fun c => {| gw_processes := [p]; gw_store := c |})); [|exact Hs].
  intros c c'. apply gateway_store.
Qed.
End alone.

(** ** A member creates a key *)
Notation verified_process := (@Build_session_system _ (string * result VerifyError UserCtx) 5
  (snd (fst login_result)) [IRet (admin_jwt, Ok admin_user)] (snd login_result)).
Definition admin_session (jwt : string) : option UserCtx :=
  if (jwt =? admin_jwt)%string then Some admin_user else None.
Definition admin_headers : HeaderMap := fun name =>
  if (name =? "authorization")%string then ["Bearer " +:+ admin_jwt]
  else if (name =? "idempotency-key")%string then ["c1"]
  else [].
Definition member_create : http_request :=
  Http_create admin_session admin_headers (body1 (Some "acme"%string) ["kv:read"%string]) 5.

Lemma member_checked : checked_by http_bearer http_session verified_process member_create.
Proof.
  assert (Hb : http_bearer member_create = Some admin_jwt) by by_compute.
  intros jwt. rewrite Hb. intros [= <-]. exists (Ok admin_user).
  split; [apply list_elem_of_here|by_compute].
Qed.

Lemma keys_change_only_for_vouched_members_witness :
  exists jwt config user,
    select two_projects jwt = Ok config /\ "acme"%string ∈ user.(u_orgs)
    /\ verified jwt config user (snd login_result).
Proof.
  destruct (run (http_handler app member_create) mapkv_empty ∅) as [[a w] s] eqn:Hrun.
  assert (Hindex : mk_entries w !! org_index_path "acme" <> None).
  { replace w with (snd (fst (run (http_handler app member_create) mapkv_empty ∅)))
      by (by rewrite Hrun).
    vm_compute. discriminate. }
  set (g' := {| gw_processes := [verified_process];
                gw_store := http_config w s [(0%nat, Ret a)] |}).
  destruct (keys_change_only_for_vouched_members (Ok two_projects) app eq_refl
              {| gw_processes := [start]; gw_store := http_config mapkv_empty ∅ [] |} g' "acme")
    as [Hv|[_ Hsame]].
  - split; [|reflexivity]. apply Forall_singleton. split; reflexivity.
  - etrans; [apply verify_steps, login_steps|].
    exact (serve_steps _ _ _ _ _ _ _ _ _ _ _ _ mapkv_empty_wf member_checked Hrun).
  - destruct Hv as (p & jwt & user & ps & config & Hp & Hps & Hsel & Hver & Ho).
    apply list_elem_of_singleton in Hp. subst p. injection Hps as <-.
    exists jwt, config, user. split; [exact Hsel|]. split; [exact Ho|exact Hver].
  - destruct Hindex. exact Hsame.
Defined.
