(* ===== verification/CeremonyService.v ===== *)
(** * The governance ceremony service behind verified sessions

    The handlers of [src/src/governance_ceremony/routes.inc.rs] composed with
    the session verification [begin_approval] awaits, on all replicas and in
    every interleaving: who can begin a ceremony, and who can move one. *)
From Stdlib Require Import Ascii String.
From S2P Require Import Prelude Text Wire Samples Json Kv Model Store Keys KeyFacts.
From S2P Require Import Net CeremonyModel ProtectedState GovernanceConfig Ceremony.
From S2P Require Import CeremonySafety CeremonySystem CeremonyRoutes.
From S2P Require Import SupabasePolicy Supabase SupabaseFacts SessionSafety Gateway.

Inductive ceremony_http :=
  | Http_begin (session : string -> option UserCtx) (proposal_id : string) (headers : HeaderMap)
      (body : BeginApprovalRequest) (now_ms : N)
  | Http_claim (id : string) (headers : HeaderMap) (body : ClaimRequest) (now_ms : N)
  | Http_complete (id : string) (headers : HeaderMap) (body : CompleteVerifiedRequest) (now_ms : N).
Inductive ceremony_reply :=
  | Reply_begin (r : Response BeginApprovalResponse)
  | Reply_claim (r : Response ClaimResponse)
  | Reply_complete (r : Response CompleteVerifiedResponse).

Definition ceremony_bearer (req : ceremony_http) : option string :=
  match req with
  | Http_begin _ _ headers _ _ => bearer_of headers
  | Http_claim _ _ _ _ | Http_complete _ _ _ _ => None
  end.
Definition ceremony_session (req : ceremony_http) : VerifySession :=
  match req with
  | Http_begin session _ _ _ _ => session
  | Http_claim _ _ _ _ | Http_complete _ _ _ _ => fun _ => None
  end.

Section service.
Context `{Crypto, !CryptoLaws, !FromSlice Value, !JsonWebToken}.
Context `{!ToVec ApprovalBinding, !ToVecLaws ApprovalBinding, !ToVec Value,
          !Serde CeremonyRecord, !SerdeLaws CeremonyRecord}.
Context {W : Type} `{!Service W, !ServiceLaws W}.
Context (projects : result VerifyError (list SupabaseConfig)).
Context (app : CeremonyAppState) (settings : GovernanceConfig)
        (enabled : app.(cs_store) = Some settings).
Notation outcome := (option (ceremony_http * ceremony_reply)).
Notation client := (prog unit outcome).
Notation no_local_claim := (fun (_ : unit) (_ : kv) => True).

Definition ceremony_handler (req : ceremony_http) : client :=
  match req with
  | Http_begin session proposal headers body now =>
      let! r := begin_approval (Session:=session) app proposal headers body now in
      Ret (Some (req, Reply_begin r))
  | Http_claim id headers body now =>
      let! r := claim_ceremony app id headers body now in Ret (Some (req, Reply_claim r))
  | Http_complete id headers body now =>
      let! r := complete_verified app id headers body now in Ret (Some (req, Reply_complete r))
  end.

(** Who may begin the ceremony of a participant of a tenant. *)
Definition participant (tenant person : string) (user : UserCtx) : Prop :=
  user.(u_aal) = Aal2 /\ tenant ∈ user.(u_orgs) /\ user.(u_user_id) = person.
#[export] Instance participant_dec tenant person user : Decision (participant tenant person user).
Proof. apply _. Defined.

Definition of_participant (tenant person : string) (binding : ApprovalBinding) : Prop :=
  binding.(b_tenant_id) = tenant /\ binding.(b_participant_id) = person.

Section rule.
Context {may_begin : ApprovalBinding -> Prop} {may_move : Prop}.
Notation rule := (ceremony_rule_of settings may_begin may_move).
Notation rule_wp := (wp rule no_local_claim).
Notation anything := (fun _ _ => True).

Lemma refused_wp {A B} (p : prog unit (Response A)) (k : Response A -> prog unit B) m :
  refused p -> (forall r, rule_wp (k r) anything m) ->
  rule_wp (pbind p k) anything m.
Proof. intros (status & code & -> & _) Hk. apply Hk. Qed.

(** A store call followed by its response. *)
Lemma store_wp {A B C} (p : prog unit A) (f : A -> B) (g : B -> C) Q m :
  rule_wp p Q m ->
  rule_wp (let! r := (let! a := p in Ret (f a)) in Ret (g r)) anything m.
Proof.
  intros Hp. do 2 apply wp_bind. eapply wp_mono; [|exact Hp]. intros a m1 _ m2 _. done.
Qed.

(** What each handler does to the store, by who calls it. *)
Lemma begin_wp session proposal headers body now m :
  (forall jwt user, bearer_of headers = Some jwt -> session jwt = Some user ->
     user.(u_aal) = Aal2 -> body.(br_org_id) ∈ user.(u_orgs) ->
     body.(br_participant_id) = user.(u_user_id) ->
     forall binding, of_participant body.(br_org_id) body.(br_participant_id) binding ->
     may_begin binding) ->
  rule_wp (ceremony_handler (Http_begin session proposal headers body now)) anything m.
Proof.
  intros Hmay. cbn [ceremony_handler].
  destruct (approval_authorized (Session:=session) app proposal headers body now)
    as [Hr|(jwt & user & key & store & Hh & _ & Hs & Haal & Horg & Hpart & _ & Hst & ->)].
  { by eapply refused_wp. }
  assert (store = settings) as -> by congruence. eapply store_wp.
  apply (wp_begin _ _ _ _ (ceremony_rule_rely _) (ceremony_rule_guarantee _)).
  intros binding Ht Hp. apply (Hmay jwt user Hh Hs Haal Horg Hpart). split; [done|congruence].
Qed.
Lemma claim_wp id headers body now m :
  (from_verifier app.(cs_config) headers -> may_move) ->
  rule_wp (ceremony_handler (Http_claim id headers body now)) anything m.
Proof.
  intros Hmay. cbn [ceremony_handler]. unfold claim_ceremony, state_store. rewrite enabled.
  destruct (require_verifier (cs_config app) headers) as [[]|e] eqn:Hv; [|done].
  eapply store_wp, (wp_claim _ _ _ _ (ceremony_rule_rely _) (ceremony_rule_guarantee _)); [|done].
  by apply Hmay, require_verifier_ok.
Qed.
Lemma complete_wp id headers body now m :
  (from_verifier app.(cs_config) headers -> may_move) ->
  rule_wp (ceremony_handler (Http_complete id headers body now)) anything m.
Proof.
  intros Hmay. cbn [ceremony_handler]. unfold complete_verified, state_store. rewrite enabled.
  destruct (require_verifier (cs_config app) headers) as [[]|e] eqn:Hv; [|done].
  eapply store_wp, (wp_complete _ _ _ _ (ceremony_rule_rely _) (ceremony_rule_guarantee _)).
  by apply Hmay, require_verifier_ok.
Qed.
End rule.

Notation step :=
  (gateway_step (W:=W) projects ceremony_bearer ceremony_session ceremony_handler foreign).
Notation state g := (entries g.(gw_store).(cf_service)).
Notation system := (config (S:=unit) (A:=outcome) (W:=W)).

(** C22: A ceremony begins only on the word of an identity project for its own
    participant: in every run of the service, all replicas with their key
    caches, verifications and handlers interleaved, with any replies of
    Supabase and any requests, either some process saw a project vouch, with
    two-factor assurance, for the participant as a member of the tenant, or
    every ceremony of that participant of that tenant was there before. *)
Theorem ceremonies_begin_only_for_participants g g' tenant person id r :
  gateway_starts g -> rtc step g g' ->
  ceremony_at settings (state g') id r -> of_participant tenant person r.(cr_binding) ->
  vouched projects (participant tenant person) g'
  \/ exists r0, ceremony_at settings (state g) id r0 /\ ceremony_le r0 r.
Proof.
  intros Hg Hs Hr Hof.
  set (others := fun binding => ~ of_participant tenant person binding).
  edestruct (gateway_safe projects ceremony_bearer ceremony_session ceremony_handler foreign
              (ceremony_rule_of settings others True) no_local_claim (fun _ _ => True) (state g))
    with (P := participant tenant person) (g := g) (g' := g') as [Hv|Hok];
    [done| |apply _| |done|done|by apply list.Forall_true|done|by left|right].
  - intros m p _ Hf. by apply ceremony_foreign_wp.
  - intros [session proposal headers body now|id' headers body now|id' headers body now] m Hno _;
      [|by apply claim_wp|by apply complete_wp].
    apply begin_wp. intros jwt user Hb Hu Haal Horg Hp binding [Ht Hq] [Ht' Hp'].
    destruct (Hno jwt user Hb Hu). split; [done|]. split; congruence.
  - eapply (begun_before settings (may_begin:=others)); [apply Hok|exact Hr|].
    intros Hn. by destruct Hn.
Qed.



End service.
