(* ===== verification/CeremonyServiceRun.v ===== *)
(** * The ceremony service behind verified sessions: concrete runs

    A participant logs in and begins a ceremony through the handler; the
    verifier claims it; others get nowhere. *)
From Stdlib Require Import Ascii String.
From S2P Require Import Prelude Text Wire Samples Json Token Kv Ledger SampleCodecs Model Store.
From S2P Require Import Keys KeyFacts KeyRun Net CeremonyModel ProtectedState ProtectedRun.
From S2P Require Import GovernanceConfig Ceremony CeremonySafety CeremonySystem CeremonyProgress.
From S2P Require Import CeremonyRun CeremonyRoutes CeremonyRoutesRun.
From S2P Require Import SupabasePolicy Supabase SupabaseFacts SessionSafety SupabaseRun Gateway GatewayRun CeremonyService.

Definition participant_headers : string -> list string := fun name =>
  if (name =? "authorization")%string then ["Bearer " +:+ admin_jwt]
  else if (name =? "idempotency-key")%string then ["idempotency-key-1"]
  else [].
Definition participant_begin : ceremony_http :=
  Http_begin admin_session "proposal-1" participant_headers
    {| br_org_id := "acme"; br_participant_id := "user-1";
       br_canonical_proposal_hash := sha256_bytes "proposal"; br_policy_id := "policy";
       br_policy_version := 3; br_policy_hash := sha256_bytes "policy";
       br_continuity_state := "active"; br_continuity_generation := 0;
       br_credential_generation := 2; br_activation_credential_id := Some "new-passkey"%string |}
    1000.
Notation handler := (ceremony_handler service).
Notation service_config w rs :=
  (@Build_config unit (option (ceremony_http * ceremony_reply)) mapkv w [tt] rs).

Lemma participant_checked : checked_by ceremony_bearer ceremony_session verified_process participant_begin.
Proof.
  assert (Hb : ceremony_bearer participant_begin = Some admin_jwt) by by_compute.
  intros jwt. rewrite Hb. intros [= <-]. exists (Ok admin_user).
  split; [apply list_elem_of_here|by_compute].
Qed.

Definition begun_world : mapkv := snd (fst (run (handler participant_begin) mapkv_empty tt)).
Definition begun_id : string :=
  match fst (fst (run (handler participant_begin) mapkv_empty tt)) with
  | Some (_, Reply_begin (Respond _ response)) => response.(ba_ceremony_id)
  | _ => ""
  end.
Definition begun_ceremony : CeremonyRecord :=
  match mk_entries begun_world !! ceremony_path begun_id ≫= fun e => from_value e.(vv_value) with
  | Some r => r
  | None => ceremony1
  end.
Lemma begun_stored : ceremony_at service.(cs_config) (mk_entries begun_world) begun_id begun_ceremony.
Proof. eexists. split_and!; vm_compute; reflexivity. Qed.

Lemma ceremonies_begin_only_for_participants_witness :
  exists jwt config user,
    select two_projects jwt = Ok config /\ participant "acme" "user-1" user
    /\ verified jwt config user (snd login_result).
Proof.
  destruct (run (handler participant_begin) mapkv_empty tt) as [[a w] []] eqn:Hrun.
  assert (Hw : w = begun_world) by (unfold begun_world; rewrite Hrun; reflexivity). subst w.
  assert (He : service.(cs_store) = Some service.(cs_config)) by by_compute.
  assert (Hof : of_participant "acme" "user-1" begun_ceremony.(cr_binding))
    by (split; by_compute).
  destruct (ceremonies_begin_only_for_participants (Ok two_projects) service service.(cs_config) He
              {| gw_processes := [start]; gw_store := service_config mapkv_empty [] |}
              {| gw_processes := [verified_process];
                 gw_store := service_config begun_world [(0%nat, Ret a)] |}
              "acme" "user-1" begun_id begun_ceremony) as [Hv|(r0 & Hr0 & _)].
  - split; [|reflexivity]. apply Forall_singleton. split; reflexivity.
  - etrans; [apply verify_steps, login_steps|].
    exact (serve_steps _ _ _ _ _ _ _ _ _ _ _ _ mapkv_empty_wf participant_checked Hrun).
  - exact begun_stored.
  - exact Hof.
  - destruct Hv as (p & jwt & user & ps & config & Hp & Hps & Hsel & Hver & Ho).
    apply list_elem_of_singleton in Hp. subst p. injection Hps as <-.
    exists jwt, config, user. split; [exact Hsel|]. split; [exact Ho|exact Hver].
  - destruct Hr0 as (e & Hn & _). exfalso. revert Hn. cbn. by rewrite lookup_empty.
Defined.



