(* ===== verification/Exchange.v ===== *)
(** * From an API key to a verified token

    The exchange handler of [src/src/main.rs] with the process-wide signer of
    [src/src/token.rs]: what a third party that knows only the published key
    set learns from a token it is shown. *)
From Stdlib Require Import Ascii String.
From S2P Require Import Prelude Text Wire Samples Json Token Kv Model Store Keys KeyFacts Net.
From S2P Require Import KeySafety KeySystem AuthServer AuthServerFacts AuthSystem Signer.

Section exchange.
Context `{CryptoLaws, !Es256, !Es256Laws, !Serde StoredKey, !SerdeLaws StoredKey, !IdsJson,
          !IdsJsonLaws, !CacheValues, !ToJson ApiKeyMeta, !ToJson Introspection}.
Context {W : Type} `{!Service W, !ServiceLaws W}.
Context (s : AppState) (production : s.(as_keys).(ks_kv) = true).
Notation system :=
  (config (S:=key_cache) (A:=option (bool * http_request * HttpResponse)) (W:=W)).
Notation state c := (entries c.(cf_service)).

(** The exchange as the server runs it: minting with its signer. *)
Definition http_exchange (signer : Signer) (now : N) (entropy : option string) (api_key : string)
  : http_request := Http_exchange (try_mint_token signer now entropy) api_key.

(** What a successful exchange proves, with the claims the token decodes to. *)
Lemma exchange_decodes var signer (c c1 : system) n late now entropy raw response :
  token_validate_config var = Ok signer ->
  first_phase s c c1 ->
  (n, Ret (Some (late, http_exchange signer now entropy raw, response))) ∈ c1.(cf_requests) ->
  response.(hr_status) = OK ->
  exists env id secret r token point bytes,
    parse_raw_key raw = Some (env, id, secret)
    /\ seen_at (state c1) id r /\ r.(revoked) = false /\ r.(Model.env) = env
    /\ verify_secret_hash r.(secret_hash) secret s.(as_keys).(ks_api_key_pepper)
         s.(as_keys).(ks_allow_legacy_sha256) = true
    /\ (exists ids, ids_at (state c1) r.(org_id) ids /\ id ∈ ids)
    /\ response.(hr_body) = Object [("token", Str token); ("token_type", Str "Bearer");
                                    ("expires_in", Num (PosInt 900))]%string
    /\ published (jwks signer) signer.(sg_kid) point /\ entropy = Some bytes
    /\ jwt_decode point token
       = Some (signer.(sg_kid),
               minted now bytes r.(org_id)
                 (List.filter (fun scope => negb (is_admin_scope scope)) r.(scopes)) 900).
Proof.
  intros Hcfg Hf Hin Hok.
  destruct (exchange_sound s production _ _ _ _ _ _ _ Hf Hin Hok)
    as (env & id & secret & r & token & Hp & Hs & Hrev & Hen & Hver & Hidx & Hmint & Hbody).
  assert (Hm : mint_token signer now entropy r.(org_id)
    (List.filter (fun scope => negb (is_admin_scope scope)) r.(scopes)) 900 = Some token)
    by (unfold mint_token; by rewrite Hmint).
  destruct (mint_token_decodes var signer _ _ _ _ _ _ Hcfg Hm)
    as (point & bytes & Hpub & Hb & Hdec & _).
  exists env, id, secret, r, token, point, bytes. by split_and!.
Qed.

(** C8: A token that was bought with a key speaks for that key only, and anyone
    can check it: when the server, started with a signer, answers an exchange
    with success, in any interleaving with other requests on any replica, the
    presented key was stored, live, of its environment and listed in its
    organization's index, the presented secret matches its hash, and the
    response carries a token that the published key set verifies offline,
    whose claims name that organization as tenant and subject, exactly the
    key's scopes without the administrative ones, the fixed issuer and
    audience, the time of the exchange and an expiry at most fifteen minutes
    later. *)
Theorem exchanged_token_speaks_for_key var signer (c c1 : system) n late now entropy raw response :
  token_validate_config var = Ok signer ->
  first_phase s c c1 ->
  (n, Ret (Some (late, http_exchange signer now entropy raw, response))) ∈ c1.(cf_requests) ->
  response.(hr_status) = OK ->
  exists env id secret r token point claims,
    parse_raw_key raw = Some (env, id, secret)
    /\ seen_at (state c1) id r /\ r.(revoked) = false /\ r.(Model.env) = env
    /\ verify_secret_hash r.(secret_hash) secret s.(as_keys).(ks_api_key_pepper)
         s.(as_keys).(ks_allow_legacy_sha256) = true
    /\ (exists ids, ids_at (state c1) r.(org_id) ids /\ id ∈ ids)
    /\ response.(hr_body) = Object [("token", Str token); ("token_type", Str "Bearer");
                                    ("expires_in", Num (PosInt 900))]%string
    /\ published (jwks signer) signer.(sg_kid) point
    /\ jwt_decode point token = Some (signer.(sg_kid), claims)
    /\ claims.(c_org_id) = r.(org_id) /\ claims.(c_sub) = r.(org_id)
    /\ claims.(c_scopes) = List.filter (fun scope => negb (is_admin_scope scope)) r.(scopes)
    /\ claims.(c_iss) = ISSUER /\ claims.(c_aud) = AUDIENCE /\ claims.(c_iat) = now
    /\ claims.(c_exp) <= now + 900.
Proof.
  intros Hcfg Hf Hin Hok.
  destruct (exchange_decodes _ _ _ _ _ _ _ _ _ _ Hcfg Hf Hin Hok)
    as (env & id & secret & r & token & point & bytes & Hp & Hs & Hrev & Hen & Hver & Hidx & Hbody
        & Hpub & _ & Hdec).
  exists env, id, secret, r, token, point. eexists.
  do 8 (split; [done|]). split; [exact Hdec|]. do 6 (split; [done|]). apply N.le_min_l.
Qed.
End exchange.
