(* ===== verification/ExchangeRun.v ===== *)
(** * The exchange on concrete inputs

    The key of the dashboard session, exchanged with the sample signer. *)
From Stdlib Require Import Ascii String.
From S2P Require Import Prelude Text Wire Samples Json Token Kv Model Store Keys KeyFacts Net.
From S2P Require Import SampleCodecs KeySafety KeySystem KeyRun AuthServer AuthServerFacts AuthSystem.
From S2P Require Import AuthServerRun Signer SignerRun Exchange.

Definition signed_exchange : http_request :=
  http_exchange sample_signer 1000 (Some "0123456789abcdef"%string) raw2.

Lemma exchanged_token_speaks_for_key_witness :
  exists token point claims,
    (fst (respond signed_exchange aw1)).(hr_body)
    = Object [("token", Str token); ("token_type", Str "Bearer");
              ("expires_in", Num (PosInt 900))]%string
    /\ published (jwks sample_signer) sample_signer.(sg_kid) point
    /\ jwt_decode point token = Some (sample_signer.(sg_kid), claims)
    /\ claims.(c_exp) <= 1000 + 900.
Proof.
  assert (Hcfg : token_validate_config signer_env = Ok sample_signer) by by_compute.
  destruct (respond_phase signed_exchange aw1 _ aw1_wf eq_refl) as [s Hs].
  assert (Hok : (fst (respond signed_exchange aw1)).(hr_status) = OK) by by_compute.
  destruct (exchanged_token_speaks_for_key app eq_refl signer_env sample_signer _ _ 0%nat false 1000
              (Some "0123456789abcdef"%string) raw2 _ Hcfg Hs (list_elem_of_here _ _) Hok)
    as (env & id & secret & r & token & point & claims & _ & _ & _ & _ & _ & _ & Hbody & Hpub
        & Hdec & _ & _ & _ & _ & _ & _ & Hexp).
  exists token, point, claims. split; [exact Hbody|]. split; [exact Hpub|]. split; [exact Hdec|exact Hexp].
Defined.
