(* ===== verification/Revocability.v ===== *)
(** * From an exchanged token to its revocation

    What the exchange of [src/src/main.rs] issues, [src/src/revocation.rs] can
    take back: the claims of [src/src/token.rs] against the contract the
    revocation service checks them with. *)
From Stdlib Require Import Ascii String.
From S2P Require Import Prelude Text Wire Samples Json Token Kv Model Store Keys KeyFacts Net.
From S2P Require Import KeySafety KeySystem AuthServer AuthServerFacts AuthSystem Signer Exchange.
From S2P Require Import Ledger LedgerFacts LedgerHistory RevocationStore RevocationSafety RevocationRun.

(** An organization id that can name the tenant of a revocation. *)
Definition plain_id (id : string) : Prop := identifier_shape 256 (trim id) = false.
#[global] Instance plain_id_dec id : Decision (plain_id id).
Proof. unfold plain_id. apply _. Defined.

Lemma identifier_iff field value :
  Ledger.validate_identifier field value = Ok tt <-> plain_id value.
Proof.
  unfold Ledger.validate_identifier, plain_id, identifier_shape. case_match; naive_solver.
Qed.
Lemma identifier_refused field value :
  ~ plain_id value -> Ledger.validate_identifier field value = Err (RE_InvalidMutation field).
Proof.
  unfold Ledger.validate_identifier, plain_id, identifier_shape. case_match; naive_solver.
Qed.

Section claims.
Context `{CryptoLaws}.

(** Sixteen bytes of entropy make a token id. *)
Lemma jti_plain bytes : String.length bytes = 16%nat -> plain_id (b64url_encode bytes).
Proof.
  intros Hlen. pose proof (b64url_length bytes) as Hb. rewrite Hlen in Hb.
  destruct (printable_clean (b64url_encode bytes)) as (Hw & Hc & Ht).
  { eapply all_bytes_impl; [apply b64url_printable|apply b64url_alphabet]. }
  unfold plain_id, identifier_shape. rewrite Ht, Hw, Hc, str_is_empty_length.
  rewrite !orb_false_iff. split; [|done]. split; [apply Nat.eqb_neq; lia|].
  unfold str_len. apply N.ltb_ge. lia.
Qed.

Context (now : N) (bytes org : string) (scopes : list string).
Context (entropy_ok : String.length bytes = 16%nat) (clock_ok : now < u64_max).
Notation claims := (minted now bytes org scopes 900).

Lemma minted_window : now < claims.(c_exp) <= now + 900.
Proof. cbn. unfold saturating_add, u64_max in *. lia. Qed.

Lemma minted_valid : plain_id org -> validate_internal_claims claims = Ok tt.
Proof.
  intros Horg. pose proof minted_window as Hw.
  unfold validate_internal_claims. cbn -[saturating_add].
  rewrite !(proj2 (identifier_iff _ _)) by (done || by apply jti_plain). cbn [rbind].
  cbn -[saturating_add] in Hw. unfold MAX_ACCESS_TOKEN_TTL_SECS.
  destruct (N.leb_spec (saturating_add now 900) now); [lia|].
  destruct (N.ltb_spec (15 * 60) (saturating_add now 900 - now)); [lia|done].
Qed.

Lemma minted_refused :
  ~ plain_id org -> validate_internal_claims claims = Err (RE_InvalidMutation "tenant_id").
Proof. intros Horg. unfold validate_internal_claims. cbn. by rewrite identifier_refused. Qed.

(** The same text passes both validators. *)
Lemma audit_text_carries f1 f2 value n :
  Ledger.validate_audit_text f1 value n = Ok tt -> token_validate_audit_text f2 (trim value) n = Ok tt.
Proof.
  rewrite token_validate_audit_text_trim.
  unfold Ledger.validate_audit_text, token_validate_audit_text. by intros [-> _]%reject_ok.
Qed.

(** A revocation of the token at any time of its life, under an actor and a
    reason the service records. *)
Lemma minted_revocable reason mutation at_ :
  plain_id org -> validate_mutation mutation = Ok tt ->
  Ledger.validate_audit_text "reason" reason 256 = Ok tt -> now <= at_ < claims.(c_exp) ->
  exists record, request_record (Revoke_TokenId claims reason) mutation.(mi_actor) at_ = Ok record.
Proof.
  intros Horg Hmut Hreason Hat. pose proof minted_window as Hw.
  cbn [request_record]. rewrite minted_valid by done. cbn [rbind].
  apply rbind_ok in Hmut as ([] & Hactor & _).
  eexists. unfold for_token, record_validate. cbn -[saturating_add] in Hat, Hw |- *.
  destruct (N.ltb_spec at_ now); [lia|].
  destruct (N.leb_spec (saturating_add now 900) at_); [lia|]. cbn -[saturating_add].
  rewrite !(proj2 (token_validate_identifier_ok _ _ tt)) by (done || by apply jti_plain).
  rewrite (audit_text_carries _ "reason" _ _ Hreason), (audit_text_carries _ "actor" _ _ Hactor).
  cbn [rbind]. unfold MAX_INTERNAL_REVOCATION_TTL_SECS.
  destruct (N.ltb_spec (24 * 60 * 60) (saturating_add now 900 - at_)); [lia|]. reflexivity.
Qed.
End claims.

Section revocable.
Context `{CryptoLaws, !Es256, !Es256Laws, !Serde StoredKey, !SerdeLaws StoredKey, !IdsJson,
          !IdsJsonLaws, !CacheValues, !ToJson ApiKeyMeta, !ToJson Introspection}.
Context `{!ToVec RevocationAction, !Serde RevocationLedger, !SerdeLaws RevocationLedger}.
Context {W : Type} `{!Service W, !ServiceLaws W}.
Context (s : AppState) (production : s.(as_keys).(ks_kv) = true).
Notation system :=
  (config (S:=key_cache) (A:=option (bool * http_request * HttpResponse)) (W:=W)).
Notation state c := (entries c.(cf_service)).
Notation store := {| rs_kv := true |}.

(** C25: Whatever is exchanged can be taken back, up to the shape of its
    organization's id: when an exchange answers with success, with sixteen
    bytes of entropy, the token decodes to claims of the key's organization;
    and if that organization's id is a plain identifier, then at every moment
    of the token's life an operator's revocation of exactly these claims,
    under an actor, a key and a reason the service accepts,
    commits on a service that has no history of them, with generation 1, and
    every check of the token until it expires says revoked in every state of
    the service in which that history is as the revocation left it, whatever
    was written elsewhere.  If it is not (empty after trimming, longer than
    256 bytes, or with a blank or a control character inside), every check and
    every revocation of the token is refused as malformed, whatever the
    service holds. *)
Theorem exchanged_token_revocable var signer (c c1 : system) n late now bytes raw response :
  token_validate_config var = Ok signer ->
  first_phase s c c1 ->
  (n, Ret (Some (late, http_exchange signer now (Some bytes) raw, response))) ∈ c1.(cf_requests) ->
  response.(hr_status) = OK -> String.length bytes = 16%nat -> now < u64_max ->
  exists env id secret r token point,
    let claims := minted now bytes r.(org_id)
                    (List.filter (fun scope => negb (is_admin_scope scope)) r.(scopes)) 900 in
    parse_raw_key raw = Some (env, id, secret) /\ seen_at (state c1) id r /\ r.(revoked) = false
    /\ response.(hr_body) = Object [("token", Str token); ("token_type", Str "Bearer");
                                    ("expires_in", Num (PosInt 900))]%string
    /\ jwt_decode point token = Some (signer.(sg_kid), claims)
    /\ now < claims.(c_exp) <= now + 900
    /\ (plain_id r.(org_id) -> forall reason mutation at_ w m,
          validate_mutation mutation = Ok tt ->
          Ledger.validate_audit_text "reason" reason 256 = Ok tt -> now <= at_ < claims.(c_exp) ->
          (forall record, request_record (Revoke_TokenId claims reason) mutation.(mi_actor) at_ = Ok record ->
             is_Some (to_vec (Action_Revoke record))) ->
          (forall l, is_Some (to_value (A:=RevocationLedger) l)) ->
          mk_entries w !! token_key claims = None ->
          exists w', run (RevocationStore.revoke store (Revoke_TokenId claims reason) mutation at_) w m
                     = (Ok {| sn_storage_key := token_key claims; sn_generation := 1;
                              sn_status := Active; sn_expires_at := Some claims.(c_exp) |}, w', m)
          /\ forall w2 m2 now',
               mk_entries w2 !! token_key claims = mk_entries w' !! token_key claims ->
               at_ <= now' < claims.(c_exp) ->
               run (check store claims now') w2 m2
               = (Ok {| dc_revoked := true; dc_matched_target := Some Matched_TokenId;
                        dc_generation := Some 1; dc_expires_at := Some claims.(c_exp) |}, w2, m2))
    /\ (~ plain_id r.(org_id) -> forall reason mutation at_ w m,
          run (check store claims at_) w m = (Err (RE_InvalidMutation "tenant_id"), w, m)
          /\ (validate_mutation mutation = Ok tt ->
               run (RevocationStore.revoke store (Revoke_TokenId claims reason) mutation at_) w m
               = (Err (RE_InvalidMutation "tenant_id"), w, m))).
Proof.
  intros Hcfg Hf Hin Hok Hlen Hclock.
  destruct (exchange_decodes s production _ _ _ _ _ _ _ _ _ _ Hcfg Hf Hin Hok)
    as (env & id & secret & r & token & point & bytes' & Hp & Hs & Hrev & _ & _ & _ & Hbody
        & _ & [= <-] & Hdec).
  exists env, id, secret, r, token, point. split; [done|]. split; [done|]. split; [done|].
  split; [done|]. split; [exact Hdec|].
  split; [by apply minted_window|]. split.
  - intros Horg reason mutation at_ w m Hmut Hreason Hat Hvec Hval Hnone.
    destruct (minted_revocable now bytes _ (List.filter (fun scope => negb (is_admin_scope scope))
      r.(scopes)) Hlen Hclock reason mutation at_ Horg Hmut Hreason Hat) as [record Hr].
    apply (revoke_takes_effect _ _ _ _ record); [done|done|by apply Hvec|done|done].
  - intros Horg reason mutation at_ w m. split.
    + unfold check. by rewrite run_pure_q, minted_refused.
    + intros Hmut. unfold RevocationStore.revoke. rewrite run_pure_q, Hmut. cbn [request_selector].
      rewrite run_pure_q. unfold selector_storage_key. cbn [selector_tenant_id minted c_org_id].
      by rewrite identifier_refused.
Qed.
End revocable.
