(* ===== verification/RevocabilityRun.v ===== *)
(** * The revocation of an exchanged token, on concrete inputs

    The token of [ExchangeRun.v] taken back, and an organization whose tokens
    cannot be. *)
From Stdlib Require Import Ascii String.
From S2P Require Import Prelude Text Wire Samples Json Token Kv Model Store Keys KeyFacts Net.
From S2P Require Import SampleCodecs KeySafety KeySystem KeyRun AuthServer AuthServerFacts AuthSystem.
From S2P Require Import AuthServerRun SupabasePolicy Supabase Signer SignerRun Exchange ExchangeRun.
From S2P Require Import Ledger LedgerFacts LedgerHistory RevocationStore RevocationSafety RevocationRun.
From S2P Require Import Revocability.

(** The key the exchange was paid with, and the claims it bought. *)
Lemma exchanged_key id r :
  id = key2.(key_id) -> seen_at (mk_entries (snd (respond signed_exchange aw1))) id r ->
  r.(org_id) = key2.(org_id) /\ r.(scopes) = key2.(scopes).
Proof.
  intros -> (r' & Hr' & Hle).
  assert (Hk : key_at (mk_entries (snd (respond signed_exchange aw1))) key2.(key_id) key2)
    by (unfold key_at; eexists; split; vm_compute; reflexivity).
  rewrite <- (key_at_inj _ _ _ _ Hk Hr') in Hle.
  destruct Hle as [->|(_ & Hid & _)]; [done|]. destruct Hid as (_ & Ho & _ & Hs & _).
  split; [exact (eq_sym Ho)|exact (eq_sym Hs)].
Qed.
Definition bought : Claims :=
  minted 1000 "0123456789abcdef" "org"
    (List.filter (fun scope => negb (is_admin_scope scope)) key2.(scopes)) 900.

Lemma exchanged_token_revocable_witness :
  exists point token w',
    jwt_decode point token = Some (sample_signer.(sg_kid), bought)
    /\ run (RevocationStore.revoke {| rs_kv := true |} (Revoke_TokenId bought "leaked") (ops "k-9") 1100)
         mapkv_empty ∅
       = (Ok {| sn_storage_key := token_key bought; sn_generation := 1;
                sn_status := Active; sn_expires_at := Some 1900 |}, w', ∅)
    /\ (forall now', 1100 <= now' < 1900 ->
          exists d, run (check {| rs_kv := true |} bought now')
                      (written w' "feature-flags/canary" Null) ∅
                    = (Ok d, written w' "feature-flags/canary" Null, ∅)
                    /\ d.(dc_revoked) = true).
Proof.
  assert (Hcfg : token_validate_config signer_env = Ok sample_signer) by by_compute.
  destruct (respond_phase signed_exchange aw1 _ aw1_wf eq_refl) as [s Hs].
  assert (Hok : (fst (respond signed_exchange aw1)).(hr_status) = OK) by by_compute.
  destruct (exchanged_token_revocable app eq_refl signer_env sample_signer _ _ 0%nat false 1000
              "0123456789abcdef"%string raw2 _ Hcfg Hs (list_elem_of_here _ _) Hok eq_refl)
    as (env & id & secret & r & token & point & Hp & Hseen & _ & _ & Hdec & _
        & Hplain & _); [by_compute|].
  destruct raw2_parses as [secret' Hp']. rewrite Hp' in Hp. injection Hp as _ Hid _.
  destruct (exchanged_key id r (eq_sym Hid) Hseen) as [Ho Hsc].
  rewrite Ho, Hsc in Hdec. rewrite Ho, Hsc in Hplain. exists point, token.
  destruct (Hplain ltac:(by_compute) "leaked"%string (ops "k-9") 1100 mapkv_empty ∅)
    as (w' & Hrevoke & Hcheck); [by_compute|by_compute|by_compute| |by intros l; eexists|by_compute|].
  { intros record Hr. assert (Hrec : exists rec,
      request_record (Revoke_TokenId bought "leaked") "ops" 1100 = Ok rec
      /\ is_Some (to_vec (Action_Revoke rec))) by (eexists; split; [vm_compute; reflexivity|by_compute]).
    destruct Hrec as (rec & Hrec & Hv). pose proof (eq_trans (eq_sym Hrec) Hr) as Heq.
    injection Heq as <-. exact Hv. }
  exists w'. split; [exact Hdec|]. split; [exact Hrevoke|].
  intros now' Hnow.
  assert (Hkept : mk_entries (written w' "feature-flags/canary" Null) !! token_key bought
                  = mk_entries w' !! token_key bought)
    by (apply lookup_insert_ne; by_compute).
  eexists. split; [exact (Hcheck _ _ now' Hkept Hnow)|reflexivity].
Defined.

(** An organization id with a blank inside is one the metadata of a session
    can name, and none a revocation can. *)
Example blank_inside :
  orgs_from_metadata [Some (Object [("org_id", Str " acme corp ")]%string)] = ["acme corp"%string]
  /\ ~ plain_id "acme corp".
Proof. split; [reflexivity|by_compute]. Qed.
